(* ===== verification/_CoqProject ===== *)
-Q . S2P
Prelude.v
Machine.v
Random.v
Spinlock.v
Proc.v
Sched.v
Mem.v
Str.v
Ulib.v
Umalloc.v
UmallocThm.v
Kalloc.v
Vm.v
Pagetable.v
Uvm.v
Uvmfree.v
Copy.v
VmThm.v
KvmThm.v
Sleeplock.v
Bio.v
BioThm.v
Blk.v
Log.v
LogRun.v
LogThm.v
LogTxn.v
UserMem.v
Ring.v
Fs.v
Uart.v
Console.v
ConsoleThm.v
Virtio.v
VirtioRun.v
VirtioThm.v
Pipe.v
PipeThm.v
File.v
FileThm.v
ForkMem.v
Life.v
LifeThm.v
ForkThm.v
Fd.v
Syscall.v
Exec.v
Sysfile.v
FdThm.v
Mkfs.v
MkfsThm.v
Trap.v
TrapThm.v
Boot.v
BootThm.v
User.v
Grep.v
Uprintf.v
Utils.v
Sh.v
ShThm.v
Shrun.v
Progs.v
