(* ===== verification/Prelude.v ===== *)
(** * A verification of the xv6 kernel and user programs with a lottery scheduler

    The program is xv6 for RISC-V (a small Unix kernel with its user programs),
    extended with a lottery scheduler ([proc.c], [random.c], [settickets] and
    [setsched]). All of its sources are in one directory, [src/].

    ** How the program is modelled

    C functions are Rocq functions. A pure one is a [Definition] or [Fixpoint];
    one with effects is a computation of the monad [M E S] of this file: it
    takes the state [S] of its component and returns a value and a new state
    ([Done]), panics with the message of the code ([Panic]), goes to sleep on a
    channel while it holds its spin lock ([Asleep]), or runs out of the fuel of
    a loop ([Spin]); [E] are the events it shows to the outside (wakeups, disk
    writes, console output). Machine integers are [Z] with the wrap-around
    written out ([u32], [i32], [u64], ...). Memory is a map from addresses to
    bytes; structures that the code keeps in memory (page tables, the free
    list, on-disk blocks) are bytes in it, not abstract values.

    A routine that can sleep is cut at the sleep: one definition runs to it,
    another from it, and the interleavings of processes and harts are step
    relations over those pieces. A spin lock that a component takes around its
    state is a flag of the state ([Locked]): [acquire] and [release] panic as
    [spinlock.c] does. That this is right is what [Spinlock] shows.

    ** The files

    - [Prelude]: integers, the monad, loops, locks, generic lemmas; the tactics
      [mrun] (runs a computation) and [mach_lia] (division and remainder).
    - [Machine]: the constants and address arithmetic of [param.h], [riscv.h]
      and [memlayout.h]. [Mem]: bytes, little-endian integers. [Blk]: integers
      inside disk blocks.
    - [Random] ([random.c]), [Spinlock] ([spinlock.c]), [Sleeplock]
      ([sleeplock.c]), [Proc] (the table routines of [proc.c]), [Sched]
      ([scheduler]).
    - [Str] ([string.c]), [Kalloc] ([kalloc.c]), [Vm] ([vm.c]); [Pagetable],
      [Uvm], [Uvmfree], [Copy], [VmThm] prove what they do.
    - [Bio] ([bio.c]) with [BioThm]; [Log] ([log.c]) with [LogRun], [LogThm],
      [LogTxn]; [Fs] ([fs.c]).
    - [UserMem]: the class through which pipes, files and the console reach
      user memory, with its instance from [Vm]; [Pipe] ([pipe.c]) with
      [PipeThm]; [File] ([file.c]) with [FileThm].
    - [Life] ([allocproc], [fork], [exit], [wait], ... of [proc.c] over table,
      memory, files and file system together) with [ForkMem], [LifeThm],
      [ForkThm].
    - [Ring]: ring buffers with free-running counters. [Uart] ([uart.c]),
      [Console] ([console.c]) with [ConsoleThm], [Virtio] ([virtio_disk.c]) with
      [VirtioRun] and [VirtioThm]. The serial port and the disk are parameters:
      classes whose laws are what their manuals say.
    - [KvmThm]: the page table [kvmmake] builds.
    - [Syscall] ([syscall.c], [sysproc.c]), [Exec] ([exec.c]), [Sysfile]
      ([sysfile.c] and the table of system calls), with [FdThm].
    - [Trap] ([trap.c], [plic.c], [forkret]) with [TrapThm]: the kernel, its
      control registers and its devices together. [Boot] ([start.c], [main.c])
      with [BootThm].
    - [Mkfs] ([mkfs.c]) with [MkfsThm].
    - [Umalloc] ([umalloc.c]) with [UmallocThm].
    - [Progs]: [init.c], [ls.c] and the small test programs, as trees of the
      system calls they make.
    - User programs: [Ulib] ([ulib.c]), [User] (their view of system calls),
      [Grep] ([grep.c]), [Uprintf] ([printf.c]), [Utils] ([wc.c], [cat.c],
      [echo.c], ...), [Sh], [ShThm] and [Shrun] ([sh.c]), [Fd] (descriptor
      tables).

    ** What is proved

    - Scheduling. A lottery round runs the holder of the drawn ticket; over one
      period of the generator, which visits every 32-bit seed, passes of the
      scheduler's loop run every process in proportion to its tickets, as long
      as processes come back runnable and tickets fit an [int]; a round-robin
      pass runs every runnable process once. What processes do between the
      switches is a parameter, with the timer preemption as instance.
      Ticket sums overflow: two theorems show the starvation and the livelock
      that follow.
    - Locks. Mutual exclusion of spin locks over all interleavings of the
      memory operations, nesting of interrupt disabling, and sleep locks without
      lost wakeups.
    - Memory. The page allocator never hands out a page twice; page tables
      translate what was mapped; address spaces grow, are cloned and torn down
      without a leak; the copies to and from user memory touch only the pages
      the user may access.
    - Processes. [fork] gives the child a copy of everything it should, or
      leaves no trace.
    - Storage. The buffer cache refines an atomic map of blocks and evicts in
      least-recently-used order; transactions of the log are atomic under
      crashes at any disk write, during recovery too.
    - Files and pipes. Reference counts are exact, pipes are FIFO queues that do
      not leak; a byte is lost only to a reader that cannot store it, and a
      reader sleeps over bytes only after a writer was killed in mid-turn.
    - Devices. The console is a line editor on lists whatever the timing; the
      serial port sends what it accepted in order; the disk driver, with a
      device that completes requests in any order and honours the flags of the
      descriptors, is a disk with atomic transfers of blocks.
    - System calls. Whatever calls processes make, descriptors refer to live
      files and files count their descriptors.
    - Traps and boot. A timer interrupt and a system call come back to the
      program as they must; [main] brings the machine to the scheduler with
      [init] runnable and the intended kernel page table.
    - [mkfs] makes a file system that contains exactly the given files.
    - The user allocator hands out disjoint blocks, loses no memory and joins
      what is freed, for requests of up to 2147483600 bytes.
    - User programs. The pattern matcher of [grep] against the language of
      patterns, [printf] against its format, [wc], and the shell: its parser
      against a grammar, and its execution against a wiring of descriptors.

    ** Bounds and fuel

    Loops bounded by the code (over [NPROC], [NOFILE], [NBUF], ...) are
    [for_upto] and [for_find]. Loops over addresses take fuel computed from the
    range (the number of pages or bytes), and the theorems state that the run
    returns [Done]: the fuel is enough. The parser of the shell takes fuel
    proportional to the line and [sh_parsecmd_terminates] shows it suffices. The
    stack of the kernel, compiler and hardware are not modelled; arithmetic is.

    ** Not modelled

    Assembly ([entry.S], [swtch.S], [trampoline.S], [kernelvec.S]) has no model;
    [swtch] appears as the two halves of a context switch, and the addresses of
    the entry points are parameters. The kernel's [printf] is not in the
    sources: its calls are events that carry the format. A device acts between
    the critical sections of its driver, not inside them. [usertests.c] and
    [grind.c] exercise the system and are not part of it. The system calls of
    user programs are parameters of their models (results are given), not
    connected to the kernel's.
*)
From Stdlib Require Import ZArith Lia.
From stdpp Require Import base list gmap strings.

#[global] Open Scope Z_scope.

(** ** Machine integers

    A w-bit integer of the source is a [Z] kept in range by the wrapping
    function of its C type. [int] arithmetic wraps too: the compiled kernel
    uses [addw]/[mulw] (see [kernel.asm]). *)

Definition u8 (x : Z) : Z := x mod 256.
Definition u16 (x : Z) : Z := x mod 65536.
Definition u32 (x : Z) : Z := x mod 4294967296.
Definition u64 (x : Z) : Z := x mod 18446744073709551616.
Definition i32 (x : Z) : Z := (x + 2147483648) mod 4294967296 - 2147483648.

Definition INT_MAX : Z := 2147483647.
Definition INT_MIN : Z := -2147483648.

Definition is_u32 (x : Z) : Prop := 0 ≤ x < 4294967296.
Definition is_u64 (x : Z) : Prop := 0 ≤ x < 18446744073709551616.
Definition is_i32 (x : Z) : Prop := INT_MIN ≤ x ≤ INT_MAX.

(** C truth values. *)
Definition b2z (b : bool) : Z := if b then 1 else 0.

(** ** Kernel objects as addresses

    [sleep] and [wakeup] identify what a process waits for by the address of
    a kernel object; distinct objects have distinct addresses. *)
Inductive addr : Type :=
| A_null
| A_proc (i : nat)
| A_ticks
| A_log
| A_pipe_nread (pi : Z)
| A_pipe_nwrite (pi : Z)
| A_cons_r
| A_uart_tx_r
| A_disk_free
| A_buf (i : nat)
| A_bufsleeplock (i : nat)
| A_inodesleeplock (i : nat).

#[export] Instance addr_eq_dec : EqDecision addr.
Proof. solve_decision. Defined.

Definition addr_code (a : addr) : nat * (nat * Z) :=
  match a with
  | A_null => (0, (0, 0%Z)) | A_proc i => (1, (i, 0%Z)) | A_ticks => (2, (0, 0%Z)) | A_log => (3, (0, 0%Z))
  | A_pipe_nread p => (4, (0, p)) | A_pipe_nwrite p => (5, (0, p)) | A_cons_r => (6, (0, 0%Z))
  | A_uart_tx_r => (7, (0, 0%Z)) | A_disk_free => (8, (0, 0%Z)) | A_buf i => (9, (i, 0%Z))
  | A_bufsleeplock i => (10, (i, 0%Z)) | A_inodesleeplock i => (11, (i, 0%Z))
  end%nat.
Definition addr_decode (c : nat * (nat * Z)) : option addr :=
  match c with
  | (0, _) => Some A_null | (1, (i, _)) => Some (A_proc i) | (2, _) => Some A_ticks
  | (3, _) => Some A_log | (4, (_, p)) => Some (A_pipe_nread p) | (5, (_, p)) => Some (A_pipe_nwrite p)
  | (6, _) => Some A_cons_r | (7, _) => Some A_uart_tx_r | (8, _) => Some A_disk_free
  | (9, (i, _)) => Some (A_buf i) | (10, (i, _)) => Some (A_bufsleeplock i)
  | (11, (i, _)) => Some (A_inodesleeplock i) | _ => None
  end%nat.
#[export] Instance addr_countable : Countable addr.
Proof. apply (inj_countable addr_code addr_decode). by intros []. Defined.

(** What a component's routine does that others see: the [wakeup] calls it
    makes, the disk writes, in order, the characters it sends to the console,
    and its calls of the kernel's [printf] (which is not in the sources), by
    their formats. *)
Inductive event : Type :=
| Wakeup (c : addr)
| DiskWrite (bno : Z) (data : list Z)
| Putc (c : Z)
| Printf (msg : string).
#[export] Instance event_eq_dec : EqDecision event.
Proof. solve_decision. Defined.

(** ** The kernel monad

    A kernel routine runs on a component state [S], emits a trace of
    observable events [E] (wakeups, device writes, disk writes), and ends in
    one of four ways: it returns, it calls [panic], it gives up the CPU
    inside [sleep], or it spins forever. *)
Inductive outcome (E S A : Type) : Type :=
| Done (a : A) (s : S) (t : list E)
| Panic (msg : string) (s : S) (t : list E)
| Asleep (c : addr) (s : S) (t : list E)
| Spin (s : S) (t : list E).
Arguments Done {E S A} a s t.
Arguments Panic {E S A} msg s t.
Arguments Asleep {E S A} c s t.
Arguments Spin {E S A} s t.

Definition M (E S A : Type) : Type := S → outcome E S A.

(** Prefix a trace to an outcome. *)
Definition pre {E S A} (t : list E) (o : outcome E S A) : outcome E S A :=
  match o with
  | Done a s t' => Done a s (t ++ t')
  | Panic m s t' => Panic m s (t ++ t')
  | Asleep c s t' => Asleep c s (t ++ t')
  | Spin s t' => Spin s (t ++ t')
  end.

Definition ret {E S A} (a : A) : M E S A := λ s, Done a s [].

Definition bind {E S A B} (m : M E S A) (k : A → M E S B) : M E S B := λ s,
  match m s with
  | Done a s' t => pre t (k a s')
  | Panic msg s' t => Panic msg s' t
  | Asleep c s' t => Asleep c s' t
  | Spin s' t => Spin s' t
  end.

Definition panic {E S A} (msg : string) : M E S A := λ s, Panic msg s [].
Definition gets {E S A} (f : S → A) : M E S A := λ s, Done (f s) s [].
Definition modify {E S} (f : S → S) : M E S unit := λ s, Done tt (f s) [].
Definition emit {E S} (e : E) : M E S unit := λ s, Done tt s [e].

Declare Scope kernel_scope.
Delimit Scope kernel_scope with K.
Notation "'let!' x := m 'in' k" := (bind m (λ x, k))
  (at level 10, x pattern, m at level 100, k at level 200) : kernel_scope.
Notation "m ';;' k" := (bind m (λ _, k))
  (at level 100, k at level 200, right associativity) : kernel_scope.
#[global] Open Scope kernel_scope.

(** [for(i = 0; i < n; i++) body i], [i] being the argument. *)
Fixpoint for_from {E S} (n : nat) (i : nat) (body : nat → M E S unit) : M E S unit :=
  match n with
  | O => ret tt
  | Datatypes.S n' => body i ;; for_from n' (Datatypes.S i) body
  end.
Definition for_upto {E S} (n : nat) (body : nat → M E S unit) : M E S unit := for_from n 0 body.

(** A [for] loop whose body may [return] ([Some]). *)
Fixpoint for_find_from {E S A} (n : nat) (i : nat) (body : nat → M E S (option A)) : M E S (option A) :=
  match n with
  | O => ret None
  | Datatypes.S n' =>
      let! r := body i in
      match r with Some a => ret (Some a) | None => for_find_from n' (Datatypes.S i) body end
  end.
Definition for_find {E S A} (n : nat) (body : nat → M E S (option A)) : M E S (option A) :=
  for_find_from n 0 body.

(** A spinlock-protected component: whether its lock is held by the running
    CPU. [acquire] panics on a lock already held by this CPU and [release] on
    one that is not, as [spinlock.c] does. *)
Class Locked (S : Type) := {
  held : S → bool;
  set_held : bool → S → S;
  held_set : ∀ b s, held (set_held b s) = b;
  set_set : ∀ b b' s, set_held b (set_held b' s) = set_held b s;
  set_same : ∀ s, set_held (held s) s = s
}.

Definition acquire {E S} `{Locked S} : M E S unit := λ s,
  if held s then Panic "acquire" s [] else Done tt (set_held true s) [].
Definition release {E S} `{Locked S} : M E S unit := λ s,
  if held s then Done tt (set_held false s) [] else Panic "release" s [].

(** [sleep(c, lk)] gives up the lock and the CPU. *)
Definition sleep_on {E S A} `{Locked S} (c : addr) : M E S A := λ s,
  if held s then Asleep c (set_held false s) [] else Panic "release" s [].

(** Run a routine of a component on the part of a larger state that holds it. *)
Definition lift {E S S' A} (get : S' → S) (put : S → S' → S') (m : M E S A) : M E S' A := λ s,
  match m (get s) with
  | Done a x t => Done a (put x s) t
  | Panic msg x t => Panic msg (put x s) t
  | Asleep c x t => Asleep c (put x s) t
  | Spin x t => Spin (put x s) t
  end.

(** The result of a run that returned. *)
Definition result {E S A} (o : outcome E S A) : option (A * S) :=
  match o with Done a s _ => Some (a, s) | _ => None end.

Definition trace {E S A} (o : outcome E S A) : list E :=
  match o with Done _ _ t | Panic _ _ t | Asleep _ _ t | Spin _ t => t end.

(** ** Lemmas on machine integers *)

Create HintDb kernel.
Create Rewrite HintDb kernel.

Ltac wrap_unfold := unfold u8, u16, u32, u64, i32, is_u32, is_u64, is_i32, INT_MAX, INT_MIN in *.

(** Arithmetic on wrapped integers: unfold the wrappers, turn every [mod] and
    [/] into its defining equations, and decide. *)
Ltac mach_lia := wrap_unfold; Z.to_euclidean_division_equations; lia.

Lemma u32_range x : is_u32 (u32 x).
Proof. mach_lia. Qed.
Lemma u32_small x : is_u32 x → u32 x = x.
Proof. wrap_unfold. intros. by apply Z.mod_small. Qed.
Lemma u64_range x : is_u64 (u64 x).
Proof. mach_lia. Qed.
Lemma u64_small x : is_u64 x → u64 x = x.
Proof. wrap_unfold. intros. by apply Z.mod_small. Qed.
Lemma i32_range x : is_i32 (i32 x).
Proof. mach_lia. Qed.
Lemma i32_small x : is_i32 x → i32 x = x.
Proof. mach_lia. Qed.
Lemma i32_u32 x : i32 (u32 x) = i32 x.
Proof. mach_lia. Qed.
#[export] Hint Resolve u32_range u32_small u64_range u64_small i32_range i32_small : kernel.
#[export] Hint Rewrite @i32_u32 : kernel.

(** ** Lemmas on the monad *)

Lemma pre_nil {E S A} (o : outcome E S A) : pre [] o = o.
Proof. by destruct o. Qed.
Lemma pre_pre {E S A} t t' (o : outcome E S A) : pre t (pre t' o) = pre (t ++ t') o.
Proof. destruct o; simpl; by rewrite app_assoc. Qed.
#[export] Hint Rewrite @pre_nil @pre_pre @app_nil_l @app_nil_r : kernel.

Lemma bind_ret {E S A B} (a : A) (k : A → M E S B) s : bind (ret a) k s = k a s.
Proof. unfold bind, ret. by rewrite pre_nil. Qed.
Lemma bind_assoc {E S A B C} (m : M E S A) (k : A → M E S B) (k' : B → M E S C) s :
  bind (bind m k) k' s = bind m (λ a, bind (k a) k') s.
Proof.
  unfold bind. destruct (m s) as [a s' t| | |]; simpl; try done.
  destruct (k a s'); simpl; by rewrite ?pre_pre.
Qed.

Lemma bind_gets {E S A B} (f : S → A) (k : A → M E S B) s : bind (gets f) k s = k (f s) s.
Proof. unfold bind, gets. by rewrite pre_nil. Qed.
Lemma bind_modify {E S B} (f : S → S) (k : unit → M E S B) s : bind (modify f) k s = k tt (f s).
Proof. unfold bind, modify. by rewrite pre_nil. Qed.
Lemma bind_emit {E S B} (e : E) (k : unit → M E S B) s : bind (emit e) k s = pre [e] (k tt s).
Proof. done. Qed.
Lemma bind_panic {E S A B} msg (k : A → M E S B) s : bind (panic msg) k s = Panic msg s [].
Proof. done. Qed.
Lemma bind_done {E S A B} (m : M E S A) (k : A → M E S B) a s s' :
  m s = Done a s' [] → bind m k s = k a s'.
Proof. intros H. unfold bind. rewrite H. apply pre_nil. Qed.
Lemma bind_run {E S A B} (m : M E S A) (k : A → M E S B) a s s' t :
  m s = Done a s' t → bind m k s = pre t (k a s').
Proof. intros H. unfold bind. by rewrite H. Qed.
Lemma lift_done {E S S' A} get put (m : M E S A) (s : S') a x t :
  m (get s) = Done a x t → lift get put m s = Done a (put x s) t.
Proof. intros H. unfold lift. by rewrite H. Qed.
Lemma bind_lock {E S A} `{Locked S} (k : unit → M E S A) s : held s = false → bind acquire k s = k tt (set_held true s).
Proof. intros Hl. unfold bind, acquire. rewrite Hl. apply pre_nil. Qed.
Lemma bind_unlock {E S A} `{Locked S} (k : unit → M E S A) s : held s = true → bind release k s = k tt (set_held false s).
Proof. intros Hl. unfold bind, release. rewrite Hl. apply pre_nil. Qed.
Lemma bind_if {E S A B} (b : bool) (m m' : M E S A) (k : A → M E S B) s :
  bind (if b then m else m') k s = if b then bind m k s else bind m' k s.
Proof. by destruct b. Qed.
#[export] Hint Rewrite @bind_ret @bind_assoc @bind_gets @bind_modify @bind_emit @bind_panic : kernel.

(** Symbolic execution of the leading pure steps of a routine. *)
Ltac mrun := repeat (rewrite ?bind_assoc, ?bind_ret, ?bind_gets, ?bind_modify, ?bind_emit, ?bind_panic; cbv beta).

(** One step of symbolic execution. *)
Ltac mstep := unfold bind, ret, panic, gets, modify, emit; simpl; rewrite ?pre_nil; simpl.

(** ** Reachability *)

(** An invariant of a step relation holds in every reachable state. *)
Lemma rtc_invariant {A} (I : A → Prop) (R : A → A → Prop) s s' :
  (∀ a b, I a → R a b → I b) → I s → rtc R s s' → I s'.
Proof. intros Hstep Hs Hr. induction Hr as [|a b c Hab _ IH]; eauto. Qed.

(** ** Lists *)

Lemma alter_alter {A} (g g' : A → A) (i : nat) (l : list A) : alter g i (alter g' i l) = alter (λ x, g (g' x)) i l.
Proof. revert i. induction l as [|x l IH]; intros [|i]; cbn; [done..|]. f_equal. apply IH. Qed.

Lemma filter_all {A} (Q : A → Prop) `{∀ x, Decision (Q x)} (l : list A) :
  (∀ x, x ∈ l → Q x) → filter Q l = l.
Proof.
  induction l as [|x l IH]; intros HQ; [done|].
  rewrite filter_cons_True by (apply HQ; left). f_equal. apply IH. intros y Hy. apply HQ. by right.
Qed.
Lemma filter_none {A} (Q : A → Prop) `{∀ x, Decision (Q x)} (l : list A) :
  (∀ x, x ∈ l → ¬ Q x) → filter Q l = [].
Proof.
  induction l as [|x l IH]; intros HQ; [done|].
  rewrite filter_cons_False by (apply HQ; left). apply IH. intros y Hy. apply HQ. by right.
Qed.
Lemma filter_fmap {A B} (f : A → B) (Q : B → Prop) `{∀ x, Decision (Q x)} (l : list A) :
  filter Q (f <$> l) = f <$> filter (λ x, Q (f x)) l.
Proof.
  induction l as [|x l IH]; [done|]. rewrite fmap_cons, !filter_cons.
  case_decide; simpl; by rewrite IH.
Qed.

(** Membership in concatenations of lists. *)
Ltac mem_tauto :=
  intros ?; rewrite ?fmap_app; simpl; rewrite ?app_nil_r;
  repeat first [rewrite elem_of_cons|rewrite elem_of_app]; rewrite ?elem_of_nil; tauto.
