(* ===== verification/Machine.v ===== *)
(** Constants and address arithmetic of [param.h], [riscv.h] and
    [memlayout.h]. *)
From Stdlib Require Import ZArith Lia.
From stdpp Require Import base list gmap strings.
From S2P Require Import Prelude.

(** ** [param.h] *)
Definition NPROC : nat := 64.
Definition NCPU : nat := 8.
Definition NOFILE : nat := 16.
Definition NFILE : nat := 100.
Definition NINODE : nat := 50.
Definition NDEV : Z := 10.
Definition ROOTDEV : Z := 1.
Definition MAXARG : nat := 32.
Definition MAXOPBLOCKS : Z := 10.
Definition LOGSIZE : Z := MAXOPBLOCKS * 3.
Definition NBUF : nat := 30.
Definition FSSIZE : Z := 2000.
Definition MAXPATH : Z := 128.
Definition USERSTACK : Z := 1.

(** ** [riscv.h] *)
Definition PGSIZE : Z := 4096.
Definition PGSHIFT : Z := 12.

(** [~(PGSIZE-1)] is an [int] sign-extended to 64 bits. *)
Definition PGROUNDUP (sz : Z) : Z := Z.land (u64 (sz + PGSIZE - 1)) (u64 (Z.lnot (PGSIZE - 1))).
Definition PGROUNDDOWN (a : Z) : Z := Z.land a (u64 (Z.lnot (PGSIZE - 1))).

Definition PTE_V : Z := 1.
Definition PTE_R : Z := 2.
Definition PTE_W : Z := 4.
Definition PTE_X : Z := 8.
Definition PTE_U : Z := 16.

Definition PA2PTE (pa : Z) : Z := u64 (Z.shiftl (Z.shiftr pa 12) 10).
Definition PTE2PA (pte : Z) : Z := u64 (Z.shiftl (Z.shiftr pte 10) 12).
Definition PTE_FLAGS (pte : Z) : Z := Z.land pte 1023.

Definition PXMASK : Z := 511.
Definition PXSHIFT (level : Z) : Z := PGSHIFT + 9 * level.
Definition PX (level va : Z) : Z := Z.land (Z.shiftr va (PXSHIFT level)) PXMASK.

Definition MAXVA : Z := Z.shiftl 1 (9 + 9 + 9 + 12 - 1).

(** ** [memlayout.h] *)
Definition KERNBASE : Z := 2147483648.
Definition PHYSTOP : Z := KERNBASE + 128 * 1024 * 1024.
Definition TRAMPOLINE : Z := MAXVA - PGSIZE.
Definition KSTACK (p : Z) : Z := TRAMPOLINE - (p + 1) * 2 * PGSIZE.
Definition TRAPFRAME : Z := TRAMPOLINE - PGSIZE.
Definition UART0 : Z := 268435456.
Definition VIRTIO0 : Z := 268439552.
Definition PLIC : Z := 201326592.

(** ** Page arithmetic *)

Lemma lnot_mask_bits i : 0 ≤ i < 64 → Z.testbit (u64 (Z.lnot 4095)) i = (12 <=? i).
Proof.
  intros H. change (u64 (Z.lnot 4095)) with (Z.shiftl (Z.ones 52) 12).
  rewrite Z.shiftl_spec by lia. destruct (Z.leb_spec 12 i).
  - apply Z.ones_spec_low. lia.
  - apply Z.testbit_neg_r. lia.
Qed.

(** Clearing the low twelve bits of a 64-bit address rounds it down. *)
Lemma PGROUNDDOWN_div a : is_u64 a → PGROUNDDOWN a = a / PGSIZE * PGSIZE.
Proof.
  intros Ha. unfold PGROUNDDOWN, PGSIZE. change (4096 - 1) with 4095.
  change 4096 with (2 ^ 12). rewrite <-Z.shiftr_div_pow2, <-Z.shiftl_mul_pow2 by lia.
  apply Z.bits_inj'. intros i Hi. rewrite Z.land_spec, Z.shiftl_spec by lia.
  destruct (Z.ltb_spec i 64).
  - rewrite lnot_mask_bits by lia. destruct (Z.leb_spec 12 i).
    + rewrite Z.shiftr_spec, andb_true_r by lia. f_equal. lia.
    + by rewrite andb_false_r, (Z.testbit_neg_r (Z.shiftr a 12)) by lia.
  - assert (Z.testbit a i = false) as Hz.
    { destruct (decide (a = 0)) as [->|]; [apply Z.bits_0|].
      apply Z.bits_above_log2; [wrap_unfold; lia|].
      apply Z.lt_le_trans with 64; [|lia]. apply Z.log2_lt_pow2; wrap_unfold; lia. }
    rewrite Z.shiftr_spec by lia. replace (i - 12 + 12) with i by lia. by rewrite Hz.
Qed.

Lemma PGROUNDUP_div sz : 0 ≤ sz < 18446744073709551616 - 4096 →
  PGROUNDUP sz = (sz + 4095) / PGSIZE * PGSIZE.
Proof.
  intros H. unfold PGROUNDUP.
  replace (u64 (sz + PGSIZE - 1)) with (sz + 4095).
  - apply (PGROUNDDOWN_div (sz + 4095)). wrap_unfold. lia.
  - symmetry. unfold PGSIZE. replace (sz + 4096 - 1) with (sz + 4095) by lia.
    apply u64_small. wrap_unfold. lia.
Qed.
