(* ===== verification/Random.v ===== *)
(** The linear congruential generator of [random.c], used by the lottery
    scheduler to draw the winning ticket. *)
From Stdlib Require Import ZArith Lia.
From stdpp Require Import base list gmap strings numbers.
From S2P Require Import Prelude.

(** ** The code *)

(** [unsigned int seed = 1;] *)
Definition seed0 : Z := 1.

(** [seed = seed * 1664525 + 1013904223;] in 32-bit unsigned arithmetic. *)
Definition next_seed (seed : Z) : Z := u32 (seed * 1664525 + 1013904223).

(** [random(max)] returns the value and the new seed. [max] is converted to
    [unsigned int] by the usual conversions, the remainder back to [int]. *)
Definition random (max : Z) (seed : Z) : Z * Z :=
  let seed' := next_seed seed in
  (i32 (seed' mod u32 max), seed').

(** The seed after [n] calls. *)
Definition seed_after (n : nat) (seed : Z) : Z := Nat.iter n next_seed seed.

(** ** Range of the result *)

Lemma random_range max seed :
  0 < max ≤ INT_MAX → 0 ≤ fst (random max seed) < max.
Proof.
  intros H. unfold random; simpl.
  assert (u32 max = max) as -> by (apply u32_small; mach_lia).
  pose proof (Z.mod_pos_bound (next_seed seed) max ltac:(lia)) as Hb.
  rewrite i32_small by (wrap_unfold; lia). exact Hb.
Qed.

Lemma random_value max seed :
  0 < max ≤ INT_MAX → fst (random max seed) = next_seed seed mod max.
Proof.
  intros H. unfold random; simpl.
  assert (u32 max = max) as -> by (apply u32_small; mach_lia).
  pose proof (Z.mod_pos_bound (next_seed seed) max ltac:(lia)).
  apply i32_small. wrap_unfold. lia.
Qed.

Lemma seed_after_range n seed : is_u32 seed → is_u32 (seed_after n seed).
Proof. intros H. destruct n; simpl; [done|apply u32_range]. Qed.

(** The number of 32-bit seeds, as a [nat] that nothing unfolds. *)
Lemma period_sig : { n : nat | n = Z.to_nat 4294967296 }.
Proof. by exists (Z.to_nat 4294967296). Qed.
Definition period : nat := proj1_sig period_sig.

Lemma period_nat : Z.to_nat 4294967296 = period.
Proof. symmetry. exact (proj2_sig period_sig). Qed.
Lemma period_Z : Z.of_nat period = 4294967296.
Proof. rewrite <-period_nat. by apply Z2Nat.id. Qed.

(** ** The period is full

    [lcg] is the affine map without the reduction modulo 2^32. *)
Definition lcg (x : Z) : Z := x * 1664525 + 1013904223.

Lemma iter_add {A} (f : A → A) n m x : Nat.iter (n + m) f x = Nat.iter n f (Nat.iter m f x).
Proof. induction n; simpl; [done|by f_equal]. Qed.

Lemma seed_after_lcg n x : is_u32 x → seed_after n x = Nat.iter n lcg x mod 4294967296.
Proof.
  intros Hx. induction n as [|n IH]; simpl.
  - symmetry. apply u32_small, Hx.
  - change (seed_after (S n) x) with (next_seed (seed_after n x)).
    rewrite IH. unfold next_seed, u32, lcg.
    by rewrite <-Z.add_mod_idemp_l, Z.mul_mod_idemp_l, Z.add_mod_idemp_l by lia.
Qed.

(** The 2^j-th iterate is affine with multiplier 1 modulo 2^(j+2) and an
    increment that is an odd multiple of 2^j. *)
Lemma lcg_pow2 j : ∃ u o, ∀ x,
  Nat.iter (2 ^ j) lcg x = (1 + 4 * 2 ^ Z.of_nat j * u) * x + 2 ^ Z.of_nat j * (2 * o + 1).
Proof.
  induction j as [|j (u & o & IH)].
  - exists 416131, 506952111. intros x. simpl. unfold lcg. lia.
  - set (P := 2 ^ Z.of_nat j) in *.
    exists (u + 2 * P * (u * u)), (o + P * u * (2 * o + 1)). intros x.
    replace (2 ^ S j)%nat with (2 ^ j + 2 ^ j)%nat by (simpl; lia).
    rewrite iter_add, !IH, Nat2Z.inj_succ, Z.pow_succ_r by lia.
    fold P. ring.
Qed.

(** So 2^j steps add 2^j modulo 2^(j+1) ... *)
Lemma lcg_step j : ∃ c, ∀ x, ∃ k,
  Nat.iter (2 ^ j) lcg x = x + 2 ^ Z.of_nat j * (2 * (c + 2 * k) + 1).
Proof.
  destruct (lcg_pow2 j) as (u & o & H). exists o. intros x. exists (u * x).
  rewrite H. ring.
Qed.

(** ... and q * 2^j steps add an odd multiple of 2^j when q is odd. *)
Lemma lcg_steps j q : ∃ c, ∀ x, ∃ k,
  Nat.iter (q * 2 ^ j) lcg x = x + 2 ^ Z.of_nat j * (Z.of_nat q * (2 * c + 1) + 4 * k).
Proof.
  destruct (lcg_step j) as (c & H). exists c. induction q as [|q IH]; intros x.
  - exists 0. simpl. ring.
  - destruct (IH x) as [k Hk].
    replace (S q * 2 ^ j)%nat with (2 ^ j + q * 2 ^ j)%nat by lia.
    rewrite iter_add, Hk.
    destruct (H (x + 2 ^ Z.of_nat j * (Z.of_nat q * (2 * c + 1) + 4 * k))) as [k' Hk'].
    exists (k + k'). rewrite Hk', Nat2Z.inj_succ. ring.
Qed.

Lemma nat_two_adic n : (0 < n)%nat → ∃ j q, n = ((2 * q + 1) * 2 ^ j)%nat.
Proof.
  induction n as [n IH] using lt_wf_ind. intros Hn.
  destruct (Nat.Even_or_Odd n) as [[m Hm]|[m Hm]].
  - destruct (IH m) as (j & q & Hq); [lia|lia|].
    exists (S j), q. rewrite Hm, Hq. simpl. lia.
  - exists 0%nat, m. simpl. lia.
Qed.

Lemma odd_multiple_nonzero a j o :
  0 ≤ j < a → (2 ^ j * (2 * o + 1)) mod 2 ^ a ≠ 0.
Proof.
  intros Hj Hm. apply Z.mod_divide in Hm; [|apply Z.pow_nonzero; lia].
  destruct Hm as [z Hz].
  assert (2 ^ a = 2 ^ j * (2 * 2 ^ (a - j - 1))) as Ha.
  { rewrite <-Z.pow_succ_r, <-Z.pow_add_r by lia. f_equal. lia. }
  rewrite Ha in Hz.
  assert (2 ^ j > 0) by (apply Z.lt_gt, Z.pow_pos_nonneg; lia).
  assert (2 * o + 1 = z * (2 * 2 ^ (a - j - 1))) by nia. lia.
Qed.

(** No seed recurs within the period. *)
Lemma seed_no_cycle n s : is_u32 s → (0 < n < period)%nat → seed_after n s ≠ s.
Proof.
  intros Hs Hn Heq. pose proof period_Z as HP.
  destruct (nat_two_adic n) as (j & q & ->); [lia|].
  rewrite seed_after_lcg in Heq by done.
  destruct (lcg_steps j (2 * q + 1)) as (c & H). destruct (H s) as [k Hk]. clear H.
  rewrite Hk in Heq. wrap_unfold.
  assert ((j < 32)%nat) as Hj.
  { destruct (le_lt_dec 32 j) as [Hle|]; [|done]. exfalso.
    assert (2 ^ Z.of_nat 32 ≤ 2 ^ Z.of_nat j) by (apply Z.pow_le_mono_r; lia).
    assert (Z.of_nat ((2 * q + 1) * 2 ^ j) < 4294967296) as Hb by lia.
    rewrite Nat2Z.inj_mul, Nat2Z.inj_pow in Hb. simpl (2 ^ Z.of_nat 32) in *. nia. }
  apply (odd_multiple_nonzero 32 (Z.of_nat j)
    (Z.of_nat q * (2 * c + 1) + c + 2 * k)); [lia|].
  change (2 ^ 32) with 4294967296.
  replace (2 * (Z.of_nat q * (2 * c + 1) + c + 2 * k) + 1)
    with (Z.of_nat (2 * q + 1) * (2 * c + 1) + 4 * k) by lia.
  set (d := 2 ^ Z.of_nat j * _) in *.
  pose proof (Z.div_mod (s + d) 4294967296 ltac:(lia)) as Hdm. rewrite Heq in Hdm.
  apply Z.mod_divide; [lia|]. exists ((s + d) / 4294967296). lia.
Qed.

Lemma seed_after_inj s n m :
  is_u32 s → (n < period)%nat → (m < period)%nat → seed_after n s = seed_after m s → n = m.
Proof.
  intros Hs. revert m. assert (∀ n m, (n < m < period)%nat → seed_after n s ≠ seed_after m s) as H.
  { intros a b Hab Heq. apply (seed_no_cycle (b - a) (seed_after a s)).
    - by apply seed_after_range.
    - lia.
    - unfold seed_after in *. rewrite <-iter_add.
      replace (b - a + a)%nat with b by lia. done. }
  intros m Hn Hm Heq. destruct (lt_eq_lt_dec n m) as [[?|?]|?]; [|done|].
  - exfalso. by apply (H n m).
  - exfalso. by apply (H m n).
Qed.

(** The seeds of one period, in the order the generator produces them. *)
Definition seeds (s : Z) : list Z := (λ n, seed_after n s) <$> seq 0 period.

(** One period goes through every 32-bit value once. *)
Lemma seeds_permutation s : is_u32 s → seeds s ≡ₚ seqZ 0 4294967296.
Proof.
  intros Hs. unfold seeds. apply submseteq_length_Permutation.
  - apply NoDup_submseteq.
    + apply NoDup_fmap_2_strong; [|apply NoDup_seq].
      intros n m Hn Hm. rewrite !elem_of_seq in *. apply seed_after_inj; [done|lia|lia].
    + intros x Hx. rewrite list_elem_of_fmap in Hx. destruct Hx as (n & -> & _).
      apply elem_of_seqZ. pose proof (seed_after_range n s Hs). wrap_unfold. lia.
  - rewrite length_fmap, length_seq, length_seqZ.
    apply Nat.eq_le_incl, period_nat.
Qed.

(** C33. The generator of [random.c] has full period: from any 32-bit seed, each
    32-bit value is the seed after exactly one number of calls below 2^32, and
    after 2^32 calls the seed is back. *)
Theorem lcg_full_period s t : is_u32 s → is_u32 t →
  (∃ n, (n < period)%nat ∧ seed_after n s = t ∧
        ∀ m, (m < period)%nat → seed_after m s = t → m = n) ∧
  seed_after period s = s.
Proof.
  intros Hs Ht.
  assert (∀ t, is_u32 t → ∃ n, (n < period)%nat ∧ seed_after n s = t) as Hex.
  { intros t' Ht'. assert (t' ∈ seeds s) as Hin.
    { rewrite (seeds_permutation s Hs). apply elem_of_seqZ. exact Ht'. }
    unfold seeds in Hin. rewrite list_elem_of_fmap in Hin. destruct Hin as (n & -> & Hn).
    rewrite elem_of_seq in Hn. exists n. split; [lia|done]. }
  split.
  - destruct (Hex t Ht) as (n & Hn & <-). exists n. do 2 (split; [done|]).
    intros m Hm Heq. by apply (seed_after_inj s).
  - destruct (Hex (seed_after period s)) as (n & Hn & Heq); [by apply seed_after_range|].
    destruct n as [|n]; [done|]. exfalso.
    apply (seed_no_cycle (period - S n) (seed_after (S n) s)).
    + by apply seed_after_range.
    + lia.
    + rewrite Heq at 2. unfold seed_after. rewrite <-iter_add. f_equal. lia.
Qed.

Lemma lcg_full_period_witness :
  (∃ n, (n < period)%nat ∧ seed_after n seed0 = 12345 ∧
        ∀ m, (m < period)%nat → seed_after m seed0 = 12345 → m = n) ∧
  seed_after period seed0 = seed0.
Proof. apply (lcg_full_period seed0 12345); unfold is_u32, seed0; lia. Defined.
