(* ===== verification/Spinlock.v ===== *)
(** Spin locks ([spinlock.c]): interrupt nesting, [acquire]/[release] on one
    hart, and mutual exclusion between harts as an interleaving of the
    memory operations of [acquire] and [release]. *)
From Stdlib Require Import ZArith Lia.
From stdpp Require Import base list gmap strings.
From S2P Require Import Prelude Machine.

(** ** Data *)

(** [struct spinlock]; [lk_cpu] is the index into [cpus], [None] the null
    pointer. *)
Record spinlock := mkspinlock {
  locked : Z;
  lk_name : string;
  lk_cpu : option nat
}.

(** The part of [struct cpu] that [push_off]/[pop_off] use, with the hart's
    interrupt-enable bit [SSTATUS_SIE]. *)
Record hart := mkhart {
  noff : Z;
  intena : bool;
  sie : bool
}.

(** The locks of the kernel. *)
Inductive lockid : Type :=
| L_pid | L_wait | L_ticks | L_kmem | L_bcache | L_itable | L_ftable | L_log
| L_cons | L_uart_tx | L_vdisk
| L_proc (i : nat)
| L_pipe (pa : Z)
| L_sleep (a : addr).

#[export] Instance lockid_eq_dec : EqDecision lockid.
Proof. solve_decision. Defined.

Definition lockid_code (l : lockid) : nat * (nat * (Z * addr)) :=
  match l with
  | L_pid => (0, (0, (0%Z, A_null))) | L_wait => (1, (0, (0%Z, A_null)))
  | L_ticks => (2, (0, (0%Z, A_null))) | L_kmem => (3, (0, (0%Z, A_null)))
  | L_bcache => (4, (0, (0%Z, A_null))) | L_itable => (5, (0, (0%Z, A_null)))
  | L_ftable => (6, (0, (0%Z, A_null))) | L_log => (7, (0, (0%Z, A_null)))
  | L_cons => (8, (0, (0%Z, A_null))) | L_uart_tx => (9, (0, (0%Z, A_null)))
  | L_vdisk => (10, (0, (0%Z, A_null))) | L_proc i => (11, (i, (0%Z, A_null)))
  | L_pipe p => (12, (0, (p, A_null))) | L_sleep a => (13, (0, (0%Z, a)))
  end%nat.
Definition lockid_decode (c : nat * (nat * (Z * addr))) : option lockid :=
  match c with
  | (0, _) => Some L_pid | (1, _) => Some L_wait | (2, _) => Some L_ticks
  | (3, _) => Some L_kmem | (4, _) => Some L_bcache | (5, _) => Some L_itable
  | (6, _) => Some L_ftable | (7, _) => Some L_log | (8, _) => Some L_cons
  | (9, _) => Some L_uart_tx | (10, _) => Some L_vdisk | (11, (i, _)) => Some (L_proc i)
  | (12, (_, (p, _))) => Some (L_pipe p) | (13, (_, (_, a))) => Some (L_sleep a) | _ => None
  end%nat.
#[export] Instance lockid_countable : Countable lockid.
Proof. apply (inj_countable lockid_code lockid_decode). by intros []. Defined.

(** What a routine running on one hart sees: [*mycpu()], whose lock fields are
    [mycpu], and the locks of the kernel. *)
Record lockst := mklockst {
  mycpu : hart;
  locks : gmap lockid spinlock
}.

Definition upd_cpu (f : hart → hart) (s : lockst) : lockst := mklockst (f (mycpu s)) (locks s).

(** The lock [l]; static storage is zero before [initlock]. *)
Definition lock_of (l : lockid) (s : lockst) : spinlock :=
  default (mkspinlock 0 "" None) (locks s !! l).
Definition upd_lock (l : lockid) (f : spinlock → spinlock) (s : lockst) : lockst :=
  mklockst (mycpu s) (<[l := f (lock_of l s)]> (locks s)).
Definition set_locked (v : Z) (k : spinlock) : spinlock := mkspinlock v (lk_name k) (lk_cpu k).
Definition set_lk_cpu (c : option nat) (k : spinlock) : spinlock := mkspinlock (locked k) (lk_name k) c.

(** ** Operations *)

Definition initlock (l : lockid) (name : string) (s : lockst) : lockst :=
  upd_lock l (λ _, mkspinlock 0 name None) s.

Section ops.
Context {E : Type}.

Definition intr_get : M E lockst bool := gets (λ s, sie (mycpu s)).
Definition intr_off : M E lockst unit :=
  modify (upd_cpu (λ h, mkhart (noff h) (intena h) false)).
Definition intr_on : M E lockst unit :=
  modify (upd_cpu (λ h, mkhart (noff h) (intena h) true)).

Definition push_off : M E lockst unit :=
  let! old := intr_get in
  intr_off ;;
  let! h := gets mycpu in
  (if noff h =? 0 then modify (upd_cpu (λ h, mkhart (noff h) old (sie h))) else ret tt) ;;
  modify (upd_cpu (λ h, mkhart (i32 (noff h + 1)) (intena h) (sie h))).

Definition pop_off : M E lockst unit :=
  let! on := intr_get in
  if on then panic "pop_off - interruptible" else
  let! c := gets mycpu in
  if noff c <? 1 then panic "pop_off" else
  modify (upd_cpu (λ h, mkhart (i32 (noff h - 1)) (intena h) (sie h))) ;;
  let! c := gets mycpu in
  if (noff c =? 0) && intena c then intr_on else ret tt.

(** [me] is the index of this hart in [cpus] ([cpuid()]). *)
Definition holding (me : nat) (l : lockid) : M E lockst bool :=
  gets (λ s, negb (locked (lock_of l s) =? 0) && bool_decide (lk_cpu (lock_of l s) = Some me)).

(** The [while(__sync_lock_test_and_set(...))] loop: it exits at once when the
    lock is free; on a lock that another hart holds it spins. *)
Definition acquire (me : nat) (l : lockid) : M E lockst unit :=
  push_off ;;
  let! h := holding me l in
  if h then panic "acquire" else
  let! k := gets (lock_of l) in
  if negb (locked k =? 0) then (λ s, Spin s []) else
  modify (upd_lock l (set_locked 1)) ;;
  modify (upd_lock l (set_lk_cpu (Some me))).

Definition release (me : nat) (l : lockid) : M E lockst unit :=
  let! h := holding me l in
  if negb h then panic "release" else
  modify (upd_lock l (set_lk_cpu None)) ;;
  modify (upd_lock l (set_locked 0)) ;;
  pop_off.
End ops.

Fixpoint repeat_m {E S} (n : nat) (m : M E S unit) : M E S unit :=
  match n with O => ret tt | Datatypes.S n' => m ;; repeat_m n' m end.

(** ** Interrupt nesting *)

(** Interrupts are off whenever the nesting depth is positive. *)
Definition hart_ok (h : hart) : Prop :=
  0 ≤ noff h ∧ (0 < noff h → sie h = false).

(** What a matched [push_off]/[pop_off] pair leaves of a hart: only the saved
    [intena] of an un-nested hart is refreshed. *)
Definition touched (h : hart) : hart :=
  if noff h =? 0 then mkhart (noff h) (sie h) (sie h) else h.

(** The hart inside [n] nested [push_off]s. *)
Definition pushed (n : Z) (h : hart) : hart :=
  mkhart (noff h + n) (if noff h =? 0 then sie h else intena h) false.


Lemma push_off_run {E} s : noff (mycpu s) < INT_MAX → hart_ok (mycpu s) →
  push_off (E:=E) s = Done tt (upd_cpu (pushed 1) s) [].
Proof.
  destruct s as [[n i e] ls]. intros Hn [Hn0 Hs]; simpl in *.
  unfold push_off, intr_get, intr_off, upd_cpu, pushed; mstep.
  assert (i32 (n + 1) = n + 1) as He by (apply i32_small; wrap_unfold; lia).
  destruct (Z.eqb_spec n 0); mstep; by rewrite He.
Qed.

Lemma pop_off_run {E} n h ls : 0 ≤ n → hart_ok h → noff h + n < INT_MAX →
  pop_off (E:=E) (mklockst (pushed (n + 1) h) ls) =
  Done tt (mklockst (if n =? 0 then touched h else pushed n h) ls) [].
Proof.
  destruct h as [m i e]; simpl. intros Hn [H0 Hs] Hr; simpl in *.
  unfold pop_off, intr_get, intr_on, upd_cpu; mstep.
  destruct (Z.ltb_spec (m + (n + 1)) 1); [lia|]. mstep.
  assert (i32 (m + (n + 1) - 1) = m + n) as -> by (rewrite i32_small; wrap_unfold; lia).
  unfold touched, pushed; simpl.
  destruct (Z.eqb_spec n 0) as [->|]; simpl.
  - rewrite Z.add_0_r. destruct (Z.eqb_spec m 0) as [->|]; simpl.
    + destruct e; mstep; done.
    + rewrite Hs by lia. mstep. done.
  - destruct (Z.eqb_spec (m + n) 0); [lia|]. mstep. done.
Qed.

Lemma touched_idemp h : touched (touched h) = touched h.
Proof. unfold touched. destruct (noff h =? 0) eqn:E; simpl; by rewrite E. Qed.
Lemma touched_ok h : hart_ok h → hart_ok (touched h).
Proof. unfold touched, hart_ok. by destruct (noff h =? 0). Qed.
Lemma touched_noff h : noff (touched h) = noff h.
Proof. unfold touched. by destruct (noff h =? 0). Qed.
Lemma touched_sie h : sie (touched h) = sie h.
Proof. unfold touched. by destruct (noff h =? 0). Qed.
Lemma pushed_touched h : pushed 1 (touched h) = pushed 1 h.
Proof.
  unfold pushed, touched. destruct (noff h =? 0) eqn:E; simpl; rewrite E; done.
Qed.
Lemma pushed_pushed n h : 0 < n → hart_ok h → pushed 1 (pushed n h) = pushed (n + 1) h.
Proof.
  intros Hn [H0 _]. unfold pushed; simpl.
  destruct (Z.eqb_spec (noff h + n) 0); [lia|]. f_equal. lia.
Qed.

Lemma lock_of_upd l f s : lock_of l (upd_lock l f s) = f (lock_of l s).
Proof. unfold lock_of at 1; simpl. by rewrite lookup_insert_eq. Qed.
Lemma lock_of_upd_ne l l' f s : l ≠ l' → lock_of l' (upd_lock l f s) = lock_of l' s.
Proof. intros. unfold lock_of; simpl. by rewrite lookup_insert_ne. Qed.
Lemma upd_lock_upd l f g s : upd_lock l f (upd_lock l g s) = upd_lock l (λ k, f (g k)) s.
Proof. unfold upd_lock at 1. rewrite lock_of_upd. simpl. unfold upd_lock. by rewrite insert_insert_eq. Qed.
Lemma lock_of_cpu l f s : lock_of l (upd_cpu f s) = lock_of l s.
Proof. done. Qed.

(** A lock that is initialised and free. *)
Definition is_free (l : lockid) (s : lockst) : Prop := ∃ n, locks s !! l = Some (mkspinlock 0 n None).

(** The state inside the critical section. *)
Definition locked_by (me : nat) (l : lockid) (s : lockst) : lockst :=
  upd_lock l (λ k, mkspinlock 1 (lk_name k) (Some me)) (upd_cpu (pushed 1) s).

Lemma acquire_run {E} me l s : is_free l s → hart_ok (mycpu s) → noff (mycpu s) < INT_MAX →
  acquire (E:=E) me l s = Done tt (locked_by me l s) [].
Proof.
  intros [n Hl] Hh Hn. unfold acquire, bind at 1. rewrite push_off_run by done. simpl.
  unfold holding. mstep. rewrite lock_of_cpu.
  assert (lock_of l s = mkspinlock 0 n None) as -> by (unfold lock_of; by rewrite Hl).
  simpl. mstep. rewrite lock_of_cpu.
  assert (lock_of l s = mkspinlock 0 n None) as Hk by (unfold lock_of; by rewrite Hl).
  rewrite Hk; simpl. mstep. by rewrite upd_lock_upd.
Qed.

Lemma release_run {E} me l h n s : hart_ok h → noff h < INT_MAX →
  locks s !! l = Some (mkspinlock 1 n (Some me)) → mycpu s = pushed 1 h →
  release (E:=E) me l s = Done tt (mklockst (touched h) (<[l := mkspinlock 0 n None]> (locks s))) [].
Proof.
  intros Hh Hn Hl Hc. destruct s as [c ls]; simpl in *; subst c.
  assert (lock_of l (mklockst (pushed 1 h) ls) = mkspinlock 1 n (Some me)) as Hk
    by (unfold lock_of; simpl; by rewrite Hl).
  unfold release, holding. mstep. rewrite Hk; simpl.
  rewrite bool_decide_true by done. mstep. rewrite upd_lock_upd.
  unfold upd_lock. rewrite Hk. simpl.
  rewrite (pop_off_run 0) by first [lia|done]. done.
Qed.

Lemma acquire_release {E} me l s : is_free l s → hart_ok (mycpu s) → noff (mycpu s) < INT_MAX →
  release (E:=E) me l (locked_by me l s) = Done tt (upd_cpu touched s) [].
Proof.
  intros [n Hl] Hh Hn. rewrite (release_run me l (mycpu s) n); try done.
  - unfold locked_by, upd_lock, upd_cpu; simpl. by rewrite insert_insert_eq, insert_id.
  - unfold locked_by, upd_lock, upd_cpu; simpl. rewrite lookup_insert_eq.
    unfold lock_of; simpl. by rewrite Hl.
Qed.

Lemma repeat_push {E} n k h ls : 0 ≤ k → hart_ok h → noff h + k + Z.of_nat n < INT_MAX →
  repeat_m (E:=E) n push_off (mklockst (if k =? 0 then h else pushed k h) ls) =
  Done tt (mklockst (if k + Z.of_nat n =? 0 then h else pushed (k + Z.of_nat n) h) ls) [].
Proof.
  intros Hk Hh. revert k Hk. induction n as [|n IH]; intros k Hk Hn; simpl.
  - unfold ret. by rewrite Z.add_0_r.
  - unfold bind. pose proof Hh as [H0 _].
    assert (push_off (E:=E) (mklockst (if k =? 0 then h else pushed k h) ls) =
      Done tt (mklockst (pushed (k + 1) h) ls) []) as ->.
    { destruct (Z.eqb_spec k 0) as [->|].
      - rewrite push_off_run by first [simpl; lia|done]. done.
      - rewrite push_off_run; [|simpl; lia|split; simpl; [lia|done]].
        unfold upd_cpu; simpl. by rewrite pushed_pushed by first [lia|done]. }
    rewrite pre_nil. specialize (IH (k + 1) ltac:(lia) ltac:(lia)).
    destruct (Z.eqb_spec (k + 1) 0); [lia|]. rewrite IH.
    by replace (k + 1 + Z.of_nat n) with (k + Z.of_nat (S n)) by lia.
Qed.

Lemma repeat_pop {E} m k h ls : (Z.of_nat m ≤ k) → 0 < k → hart_ok h → noff h + k < INT_MAX →
  repeat_m (E:=E) m pop_off (mklockst (pushed k h) ls) =
  Done tt (mklockst (if k - Z.of_nat m =? 0 then touched h else pushed (k - Z.of_nat m) h) ls) [].
Proof.
  intros Hm Hk Hh. revert k Hm Hk. induction m as [|m IH]; intros k Hm Hk Hn; simpl.
  - rewrite Z.sub_0_r. destruct (Z.eqb_spec k 0); [lia|done].
  - unfold bind. replace k with (k - 1 + 1) at 1 by lia.
    rewrite pop_off_run by first [lia|done]. rewrite pre_nil.
    destruct (Z.eqb_spec (k - 1) 0) as [Hk1|].
    + assert (m = 0%nat) as -> by lia. replace k with 1 by lia. done.
    + rewrite IH by lia. by replace (k - 1 - Z.of_nat m) with (k - Z.of_nat (S m)) by lia.
Qed.

(** [push_off]/[pop_off] nest: on a hart with interrupts on or off, after
    [n] [push_off]s and [m <= n] [pop_off]s interrupts are still off when
    [m < n], and when [m = n] the nesting depth and the interrupt-enable bit
    are what they were before the first [push_off]. No call panics. *)
Theorem push_pop_nesting n m h ls :
  (m ≤ n)%nat → (0 < n)%nat → hart_ok h → noff h + Z.of_nat n < INT_MAX →
  (repeat_m (E:=unit) n push_off ;; repeat_m m pop_off) (mklockst h ls) =
  Done tt (mklockst (if (m =? n)%nat then touched h
                     else pushed (Z.of_nat (n - m)) h) ls) [].
Proof.
  intros Hmn Hn Hh Hb. unfold bind.
  change (mklockst h ls) with (mklockst (if 0 =? 0 then h else pushed 0 h) ls) at 1.
  rewrite repeat_push, Z.add_0_l by first [lia|done].
  destruct (Z.eqb_spec (Z.of_nat n) 0); [lia|].
  rewrite pre_nil, repeat_pop by first [lia|done].
  replace (Z.of_nat n - Z.of_nat m) with (Z.of_nat (n - m)) by lia.
  destruct (Nat.eqb_spec m n), (Z.eqb_spec (Z.of_nat (n - m)) 0); first [lia|done].
Qed.

Lemma push_pop_nesting_witness :
  let h := mkhart 0 false true in
  (repeat_m (E:=unit) 2 push_off ;; repeat_m 2 pop_off) (mklockst h ∅) =
  Done tt (mklockst (mkhart 0 true true) ∅) [].
Proof. apply (push_pop_nesting 2 2 (mkhart 0 false true) ∅); [lia|lia|split; simpl; lia|vm_compute; done]. Defined.

(** ** Mutual exclusion between harts

    The memory operations of [acquire] and [release] on all harts, interleaved
    one at a time. A hart is between calls ([Running]), at the atomic swap of
    [acquire], about to record itself in [lk->cpu], or, in [release], about to
    clear [lk->locked]. [crit c] is the set of locks whose critical section
    hart [c] is in: [acquire] has returned and [release] has not begun. *)
Inductive hart_pc : Type :=
| Running
| AtSwap (l : lockid)
| AtSetCpu (l : lockid)
| AtClear (l : lockid).

Record mstate := mkmstate {
  pc : nat → hart_pc;
  crit : nat → gset lockid;
  mem_locked : lockid → Z;
  mem_cpu : lockid → option nat
}.

Definition upd {A B} `{EqDecision A} (f : A → B) (a : A) (b : B) : A → B :=
  λ a', if decide (a' = a) then b else f a'.

(** [holding(lk)] as evaluated by hart [c]. *)
Definition m_holding (c : nat) (l : lockid) (s : mstate) : bool :=
  negb (mem_locked s l =? 0) && bool_decide (mem_cpu s l = Some c).

Inductive mstep_rel : mstate → mstate → Prop :=
| m_acquire_check c l s : pc s c = Running → m_holding c l s = false →
    mstep_rel s (mkmstate (upd (pc s) c (AtSwap l)) (crit s) (mem_locked s) (mem_cpu s))
| m_swap_busy c l s : pc s c = AtSwap l → mem_locked s l ≠ 0 →
    mstep_rel s (mkmstate (pc s) (crit s) (upd (mem_locked s) l 1) (mem_cpu s))
| m_swap_free c l s : pc s c = AtSwap l → mem_locked s l = 0 →
    mstep_rel s (mkmstate (upd (pc s) c (AtSetCpu l)) (crit s) (upd (mem_locked s) l 1) (mem_cpu s))
| m_set_cpu c l s : pc s c = AtSetCpu l →
    mstep_rel s (mkmstate (upd (pc s) c Running) (upd (crit s) c ({[l]} ∪ crit s c))
                      (mem_locked s) (upd (mem_cpu s) l (Some c)))
| m_release_cpu c l s : pc s c = Running → m_holding c l s = true →
    mstep_rel s (mkmstate (upd (pc s) c (AtClear l)) (upd (crit s) c (crit s c ∖ {[l]}))
                      (mem_locked s) (upd (mem_cpu s) l None))
| m_release_clear c l s : pc s c = AtClear l →
    mstep_rel s (mkmstate (upd (pc s) c Running) (crit s) (upd (mem_locked s) l 0) (mem_cpu s)).

Definition m_init : mstate := mkmstate (λ _, Running) (λ _, ∅) (λ _, 0) (λ _, None).

(** Hart [c] has won the swap for [l] and not yet cleared it. *)
Definition owns (s : mstate) (c : nat) (l : lockid) : Prop :=
  l ∈ crit s c ∨ pc s c = AtSetCpu l ∨ pc s c = AtClear l.

Record m_inv (s : mstate) : Prop := {
  inv_owner : ∀ l c c', owns s c l → owns s c' l → c = c';
  inv_locked : ∀ l c, owns s c l → mem_locked s l ≠ 0;
  inv_cpu : ∀ l c, mem_cpu s l = Some c ↔ l ∈ crit s c;
  inv_once : ∀ l c, l ∈ crit s c → pc s c ≠ AtSetCpu l ∧ pc s c ≠ AtClear l
}.

Lemma upd_eq {A B} `{EqDecision A} (f : A → B) a b : upd f a b a = b.
Proof. unfold upd. by rewrite decide_True. Qed.
Lemma upd_ne {A B} `{EqDecision A} (f : A → B) a b a' : a' ≠ a → upd f a b a' = f a'.
Proof. intros. unfold upd. by rewrite decide_False. Qed.

(** Case analysis on every functional update of the context. *)
Ltac upd_cases :=
  unfold upd in *; repeat case_decide; subst; simplify_eq/=.

Lemma m_inv_init : m_inv m_init.
Proof. split; unfold owns, m_init; simpl; set_solver. Qed.

Lemma m_holding_true c l s : m_holding c l s = true → mem_locked s l ≠ 0 ∧ mem_cpu s l = Some c.
Proof.
  unfold m_holding. intros [H1 H2]%andb_true_iff. apply bool_decide_eq_true in H2.
  split; [|done]. by apply negb_true_iff, Z.eqb_neq in H1.
Qed.

Lemma m_inv_step s s' : m_inv s → mstep_rel s s' → m_inv s'.
Proof.
  intros [Ho Hl Hc H1] Hstep.
  destruct Hstep as [c l s Hp Hh|c l s Hp Hm|c l s Hp Hm|c l s Hp|c l s Hp Hh|c l s Hp];
    [clear Hh| | | |apply m_holding_true in Hh as [Hm Hh]|];
    split; unfold owns in *; simpl; intros; upd_cases; set_unfold; naive_solver.
Qed.

(** C15. Mutual exclusion: in every interleaving of the harts' memory operations,
    at most one hart is in the critical section of a lock, and [holding], read
    by any hart at any moment, answers whether that hart is. *)
Theorem spinlock_mutual_exclusion s l c :
  rtc mstep_rel m_init s →
  (∀ c', l ∈ crit s c → l ∈ crit s c' → c = c') ∧
  (m_holding c l s = true ↔ l ∈ crit s c).
Proof.
  intros Hr. apply (rtc_invariant m_inv) in Hr as [Ho Hl Hc H1]; [|apply m_inv_step|apply m_inv_init].
  split; [intros c' H H'; eapply Ho; left; done|split].
  - intros [_ Hcpu]%m_holding_true. by apply Hc.
  - intros Hin. unfold m_holding. apply andb_true_iff. split.
    + apply negb_true_iff, Z.eqb_neq, (Hl l c). by left.
    + apply bool_decide_eq_true. by apply Hc.
Qed.

Lemma spinlock_mutual_exclusion_witness : ∃ s,
  rtc mstep_rel m_init s ∧ L_kmem ∈ crit s 0%nat ∧
  ((∀ c', L_kmem ∈ crit s 0%nat → L_kmem ∈ crit s c' → 0%nat = c') ∧
  (m_holding 0 L_kmem s = true ↔ L_kmem ∈ crit s 0%nat)).
Proof.
  eexists. split; [|split]; cycle 2.
  - apply spinlock_mutual_exclusion.
    eapply rtc_l; [apply (m_acquire_check 0 L_kmem); done|].
    eapply rtc_l; [apply (m_swap_free 0 L_kmem); done|].
    eapply rtc_l; [apply (m_set_cpu 0 L_kmem); done|]. apply rtc_refl.
  - eapply rtc_l; [apply (m_acquire_check 0 L_kmem); done|].
    eapply rtc_l; [apply (m_swap_free 0 L_kmem); done|].
    eapply rtc_l; [apply (m_set_cpu 0 L_kmem); done|]. apply rtc_refl.
  - simpl. rewrite upd_eq. set_solver.
Defined.
