(* ===== verification/Proc.v ===== *)
(** Processes ([proc.h], [proc.c]): the process table, sleep and wakeup, kill,
    exit's reparenting, the switch into and out of the scheduler, and the
    lottery fields. The routines run on one hart, whose [struct cpu] is part
    of the state; [me] is its index. *)
From Stdlib Require Import ZArith Lia.
From stdpp Require Import base list gmap strings.
From S2P Require Import Prelude Machine Random Spinlock.

(** ** Data *)

(** [struct context]: the registers [swtch] saves. *)
Record context := mkcontext {
  ctx_ra : Z;
  ctx_sp : Z;
  ctx_s0 : Z;
  ctx_s1 : Z;
  ctx_s2 : Z;
  ctx_s3 : Z;
  ctx_s4 : Z;
  ctx_s5 : Z;
  ctx_s6 : Z;
  ctx_s7 : Z;
  ctx_s8 : Z;
  ctx_s9 : Z;
  ctx_s10 : Z;
  ctx_s11 : Z
}.

Definition context0 : context := mkcontext 0 0 0 0 0 0 0 0 0 0 0 0 0 0.

(** [struct trapframe]: the user registers saved by [trampoline.S]. *)
Record trapframe := mktrapframe {
  tf_kernel_satp : Z;
  tf_kernel_sp : Z;
  tf_kernel_trap : Z;
  tf_epc : Z;
  tf_kernel_hartid : Z;
  tf_ra : Z;
  tf_sp : Z;
  tf_gp : Z;
  tf_tp : Z;
  tf_t0 : Z;
  tf_t1 : Z;
  tf_t2 : Z;
  tf_s0 : Z;
  tf_s1 : Z;
  tf_a0 : Z;
  tf_a1 : Z;
  tf_a2 : Z;
  tf_a3 : Z;
  tf_a4 : Z;
  tf_a5 : Z;
  tf_a6 : Z;
  tf_a7 : Z;
  tf_s2 : Z;
  tf_s3 : Z;
  tf_s4 : Z;
  tf_s5 : Z;
  tf_s6 : Z;
  tf_s7 : Z;
  tf_s8 : Z;
  tf_s9 : Z;
  tf_s10 : Z;
  tf_s11 : Z;
  tf_t3 : Z;
  tf_t4 : Z;
  tf_t5 : Z;
  tf_t6 : Z
}.

Definition set_tf_kernel_satp (v : Z) (r : trapframe) : trapframe :=
  mktrapframe v (tf_kernel_sp r) (tf_kernel_trap r) (tf_epc r) (tf_kernel_hartid r) (tf_ra r) (tf_sp r) (tf_gp r) (tf_tp r) (tf_t0 r) (tf_t1 r) (tf_t2 r) (tf_s0 r) (tf_s1 r) (tf_a0 r) (tf_a1 r) (tf_a2 r) (tf_a3 r) (tf_a4 r) (tf_a5 r) (tf_a6 r) (tf_a7 r) (tf_s2 r) (tf_s3 r) (tf_s4 r) (tf_s5 r) (tf_s6 r) (tf_s7 r) (tf_s8 r) (tf_s9 r) (tf_s10 r) (tf_s11 r) (tf_t3 r) (tf_t4 r) (tf_t5 r) (tf_t6 r).
Definition set_tf_kernel_sp (v : Z) (r : trapframe) : trapframe :=
  mktrapframe (tf_kernel_satp r) v (tf_kernel_trap r) (tf_epc r) (tf_kernel_hartid r) (tf_ra r) (tf_sp r) (tf_gp r) (tf_tp r) (tf_t0 r) (tf_t1 r) (tf_t2 r) (tf_s0 r) (tf_s1 r) (tf_a0 r) (tf_a1 r) (tf_a2 r) (tf_a3 r) (tf_a4 r) (tf_a5 r) (tf_a6 r) (tf_a7 r) (tf_s2 r) (tf_s3 r) (tf_s4 r) (tf_s5 r) (tf_s6 r) (tf_s7 r) (tf_s8 r) (tf_s9 r) (tf_s10 r) (tf_s11 r) (tf_t3 r) (tf_t4 r) (tf_t5 r) (tf_t6 r).
Definition set_tf_kernel_trap (v : Z) (r : trapframe) : trapframe :=
  mktrapframe (tf_kernel_satp r) (tf_kernel_sp r) v (tf_epc r) (tf_kernel_hartid r) (tf_ra r) (tf_sp r) (tf_gp r) (tf_tp r) (tf_t0 r) (tf_t1 r) (tf_t2 r) (tf_s0 r) (tf_s1 r) (tf_a0 r) (tf_a1 r) (tf_a2 r) (tf_a3 r) (tf_a4 r) (tf_a5 r) (tf_a6 r) (tf_a7 r) (tf_s2 r) (tf_s3 r) (tf_s4 r) (tf_s5 r) (tf_s6 r) (tf_s7 r) (tf_s8 r) (tf_s9 r) (tf_s10 r) (tf_s11 r) (tf_t3 r) (tf_t4 r) (tf_t5 r) (tf_t6 r).
Definition set_tf_epc (v : Z) (r : trapframe) : trapframe :=
  mktrapframe (tf_kernel_satp r) (tf_kernel_sp r) (tf_kernel_trap r) v (tf_kernel_hartid r) (tf_ra r) (tf_sp r) (tf_gp r) (tf_tp r) (tf_t0 r) (tf_t1 r) (tf_t2 r) (tf_s0 r) (tf_s1 r) (tf_a0 r) (tf_a1 r) (tf_a2 r) (tf_a3 r) (tf_a4 r) (tf_a5 r) (tf_a6 r) (tf_a7 r) (tf_s2 r) (tf_s3 r) (tf_s4 r) (tf_s5 r) (tf_s6 r) (tf_s7 r) (tf_s8 r) (tf_s9 r) (tf_s10 r) (tf_s11 r) (tf_t3 r) (tf_t4 r) (tf_t5 r) (tf_t6 r).
Definition set_tf_kernel_hartid (v : Z) (r : trapframe) : trapframe :=
  mktrapframe (tf_kernel_satp r) (tf_kernel_sp r) (tf_kernel_trap r) (tf_epc r) v (tf_ra r) (tf_sp r) (tf_gp r) (tf_tp r) (tf_t0 r) (tf_t1 r) (tf_t2 r) (tf_s0 r) (tf_s1 r) (tf_a0 r) (tf_a1 r) (tf_a2 r) (tf_a3 r) (tf_a4 r) (tf_a5 r) (tf_a6 r) (tf_a7 r) (tf_s2 r) (tf_s3 r) (tf_s4 r) (tf_s5 r) (tf_s6 r) (tf_s7 r) (tf_s8 r) (tf_s9 r) (tf_s10 r) (tf_s11 r) (tf_t3 r) (tf_t4 r) (tf_t5 r) (tf_t6 r).
Definition set_tf_sp (v : Z) (r : trapframe) : trapframe :=
  mktrapframe (tf_kernel_satp r) (tf_kernel_sp r) (tf_kernel_trap r) (tf_epc r) (tf_kernel_hartid r) (tf_ra r) v (tf_gp r) (tf_tp r) (tf_t0 r) (tf_t1 r) (tf_t2 r) (tf_s0 r) (tf_s1 r) (tf_a0 r) (tf_a1 r) (tf_a2 r) (tf_a3 r) (tf_a4 r) (tf_a5 r) (tf_a6 r) (tf_a7 r) (tf_s2 r) (tf_s3 r) (tf_s4 r) (tf_s5 r) (tf_s6 r) (tf_s7 r) (tf_s8 r) (tf_s9 r) (tf_s10 r) (tf_s11 r) (tf_t3 r) (tf_t4 r) (tf_t5 r) (tf_t6 r).
Definition set_tf_a0 (v : Z) (r : trapframe) : trapframe :=
  mktrapframe (tf_kernel_satp r) (tf_kernel_sp r) (tf_kernel_trap r) (tf_epc r) (tf_kernel_hartid r) (tf_ra r) (tf_sp r) (tf_gp r) (tf_tp r) (tf_t0 r) (tf_t1 r) (tf_t2 r) (tf_s0 r) (tf_s1 r) v (tf_a1 r) (tf_a2 r) (tf_a3 r) (tf_a4 r) (tf_a5 r) (tf_a6 r) (tf_a7 r) (tf_s2 r) (tf_s3 r) (tf_s4 r) (tf_s5 r) (tf_s6 r) (tf_s7 r) (tf_s8 r) (tf_s9 r) (tf_s10 r) (tf_s11 r) (tf_t3 r) (tf_t4 r) (tf_t5 r) (tf_t6 r).
Definition set_tf_a1 (v : Z) (r : trapframe) : trapframe :=
  mktrapframe (tf_kernel_satp r) (tf_kernel_sp r) (tf_kernel_trap r) (tf_epc r) (tf_kernel_hartid r) (tf_ra r) (tf_sp r) (tf_gp r) (tf_tp r) (tf_t0 r) (tf_t1 r) (tf_t2 r) (tf_s0 r) (tf_s1 r) (tf_a0 r) v (tf_a2 r) (tf_a3 r) (tf_a4 r) (tf_a5 r) (tf_a6 r) (tf_a7 r) (tf_s2 r) (tf_s3 r) (tf_s4 r) (tf_s5 r) (tf_s6 r) (tf_s7 r) (tf_s8 r) (tf_s9 r) (tf_s10 r) (tf_s11 r) (tf_t3 r) (tf_t4 r) (tf_t5 r) (tf_t6 r).

(** [enum procstate]. *)
Inductive procstate : Type := UNUSED | USED | SLEEPING | RUNNABLE | RUNNING | ZOMBIE.

#[export] Instance procstate_eq_dec : EqDecision procstate.
Proof. solve_decision. Defined.

(** [struct proc]. The process lock is [L_proc i] of the lock table; pointers
    to processes, files and inodes are indices into their tables, [None] being
    null; [p_trapframe] and [p_pagetable] are physical addresses. *)
Record proc := mkproc {
  p_state : procstate;
  p_chan : addr;
  p_killed : Z;
  p_xstate : Z;
  p_pid : Z;
  p_tickets : Z;
  p_parent : option nat;
  p_kstack : Z;
  p_sz : Z;
  p_pagetable : Z;
  p_trapframe : Z;
  p_context : context;
  p_ofile : list (option nat);
  p_cwd : option nat;
  p_name : list Z
}.

Definition set_p_state (v : procstate) (r : proc) : proc :=
  mkproc v (p_chan r) (p_killed r) (p_xstate r) (p_pid r) (p_tickets r) (p_parent r) (p_kstack r) (p_sz r) (p_pagetable r) (p_trapframe r) (p_context r) (p_ofile r) (p_cwd r) (p_name r).
Definition set_p_chan (v : addr) (r : proc) : proc :=
  mkproc (p_state r) v (p_killed r) (p_xstate r) (p_pid r) (p_tickets r) (p_parent r) (p_kstack r) (p_sz r) (p_pagetable r) (p_trapframe r) (p_context r) (p_ofile r) (p_cwd r) (p_name r).
Definition set_p_killed (v : Z) (r : proc) : proc :=
  mkproc (p_state r) (p_chan r) v (p_xstate r) (p_pid r) (p_tickets r) (p_parent r) (p_kstack r) (p_sz r) (p_pagetable r) (p_trapframe r) (p_context r) (p_ofile r) (p_cwd r) (p_name r).
Definition set_p_xstate (v : Z) (r : proc) : proc :=
  mkproc (p_state r) (p_chan r) (p_killed r) v (p_pid r) (p_tickets r) (p_parent r) (p_kstack r) (p_sz r) (p_pagetable r) (p_trapframe r) (p_context r) (p_ofile r) (p_cwd r) (p_name r).
Definition set_p_pid (v : Z) (r : proc) : proc :=
  mkproc (p_state r) (p_chan r) (p_killed r) (p_xstate r) v (p_tickets r) (p_parent r) (p_kstack r) (p_sz r) (p_pagetable r) (p_trapframe r) (p_context r) (p_ofile r) (p_cwd r) (p_name r).
Definition set_p_tickets (v : Z) (r : proc) : proc :=
  mkproc (p_state r) (p_chan r) (p_killed r) (p_xstate r) (p_pid r) v (p_parent r) (p_kstack r) (p_sz r) (p_pagetable r) (p_trapframe r) (p_context r) (p_ofile r) (p_cwd r) (p_name r).
Definition set_p_parent (v : option nat) (r : proc) : proc :=
  mkproc (p_state r) (p_chan r) (p_killed r) (p_xstate r) (p_pid r) (p_tickets r) v (p_kstack r) (p_sz r) (p_pagetable r) (p_trapframe r) (p_context r) (p_ofile r) (p_cwd r) (p_name r).
Definition set_p_kstack (v : Z) (r : proc) : proc :=
  mkproc (p_state r) (p_chan r) (p_killed r) (p_xstate r) (p_pid r) (p_tickets r) (p_parent r) v (p_sz r) (p_pagetable r) (p_trapframe r) (p_context r) (p_ofile r) (p_cwd r) (p_name r).
Definition set_p_sz (v : Z) (r : proc) : proc :=
  mkproc (p_state r) (p_chan r) (p_killed r) (p_xstate r) (p_pid r) (p_tickets r) (p_parent r) (p_kstack r) v (p_pagetable r) (p_trapframe r) (p_context r) (p_ofile r) (p_cwd r) (p_name r).
Definition set_p_pagetable (v : Z) (r : proc) : proc :=
  mkproc (p_state r) (p_chan r) (p_killed r) (p_xstate r) (p_pid r) (p_tickets r) (p_parent r) (p_kstack r) (p_sz r) v (p_trapframe r) (p_context r) (p_ofile r) (p_cwd r) (p_name r).
Definition set_p_trapframe (v : Z) (r : proc) : proc :=
  mkproc (p_state r) (p_chan r) (p_killed r) (p_xstate r) (p_pid r) (p_tickets r) (p_parent r) (p_kstack r) (p_sz r) (p_pagetable r) v (p_context r) (p_ofile r) (p_cwd r) (p_name r).
Definition set_p_context (v : context) (r : proc) : proc :=
  mkproc (p_state r) (p_chan r) (p_killed r) (p_xstate r) (p_pid r) (p_tickets r) (p_parent r) (p_kstack r) (p_sz r) (p_pagetable r) (p_trapframe r) v (p_ofile r) (p_cwd r) (p_name r).
Definition set_p_ofile (v : list (option nat)) (r : proc) : proc :=
  mkproc (p_state r) (p_chan r) (p_killed r) (p_xstate r) (p_pid r) (p_tickets r) (p_parent r) (p_kstack r) (p_sz r) (p_pagetable r) (p_trapframe r) (p_context r) v (p_cwd r) (p_name r).
Definition set_p_cwd (v : option nat) (r : proc) : proc :=
  mkproc (p_state r) (p_chan r) (p_killed r) (p_xstate r) (p_pid r) (p_tickets r) (p_parent r) (p_kstack r) (p_sz r) (p_pagetable r) (p_trapframe r) (p_context r) (p_ofile r) v (p_name r).
Definition set_p_name (v : list Z) (r : proc) : proc :=
  mkproc (p_state r) (p_chan r) (p_killed r) (p_xstate r) (p_pid r) (p_tickets r) (p_parent r) (p_kstack r) (p_sz r) (p_pagetable r) (p_trapframe r) (p_context r) (p_ofile r) (p_cwd r) v.

(** A zeroed [struct proc] (static storage). *)
Definition proc0 : proc :=
  mkproc UNUSED A_null 0 0 0 0 None 0 0 0 0 context0 (replicate NOFILE None) None (replicate 16 0).

(** The state of [proc.c] seen from one hart: the process table, this hart's
    [struct cpu] ([c_proc], [c_context] and, in [lk], [noff] and [intena]),
    the callee-saved registers, and the globals. *)
Record pstate := mkpstate {
  procs : list proc;
  lk : lockst;
  c_proc : option nat;
  c_context : context;
  regs : context;
  nextpid : Z;
  initproc : option nat;
  scheduler_mode : Z;
  seed : Z;
  ticks : Z
}.

Definition set_procs (v : list proc) (r : pstate) : pstate :=
  mkpstate v (lk r) (c_proc r) (c_context r) (regs r) (nextpid r) (initproc r) (scheduler_mode r) (seed r) (ticks r).
Definition set_lk (v : lockst) (r : pstate) : pstate :=
  mkpstate (procs r) v (c_proc r) (c_context r) (regs r) (nextpid r) (initproc r) (scheduler_mode r) (seed r) (ticks r).
Definition set_c_proc (v : option nat) (r : pstate) : pstate :=
  mkpstate (procs r) (lk r) v (c_context r) (regs r) (nextpid r) (initproc r) (scheduler_mode r) (seed r) (ticks r).
Definition set_c_context (v : context) (r : pstate) : pstate :=
  mkpstate (procs r) (lk r) (c_proc r) v (regs r) (nextpid r) (initproc r) (scheduler_mode r) (seed r) (ticks r).
Definition set_regs (v : context) (r : pstate) : pstate :=
  mkpstate (procs r) (lk r) (c_proc r) (c_context r) v (nextpid r) (initproc r) (scheduler_mode r) (seed r) (ticks r).
Definition set_nextpid (v : Z) (r : pstate) : pstate :=
  mkpstate (procs r) (lk r) (c_proc r) (c_context r) (regs r) v (initproc r) (scheduler_mode r) (seed r) (ticks r).
Definition set_initproc (v : option nat) (r : pstate) : pstate :=
  mkpstate (procs r) (lk r) (c_proc r) (c_context r) (regs r) (nextpid r) v (scheduler_mode r) (seed r) (ticks r).
Definition set_scheduler_mode (v : Z) (r : pstate) : pstate :=
  mkpstate (procs r) (lk r) (c_proc r) (c_context r) (regs r) (nextpid r) (initproc r) v (seed r) (ticks r).
Definition set_seed (v : Z) (r : pstate) : pstate :=
  mkpstate (procs r) (lk r) (c_proc r) (c_context r) (regs r) (nextpid r) (initproc r) (scheduler_mode r) v (ticks r).
Definition set_ticks (v : Z) (r : pstate) : pstate :=
  mkpstate (procs r) (lk r) (c_proc r) (c_context r) (regs r) (nextpid r) (initproc r) (scheduler_mode r) (seed r) v.

#[export] Instance proc_inhabited : Inhabited proc := populate proc0.

Definition proc_at (i : nat) (s : pstate) : proc := procs s !!! i.
Definition upd_proc (i : nat) (f : proc → proc) (s : pstate) : pstate :=
  set_procs (alter f i (procs s)) s.

(** Console output of [procdump]: pid, state and name of a process. *)
Inductive pevent : Type :=
| EvNewline
| EvProcLine (pid : Z) (st : string) (name : list Z).

Abbreviation P := (M pevent pstate).

(** Run a lock routine on the lock state. *)
Definition lift_lk {A} (m : M pevent lockst A) : P A := λ s,
  match m (lk s) with
  | Done a l t => Done a (set_lk l s) t
  | Panic msg l t => Panic msg (set_lk l s) t
  | Asleep c l t => Asleep c (set_lk l s) t
  | Spin l t => Spin (set_lk l s) t
  end.

(** The channel that is the address of a process ([0] for a null pointer). *)
Definition proc_chan (p : option nat) : addr :=
  match p with Some i => A_proc i | None => A_null end.

(** ** Operations *)

Section ops.
Context (me : nat).

Definition acquire_lk (l : lockid) : P unit := lift_lk (Spinlock.acquire me l).
Definition release_lk (l : lockid) : P unit := lift_lk (Spinlock.release me l).

Definition myproc : P (option nat) :=
  lift_lk push_off ;;
  let! p := gets c_proc in
  lift_lk pop_off ;;
  ret p.

(** [p->...] for [p = myproc()]: dereferencing a null pointer in the kernel
    faults and ends in [kerneltrap]'s panic. *)
Definition mypr : P nat :=
  let! p := myproc in
  match p with Some i => ret i | None => panic "kerneltrap" end.

Definition allocpid : P Z :=
  acquire_lk L_pid ;;
  let! pid := gets nextpid in
  modify (λ s, set_nextpid (i32 (nextpid s + 1)) s) ;;
  release_lk L_pid ;;
  ret pid.

Definition procinit : P unit :=
  lift_lk (modify (initlock L_pid "nextpid")) ;;
  lift_lk (modify (initlock L_wait "wait_lock")) ;;
  for_upto NPROC (λ i,
    lift_lk (modify (initlock (L_proc i) "proc")) ;;
    modify (upd_proc i (λ p, set_p_kstack (KSTACK (Z.of_nat i)) (set_p_state UNUSED p)))).

(** [swtch(&p->context, &mycpu()->context)] and back. *)
Definition swtch_out (i : nat) : P unit :=
  modify (λ s, set_regs (c_context s) (upd_proc i (set_p_context (regs s)) s)).
Definition swtch_in (i : nat) : P unit :=
  modify (λ s, set_regs (p_context (proc_at i s)) (set_c_context (regs s) s)).

(** [sched()] up to and including its [swtch]; the result is the saved
    [intena], restored by [sched_back] when the process runs again. *)
Definition sched : P bool :=
  let! i := mypr in
  let! h := lift_lk (holding me (L_proc i)) in
  if negb h then panic "sched p->lock" else
  let! c := gets (λ s, mycpu (lk s)) in
  if negb (noff c =? 1) then panic "sched locks" else
  let! p := gets (proc_at i) in
  if bool_decide (p_state p = RUNNING) then panic "sched running" else
  let! on := lift_lk intr_get in
  if on then panic "sched interruptible" else
  let! c := gets (λ s, mycpu (lk s)) in
  swtch_out i ;;
  ret (intena c).
Definition sched_back (ie : bool) : P unit :=
  lift_lk (modify (upd_cpu (λ h, mkhart (noff h) ie (sie h)))).

(** [yield()]: up to the switch, and after it ([i] is the local [p]). *)
Definition yield : P bool :=
  let! i := mypr in
  acquire_lk (L_proc i) ;;
  modify (upd_proc i (set_p_state RUNNABLE)) ;;
  sched.
Definition yield_back (i : nat) (ie : bool) : P unit :=
  sched_back ie ;;
  release_lk (L_proc i).

(** [sleep(chan, lk)]: up to the switch, and after it. *)
Definition sleep (chan : addr) (l : lockid) : P bool :=
  let! i := mypr in
  acquire_lk (L_proc i) ;;
  release_lk l ;;
  modify (upd_proc i (set_p_chan chan)) ;;
  modify (upd_proc i (set_p_state SLEEPING)) ;;
  sched.
Definition sleep_back (i : nat) (l : lockid) (ie : bool) : P unit :=
  sched_back ie ;;
  modify (upd_proc i (set_p_chan A_null)) ;;
  release_lk (L_proc i) ;;
  acquire_lk l.

(** One iteration of [wakeup]'s loop. *)
Definition wakeup1 (chan : addr) (i : nat) : P unit :=
  let! p := myproc in
  if bool_decide (Some i ≠ p) then
    acquire_lk (L_proc i) ;;
    let! p := gets (proc_at i) in
    (if bool_decide (p_state p = SLEEPING) && bool_decide (p_chan p = chan)
     then modify (upd_proc i (set_p_state RUNNABLE)) else ret tt) ;;
    release_lk (L_proc i)
  else ret tt.
Definition wakeup (chan : addr) : P unit := for_upto NPROC (wakeup1 chan).

(** One iteration of [kill]'s loop; [Some] is the [return]. *)
Definition kill1 (pid : Z) (i : nat) : P (option Z) :=
  acquire_lk (L_proc i) ;;
  let! p := gets (proc_at i) in
  if p_pid p =? pid then
    modify (upd_proc i (set_p_killed 1)) ;;
    (if bool_decide (p_state p = SLEEPING)
     then modify (upd_proc i (set_p_state RUNNABLE)) else ret tt) ;;
    release_lk (L_proc i) ;;
    ret (Some 0)
  else
    release_lk (L_proc i) ;;
    ret None.
Definition kill (pid : Z) : P Z :=
  let! r := for_find NPROC (kill1 pid) in
  ret (default (-1) r).

Definition setkilled (i : nat) : P unit :=
  acquire_lk (L_proc i) ;;
  modify (upd_proc i (set_p_killed 1)) ;;
  release_lk (L_proc i).

Definition killed (i : nat) : P Z :=
  acquire_lk (L_proc i) ;;
  let! k := gets (λ s, p_killed (proc_at i s)) in
  release_lk (L_proc i) ;;
  ret k.

(** [reparent(p)]; the caller holds [wait_lock]. *)
Definition reparent (p : nat) : P unit :=
  for_upto NPROC (λ i,
    let! pp := gets (proc_at i) in
    if bool_decide (p_parent pp = Some p) then
      let! ip := gets initproc in
      modify (upd_proc i (set_p_parent ip)) ;;
      wakeup (proc_chan ip)
    else ret tt).

Definition settickets (n : Z) : P unit :=
  let! i := mypr in
  acquire_lk (L_proc i) ;;
  modify (upd_proc i (set_p_tickets n)) ;;
  release_lk (L_proc i).

Definition state_name (st : procstate) : string :=
  match st with
  | UNUSED => "unused" | USED => "used" | SLEEPING => "sleep "
  | RUNNABLE => "runble" | RUNNING => "run   " | ZOMBIE => "zombie"
  end.

Definition procdump : P unit :=
  emit EvNewline ;;
  for_upto NPROC (λ i,
    let! p := gets (proc_at i) in
    if bool_decide (p_state p = UNUSED) then ret tt else
    emit (EvProcLine (p_pid p) (state_name (p_state p)) (p_name p)) ;;
    emit EvNewline).
End ops.

(** ** Running the critical sections *)

(** The hart and the process locks are in the state a caller outside any
    process critical section finds them in. *)
Record ready (s : pstate) : Prop := {
  rd_len : length (procs s) = NPROC;
  rd_hart : hart_ok (mycpu (lk s));
  rd_noff : noff (mycpu (lk s)) < 1000;
  rd_free : ∀ i, (i < NPROC)%nat → is_free (L_proc i) (lk s)
}.

(** Only the saved [intena] of an un-nested hart differs. *)
Definition touch (s : pstate) : pstate := set_lk (upd_cpu touched (lk s)) s.

Lemma bind_acquire {A} me l (k : unit → P A) s :
  is_free l (lk s) → hart_ok (mycpu (lk s)) → noff (mycpu (lk s)) < INT_MAX →
  bind (acquire_lk me l) k s = k tt (set_lk (locked_by me l (lk s)) s).
Proof.
  intros Hf Hh Hn. apply bind_done. unfold acquire_lk, lift_lk. by rewrite acquire_run.
Qed.

Lemma release_lk_run me l l0 s :
  lk s = locked_by me l l0 → is_free l l0 → hart_ok (mycpu l0) → noff (mycpu l0) < INT_MAX →
  release_lk me l s = Done tt (set_lk (upd_cpu touched l0) s) [].
Proof. intros Hl Hf Hh Hn. unfold release_lk, lift_lk. by rewrite Hl, acquire_release. Qed.

Lemma bind_myproc {A} (k : option nat → P A) s :
  hart_ok (mycpu (lk s)) → noff (mycpu (lk s)) < INT_MAX - 1 →
  bind myproc k s = k (c_proc s) (touch s).
Proof.
  intros Hh Hn. unfold myproc. rewrite !bind_assoc.
  assert (lift_lk push_off s = Done tt (set_lk (upd_cpu (pushed 1) (lk s)) s) []) as Hpush.
  { unfold lift_lk. by rewrite push_off_run by first [lia|done]. }
  rewrite (bind_done _ _ _ _ _ Hpush). mrun.
  erewrite bind_done; [mrun; reflexivity|].
  unfold lift_lk; simpl. change (upd_cpu (pushed 1) (lk s)) with (mklockst (pushed (0 + 1) (mycpu (lk s))) (locks (lk s))).
  rewrite pop_off_run; [done|lia|done|lia].
Qed.

Ltac klia := unfold INT_MAX, INT_MIN in *; lia.

Lemma touch_touch s : touch (touch s) = touch s.
Proof. unfold touch, set_lk, upd_cpu; simpl. by rewrite touched_idemp. Qed.
Lemma touch_upd_proc i f s : touch (upd_proc i f s) = upd_proc i f (touch s).
Proof. done. Qed.
Lemma is_free_touch l s : is_free l (lk (touch s)) ↔ is_free l (lk s).
Proof. done. Qed.
Lemma proc_at_touch i s : proc_at i (touch s) = proc_at i s.
Proof. done. Qed.

Lemma ready_touch s : ready s → ready (touch s).
Proof.
  intros [Hl Hh Hn Hf]. split; [done|by apply touched_ok| |done].
  simpl. by rewrite touched_noff.
Qed.
Lemma ready_upd i f s : ready s → ready (upd_proc i f s).
Proof. intros [Hl Hh Hn Hf]. split; simpl; [by rewrite length_alter|done..]. Qed.
#[export] Hint Resolve ready_touch ready_upd : kernel.

(** A critical section of process [i]: run [k] with the lock held. *)
Lemma ready_acquire {A} me i (k : unit → P A) s : ready s → (i < NPROC)%nat →
  bind (acquire_lk me (L_proc i)) k s = k tt (set_lk (locked_by me (L_proc i) (lk s)) s).
Proof. intros [] Hi. apply bind_acquire; [eauto|done|klia]. Qed.

Lemma ready_release me i s s' : ready s → (i < NPROC)%nat →
  lk s' = locked_by me (L_proc i) (lk s) →
  release_lk me (L_proc i) s' = Done tt (set_lk (upd_cpu touched (lk s)) s') [].
Proof. intros [] Hi Hl. apply release_lk_run; [done|eauto|done|klia]. Qed.

Lemma ready_myproc {A} (k : option nat → P A) s : ready s →
  bind myproc k s = k (c_proc s) (touch s).
Proof. intros []. apply bind_myproc; [done|klia]. Qed.

Lemma upd_proc_id i s : upd_proc i (λ p, p) s = s.
Proof.
  destruct s. unfold upd_proc, set_procs; simpl. f_equal.
  apply list_alter_id. done.
Qed.

Lemma upd_proc_ext i f g s : f (proc_at i s) = g (proc_at i s) → upd_proc i f s = upd_proc i g s.
Proof.
  intros H. unfold upd_proc. f_equal. apply list_eq. intros j.
  rewrite !list_lookup_alter. case_decide; [subst j|done].
  unfold proc_at in H. destruct (procs s !! i) as [p|] eqn:Hp; simpl; [|done].
  by rewrite (list_lookup_total_correct _ _ _ Hp) in H; rewrite H.
Qed.

Lemma upd_proc_upd i f g s : upd_proc i f (upd_proc i g s) = upd_proc i (λ p, f (g p)) s.
Proof.
  unfold upd_proc, set_procs; simpl. f_equal. apply list_eq. intros j.
  rewrite !list_lookup_alter. repeat case_decide; try done. by destruct (procs s !! i).
Qed.

(** What [wakeup(chan)], called by process [me], does to process [i]. *)
Definition woken (me : option nat) (chan : addr) (i : nat) (p : proc) : proc :=
  if bool_decide (Some i ≠ me) && (bool_decide (p_state p = SLEEPING) && bool_decide (p_chan p = chan))
  then set_p_state RUNNABLE p else p.

(** A critical section that changes process [i] by [f]. *)
Lemma section_run me i f s : ready s → (i < NPROC)%nat →
  release_lk me (L_proc i) (upd_proc i f (set_lk (locked_by me (L_proc i) (lk s)) s)) =
  Done tt (upd_proc i f (touch s)) [].
Proof. intros Hr Hi. by rewrite (ready_release me i s). Qed.

Lemma section_run_id me i s : ready s → (i < NPROC)%nat →
  release_lk me (L_proc i) (set_lk (locked_by me (L_proc i) (lk s)) s) = Done tt (touch s) [].
Proof. intros Hr Hi. by rewrite (ready_release me i s). Qed.

Lemma wakeup1_run me chan i s : ready s → (i < NPROC)%nat →
  wakeup1 me chan i s = Done tt (upd_proc i (woken (c_proc s) chan i) (touch s)) [].
Proof.
  intros Hr Hi. unfold wakeup1. rewrite ready_myproc by done.
  case_bool_decide as Hme.
  - rewrite ready_acquire by eauto with kernel. mrun. rewrite bind_if.
    destruct (bool_decide _ && bool_decide _) eqn:Hb; mrun.
    + rewrite section_run, touch_touch by eauto with kernel. f_equal.
      apply upd_proc_ext. unfold woken. rewrite (bool_decide_true (Some i ≠ _)) by done.
      change (proc_at i (touch s)) with (proc_at i s) in *.
      change (proc_at i (set_lk _ _)) with (proc_at i s) in Hb. by rewrite Hb.
    + rewrite section_run_id, touch_touch by eauto with kernel. f_equal.
      rewrite <-(upd_proc_id i (touch s)) at 1. apply upd_proc_ext.
      change (proc_at i (set_lk _ _)) with (proc_at i s) in Hb.
      change (proc_at i (touch s)) with (proc_at i s).
      unfold woken. rewrite Hb. by rewrite andb_false_r.
  - unfold ret. f_equal. rewrite <-(upd_proc_id i (touch s)) at 1. apply upd_proc_ext.
    unfold woken. by rewrite bool_decide_false by naive_solver.
Qed.

(** A loop over the table whose body changes the process it visits. *)
Lemma for_procs (body : nat → P unit) (g : nat → proc → proc) (I : pstate → Prop) :
  (∀ i s, I s → (i < NPROC)%nat → body i s = Done tt (upd_proc i (g i) (touch s)) []) →
  (∀ i s, I s → I (upd_proc i (g i) (touch s))) →
  (∀ s, I s → length (procs s) = NPROC) →
  ∀ n i s, I s → (0 < n)%nat → (i + n = NPROC)%nat →
  for_from n i body s =
  Done tt (set_procs (imap (λ j p, if decide (i ≤ j)%nat then g j p else p) (procs s)) (touch s)) [].
Proof.
  intros Hb HI Hlen n. induction n as [|n IH]; intros i s Hs Hn Hi; [lia|].
  simpl. rewrite (bind_done _ _ _ _ _ (Hb i s Hs ltac:(lia))).
  assert (∀ j p, procs s !! j = Some p → (j < NPROC)%nat) as Hj.
  { intros j p Hp. rewrite <-(Hlen s Hs). by eapply lookup_lt_Some. }
  destruct n as [|n].
  - simpl. unfold ret. f_equal. unfold upd_proc. f_equal. apply list_eq. intros j.
    rewrite list_lookup_alter, list_lookup_imap. simpl.
    destruct (decide (i = j)) as [->|]; destruct (procs s !! _) eqn:Hp; simpl; try done.
    + by rewrite decide_True by lia.
    + apply Hj in Hp. by rewrite decide_False by lia.
  - rewrite IH by (auto || lia). rewrite touch_upd_proc, touch_touch. f_equal.
    unfold upd_proc, set_procs; simpl. f_equal. apply list_eq. intros j.
    rewrite !list_lookup_imap, list_lookup_alter.
    destruct (decide (i = j)) as [->|]; destruct (procs s !! _) eqn:Hp; simpl; try done.
    + by rewrite decide_False, decide_True by lia.
    + f_equal. repeat case_decide; try done; lia.
Qed.

(** [wakeup] as a map over the table. *)
Lemma wakeup_run me chan s : ready s →
  wakeup me chan s = Done tt (set_procs (imap (woken (c_proc s) chan) (procs s)) (touch s)) [].
Proof.
  intros Hr. unfold wakeup, for_upto.
  rewrite (for_procs _ (woken (c_proc s) chan) (λ s', ready s' ∧ c_proc s' = c_proc s)).
  - do 2 f_equal.
  - intros i s' [Hs' <-] Hi. by apply wakeup1_run.
  - intros i s' [Hs' Hc]. split; [eauto with kernel|done].
  - by intros s' [[] _].
  - done.
  - unfold NPROC. lia.
  - done.
Qed.

(** ** Giving up the CPU *)

Section yielding.
Context (me : nat).

(** The lock table while this hart holds the lock of process [i] and nothing
    else it did not hold before. *)
Lemma touched_locked l (ls : lockst) : hart_ok (mycpu ls) → upd_cpu touched (locked_by me l ls) = locked_by me l ls.
Proof.
  intros [H0 _]. destruct ls as [h lks]. unfold locked_by, upd_lock, upd_cpu, touched, pushed; simpl in *.
  destruct (Z.eqb_spec (noff h + 1) 0); [lia|]. done.
Qed.
Lemma locked_ok l (ls : lockst) : hart_ok (mycpu ls) → hart_ok (mycpu (locked_by me l ls)) ∧ noff (mycpu (locked_by me l ls)) = noff (mycpu ls) + 1.
Proof. intros [H0 H1]. simpl. split; [|done]. split; simpl; [lia|done]. Qed.
Lemma free_locked l l' (ls : lockst) : l ≠ l' → is_free l ls → is_free l (locked_by me l' ls).
Proof. intros Hne [n Hn]. exists n. unfold locked_by, upd_lock, upd_cpu; simpl. by rewrite lookup_insert_ne. Qed.

Lemma proc_at_upd x j f : (j < length (procs x))%nat → proc_at j (upd_proc j f x) = f (proc_at j x).
Proof.
  intros Hj. unfold proc_at. simpl. apply list_lookup_total_correct. rewrite list_lookup_alter_eq.
  by rewrite (list_lookup_lookup_total_lt (procs x) j) by done.
Qed.
Lemma proc_at_upd_ne x j k f : j ≠ k → proc_at k (upd_proc j f x) = proc_at k x.
Proof. intros Hne. unfold proc_at. simpl. rewrite !list_lookup_total_alt. by rewrite list_lookup_alter_ne. Qed.

Lemma mypr_run i x : hart_ok (mycpu (lk x)) → noff (mycpu (lk x)) < 1000 → c_proc x = Some i →
  mypr x = Done i (touch x) [].
Proof. intros Hh Hn Hi. unfold mypr. rewrite bind_myproc by (done || klia). by rewrite Hi. Qed.

(** The process gives up the CPU with its lock held. *)
Definition yielded (i : nat) (x : pstate) : pstate :=
  set_regs (c_context x) (upd_proc i (λ p, set_p_context (regs x) (set_p_state RUNNABLE p)) (set_lk (locked_by me (L_proc i) (lk x)) x)).

Lemma yield_touched i x : ready x → c_proc x = Some i → (i < NPROC)%nat → noff (mycpu (lk x)) = 0 → touch x = x →
  yield me x = Done (sie (mycpu (lk x))) (yielded i x) [].
Proof.
  intros Hr Hi Hlt H0 Ht. pose proof Hr as [Hl Hh Hn Hp]. unfold yield.
  rewrite (bind_done _ _ _ _ _ (mypr_run i x Hh Hn Hi)).
  rewrite Ht, ready_acquire by done. mrun. unfold sched.
  destruct (locked_ok (L_proc i) (lk x) Hh) as [Hh1 Hn1].
  set (x1 := upd_proc _ _ _). assert (lk x1 = locked_by me (L_proc i) (lk x)) as Hx1 by done.
  rewrite (bind_done _ _ _ _ _ (mypr_run i x1 ltac:(by rewrite Hx1) ltac:(rewrite Hx1; klia) Hi)).
  assert (touch x1 = x1) as -> by (unfold touch; rewrite Hx1, touched_locked by done; by rewrite <- Hx1; destruct x1).
  assert (lift_lk (holding me (L_proc i)) x1 = Done true x1 []) as Hhold.
  { unfold lift_lk, holding, gets. rewrite Hx1. unfold locked_by at 1. rewrite lock_of_upd; simpl.
    rewrite bool_decide_true by (unfold locked_by; by rewrite lock_of_upd). rewrite <- Hx1. by destruct x1. }
  rewrite (bind_done _ _ _ _ _ Hhold). mrun.
  cbn [negb]. rewrite bind_gets, Hx1, Hn1, H0. change (negb (0 + 1 =? 1)) with false. cbv iota.
  assert (p_state (proc_at i x1) = RUNNABLE) as Hst by (unfold x1; rewrite proc_at_upd by (simpl; lia); done).
  rewrite bind_gets, Hst. rewrite bool_decide_false by done.
  assert (lift_lk intr_get x1 = Done false x1 []) as Hoff.
  { unfold lift_lk, intr_get, gets. rewrite Hx1. change (sie (mycpu (locked_by me (L_proc i) (lk x)))) with false. rewrite <- Hx1. by destruct x1. }
  rewrite (bind_done _ _ _ _ _ Hoff), bind_gets, Hx1. unfold swtch_out. rewrite bind_modify. unfold ret. f_equal.
  - simpl. by rewrite H0.
  - unfold yielded, x1. rewrite upd_proc_upd. done.
Qed.

Lemma yield_run i x : ready x → c_proc x = Some i → (i < NPROC)%nat → noff (mycpu (lk x)) = 0 →
  yield me x = Done (sie (mycpu (lk x))) (yielded i x) [].
Proof.
  intros Hr Hi Hlt H0. pose proof Hr as [_ Hh Hn _]. pose proof (ready_touch x Hr) as [_ Hh' Hn' _].
  assert (yield me x = yield me (touch x)) as ->.
  { unfold yield. rewrite (bind_done _ _ _ _ _ (mypr_run i x Hh Hn Hi)).
    by rewrite (bind_done _ _ _ _ _ (mypr_run i (touch x) Hh' Hn' Hi)), touch_touch. }
  rewrite (yield_touched i) by (eauto using ready_touch, touch_touch || (simpl; by rewrite touched_noff)).
  change (sie (mycpu (lk (touch x)))) with (sie (touched (mycpu (lk x)))). rewrite touched_sie.
  assert (locked_by me (L_proc i) (lk (touch x)) = locked_by me (L_proc i) (lk x)) as Hl.
  { unfold locked_by, upd_lock, upd_cpu; simpl. by rewrite pushed_touched. }
  unfold yielded. by rewrite Hl.
Qed.

(** Process [i] holds its lock, and nothing else, as [sched] wants it. *)
Definition own_lock (i : nat) (x : pstate) : Prop :=
  (∃ n, locks (lk x) !! L_proc i = Some (mkspinlock 1 n (Some me))) ∧ noff (mycpu (lk x)) = 1 ∧ sie (mycpu (lk x)) = false.

Lemma own_release i x : own_lock i x →
  ∃ ls, release_lk me (L_proc i) x = Done tt (set_lk ls x) [] ∧
    mycpu ls = mkhart 0 (intena (mycpu (lk x))) (intena (mycpu (lk x))) ∧ is_free (L_proc i) ls ∧
    ∀ l, l ≠ L_proc i → locks ls !! l = locks (lk x) !! l.
Proof.
  intros ([n Hn] & H1 & Hs). unfold release_lk, lift_lk.
  set (ie := intena (mycpu (lk x))).
  rewrite (release_run me (L_proc i) (mkhart 0 ie ie) n); [|done|done|done|].
  - eexists. split; [done|]. split; [done|]. split; [exists n; simpl; by rewrite lookup_insert_eq|].
    intros l Hl. simpl. by rewrite lookup_insert_ne.
  - unfold pushed; simpl. subst ie. destruct (mycpu (lk x)); simpl in *. by subst.
Qed.

Lemma back_run i ie x : own_lock i x →
  ∃ ls, yield_back me i ie x = Done tt (set_lk ls x) [] ∧ mycpu ls = mkhart 0 ie ie ∧ is_free (L_proc i) ls ∧
    ∀ l, l ≠ L_proc i → locks ls !! l = locks (lk x) !! l.
Proof.
  intros (Hn & H1 & Hs). unfold yield_back, sched_back. erewrite bind_done by done.
  destruct (own_release i (set_lk (upd_cpu (λ h, mkhart (noff h) ie (sie h)) (lk x)) x)) as (ls & Hrel & Hls); [done|].
  exists ls. split; [|done]. exact Hrel.
Qed.

Lemma yielded_own i x : (i < NPROC)%nat → ready x → noff (mycpu (lk x)) = 0 → own_lock i (yielded i x).
Proof.
  intros Hi [_ _ _ Hf] H0. destruct (Hf i Hi) as [n Hn]. unfold own_lock, yielded. simpl.
  rewrite H0. split; [|done]. exists n. rewrite lookup_insert_eq. unfold lock_of. simpl. by rewrite Hn.
Qed.
End yielding.

(** ** Boot *)

(** The state before [procinit]: static storage is zero. *)
Definition zero_state : pstate :=
  mkpstate (replicate NPROC proc0) (mklockst (mkhart 0 false false) ∅) None context0 context0
    1 None 0 seed0 0.

(** The table after [procinit]. *)
Definition boot_state : pstate :=
  match procinit zero_state with Done _ s _ | Panic _ s _ | Asleep _ s _ | Spin s _ => s end.

(** [ready] as a computation. *)
Definition lock_freeb (l : lockid) (s : lockst) : bool :=
  match locks s !! l with
  | Some k => (locked k =? 0) && bool_decide (lk_cpu k = None)
  | None => false
  end.
Definition readyb (s : pstate) : bool :=
  (length (procs s) =? NPROC)%nat &&
  ((0 <=? noff (mycpu (lk s))) && ((noff (mycpu (lk s)) =? 0) || negb (sie (mycpu (lk s))))) &&
  (noff (mycpu (lk s)) <? 1000) &&
  forallb (λ i, lock_freeb (L_proc i) (lk s)) (seq 0 NPROC).

Lemma lock_freeb_free l s : lock_freeb l s = true → is_free l s.
Proof.
  unfold lock_freeb, is_free. destruct (locks s !! l) as [[v n c]|] eqn:Hl; [|done]. simpl.
  intros [->%Z.eqb_eq ->%bool_decide_eq_true]%andb_true_iff. eauto.
Qed.

Lemma readyb_ready s : readyb s = true → ready s.
Proof.
  unfold readyb. rewrite !andb_true_iff. intros [[[Hl [H0 Hs]] Hn] Hf].
  split; [by apply Nat.eqb_eq| |lia|].
  - split; [lia|]. apply orb_true_iff in Hs as [Hs|Hs]; [lia|].
    intros _. by destruct (sie _).
  - intros i Hi. apply lock_freeb_free. rewrite forallb_forall in Hf. apply Hf, in_seq. lia.
Qed.

Lemma boot_ready : ready boot_state.
Proof. apply readyb_ready. vm_compute. done. Qed.

(** A table in which the first processes are [ps]. *)
Definition with_procs (ps : list proc) : pstate :=
  set_procs (ps ++ drop (length ps) (procs boot_state)) boot_state.
Definition sample (st : procstate) (pid tickets : Z) : proc :=
  set_p_state st (set_p_pid pid (set_p_tickets tickets proc0)).
