(* ===== verification/Sched.v ===== *)
(** The per-CPU scheduler ([scheduler] in [proc.c]) with its round-robin and
    lottery modes.

    The loop is a coroutine: it runs until it switches to a process, and is
    resumed when that process switches back. [sched_pc] says where it was.
    [scheduler_step] runs it from there to the next switch, or to the end of
    one pass of the outer loop when no process was run. *)
From Stdlib Require Import ZArith Lia Sorted.
From stdpp Require Import base list gmap strings numbers.
From S2P Require Import Prelude Machine Random Spinlock Proc.

(** ** The code *)

Inductive sched_pc : Type :=
| Top                    (** at [intr_on()], the head of [for(;;)] *)
| LotteryRan (i : nat)   (** back from process [i] in the lottery branch *)
| RRRan (i : nat).       (** back from process [i] in the round-robin loop *)

Section code.
Context (me : nat).

(** Body of the first lottery loop. *)
Definition count1 (total_tickets : Z) (i : nat) : P Z :=
  acquire_lk me (L_proc i) ;;
  let! p := gets (proc_at i) in
  let total_tickets :=
    if bool_decide (p_state p = RUNNABLE) then i32 (total_tickets + p_tickets p) else total_tickets in
  release_lk me (L_proc i) ;;
  ret total_tickets.

Fixpoint count_from (n i : nat) (total_tickets : Z) : P Z :=
  match n with
  | O => ret total_tickets
  | S n' => let! t := count1 total_tickets i in count_from n' (S i) t
  end.

(** Switch to process [i], whose lock is held. *)
Definition run_proc (i : nat) : P unit :=
  modify (upd_proc i (set_p_state RUNNING)) ;;
  modify (set_c_proc (Some i)) ;;
  swtch_in i.

(** The second lottery loop, from process [i] on; [Some i] when it switched to
    process [i], still holding its lock. *)
Fixpoint pick_from (n i : nat) (current_ticket_sum winning_ticket : Z) : P (option nat) :=
  match n with
  | O => ret None
  | S n' =>
      acquire_lk me (L_proc i) ;;
      let! p := gets (proc_at i) in
      if bool_decide (p_state p = RUNNABLE) then
        let current_ticket_sum := i32 (current_ticket_sum + p_tickets p) in
        if current_ticket_sum >? winning_ticket then
          run_proc i ;;
          ret (Some i)
        else
          release_lk me (L_proc i) ;;
          pick_from n' (S i) current_ticket_sum winning_ticket
      else
        release_lk me (L_proc i) ;;
        pick_from n' (S i) current_ticket_sum winning_ticket
  end.

(** The round-robin loop, from process [i] on. *)
Fixpoint rr_from (n i : nat) : P (option nat) :=
  match n with
  | O => ret None
  | S n' =>
      acquire_lk me (L_proc i) ;;
      let! p := gets (proc_at i) in
      if bool_decide (p_state p = RUNNABLE) then
        run_proc i ;;
        ret (Some i)
      else
        release_lk me (L_proc i) ;;
        rr_from n' (S i)
  end.

(** [c->proc = 0; release(&p->lock);], after a process has switched back. *)
Definition proc_done (i : nat) : P unit :=
  modify (set_c_proc None) ;;
  release_lk me (L_proc i).

(** [random(max)] on the global seed. *)
Definition draw (max : Z) : P Z :=
  let! r := gets (λ s, random max (seed s)) in
  modify (set_seed (snd r)) ;;
  ret (fst r).

Definition lottery : P (option nat) :=
  let! total_tickets := count_from NPROC 0 0 in
  if total_tickets =? 0 then ret None else
  let! winning_ticket := draw total_tickets in
  pick_from NPROC 0 0 winning_ticket.

(** One resumption of the scheduler: the next process it switches to, and
    where it will resume. *)
Definition scheduler_step (pc : sched_pc) : P (option nat * sched_pc) :=
  match pc with
  | Top =>
      lift_lk intr_on ;;
      let! mode := gets scheduler_mode in
      if mode =? 1 then
        let! r := lottery in
        ret (match r with Some i => (Some i, LotteryRan i) | None => (None, Top) end)
      else
        let! r := rr_from NPROC 0 in
        ret (match r with Some i => (Some i, RRRan i) | None => (None, Top) end)
  | LotteryRan i =>
      proc_done i ;;
      ret (None, Top)
  | RRRan i =>
      proc_done i ;;
      let! r := rr_from (NPROC - S i) (S i) in
      ret (match r with Some j => (Some j, RRRan j) | None => (None, Top) end)
  end.
End code.

(** ** What the lottery should do

    The tickets of a process in the draw, and the sum over a table. *)
Definition entries (p : proc) : Z := if bool_decide (p_state p = RUNNABLE) then p_tickets p else 0.
Fixpoint total (ps : list proc) : Z :=
  match ps with [] => 0 | p :: ps' => entries p + total ps' end.

(** The holder of ticket [w] when the tickets are numbered from 0 in table
    order. *)
Fixpoint holder (ps : list proc) (w : Z) : option nat :=
  match ps with
  | [] => None
  | p :: ps' => if w <? entries p then Some 0%nat else S <$> holder ps' (w - entries p)
  end.

(** Every runnable process holds at least one ticket and the tickets can be
    counted in an [int]. *)
Definition tickets_ok (ps : list proc) : Prop :=
  Forall (λ p, p_state p = RUNNABLE → 1 ≤ p_tickets p) ps ∧ total ps ≤ INT_MAX.

(** ** Proofs *)

Lemma entries_nonneg p : (p_state p = RUNNABLE → 1 ≤ p_tickets p) → 0 ≤ entries p.
Proof. intros H. unfold entries. case_bool_decide; [specialize (H H0); lia|lia]. Qed.

Lemma total_app ps qs : total (ps ++ qs) = total ps + total qs.
Proof. induction ps; simpl; lia. Qed.

Lemma total_nonneg ps : Forall (λ p, p_state p = RUNNABLE → 1 ≤ p_tickets p) ps → 0 ≤ total ps.
Proof.
  induction 1 as [|p ps Hp _ IH]; simpl; [lia|]. pose proof (entries_nonneg p Hp). lia.
Qed.

Lemma drop_S_proc s i : ready s → (i < NPROC)%nat →
  drop i (procs s) = proc_at i s :: drop (S i) (procs s).
Proof.
  intros [Hl _ _ _] Hi. apply drop_S. unfold proc_at. apply list_lookup_lookup_total_lt. lia.
Qed.

Lemma count1_run me t i s : ready s → (i < NPROC)%nat →
  count1 me t i s =
  Done (if bool_decide (p_state (proc_at i s) = RUNNABLE) then i32 (t + p_tickets (proc_at i s)) else t)
       (touch s) [].
Proof.
  intros Hr Hi. unfold count1. rewrite ready_acquire by done. mrun.
  rewrite (bind_done _ _ _ _ _ (section_run_id me i s Hr Hi)). done.
Qed.

(** The two loops as functions of the table, with [int] wrap-around. *)
Fixpoint pick_int (ps : list proc) (cur win : Z) : option nat :=
  match ps with
  | [] => None
  | p :: ps' =>
      if bool_decide (p_state p = RUNNABLE) then
        if i32 (cur + p_tickets p) >? win then Some 0%nat
        else S <$> pick_int ps' (i32 (cur + p_tickets p)) win
      else S <$> pick_int ps' cur win
  end.

(** The process a lottery round runs. *)
Definition winner (ps : list proc) (sd : Z) : option nat :=
  if i32 (total ps) =? 0 then None else pick_int ps 0 (fst (random (i32 (total ps)) sd)).

(** The seed after it. *)
Definition seed_next (ps : list proc) (sd : Z) : Z :=
  if i32 (total ps) =? 0 then sd else next_seed sd.

Lemma i32_add_i32 x y : i32 (i32 x + y) = i32 (x + y).
Proof. unfold i32. mach_lia. Qed.

(** The first loop adds up the tickets with [int] wrap-around. *)
Lemma count_from_run me n i t s : ready s → (i + n = NPROC)%nat → (0 < n)%nat → is_i32 t →
  count_from me n i t s = Done (i32 (t + total (drop i (procs s)))) (touch s) [].
Proof.
  revert i t s. induction n as [|n IH]; intros i t s Hr Hi Hn Ht; [lia|].
  simpl. rewrite (bind_done _ _ _ _ _ (count1_run me t i s Hr ltac:(lia))).
  rewrite (drop_S_proc s i) by (done || lia). simpl. unfold entries.
  set (t' := if bool_decide _ then _ else t).
  assert (t' = i32 (t + entries (proc_at i s))) as Ht'.
  { unfold t', entries. case_bool_decide; [done|]. rewrite Z.add_0_r. symmetry. by apply i32_small. }
  fold (entries (proc_at i s)). rewrite Z.add_assoc, <-i32_add_i32, <-Ht'.
  destruct n as [|n].
  - simpl. rewrite drop_ge by (destruct Hr as [-> _ _ _]; lia). simpl.
    rewrite Z.add_0_r, Ht', (i32_small (i32 _)) by apply i32_range. done.
  - rewrite IH; [by rewrite touch_touch|eauto with kernel|lia|lia|].
    rewrite Ht'. apply i32_range.
Qed.

(** The state in which process [i] starts running: its lock is held, it is
    RUNNING and the current process of this CPU, and the registers are its
    saved context, the scheduler's being saved in [c->context]. *)
Definition dispatched (me i : nat) (s : pstate) : pstate :=
  set_regs (p_context (proc_at i s))
    (set_c_context (regs s)
      (set_c_proc (Some i)
        (upd_proc i (set_p_state RUNNING) (set_lk (locked_by me (L_proc i) (lk s)) s)))).

Lemma dispatched_touch me i s : dispatched me i (touch s) = dispatched me i s.
Proof.
  unfold dispatched. f_equal. f_equal. f_equal. unfold touch. simpl. f_equal.
  unfold set_lk; simpl. f_equal. unfold locked_by, upd_lock, upd_cpu; simpl.
  by rewrite pushed_touched.
Qed.

Lemma run_proc_run me i s : ready s → (i < NPROC)%nat →
  run_proc i (set_lk (locked_by me (L_proc i) (lk s)) s) = Done tt (dispatched me i s) [].
Proof.
  intros [Hl _ _ _] Hi. unfold run_proc. mrun. unfold swtch_in, modify, dispatched. f_equal.
  f_equal. simpl. unfold proc_at; simpl.
  rewrite list_lookup_total_alter_eq by lia. done.
Qed.

(** The second loop. *)
Lemma pick_from_run me n i cur win s : ready s → (i + n = NPROC)%nat → (0 < n)%nat →
  pick_from me n i cur win s =
  match pick_int (drop i (procs s)) cur win with
  | Some j => Done (Some (i + j)%nat) (dispatched me (i + j) s) []
  | None => Done None (touch s) []
  end.
Proof.
  revert i cur s. induction n as [|n IH]; intros i cur s Hr Hi Hn; [lia|].
  simpl. rewrite ready_acquire by (done || lia). mrun.
  rewrite (drop_S_proc s i) by (done || lia). simpl.
  change (proc_at i (set_lk _ s)) with (proc_at i s).
  assert (∀ cur', bind (release_lk me (L_proc i)) (λ _, pick_from me n (S i) cur' win)
     (set_lk (locked_by me (L_proc i) (lk s)) s) =
     match S <$> pick_int (drop (S i) (procs s)) cur' win with
     | Some j => Done (Some (i + j)%nat) (dispatched me (i + j) s) []
     | None => Done None (touch s) [] end) as Hrel.
  { intros cur'. rewrite (bind_done _ _ _ _ _ (section_run_id me i s Hr ltac:(lia))).
    destruct n as [|n].
    - simpl. rewrite drop_ge by (destruct Hr as [-> _ _ _]; lia). done.
    - rewrite IH; [|eauto with kernel|lia|lia].
      change (procs (touch s)) with (procs s).
      destruct (pick_int _ cur' win) as [j|] eqn:Hp; simpl.
      + rewrite dispatched_touch. by rewrite <-Nat.add_succ_comm.
      + by rewrite touch_touch. }
  case_bool_decide as Hrun.
  - destruct (Z.gtb_spec (i32 (cur + p_tickets (proc_at i s))) win).
    + rewrite (bind_done _ _ _ _ _ (run_proc_run me i s Hr ltac:(lia))).
      by rewrite Nat.add_0_r.
    + apply Hrel.
  - apply Hrel.
Qed.

(** One lottery round, whatever the tickets. *)
Lemma lottery_run me s : ready s →
  lottery me s =
  match winner (procs s) (seed s) with
  | Some i => Done (Some i) (dispatched me i (set_seed (seed_next (procs s) (seed s)) s)) []
  | None => Done None (touch (set_seed (seed_next (procs s) (seed s)) s)) []
  end.
Proof.
  intros Hr. unfold lottery, winner, seed_next.
  rewrite (bind_done _ _ (i32 (total (procs s))) s (touch s)); cycle 1.
  { rewrite count_from_run; [by rewrite drop_0|done|done|unfold NPROC; lia|unfold is_i32; klia]. }
  destruct (Z.eqb_spec (i32 (total (procs s))) 0) as [|Hne].
  - unfold ret. by destruct s.
  - unfold draw. mrun.
    assert (ready (set_seed (next_seed (seed s)) (touch s))) as Hr' by (destruct (ready_touch s Hr); by split).
    rewrite pick_from_run; [|done|done|unfold NPROC; lia].
    rewrite drop_0. simpl. destruct (pick_int _ _ _); simpl; f_equal.
    + exact (dispatched_touch me _ (set_seed _ s)).
    + exact (touch_touch (set_seed _ s)).
Qed.

(** ** The winner *)

Lemma holder_pick ps cur win :
  Forall (λ p, p_state p = RUNNABLE → 1 ≤ p_tickets p) ps → 0 ≤ cur → cur + total ps ≤ INT_MAX →
  cur ≤ win → pick_int ps cur win = holder ps (win - cur).
Proof.
  intros Hps. revert cur. induction Hps as [|p ps Hp Hps IH]; intros cur Hc Ht Hw; simpl in *; [done|].
  pose proof (total_nonneg ps Hps) as Hnn. unfold entries in *.
  case_bool_decide as Hrun.
  - specialize (Hp Hrun). rewrite (i32_small (cur + p_tickets p)) by (unfold is_i32; klia).
    destruct (Z.gtb_spec (cur + p_tickets p) win), (Z.ltb_spec (win - cur) (p_tickets p)); try lia; [done|].
    rewrite IH by lia. by replace (win - (cur + p_tickets p)) with (win - cur - p_tickets p) by lia.
  - destruct (Z.ltb_spec (win - cur) 0); [lia|]. rewrite IH by lia. by rewrite Z.sub_0_r.
Qed.

(** The tickets of the processes before the [i]-th. *)
Definition base (ps : list proc) (i : nat) : Z := total (take i ps).

Lemma holder_spec ps w i :
  Forall (λ p, p_state p = RUNNABLE → 1 ≤ p_tickets p) ps → 0 ≤ w →
  holder ps w = Some i ↔ ∃ p, ps !! i = Some p ∧ base ps i ≤ w < base ps i + entries p.
Proof.
  intros Hps. revert w i. induction Hps as [|p ps Hp Hps IH]; intros w i Hw; simpl.
  - split; [done|]. by intros (p & Hi & _).
  - pose proof (entries_nonneg p Hp) as Hnn. destruct (Z.ltb_spec w (entries p)) as [Hlt|Hge].
    + split.
      * intros [= <-]. exists p. split; [done|]. unfold base; simpl. lia.
      * intros (q & Hi & Hb). destruct i as [|i]; [done|]. unfold base in Hb. simpl in Hb.
        assert (0 ≤ total (take i ps)) by (apply total_nonneg, Forall_take, Hps). lia.
    + destruct i as [|i].
      * split.
        -- intros (j & ? & ?)%fmap_Some. done.
        -- intros (q & [= <-] & Hb). unfold base in Hb. simpl in Hb. lia.
      * transitivity (holder ps (w - entries p) = Some i).
        { rewrite fmap_Some. split; [intros (j & ? & [= ->]); done|intros; eauto]. }
        rewrite IH by lia. unfold base; simpl.
        split; intros (q & Hq & Hb); exists q; (split; [done|lia]).
Qed.

Lemma holder_total ps w :
  Forall (λ p, p_state p = RUNNABLE → 1 ≤ p_tickets p) ps → 0 ≤ w < total ps → is_Some (holder ps w).
Proof.
  intros Hps. revert w. induction Hps as [|p ps Hp Hps IH]; intros w Hw; simpl in *; [lia|].
  destruct (Z.ltb_spec w (entries p)); [eauto|].
  destruct (IH (w - entries p)) as [j ->]; [lia|]. eauto.
Qed.

Lemma winner_holder ps sd : tickets_ok ps → 0 < total ps →
  winner ps sd = holder ps (next_seed sd mod total ps).
Proof.
  intros [Hps Ht] Hpos. unfold winner.
  rewrite (i32_small (total ps)) by (unfold is_i32; klia).
  destruct (Z.eqb_spec (total ps) 0); [lia|].
  rewrite random_value by lia.
  pose proof (Z.mod_pos_bound (next_seed sd) (total ps) Hpos).
  rewrite holder_pick by (done || lia). by rewrite Z.sub_0_r.
Qed.

(** C2. When some process is runnable, every runnable process has at least one
    ticket and all their tickets together fit an [int], a lottery round draws
    ticket [w], the new seed modulo the number of tickets, and switches to the
    process that holds it: the one runnable process [i] such that [w] falls in
    the interval of its tickets when the tickets of the runnable processes are
    laid out in table order. Under these conditions the round does not end
    without running a process and does not panic, and process [i] starts with
    its lock held, RUNNING, current on this CPU, on its saved context. *)
Theorem lottery_runs_ticket_holder me s :
  ready s → tickets_ok (procs s) → 0 < total (procs s) →
  let w := next_seed (seed s) mod total (procs s) in
  ∃ i p, procs s !! i = Some p ∧ p_state p = RUNNABLE ∧
    base (procs s) i ≤ w < base (procs s) i + p_tickets p ∧
    lottery me s = Done (Some i) (dispatched me i (set_seed (next_seed (seed s)) s)) [].
Proof.
  intros Hr Hok Hpos w. pose proof Hok as [Hps Ht].
  pose proof (Z.mod_pos_bound (next_seed (seed s)) (total (procs s)) Hpos) as Hw. fold w in Hw.
  destruct (holder_total _ _ Hps Hw) as [i Hi].
  rewrite lottery_run, winner_holder by done. fold w. rewrite Hi.
  apply holder_spec in Hi as (p & Hp & Hb); [|done|lia].
  exists i, p. unfold entries in Hb. case_bool_decide; [|lia].
  do 2 (split; [done|]). split; [lia|]. unfold seed_next. rewrite i32_small by (unfold is_i32; klia).
  destruct (Z.eqb_spec (total (procs s)) 0); [lia|done].
Qed.

(** ** Fairness *)

(** How many numbers [x] of a range have [x mod T] in an interval. *)
Definition hits (T lo t a n : Z) : Z :=
  Z.of_nat (length (filter (λ x, lo ≤ x mod T < lo + t) (seqZ a n))).

Lemma hits_app T lo t a n m : 0 ≤ n → 0 ≤ m → hits T lo t a (n + m) = hits T lo t a n + hits T lo t (a + n) m.
Proof.
  intros Hn Hm. unfold hits. rewrite seqZ_app by done.
  rewrite list.filter_app, length_app. lia.
Qed.

Lemma hits_all T lo t a n : 0 ≤ n → (∀ x, a ≤ x < a + n → lo ≤ x mod T < lo + t) → hits T lo t a n = n.
Proof.
  intros Hn HQ. unfold hits. rewrite filter_all; [rewrite length_seqZ; lia|].
  intros x Hx. by apply HQ, elem_of_seqZ.
Qed.
Lemma hits_none T lo t a n : (∀ x, a ≤ x < a + n → ¬ (lo ≤ x mod T < lo + t)) → hits T lo t a n = 0.
Proof.
  intros HQ. unfold hits. rewrite filter_none; [done|].
  intros x Hx. by apply HQ, elem_of_seqZ.
Qed.
Lemma hits_nonneg T lo t a n : 0 ≤ hits T lo t a n.
Proof. unfold hits. lia. Qed.

Lemma mod_block T k y : 0 ≤ y < T → (k * T + y) mod T = y.
Proof. intros. rewrite Z.add_comm, Z.mod_add by lia. by apply Z.mod_small. Qed.

(** A block of [T] consecutive numbers hits an interval of length [t] exactly
    [t] times. *)
Lemma hits_block T lo t k : 0 ≤ lo → 0 ≤ t → lo + t ≤ T → hits T lo t (k * T) T = t.
Proof.
  intros Hlo Ht HT.
  replace (hits T lo t (k * T) T) with (hits T lo t (k * T) (lo + (t + (T - lo - t)))) by (f_equal; lia).
  rewrite !hits_app by lia. rewrite (hits_none _ _ _ (k * T) lo), hits_all, hits_none; try lia.
  - intros x Hx. replace x with (k * T + (x - k * T)) by lia. rewrite mod_block; lia.
  - intros x Hx. replace x with (k * T + (x - k * T)) by lia. rewrite mod_block; lia.
  - intros x Hx. replace x with (k * T + (x - k * T)) by lia. rewrite mod_block; lia.
Qed.

Lemma hits_blocks T lo t k : 0 ≤ lo → 0 ≤ t → lo + t ≤ T → 0 ≤ k → hits T lo t 0 (k * T) = k * t.
Proof.
  intros Hlo Ht HT. revert k. apply natlike_ind; [done|].
  intros k Hk IH. assert (0 ≤ k * T) by nia. replace (Z.succ k * T) with (k * T + T) by lia.
  rewrite hits_app, IH, Z.add_0_l, hits_block by lia. lia.
Qed.

Lemma hits_range T lo t N : 0 < T → 0 ≤ lo → 0 ≤ t → lo + t ≤ T → 0 ≤ N →
  N / T * t ≤ hits T lo t 0 N ≤ (N / T + 1) * t.
Proof.
  intros HT Hlo Ht HlT HN.
  pose proof (Z.div_mod N T ltac:(lia)) as Hdm. pose proof (Z.mod_pos_bound N T HT) as Hr.
  assert (0 ≤ N / T) by (apply Z.div_pos; lia).
  replace (hits T lo t 0 N) with (hits T lo t 0 (N / T * T + N mod T)) by (f_equal; lia).
  rewrite hits_app, hits_blocks by lia.
  pose proof (hits_block T lo t (N / T) Hlo Ht HlT) as Hb.
  pose proof (hits_app T lo t (N / T * T) (N mod T) (T - N mod T) ltac:(lia) ltac:(lia)) as Ha.
  replace (N mod T + (T - N mod T)) with T in Ha by lia.
  pose proof (hits_nonneg T lo t (N / T * T + N mod T) (T - N mod T)).
  pose proof (hits_nonneg T lo t (N / T * T) (N mod T)).
  rewrite Z.add_0_l. nia.
Qed.

(** The seeds of one period of the generator with which process [i] wins. *)
Definition wins (ps : list proc) (i : nat) (sd : Z) : Z :=
  Z.of_nat (length (filter (λ sd', winner ps sd' = Some i) (seeds sd))).

Lemma seeds_next sd : next_seed <$> seeds sd = seeds (next_seed sd).
Proof.
  unfold seeds. rewrite <-list_fmap_compose. apply list_fmap_ext. intros k n _.
  unfold compose, seed_after. induction n as [|n IH]; simpl; [done|by rewrite IH].
Qed.

Lemma base_split ps i p : ps !! i = Some p →
  total ps = base ps i + (entries p + total (drop (S i) ps)).
Proof.
  intros Hp. unfold base. rewrite <-(take_drop i ps) at 1. rewrite total_app.
  by rewrite (drop_S ps p i Hp).
Qed.

(** Process [i] wins as often as the seeds hit the interval of its tickets. *)
Lemma wins_hits ps i p sd N :
  tickets_ok ps → ps !! i = Some p → p_state p = RUNNABLE →
  seeds (next_seed sd) ≡ₚ seqZ 0 N →
  wins ps i sd = hits (total ps) (base ps i) (p_tickets p) 0 N.
Proof.
  intros Hok Hp Hrun Hperm. pose proof Hok as [Hps Ht].
  assert (entries p = p_tickets p) as He by (unfold entries; by rewrite bool_decide_true).
  pose proof (proj1 (Forall_lookup _ _) Hps i p Hp Hrun) as Hpos.
  pose proof (base_split ps i p Hp) as Hsplit.
  assert (0 ≤ base ps i) by (apply total_nonneg, Forall_take, Hps).
  assert (0 ≤ total (drop (S i) ps)) by (apply total_nonneg, Forall_drop, Hps).
  unfold wins, hits. rewrite <-Hperm, <-seeds_next, filter_fmap, length_fmap.
  f_equal. f_equal. apply list_filter_iff. intros sd'.
  rewrite winner_holder by (done || lia).
  pose proof (Z.mod_pos_bound (next_seed sd') (total ps) ltac:(lia)).
  rewrite holder_spec by (done || lia). rewrite Hp. split; [|eauto with lia].
  intros (q & [= <-] & Hq). lia.
Qed.

(** ** Overflow of the ticket counters

    [sys_settickets] accepts every positive [int], so the sums of both loops
    can overflow. *)

Definition idle (ps : list proc) : Prop := Forall (λ p, p_state p ≠ RUNNABLE) ps.

Lemma total_idle ps : idle ps → total ps = 0.
Proof.
  induction 1 as [|p ps Hp _ IH]; simpl; [done|]. unfold entries.
  rewrite bool_decide_false by done. lia.
Qed.

Lemma pick_int_idle ps qs cur win : idle ps →
  pick_int (ps ++ qs) cur win = (λ j, length ps + j)%nat <$> pick_int qs cur win.
Proof.
  induction 1 as [|p ps Hp _ IH]; simpl.
  - by destruct (pick_int qs cur win).
  - rewrite bool_decide_false, IH by done. by destruct (pick_int qs cur win).
Qed.

(** C30. Ticket counts are not bounded by [sys_settickets]: when the only runnable
    processes are [p] and, later in the table, [q], with [INT_MAX] tickets
    each, [total_tickets] overflows and no draw, whatever the seed, lets [q]
    run. *)
Theorem lottery_overflow_starves me s ps p ms q qs :
  ready s → procs s = ps ++ p :: ms ++ q :: qs → idle ps → idle ms → idle qs →
  p_state p = RUNNABLE → p_state q = RUNNABLE → p_tickets p = INT_MAX → p_tickets q = INT_MAX →
  ∀ sd, ∃ r s', lottery me (set_seed sd s) = Done r s' [] ∧ r ≠ Some (length ps + S (length ms))%nat.
Proof.
  intros Hr Hps Hi1 Hi2 Hi3 Hp Hq Htp Htq sd.
  rewrite lottery_run by (destruct Hr; by split). simpl.
  assert (winner (procs s) sd ≠ Some (length ps + S (length ms))%nat) as Hw.
  { unfold winner. assert (i32 (total (procs s)) = -2) as ->.
    { rewrite Hps, total_app. simpl. rewrite total_app. simpl.
      rewrite !total_idle by done. unfold entries. rewrite !bool_decide_true, Htp, Htq by done.
      vm_compute. done. }
    assert (is_i32 (fst (random (-2) sd))) as Hww by apply i32_range.
    generalize dependent (fst (random (-2) sd)). intros w Hww. rewrite Hps. simpl (-2 =? 0).
    rewrite pick_int_idle by done. simpl. rewrite bool_decide_true, Htp by done.
    replace (i32 (0 + INT_MAX)) with INT_MAX by (vm_compute; done).
    destruct (Z.gtb_spec INT_MAX w) as [|Hge]; simpl.
    - intros He. apply (inj Some) in He. lia.
    - rewrite pick_int_idle by done. simpl. rewrite bool_decide_true, Htq by done.
      replace (i32 (INT_MAX + INT_MAX)) with (-2) by (vm_compute; done).
      destruct (Z.gtb_spec (-2) w); [unfold is_i32, INT_MAX in *; lia|].
      rewrite <-(app_nil_r qs), pick_int_idle by done. done. }
  destruct (winner (procs s) sd); eauto.
Qed.

(** The scheduler resumed [n] times, until it switches to a process. *)
Fixpoint scheduler_iter (me n : nat) (pc : sched_pc) : P (option nat * sched_pc) :=
  match n with
  | O => ret (None, pc)
  | S n' =>
      let! r := scheduler_step me pc in
      match r with (None, pc') => scheduler_iter me n' pc' | _ => ret r end
  end.

(** C31. When the runnable processes' tickets add up to a multiple of 2^32 the
    counter wraps to zero, and the scheduler, resumed any number of times in
    lottery mode, runs nobody although processes are runnable. *)
Theorem lottery_overflow_livelock me s n :
  ready s → noff (mycpu (lk s)) = 0 → scheduler_mode s = 1 → i32 (total (procs s)) = 0 →
  ∃ s', scheduler_iter me n Top s = Done (None, Top) s' [] ∧ procs s' = procs s ∧ c_proc s' = c_proc s.
Proof.
  revert s. induction n as [|n IH]; intros s Hr Hn Hm Ht; [by exists s|].
  set (s1 := set_lk (upd_cpu (λ h, mkhart (noff h) (intena h) true) (lk s)) s).
  assert (ready s1) as Hr1.
  { destruct Hr as [? [? ?] ? ?]. split; simpl; try done. split; simpl; [done|lia]. }
  assert (scheduler_step me Top s = Done (None, Top) (touch s1) []) as Hstep.
  { unfold scheduler_step. rewrite (bind_done _ _ tt s s1) by done. mrun. simpl. rewrite Hm. simpl.
    rewrite (bind_done _ _ None s1 (touch s1)); [done|].
    rewrite lottery_run by done. unfold winner, seed_next. simpl. rewrite Ht. simpl. by destruct s. }
  simpl. rewrite (bind_done _ _ _ _ _ Hstep).
  destruct (IH (touch s1)) as (s' & Hs' & Hp & Hc); [by apply ready_touch|..]; try done.
  - simpl. rewrite touched_noff. done.
  - exists s'. done.
Qed.

(** ** Round robin *)

(** The first runnable process of a table. *)
Fixpoint first_runnable (ps : list proc) : option nat :=
  match ps with
  | [] => None
  | p :: ps' => if bool_decide (p_state p = RUNNABLE) then Some 0%nat else S <$> first_runnable ps'
  end.

Lemma rr_from_run me n i s : ready s → (i + n = NPROC)%nat → (0 < n)%nat →
  rr_from me n i s =
  match first_runnable (drop i (procs s)) with
  | Some j => Done (Some (i + j)%nat) (dispatched me (i + j) s) []
  | None => Done None (touch s) []
  end.
Proof.
  revert i s. induction n as [|n IH]; intros i s Hr Hi Hn; [lia|].
  simpl. rewrite ready_acquire by (done || lia). mrun.
  rewrite (drop_S_proc s i) by (done || lia). simpl.
  change (proc_at i (set_lk _ s)) with (proc_at i s).
  case_bool_decide as Hrun.
  - rewrite (bind_done _ _ _ _ _ (run_proc_run me i s Hr ltac:(lia))). by rewrite Nat.add_0_r.
  - rewrite (bind_done _ _ _ _ _ (section_run_id me i s Hr ltac:(lia))).
    destruct n as [|n].
    + simpl. rewrite drop_ge by (destruct Hr as [-> _ _ _]; lia). done.
    + rewrite IH; [|eauto with kernel|lia|lia]. change (procs (touch s)) with (procs s).
      destruct (first_runnable _) as [j|] eqn:Hp; simpl.
      * rewrite dispatched_touch. by rewrite <-Nat.add_succ_comm.
      * by rewrite touch_touch.
Qed.

Lemma first_runnable_spec ps :
  match first_runnable ps with
  | Some j => ∃ p, ps !! j = Some p ∧ p_state p = RUNNABLE ∧
                   ∀ k q, (k < j)%nat → ps !! k = Some q → p_state q ≠ RUNNABLE
  | None => ∀ k q, ps !! k = Some q → p_state q ≠ RUNNABLE
  end.
Proof.
  induction ps as [|p ps IH]; simpl; [done|].
  case_bool_decide as Hp; [exists p; naive_solver lia|].
  destruct (first_runnable ps) as [j|]; simpl.
  - destruct IH as (q & Hq & Hrun & Hbefore). exists q. do 2 (split; [done|]).
    intros [|k] q' Hk Hq'; [by simplify_eq/=|]. eapply Hbefore; [|done]. lia.
  - intros [|k] q Hq; [by simplify_eq/=|]. by eapply IH.
Qed.

(** ** Whole passes of the scheduler

    [run j] is what process [j], and the rest of the system while it runs, do
    between the switch to [j] and the switch back. One pass of [for(;;)] from
    [pc]: the scheduler is resumed, the process it switches to runs, and so on
    until it is back at the head of the loop. The result is the list of the
    processes run. *)
Fixpoint pass (me : nat) (run : nat → P unit) (fuel : nat) (pc : sched_pc) (s : pstate) : option (list nat * pstate) :=
  match fuel with
  | O => None
  | S fuel' =>
      match scheduler_step me pc s with
      | Done (Some j, pc') s1 _ =>
          match run j s1 with
          | Done _ s2 _ => (λ r, (j :: fst r, snd r)) <$> pass me run fuel' pc' s2
          | _ => None
          end
      | Done (None, _) s1 _ => Some ([], s1)
      | _ => None
      end
  end.

Lemma pass_switch me run fuel pc s j pc' s1 t u s2 t' :
  scheduler_step me pc s = Done (Some j, pc') s1 t → run j s1 = Done u s2 t' →
  pass me run (S fuel) pc s = (λ r, (j :: fst r, snd r)) <$> pass me run fuel pc' s2.
Proof. intros H1 H2. simpl. by rewrite H1, H2. Qed.
Lemma pass_end me run fuel pc s pc' s1 t :
  scheduler_step me pc s = Done (None, pc') s1 t → pass me run (S fuel) pc s = Some ([], s1).
Proof. intros H1. simpl. by rewrite H1. Qed.

(** [n] passes in a row. *)
Fixpoint passes (me : nat) (run : nat → P unit) (n : nat) (s : pstate) : option (list nat * pstate) :=
  match n with
  | O => Some ([], s)
  | S n' =>
      match pass me run (S NPROC) Top s with
      | Some (l, s1) => (λ r, (l ++ fst r, snd r)) <$> passes me run n' s1
      | None => None
      end
  end.

(** Process [j] switches back as [sched] makes it: it holds its own lock and
    no other process's, with nesting depth one. The saved [intena] is whatever
    the process ran with. *)
Record switched_back (me j : nat) (s : pstate) : Prop := {
  sb_own : own_lock me j s;
  sb_free : ∀ k, (k < NPROC)%nat → k ≠ j → is_free (L_proc k) (lk s);
  sb_len : length (procs s) = NPROC
}.

(** The scheduler between two switches. *)
Record at_loop (s : pstate) : Prop := { al_ready : ready s; al_noff : noff (mycpu (lk s)) = 0 }.

(** Whenever the scheduler switches to process [j], it comes back, and its turn
    relates the state [s] the scheduler chose it in to the one it leaves by
    [R j]. *)
Definition turns_keep (me : nat) (run : nat → P unit) (R : nat → pstate → pstate → Prop) : Prop :=
  ∀ j s, at_loop s → (j < NPROC)%nat → p_state (proc_at j s) = RUNNABLE →
    ∃ s' t, run j (dispatched me j s) = Done tt s' t ∧ switched_back me j s' ∧ R j s s'.

Lemma proc_done_run me j s : switched_back me j s →
  ∃ ls, proc_done me j s = Done tt (set_lk ls (set_c_proc None s)) [] ∧ at_loop (set_lk ls (set_c_proc None s)).
Proof.
  intros [Hown Hfree Hlen]. unfold proc_done. mrun.
  destruct (own_release me j (set_c_proc None s) Hown) as (ls & Hrel & Hcpu & Hj & Hne).
  exists ls. split; [exact Hrel|]. split; [|simpl; by rewrite Hcpu].
  split; simpl; [done|by rewrite Hcpu|by rewrite Hcpu|].
  intros k Hk. destruct (decide (k = j)) as [->|Hkj]; [done|].
  destruct (Hfree k Hk Hkj) as [n Hn]. exists n. rewrite Hne; [exact Hn|congruence].
Qed.

(** The state after [intr_on()]. *)
Definition intr_enabled (s : pstate) : pstate := set_lk (upd_cpu (λ h, mkhart (noff h) (intena h) true) (lk s)) s.
Lemma loop_enabled s : at_loop s → at_loop (intr_enabled s).
Proof.
  intros [[Hl Hh Hn Hf] H0]. split; [|done]. split; simpl; try done. split; simpl; [lia|]. rewrite H0. lia.
Qed.

(** *** Round robin *)

Section rr.
Context (me : nat) (run : nat → P unit).

(** The pass from process [i] on. *)
Definition rr_rest (fuel i : nat) (s : pstate) : option (list nat * pstate) :=
  match rr_from me (NPROC - i) i s with
  | Done (Some j) s1 _ =>
      match run j s1 with
      | Done _ s2 _ => (λ r, (j :: fst r, snd r)) <$> pass me run fuel (RRRan j) s2
      | _ => None
      end
  | Done None s1 _ => Some ([], s1)
  | _ => None
  end.

Lemma rr_top fuel s : at_loop s → scheduler_mode s ≠ 1 → pass me run (S fuel) Top s = rr_rest fuel 0 (intr_enabled s).
Proof.
  intros [Hr _]%loop_enabled Hm. simpl. rewrite (bind_done _ _ tt s (intr_enabled s)) by done. mrun.
  change (scheduler_mode (intr_enabled s)) with (scheduler_mode s).
  destruct (Z.eqb_spec (scheduler_mode s) 1); [done|]. unfold rr_rest. rewrite Nat.sub_0_r.
  pose proof (rr_from_run me NPROC 0 (intr_enabled s) Hr eq_refl ltac:(unfold NPROC; lia)) as Hrr.
  destruct (first_runnable _); rewrite (bind_done _ _ _ _ _ Hrr), Hrr; done.
Qed.

Lemma rr_from_cases i s : at_loop s → (i ≤ NPROC)%nat →
  (∃ j, (i ≤ j < NPROC)%nat ∧ p_state (proc_at j s) = RUNNABLE ∧
     (∀ k, (i ≤ k < j)%nat → p_state (proc_at k s) ≠ RUNNABLE) ∧
     rr_from me (NPROC - i) i s = Done (Some j) (dispatched me j s) []) ∨
  (∃ s', (∀ k, (i ≤ k < NPROC)%nat → p_state (proc_at k s) ≠ RUNNABLE) ∧
     rr_from me (NPROC - i) i s = Done None s' []).
Proof.
  intros [Hr _] Hi. assert (∀ k, (i ≤ k < NPROC)%nat → drop i (procs s) !! (k - i)%nat = Some (proc_at k s)) as Hat.
  { intros k Hk. rewrite lookup_drop. replace (i + (k - i))%nat with k by lia.
    apply list_lookup_lookup_total_lt. rewrite (rd_len s Hr). lia. }
  destruct (decide (i = NPROC)) as [->|Hne].
  { right. exists s. split; [lia|]. by rewrite Nat.sub_diag. }
  rewrite rr_from_run by (done || lia).
  pose proof (first_runnable_spec (drop i (procs s))) as Hfr. destruct (first_runnable _) as [j|].
  - destruct Hfr as (p & Hp & Hrun & Hbefore). left. exists (i + j)%nat.
    assert (i + j < NPROC)%nat as Hij.
    { rewrite lookup_drop in Hp. apply lookup_lt_Some in Hp. by rewrite (rd_len s Hr) in Hp. }
    split; [lia|]. pose proof (Hat (i + j)%nat ltac:(lia)) as Hij'. replace (i + j - i)%nat with j in Hij' by lia.
    split; [by simplify_eq|]. split; [|done]. intros k Hk. apply (Hbefore (k - i)%nat); [lia|apply Hat; lia].
  - right. exists (touch s). split; [|done]. intros k Hk. apply (Hfr (k - i)%nat), Hat. lia.
Qed.

(** The processes a turn of [j] leaves runnable. *)
Definition stays_runnable (j : nat) (s s' : pstate) : Prop :=
  ∀ k, (k < NPROC)%nat → k ≠ j → p_state (proc_at k s) = RUNNABLE → p_state (proc_at k s') = RUNNABLE.

Lemma rr_rest_runs : turns_keep me run stays_runnable → ∀ fuel i s,
  at_loop s → (i ≤ NPROC)%nat → (NPROC - i ≤ fuel)%nat →
  ∃ l s', rr_rest fuel i s = Some (l, s') ∧
    (∀ k, (i ≤ k < NPROC)%nat → p_state (proc_at k s) = RUNNABLE → k ∈ l) ∧
    StronglySorted lt l ∧ Forall (λ k, (i ≤ k < NPROC)%nat) l.
Proof.
  intros Hkeep. induction fuel as [|fuel IH]; intros i s Hs Hi Hf; unfold rr_rest;
    (destruct (rr_from_cases i s Hs Hi) as [(j & Hj & Hrun & Hbefore & ->)|(s' & Hnone & ->)];
     [|exists [], s'; split; [done|]; split; [naive_solver|]; split; constructor]); [lia|].
  destruct (Hkeep j s Hs ltac:(lia) Hrun) as (s2 & t & -> & Hback & Hstay).
  destruct (proc_done_run me j s2 Hback) as (ls & Hdone & Hloop). set (s3 := set_lk ls _) in *.
  assert (pass me run (S fuel) (RRRan j) s2 = rr_rest fuel (S j) s3) as ->.
  { simpl. rewrite (bind_done _ _ _ _ _ Hdone). unfold rr_rest.
    destruct (rr_from_cases (S j) s3 Hloop ltac:(lia)) as [(k & _ & _ & _ & Hk)|(s' & _ & Hk)];
      rewrite (bind_done _ _ _ _ _ Hk), Hk; done. }
  destruct (IH (S j) s3) as (l & s' & -> & Hin & Hsort & Hall); [done|lia|lia|].
  exists (j :: l), s'. split; [done|]. split_and!.
  - intros k Hk Hkrun. destruct (decide (k = j)) as [->|Hkj]; [left|]. right. apply Hin.
    + destruct (decide (k < j)%nat); [by destruct (Hbefore k ltac:(lia))|lia].
    + apply (Hstay k); [lia|done|done].
  - constructor; [done|]. eapply Forall_impl; [|exact Hall]. intros k Hk. simpl in *. lia.
  - constructor; [lia|]. eapply Forall_impl; [|exact Hall]. intros k Hk. simpl in *. lia.
Qed.
End rr.

(** C29. Round robin starves nobody. Suppose that every process the scheduler
    switches to switches back the way [sched] does (its own lock held, no
    other process lock, nesting depth one, whatever interrupt state it saved),
    and that its turn takes no other process off the run queue. Then one pass
    of the scheduler's loop in round-robin mode ends after at most 64
    switches, runs every process that is runnable when the pass begins, and
    runs no process twice. *)
Theorem round_robin_runs_all me run s :
  turns_keep me run stays_runnable → at_loop s → scheduler_mode s ≠ 1 →
  ∃ l s', pass me run (S NPROC) Top s = Some (l, s') ∧
    (∀ k, (k < NPROC)%nat → p_state (proc_at k s) = RUNNABLE → k ∈ l) ∧ NoDup l ∧ (length l ≤ NPROC)%nat.
Proof.
  intros Hk Hs Hm. rewrite rr_top by done.
  destruct (rr_rest_runs me run Hk NPROC 0 _ (loop_enabled s Hs)) as (l & s' & Hp & Hin & Hsort & Hall); [lia|lia|].
  exists l, s'. split; [done|]. split; [intros k Hlt; apply Hin; lia|].
  assert (NoDup l) as Hnd.
  { clear -Hsort. induction Hsort as [|k l _ IH Hall]; constructor; [|done].
    intros Hk%list_elem_of_In. rewrite List.Forall_forall in Hall. specialize (Hall k Hk). lia. }
  split; [done|]. transitivity (length (seq 0 NPROC)); [|by rewrite length_seq].
  apply submseteq_length, NoDup_submseteq; [done|].
  intros k Hk'%list_elem_of_In. rewrite Forall_forall in Hall. apply elem_of_seq. specialize (Hall k Hk'). lia.
Qed.

(** *** The lottery *)

(** A turn that leaves the draw as it was: the process that ran is runnable
    again, and nobody's state or tickets changed, nor the seed or the mode. *)
Definition draws_alike (p q : proc) : Prop := p_state p = p_state q ∧ p_tickets p = p_tickets q.
Record same_draw (s s' : pstate) : Prop := {
  sd_procs : Forall2 draws_alike (procs s) (procs s');
  sd_seed : seed s' = seed s;
  sd_mode : scheduler_mode s' = scheduler_mode s
}.

Lemma entries_alike p q : draws_alike p q → entries p = entries q.
Proof. intros [H1 H2]. unfold entries. by rewrite H1, H2. Qed.
Lemma total_alike ps qs : Forall2 draws_alike ps qs → total ps = total qs.
Proof. induction 1 as [|p q ps qs Hpq _ IH]; simpl; [done|]. by rewrite IH, (entries_alike p q). Qed.
Lemma pick_int_alike ps qs cur win : Forall2 draws_alike ps qs → pick_int ps cur win = pick_int qs cur win.
Proof.
  intros H. revert cur. induction H as [|p q ps qs [Hst Htk] _ IH]; intros cur; simpl; [done|].
  rewrite Hst, Htk. by repeat case_match; rewrite ?IH.
Qed.
Lemma winner_alike ps qs sd : Forall2 draws_alike ps qs → winner ps sd = winner qs sd.
Proof. intros H. unfold winner. by rewrite (total_alike ps qs H), (pick_int_alike ps qs). Qed.

Section rounds.
Context (me : nat) (run : nat → P unit) (Hkeep : turns_keep me run (λ _, same_draw)).

(** One pass in lottery mode runs the winner of the next draw. *)
Lemma lottery_pass s : at_loop s → scheduler_mode s = 1 → tickets_ok (procs s) → 0 < total (procs s) →
  ∃ i s', winner (procs s) (seed s) = Some i ∧ pass me run (S NPROC) Top s = Some ([i], s') ∧
    at_loop s' ∧ scheduler_mode s' = 1 ∧ seed s' = next_seed (seed s) ∧ Forall2 draws_alike (procs s) (procs s').
Proof.
  intros Hs Hm Hok Hpos. pose proof Hok as [Hps Ht].
  pose proof (Z.mod_pos_bound (next_seed (seed s)) (total (procs s)) Hpos) as Hw.
  destruct (holder_total _ _ Hps Hw) as [i Hi]. pose proof Hi as (p & Hp & Hb)%holder_spec; [|done|lia].
  assert (winner (procs s) (seed s) = Some i) as Hwin by (by rewrite winner_holder).
  exists i. set (s0 := set_seed (next_seed (seed s)) (intr_enabled s)).
  assert (at_loop s0) as Hs0 by (destruct (loop_enabled s Hs) as [[] ?]; by split).
  assert (lottery me (intr_enabled s) = Done (Some i) (dispatched me i s0) []) as Hlot.
  { rewrite lottery_run by apply (loop_enabled s Hs). change (procs (intr_enabled s)) with (procs s).
    change (seed (intr_enabled s)) with (seed s). rewrite Hwin. unfold seed_next.
    rewrite i32_small by (unfold is_i32; klia). by destruct (Z.eqb_spec (total (procs s)) 0); [lia|]. }
  assert (proc_at i s0 = p) as Hpi by (unfold proc_at; by apply list_lookup_total_correct).
  destruct (Hkeep i s0 Hs0) as (s2 & t & Hrun & Hback & [Hsame Hseed Hmode]).
  { apply lookup_lt_Some in Hp. destruct Hs as [[<- _ _ _] _]. done. }
  { rewrite Hpi. unfold entries in Hb. case_bool_decide; [done|lia]. }
  destruct (proc_done_run me i s2 Hback) as (ls & Hdone & Hloop).
  exists (set_lk ls (set_c_proc None s2)). split; [done|]. split.
  - change (S NPROC) with (S (S 63)).
    rewrite (pass_switch me run _ Top s i (LotteryRan i) (dispatched me i s0) [] tt s2 t); [|..|exact Hrun].
    + erewrite pass_end; [done|]. simpl. by rewrite (bind_done _ _ _ _ _ Hdone).
    + simpl. rewrite (bind_done _ _ tt s (intr_enabled s)) by done. mrun.
      change (scheduler_mode (intr_enabled s)) with (scheduler_mode s). rewrite Hm.
      simpl (1 =? 1). cbv iota. by rewrite (bind_done _ _ _ _ _ Hlot).
  - split; [done|]. simpl. by rewrite Hmode, Hseed.
Qed.

(** The processes that [n] passes run are the winners of the next [n] draws. *)
Lemma lottery_passes n : ∀ s, at_loop s → scheduler_mode s = 1 → tickets_ok (procs s) → 0 < total (procs s) →
  ∃ l s', passes me run n s = Some (l, s') ∧
    Forall2 (λ k j, winner (procs s) (seed_after k (seed s)) = Some j) (seq 0 n) l.
Proof.
  induction n as [|n IH]; intros s Hs Hm Hok Hpos; [exists [], s; split; [done|constructor]|].
  destruct (lottery_pass s Hs Hm Hok Hpos) as (i & s1 & Hwin & Hpass & Hs1 & Hm1 & Hsd & Hal).
  destruct (IH s1 Hs1 Hm1) as (l & s' & Hl & Hall).
  { destruct Hok as [Hps Ht]. split; [|by rewrite <-(total_alike _ _ Hal)].
    clear -Hps Hal. induction Hal as [|p q ps qs [Hst Htk] _ IH]; [constructor|].
    inversion Hps as [|? ? Hp Hps']; subst. constructor; [by rewrite <-Hst, <-Htk|auto]. }
  { by rewrite <-(total_alike _ _ Hal). }
  exists (i :: l), s'. split; [cbn [passes]; by rewrite Hpass, Hl|]. cbn [seq]. constructor; [done|].
  rewrite <-fmap_S_seq. apply Forall2_fmap_l. eapply Forall2_impl; [|exact Hall]. intros k j Hk. simpl in *.
  rewrite (winner_alike _ _ _ Hal), <-Hk, Hsd. f_equal. exact (Nat.iter_succ_r _ _ _).
Qed.
End rounds.

(** How often process [i] is among the processes run. *)
Definition times_run (i : nat) (l : list nat) : Z := Z.of_nat (length (filter (λ j, j = i) l)).

Lemma times_run_wins ps i sd l :
  Forall2 (λ k j, winner ps (seed_after k sd) = Some j) (seq 0 period) l → times_run i l = wins ps i sd.
Proof.
  intros H. unfold times_run, wins, seeds. rewrite filter_fmap, length_fmap. f_equal.
  induction H as [|k j ks l Hk _ IH]; [done|]. rewrite !filter_cons. unfold compose; simpl. rewrite Hk.
  repeat case_decide; simpl; naive_solver.
Qed.

(** C1. The lottery is fair. Take the scheduler at the head of its loop, in
    lottery mode, with every runnable process holding at least one ticket and
    the tickets fitting an [int], and suppose that every process it switches
    to switches back runnable, with nobody's state or tickets, the seed or the
    mode changed. Then over one period of the generator (2^32 passes of the
    loop) a process with [t] of the [T] tickets is run [t] times in every [T]
    passes, up to one more share: between [t * (2^32 / T)] and
    [t * (2^32 / T + 1)] times. *)
Theorem lottery_fair me run s i p :
  turns_keep me run (λ _, same_draw) → at_loop s → scheduler_mode s = 1 → is_u32 (seed s) →
  tickets_ok (procs s) → procs s !! i = Some p → p_state p = RUNNABLE →
  ∃ l s', passes me run period s = Some (l, s') ∧
    4294967296 / total (procs s) * p_tickets p ≤ times_run i l ≤ (4294967296 / total (procs s) + 1) * p_tickets p.
Proof.
  intros Hkeep Hs Hm Hsd Hok Hp Hrun. pose proof Hok as [Hps Ht].
  assert (entries p = p_tickets p) as He by (unfold entries; by rewrite bool_decide_true).
  pose proof (proj1 (Forall_lookup _ _) Hps i p Hp Hrun) as Hpos.
  pose proof (base_split (procs s) i p Hp) as Hsplit.
  assert (0 ≤ base (procs s) i) by (apply total_nonneg, Forall_take, Hps).
  assert (0 ≤ total (drop (S i) (procs s))) by (apply total_nonneg, Forall_drop, Hps).
  destruct (lottery_passes me run Hkeep period s Hs Hm Hok ltac:(lia)) as (l & s' & Hl & Hall).
  exists l, s'. split; [done|]. rewrite (times_run_wins _ _ _ _ Hall).
  rewrite (wins_hits (procs s) i p (seed s) 4294967296) by (done || apply seeds_permutation, u32_range).
  apply hits_range; lia.
Qed.

(** ** Instances *)

(** The three processes of [lotterytest.c], with 10, 30 and 90 tickets. *)
Definition lotterytest : pstate :=
  set_scheduler_mode 1
    (with_procs [sample SLEEPING 1 10; sample RUNNABLE 2 10; sample RUNNABLE 3 30; sample RUNNABLE 4 90]).

Lemma lotterytest_ok : tickets_ok (procs lotterytest).
Proof.
  split; [|vm_compute; done].
  apply (bool_decide_unpack _). vm_compute. done.
Qed.

Lemma lottery_runs_ticket_holder_witness :
  let w := next_seed (seed lotterytest) mod total (procs lotterytest) in
  ∃ i p, procs lotterytest !! i = Some p ∧ p_state p = RUNNABLE ∧
    base (procs lotterytest) i ≤ w < base (procs lotterytest) i + p_tickets p ∧
    lottery 0 lotterytest =
    Done (Some i) (dispatched 0 i (set_seed (next_seed (seed lotterytest)) lotterytest)) [].
Proof.
  apply (lottery_runs_ticket_holder 0 lotterytest).
  - apply readyb_ready. vm_compute. reflexivity.
  - apply lotterytest_ok.
  - vm_compute. reflexivity.
Defined.

Lemma lottery_overflow_starves_witness : ∃ r s',
  lottery 0 (set_seed seed0 (with_procs [sample RUNNABLE 1 INT_MAX; sample RUNNABLE 2 INT_MAX])) = Done r s' [] ∧
  r ≠ Some 1%nat.
Proof.
  apply (lottery_overflow_starves 0 (with_procs [sample RUNNABLE 1 INT_MAX; sample RUNNABLE 2 INT_MAX])
           [] (sample RUNNABLE 1 INT_MAX) [] (sample RUNNABLE 2 INT_MAX) (drop 2 (procs boot_state))).
  - apply readyb_ready. vm_compute. reflexivity.
  - reflexivity.
  - constructor.
  - constructor.
  - apply (bool_decide_unpack _). vm_compute. done.
  - reflexivity.
  - reflexivity.
  - reflexivity.
  - reflexivity.
Defined.

(** Two processes with [INT_MAX] tickets and one with 2. *)
Lemma lottery_overflow_livelock_witness :
  let s := set_scheduler_mode 1 (with_procs
    [sample RUNNABLE 1 INT_MAX; sample RUNNABLE 2 INT_MAX; sample RUNNABLE 3 2]) in
  ∃ s', scheduler_iter 0 1000 Top s = Done (None, Top) s' [] ∧ procs s' = procs s ∧ c_proc s' = c_proc s.
Proof.
  apply (lottery_overflow_livelock 0 _ 1000).
  - apply readyb_ready. vm_compute. reflexivity.
  - reflexivity.
  - reflexivity.
  - vm_compute. reflexivity.
Defined.

(** Processes that run in user space until the timer interrupt takes the CPU
    away: the tail of the [yield] that gave it up last, user code, the trap
    (interrupts off) and [yield]. *)
Definition preempted (me : nat) (ie : bool) (j : nat) : P unit :=
  yield_back me j ie ;;
  lift_lk intr_off ;;
  let! _ := yield me in ret tt.

Lemma dispatched_own me j s : at_loop s → (j < NPROC)%nat → own_lock me j (dispatched me j s).
Proof.
  intros [[_ _ _ Hf] H0] Hj. destruct (Hf j Hj) as [n Hn]. unfold own_lock, dispatched; simpl. rewrite H0.
  split; [|done]. exists n. rewrite lookup_insert_eq. unfold lock_of; simpl. by rewrite Hn.
Qed.

Lemma preempted_run me ie j s : at_loop s → (j < NPROC)%nat →
  ∃ s', preempted me ie j (dispatched me j s) = Done tt s' [] ∧ switched_back me j s' ∧
    (∃ c, procs s' = alter (set_p_context c) j (alter (set_p_state RUNNABLE) j (procs s))) ∧
    seed s' = seed s ∧ scheduler_mode s' = scheduler_mode s.
Proof.
  intros Hs Hj. pose proof Hs as [[Hl Hh Hn Hf] H0]. unfold preempted.
  destruct (back_run me j ie _ (dispatched_own me j s Hs Hj)) as (ls & Hb & Hcpu & Hfj & Hne).
  rewrite (bind_done _ _ _ _ _ Hb). set (d := dispatched me j s) in *.
  set (x := set_lk (upd_cpu (λ h, mkhart (noff h) (intena h) false) ls) d).
  rewrite (bind_done _ _ tt _ x) by done.
  assert (∀ k, (k < NPROC)%nat → is_free (L_proc k) ls) as Hfr.
  { intros k Hk. destruct (decide (k = j)) as [->|Hkj]; [done|].
    assert (is_free (L_proc k) (lk d)) as [n Hkn] by (apply free_locked; [congruence|by apply Hf]).
    exists n. rewrite Hne by congruence. exact Hkn. }
  assert (length (procs x) = NPROC) as Hlx by (simpl; by rewrite length_alter).
  assert (ready x) as Hrx by (split; simpl; [done|by rewrite Hcpu..|exact Hfr]).
  assert (noff (mycpu (lk x)) = 0) as Hx0 by (simpl; by rewrite Hcpu).
  rewrite (bind_done _ _ _ _ _ (yield_run me j x Hrx eq_refl Hj Hx0)).
  eexists. split; [reflexivity|]. split; [split|].
  - by apply yielded_own.
  - intros k Hk Hkj. apply free_locked; [congruence|exact (Hfr k Hk)].
  - simpl. by rewrite !length_alter.
  - split; [|done]. exists (regs x). simpl. apply list_eq. intros k.
    rewrite !list_lookup_alter. repeat case_decide; [|done..]. by destruct (procs s !! _).
Qed.

Lemma alter_alike (f : proc → proc) j ps qs : (∀ p q, draws_alike p q → draws_alike p (f q)) →
  Forall2 draws_alike ps qs → Forall2 draws_alike ps (alter f j qs).
Proof.
  intros Hf H. revert j. induction H as [|p q ps qs Hpq Hr IH]; intros j; [destruct j; constructor|].
  destruct j as [|j]; simpl; constructor; [by apply Hf|done|done|apply IH].
Qed.
Lemma alike_refl ps : Forall2 draws_alike ps ps.
Proof. induction ps; constructor; done. Qed.

Lemma preempted_runnable me ie : turns_keep me (preempted me ie) stays_runnable.
Proof.
  intros j s Hs Hj Hrun. destruct (preempted_run me ie j s Hs Hj) as (s' & Hp & Hb & [c Hc] & _).
  exists s', []. split; [done|]. split; [done|]. intros k Hk Hkj. unfold proc_at. rewrite Hc.
  by rewrite !list_lookup_total_alter_ne.
Qed.

Lemma preempted_draw me ie : turns_keep me (preempted me ie) (λ _, same_draw).
Proof.
  intros j s Hs Hj Hrun. destruct (preempted_run me ie j s Hs Hj) as (s' & Hp & Hb & [c Hc] & Hsd & Hm).
  exists s', []. split; [done|]. split; [done|]. split; [|done|done]. rewrite Hc.
  apply alter_alike; [done|]. clear -Hs Hj Hrun. destruct Hs as [[Hl _ _ _] _].
  assert (alter (set_p_state RUNNABLE) j (procs s) = alter (λ p, set_p_state (p_state p) p) j (procs s)) as ->.
  { apply list_eq. intros k. rewrite !list_lookup_alter. case_decide as Hk; [|done]. subst k.
    rewrite (list_lookup_lookup_total_lt (procs s) j) by lia. simpl. do 2 f_equal. by rewrite <-Hrun. }
  apply alter_alike; [by intros p q [? ?]|apply alike_refl].
Qed.

Lemma lotterytest_loop : at_loop lotterytest.
Proof. split; [|reflexivity]. apply readyb_ready. vm_compute. reflexivity. Qed.

Lemma lottery_fair_witness :
  ∃ l s', passes 0 (preempted 0 false) period lotterytest = Some (l, s') ∧
    4294967296 / 130 * 90 ≤ times_run 3 l ≤ (4294967296 / 130 + 1) * 90.
Proof.
  apply (lottery_fair 0 (preempted 0 false) lotterytest 3 (sample RUNNABLE 4 90)).
  - apply preempted_draw.
  - apply lotterytest_loop.
  - reflexivity.
  - vm_compute. split; congruence.
  - apply lotterytest_ok.
  - vm_compute. reflexivity.
  - reflexivity.
Defined.

Lemma round_robin_runs_all_witness :
  let s := set_scheduler_mode 0 lotterytest in
  ∃ l s', pass 0 (preempted 0 false) (S NPROC) Top s = Some (l, s') ∧
    (∀ k, (k < NPROC)%nat → p_state (proc_at k s) = RUNNABLE → k ∈ l) ∧ NoDup l ∧ (length l ≤ NPROC)%nat.
Proof.
  apply (round_robin_runs_all 0 (preempted 0 false)).
  - apply preempted_runnable.
  - split; [|reflexivity]. apply readyb_ready. vm_compute. reflexivity.
  - discriminate.
Defined.
