(* ===== verification/Mem.v ===== *)
(** Byte-addressed memory and little-endian integers, on which [string.c],
    [kalloc.c], [vm.c] and the on-disk structures of [fs.h] are modelled. *)
From Stdlib Require Import ZArith Lia.
From stdpp Require Import base list gmap strings.
From S2P Require Import Prelude Machine.

(** ** Little-endian integers *)

(** The [n] bytes of an integer, least significant first. *)
Fixpoint le_bytes (n : nat) (v : Z) : list Z :=
  match n with O => [] | S n' => u8 v :: le_bytes n' (v / 256) end.
Fixpoint le_value (bs : list Z) : Z :=
  match bs with [] => 0 | b :: bs' => b + 256 * le_value bs' end.

Lemma le_bytes_length n v : length (le_bytes n v) = n.
Proof. revert v. induction n as [|n IH]; intros v; simpl; [done|]. by rewrite IH. Qed.

Lemma le_value_bytes n v : le_value (le_bytes n v) = v mod 256 ^ Z.of_nat n.
Proof.
  revert v. induction n as [|n IH]; intros v; cbn [le_bytes le_value].
  - by rewrite Z.mod_1_r.
  - rewrite IH, Nat2Z.inj_succ, Z.pow_succ_r by lia. unfold u8.
    rewrite Z.rem_mul_r by (try apply Z.pow_pos_nonneg; lia). lia.
Qed.

Definition byte_ok (b : Z) : Prop := 0 ≤ b < 256.

Lemma le_bytes_ok n v : Forall byte_ok (le_bytes n v).
Proof.
  revert v. induction n as [|n IH]; intros v; simpl; constructor; [|done].
  unfold byte_ok. mach_lia.
Qed.

Lemma le_value_range bs : Forall byte_ok bs → 0 ≤ le_value bs < 256 ^ Z.of_nat (length bs).
Proof.
  induction 1 as [|b bs Hb _ IH]; [simpl; lia|].
  cbn [le_value length]. rewrite Nat2Z.inj_succ, Z.pow_succ_r by lia. unfold byte_ok in Hb. lia.
Qed.

Lemma le_bytes_value bs : Forall byte_ok bs → le_bytes (length bs) (le_value bs) = bs.
Proof.
  induction 1 as [|b bs Hb _ IH]; [done|]. cbn [le_value length le_bytes]. unfold byte_ok in Hb.
  f_equal; [mach_lia|]. etrans; [|exact IH]. f_equal. mach_lia.
Qed.

(** ** Memory *)

(** A byte never written reads as zero. *)
Abbreviation mem := (gmap Z Z).
Definition rd (m : mem) (a : Z) : Z := default 0 (m !! a).
Definition wr (a v : Z) (m : mem) : mem := <[a := v]> m.

Fixpoint bytes_at (m : mem) (a : Z) (n : nat) : list Z :=
  match n with O => [] | S n' => rd m a :: bytes_at m (a + 1) n' end.
Fixpoint write_bytes (a : Z) (bs : list Z) (m : mem) : mem :=
  match bs with [] => m | b :: bs' => write_bytes (a + 1) bs' (wr a b m) end.

Definition load64 (m : mem) (a : Z) : Z := le_value (bytes_at m a 8).
Definition store64 (a v : Z) (m : mem) : mem := write_bytes a (le_bytes 8 v) m.
Definition load32 (m : mem) (a : Z) : Z := le_value (bytes_at m a 4).
Definition store32 (a v : Z) (m : mem) : mem := write_bytes a (le_bytes 4 v) m.

Lemma rd_wr a b v m : rd (wr a v m) b = if decide (a = b) then v else rd m b.
Proof. unfold rd, wr. rewrite lookup_insert. by case_decide. Qed.

Lemma bytes_at_length m a n : length (bytes_at m a n) = n.
Proof. revert a. induction n as [|n IH]; intros a; simpl; [done|]. by rewrite IH. Qed.

Lemma bytes_at_lookup m a n (i : nat) : (i < n)%nat → bytes_at m a n !! i = Some (rd m (a + Z.of_nat i)).
Proof.
  revert a i. induction n as [|n IH]; intros a i Hi; [lia|]. destruct i as [|i]; simpl.
  - by rewrite Z.add_0_r.
  - rewrite IH by lia. do 2 f_equal. lia.
Qed.

Lemma bytes_at_app m a n k : bytes_at m a (n + k) = bytes_at m a n ++ bytes_at m (a + Z.of_nat n) k.
Proof.
  revert a. induction n as [|n IH]; intros a; simpl; [by rewrite Z.add_0_r|].
  rewrite IH. do 3 f_equal. lia.
Qed.

Lemma bytes_at_ext m m' a n :
  (∀ x, a ≤ x < a + Z.of_nat n → rd m x = rd m' x) → bytes_at m a n = bytes_at m' a n.
Proof.
  revert a. induction n as [|n IH]; intros a H; simpl; [done|].
  rewrite (H a), IH; [done| |lia]. intros x Hx. apply H. lia.
Qed.

Lemma wr_wr_comm a b v w m : a ≠ b → wr a v (wr b w m) = wr b w (wr a v m).
Proof. intros. unfold wr. by apply insert_insert_ne. Qed.

Lemma write_bytes_wr a bs b v m : b < a ∨ a + Z.of_nat (length bs) ≤ b →
  write_bytes a bs (wr b v m) = wr b v (write_bytes a bs m).
Proof.
  revert a m. induction bs as [|x bs IH]; intros a m H; simpl in *; [done|].
  rewrite wr_wr_comm, IH by lia. done.
Qed.

Lemma rd_write_out a bs m x : x < a ∨ a + Z.of_nat (length bs) ≤ x → rd (write_bytes a bs m) x = rd m x.
Proof.
  revert a m. induction bs as [|b bs IH]; intros a m Hx; simpl in *; [done|].
  rewrite IH by lia. rewrite rd_wr, decide_False by lia. done.
Qed.
Lemma rd_write_in a bs m (i : nat) b : bs !! i = Some b → rd (write_bytes a bs m) (a + Z.of_nat i) = b.
Proof.
  revert a m i. induction bs as [|x bs IH]; intros a m i Hi; [done|]. destruct i as [|i]; simpl in *.
  - injection Hi as ->. rewrite Z.add_0_r, rd_write_out by lia. by rewrite rd_wr, decide_True.
  - replace (a + Z.of_nat (S i)) with ((a + 1) + Z.of_nat i) by lia. by apply IH.
Qed.

(** Memory after a write, at every address. *)
Lemma rd_write a bs m x :
  rd (write_bytes a bs m) x =
  if decide (a ≤ x < a + Z.of_nat (length bs)) then bs !!! Z.to_nat (x - a) else rd m x.
Proof.
  case_decide as Hx.
  - destruct (lookup_lt_is_Some_2 bs (Z.to_nat (x - a))) as [b Hb]; [lia|].
    rewrite (list_lookup_total_correct _ _ _ Hb).
    rewrite <-(rd_write_in a bs m (Z.to_nat (x - a)) b Hb). f_equal. lia.
  - apply rd_write_out. lia.
Qed.

Lemma bytes_write a bs m : bytes_at (write_bytes a bs m) a (length bs) = bs.
Proof.
  apply list_eq. intros i. destruct (decide (i < length bs)%nat) as [Hi|Hi].
  - rewrite bytes_at_lookup by done. destruct (lookup_lt_is_Some_2 _ _ Hi) as [b Hb].
    rewrite Hb. f_equal. by apply rd_write_in.
  - rewrite !lookup_ge_None_2; [done|lia|]. rewrite bytes_at_length. lia.
Qed.

(** Two byte ranges that do not overlap. *)
Definition disjoint_ranges (a : Z) (n : nat) (b : Z) (k : nat) : Prop :=
  a + Z.of_nat n ≤ b ∨ b + Z.of_nat k ≤ a.

Lemma bytes_write_ne a n b bs m : disjoint_ranges a n b (length bs) →
  bytes_at (write_bytes b bs m) a n = bytes_at m a n.
Proof. unfold disjoint_ranges. intros H. apply bytes_at_ext. intros x Hx. apply rd_write_out. lia. Qed.

Lemma write_write a bs bs' m : length bs = length bs' →
  write_bytes a bs (write_bytes a bs' m) = write_bytes a bs m.
Proof.
  revert a bs' m. induction bs as [|b bs IH]; intros a bs' m Hl; destruct bs' as [|b' bs']; try done.
  simpl in *. rewrite <-write_bytes_wr by lia. rewrite IH by lia. f_equal.
  unfold wr. by rewrite insert_insert_eq.
Qed.

Lemma write_bytes_app a bs bs' m :
  write_bytes a (bs ++ bs') m = write_bytes (a + Z.of_nat (length bs)) bs' (write_bytes a bs m).
Proof.
  revert a m. induction bs as [|b bs IH]; intros a m; simpl; [by rewrite Z.add_0_r|].
  rewrite IH. f_equal. lia.
Qed.

Lemma load64_store64 a v m : load64 (store64 a v m) a = u64 v.
Proof.
  unfold load64, store64. rewrite <-(le_bytes_length 8 v) at 2.
  rewrite bytes_write, le_value_bytes. done.
Qed.
Lemma load64_store64_ne a b v m : a + 8 ≤ b ∨ b + 8 ≤ a → load64 (store64 b v m) a = load64 m a.
Proof. intros H. unfold load64, store64. rewrite bytes_write_ne; [done|]. unfold disjoint_ranges. rewrite le_bytes_length. lia. Qed.
Lemma load64_ext m m' a : (∀ x, a ≤ x < a + 8 → rd m x = rd m' x) → load64 m a = load64 m' a.
Proof. intros H. unfold load64. f_equal. apply bytes_at_ext. intros. apply H. lia. Qed.
Lemma load64_write_ne a b bs m : a + 8 ≤ b ∨ b + Z.of_nat (length bs) ≤ a →
  load64 (write_bytes b bs m) a = load64 m a.
Proof. intros H. apply load64_ext. intros x Hx. apply rd_write_out. lia. Qed.
Lemma rd_store64_ne a v m x : x < a ∨ a + 8 ≤ x → rd (store64 a v m) x = rd m x.
Proof. intros H. apply rd_write_out. rewrite le_bytes_length. lia. Qed.
