(* ===== verification/Str.v ===== *)
(** The C string and memory routines of the kernel ([string.c]), on
    byte-addressed memory. [char] is unsigned on
    RISC-V. Objects do not wrap around the address space, so pointers are
    compared and advanced as integers. *)
From Stdlib Require Import ZArith Lia.
From stdpp Require Import base list gmap strings.
From S2P Require Import Prelude Machine Mem.

(** ** [string.c] *)

(** [for(i = 0; i < n; i++) cdst[i] = c;] *)
Fixpoint memset_loop (n : nat) (i dst c : Z) (m : mem) : mem :=
  match n with
  | O => m
  | S n' => memset_loop n' (i + 1) dst c (wr (dst + i) (u8 c) m)
  end.
Definition memset (dst c n : Z) (m : mem) : mem := memset_loop (Z.to_nat n) 0 dst c m.

Fixpoint memcmp_loop (n : nat) (s1 s2 : Z) (m : mem) : Z :=
  match n with
  | O => 0
  | S n' => if rd m s1 =? rd m s2 then memcmp_loop n' (s1 + 1) (s2 + 1) m else rd m s1 - rd m s2
  end.
Definition memcmp (v1 v2 n : Z) (m : mem) : Z := memcmp_loop (Z.to_nat n) v1 v2 m.

(** [while(n-- > 0) *--d = *--s;] and [while(n-- > 0) *d++ = *s++;] *)
Fixpoint copy_down (n : nat) (d s : Z) (m : mem) : mem :=
  match n with
  | O => m
  | S n' => copy_down n' (d - 1) (s - 1) (wr (d - 1) (rd m (s - 1)) m)
  end.
Fixpoint copy_up (n : nat) (d s : Z) (m : mem) : mem :=
  match n with
  | O => m
  | S n' => copy_up n' (d + 1) (s + 1) (wr d (rd m s) m)
  end.
Definition memmove (dst src n : Z) (m : mem) : mem :=
  if n =? 0 then m else
  if (src <? dst) && (dst <? src + n)
  then copy_down (Z.to_nat n) (dst + n) (src + n) m
  else copy_up (Z.to_nat n) dst src m.

Definition memcpy (dst src n : Z) (m : mem) : mem := memmove dst src n m.

(** [while(n > 0 && *p && *p == *q) n--, p++, q++;] and the tests after it. *)
Fixpoint strncmp_loop (n : nat) (p q : Z) (m : mem) : Z :=
  match n with
  | O => 0
  | S n' =>
      if negb (rd m p =? 0) && (rd m p =? rd m q)
      then strncmp_loop n' (p + 1) (q + 1) m
      else rd m p - rd m q
  end.
Definition strncmp (p q n : Z) (m : mem) : Z := strncmp_loop (Z.to_nat n) p q m.

(** [strncpy]: the copying loop hands over to the padding loop after the NUL. *)
Fixpoint pad_loop (n : nat) (s : Z) (m : mem) : mem :=
  match n with O => m | S n' => pad_loop n' (s + 1) (wr s 0 m) end.
Fixpoint strncpy_loop (n : nat) (s t : Z) (m : mem) : mem :=
  match n with
  | O => m
  | S n' =>
      let m' := wr s (rd m t) m in
      if rd m t =? 0 then pad_loop n' (s + 1) m' else strncpy_loop n' (s + 1) (t + 1) m'
  end.
Definition strncpy (s t n : Z) (m : mem) : mem := strncpy_loop (Z.to_nat n) s t m.

(** [while(--n > 0 && ( *s++ = *t++ ) != 0); *s = 0;]; the argument is [n - 1]. *)
Fixpoint safestrcpy_loop (n : nat) (s t : Z) (m : mem) : mem :=
  match n with
  | O => wr s 0 m
  | S n' =>
      let m' := wr s (rd m t) m in
      if rd m t =? 0 then wr (s + 1) 0 m' else safestrcpy_loop n' (s + 1) (t + 1) m'
  end.
Definition safestrcpy (s t n : Z) (m : mem) : mem :=
  if n <=? 0 then m else safestrcpy_loop (Z.to_nat (n - 1)) s t m.

(** [for(n = 0; s[n]; n++);]: [None] when the fuel ends before the NUL. *)
Fixpoint strlen_loop (fuel : nat) (s n : Z) (m : mem) : option Z :=
  match fuel with
  | O => None
  | S f => if rd m (s + n) =? 0 then Some n else strlen_loop f s (n + 1) m
  end.
Definition strlen (fuel : nat) (s : Z) (m : mem) : option Z := strlen_loop fuel s 0 m.

(** ** What the routines do to memory *)

Lemma memset_loop_spec n i dst c m :
  memset_loop n i dst c m = write_bytes (dst + i) (replicate n (u8 c)) m.
Proof.
  revert i m. induction n as [|n IH]; intros i m; simpl; [done|].
  rewrite IH. f_equal. lia.
Qed.
Lemma memset_spec dst c n m : memset dst c n m = write_bytes dst (replicate (Z.to_nat n) (u8 c)) m.
Proof. unfold memset. by rewrite memset_loop_spec, Z.add_0_r. Qed.

Lemma rd_memset dst c n m x : 0 ≤ n →
  rd (memset dst c n m) x = if decide (dst ≤ x < dst + n) then u8 c else rd m x.
Proof.
  intros Hn. rewrite memset_spec, rd_write, length_replicate, Z2Nat.id by done.
  case_decide; [|done]. apply lookup_total_replicate_2. lia.
Qed.

(** Copying upwards is right unless the destination starts inside the source. *)
Lemma copy_up_spec n d s m : d ≤ s ∨ s + Z.of_nat n ≤ d →
  copy_up n d s m = write_bytes d (bytes_at m s n) m.
Proof.
  revert d s m. induction n as [|n IH]; intros d s m H; simpl; [done|].
  rewrite IH by lia. f_equal. apply bytes_at_ext. intros x Hx. by rewrite rd_wr, decide_False by lia.
Qed.

(** Copying downwards is right unless the source starts inside the destination. *)
Lemma copy_down_spec n d s m : s ≤ d ∨ d + Z.of_nat n ≤ s →
  copy_down n (d + Z.of_nat n) (s + Z.of_nat n) m = write_bytes d (bytes_at m s n) m.
Proof.
  revert m. induction n as [|n IH]; intros m H; [done|]. cbn [copy_down].
  replace (d + Z.of_nat (S n) - 1) with (d + Z.of_nat n) by lia.
  replace (s + Z.of_nat (S n) - 1) with (s + Z.of_nat n) by lia.
  rewrite IH by lia. replace (S n) with (n + 1)%nat by lia.
  rewrite bytes_at_app, write_bytes_app, bytes_at_length. simpl.
  rewrite write_bytes_wr by (rewrite bytes_at_length; lia). f_equal. f_equal.
  apply bytes_at_ext. intros x Hx. by rewrite rd_wr, decide_False by lia.
Qed.

Lemma memmove_spec dst src n m : 0 ≤ n →
  memmove dst src n m = write_bytes dst (bytes_at m src (Z.to_nat n)) m.
Proof.
  intros Hn. unfold memmove. destruct (Z.eqb_spec n 0) as [->|]; [done|].
  destruct (Z.ltb_spec src dst), (Z.ltb_spec dst (src + n)); simpl; try (apply copy_up_spec; lia).
  replace (dst + n) with (dst + Z.of_nat (Z.to_nat n)) by lia.
  replace (src + n) with (src + Z.of_nat (Z.to_nat n)) by lia. apply copy_down_spec. lia.
Qed.

Lemma rd_memmove dst src n m x : 0 ≤ n →
  rd (memmove dst src n m) x = if decide (dst ≤ x < dst + n) then rd m (src + (x - dst)) else rd m x.
Proof.
  intros Hn. rewrite memmove_spec, rd_write, bytes_at_length, Z2Nat.id by done.
  case_decide; [|done]. apply list_lookup_total_correct. rewrite bytes_at_lookup by lia.
  do 2 f_equal. lia.
Qed.

(** *** C strings *)

(** The string [str] (no NUL inside) is stored at [s], NUL-terminated. *)
Definition cstr (m : mem) (s : Z) (str : list Z) : Prop :=
  bytes_at m s (length str) = str ∧ rd m (s + Z.of_nat (length str)) = 0 ∧ Forall (λ c, c ≠ 0) str.

Lemma cstr_cons m s c str :
  cstr m s (c :: str) ↔ rd m s = c ∧ c ≠ 0 ∧ cstr m (s + 1) str.
Proof.
  unfold cstr. cbn [length bytes_at]. replace (s + Z.of_nat (S (length str))) with (s + 1 + Z.of_nat (length str)) by lia.
  rewrite Forall_cons. split.
  - intros ([= H1 H2] & H3 & H4 & H5). naive_solver.
  - intros (-> & H & H1 & H2 & H3). by rewrite H1.
Qed.
Lemma cstr_nil m s : cstr m s [] ↔ rd m s = 0.
Proof. unfold cstr. simpl. rewrite Z.add_0_r. naive_solver. Qed.

Lemma cstr_ext m m' s str :
  (∀ x, s ≤ x ≤ s + Z.of_nat (length str) → rd m x = rd m' x) → cstr m s str → cstr m' s str.
Proof.
  intros Hx (H1 & H2 & H3). split; [|split; [|done]].
  - rewrite <-H1 at 2. symmetry. apply bytes_at_ext. intros x ?. apply Hx. lia.
  - by rewrite <-Hx by lia.
Qed.

Lemma strlen_loop_spec f s n m str : cstr m (s + n) str → (length str < f)%nat →
  strlen_loop f s n m = Some (n + Z.of_nat (length str)).
Proof.
  revert f n. induction str as [|c str IH]; intros f n Hs Hf; destruct f as [|f]; simpl in *; try lia.
  - apply cstr_nil in Hs. by rewrite Hs, Z.add_0_r.
  - apply cstr_cons in Hs as (-> & Hc & Hs). apply Z.eqb_neq in Hc. rewrite Hc.
    rewrite IH; [f_equal; lia|by replace (s + (n + 1)) with (s + n + 1) by lia|lia].
Qed.

Lemma strlen_spec f s m str : cstr m s str → (length str < f)%nat →
  strlen f s m = Some (Z.of_nat (length str)).
Proof. intros. unfold strlen. by rewrite (strlen_loop_spec f s 0 m str) by (rewrite ?Z.add_0_r; done). Qed.

Lemma pad_loop_spec n s m : pad_loop n s m = write_bytes s (replicate n 0) m.
Proof. revert s m. induction n as [|n IH]; intros s m; simpl; [done|]. by rewrite IH. Qed.

Lemma bytes_at_cstr m s str n : cstr m s str → (n ≤ length str)%nat → bytes_at m s n = take n str.
Proof.
  intros (H1 & _) Hn. rewrite <-H1 at 1. replace (length str) with (n + (length str - n))%nat by lia.
  rewrite bytes_at_app, take_app_length'; [done|]. by rewrite bytes_at_length.
Qed.

(** The copying loop of [safestrcpy] on a source that is not overwritten: it
    writes the string cut to [n] characters, and a NUL. *)
Lemma safestrcpy_loop_spec n s t m str : cstr m t str →
  t + Z.of_nat (length str) < s ∨ s + Z.of_nat n < t →
  ∃ tl, (tl = [] ∨ tl = [0]) ∧ (length (take n str ++ [0%Z] ++ tl) ≤ n + 1)%nat ∧
  safestrcpy_loop n s t m = write_bytes s (take n str ++ [0] ++ tl) m.
Proof.
  revert s t m str. induction n as [|n IH]; intros s t m str Hs Hd.
  { exists []. rewrite take_0. split; [by left|]. split; [simpl; lia|done]. }
  destruct str as [|c str]; cbn [safestrcpy_loop].
  - apply cstr_nil in Hs. rewrite Hs. exists [0]. split; [by right|]. split; [simpl; lia|done].
  - apply cstr_cons in Hs as (Hc & Hc0 & Hs). rewrite Hc.
    destruct (Z.eqb_spec c 0); [done|]. cbn [length] in Hd.
    destruct (IH (s + 1) (t + 1) (wr s c m) str) as (tl & Htl & Hlen & ->); [|lia|].
    + eapply cstr_ext; [|exact Hs]. intros x Hx. rewrite rd_wr, decide_False by lia. done.
    + exists tl. split; [done|]. split; [simpl in *; lia|done].
Qed.

Lemma write_cstr s str tl m : Forall (λ c, c ≠ 0) str → cstr (write_bytes s (str ++ [0] ++ tl) m) s str.
Proof.
  intros Hn. split; [|split; [|done]].
  - rewrite write_bytes_app. rewrite bytes_write_ne by (left; lia). apply bytes_write.
  - apply rd_write_in. by rewrite lookup_app_r, Nat.sub_diag by lia.
Qed.

(** [safestrcpy(s, t, n)] with [n > 0] always leaves a NUL-terminated
    string in the [n]-byte buffer: the source string cut to [n - 1]
    characters; bytes outside the buffer are untouched, and with [n <= 0]
    nothing is written. *)
Theorem safestrcpy_terminates s t n m str : cstr m t str →
  t + Z.of_nat (length str) < s ∨ s + n ≤ t →
  let m' := safestrcpy s t n m in
  (0 < n → cstr m' s (take (Z.to_nat (n - 1)) str)) ∧
  (∀ x, x < s ∨ s + n ≤ x → rd m' x = rd m x) ∧
  (n ≤ 0 → m' = m).
Proof.
  intros Hs Hd. simpl. unfold safestrcpy. destruct (Z.leb_spec n 0); [naive_solver lia|].
  destruct (safestrcpy_loop_spec (Z.to_nat (n - 1)) s t m str Hs ltac:(lia)) as (tl & _ & Hlen & ->).
  split; [|split; [|lia]].
  - intros _. apply write_cstr, Forall_take. apply Hs.
  - intros x Hx. apply rd_write_out. lia.
Qed.

Lemma safestrcpy_terminates_witness :
  let m := write_bytes 100 [105; 110; 105; 116; 0] ∅ in
  let m' := safestrcpy 0 100 3 m in
  (0 < 3 → cstr m' 0 [105; 110]) ∧ (∀ x, x < 0 ∨ 0 + 3 ≤ x → rd m' x = rd m x) ∧ (3 ≤ 0 → m' = m).
Proof.
  apply (safestrcpy_terminates 0 100 3 (write_bytes 100 [105; 110; 105; 116; 0] ∅) [105; 110; 105; 116]).
  - split; [reflexivity|split; [reflexivity|repeat constructor; lia]].
  - simpl; lia.
Defined.
