(* ===== verification/Ulib.v ===== *)
(** The C library of user programs ([ulib.c]). The routines whose names
    [string.c] also uses have a [u] in front. *)
From Stdlib Require Import ZArith Lia.
From stdpp Require Import base list gmap strings.
From S2P Require Import Prelude Machine Mem Str.

(** [if(src > dst)] copies upwards, otherwise downwards. *)
Definition memmove (vdst vsrc n : Z) (m : mem) : mem :=
  if vdst <? vsrc then copy_up (Z.to_nat n) vdst vsrc m
  else copy_down (Z.to_nat n) (vdst + n) (vsrc + n) m.

Fixpoint strcpy (fuel : nat) (s t : Z) (m : mem) : option mem :=
  match fuel with
  | O => None
  | S f =>
      let m' := wr s (rd m t) m in
      if rd m t =? 0 then Some m' else strcpy f (s + 1) (t + 1) m'
  end.

Fixpoint strcmp (fuel : nat) (p q : Z) (m : mem) : option Z :=
  match fuel with
  | O => None
  | S f =>
      if negb (rd m p =? 0) && (rd m p =? rd m q) then strcmp f (p + 1) (q + 1) m
      else Some (rd m p - rd m q)
  end.

(** [Some 0] is the null pointer. *)
Fixpoint strchr (fuel : nat) (s c : Z) (m : mem) : option Z :=
  match fuel with
  | O => None
  | S f =>
      if rd m s =? 0 then Some 0
      else if rd m s =? c then Some s else strchr f (s + 1) c m
  end.

Fixpoint ustrlen (fuel : nat) (s n : Z) (m : mem) : option Z :=
  match fuel with
  | O => None
  | S f => if rd m (s + n) =? 0 then Some n else ustrlen f s (n + 1) m
  end.
Fixpoint umemset_loop (k : nat) (i dst c : Z) (m : mem) : mem :=
  match k with
  | O => m
  | S k' => umemset_loop k' (i + 1) dst c (wr (dst + i) (u8 c) m)
  end.
Definition umemset (dst c n : Z) (m : mem) : mem := umemset_loop (Z.to_nat n) 0 dst c m.
Fixpoint umemcmp_loop (n : nat) (p1 p2 : Z) (m : mem) : Z :=
  match n with
  | O => 0
  | S n' => if rd m p1 =? rd m p2 then umemcmp_loop n' (p1 + 1) (p2 + 1) m else rd m p1 - rd m p2
  end.
Definition umemcmp (s1 s2 n : Z) (m : mem) : Z := umemcmp_loop (Z.to_nat n) s1 s2 m.
Definition umemcpy (dst src n : Z) (m : mem) : mem := memmove dst src n m.
Fixpoint ustrncmp_loop (n : nat) (p q : Z) (m : mem) : Z :=
  match n with
  | O => 0
  | S n' => if negb (rd m p =? 0) && (rd m p =? rd m q) then ustrncmp_loop n' (p + 1) (q + 1) m else rd m p - rd m q
  end.
Definition ustrncmp (p q n : Z) (m : mem) : Z := ustrncmp_loop (Z.to_nat n) p q m.

(** [while('0' <= *s && *s <= '9') n = n*10 + *s++ - '0';] *)
Fixpoint atoi_loop (fuel : nat) (s n : Z) (m : mem) : option Z :=
  match fuel with
  | O => None
  | S f =>
      if (48 <=? rd m s) && (rd m s <=? 57)
      then atoi_loop f (s + 1) (i32 (i32 (n * 10) + rd m s - 48)) m
      else Some n
  end.
Definition atoi (fuel : nat) (s : Z) (m : mem) : option Z := atoi_loop fuel s 0 m.

(** [gets]: [input] is what [read(0, &c, 1)] will deliver, one byte per call,
    until it ends ([cc < 1]). The result is the memory and the unread input. *)
Fixpoint gets_loop (n : nat) (buf i : Z) (input : list Z) (m : mem) : mem * list Z :=
  match n with
  | O => (wr (buf + i) 0 m, input)
  | S n' =>
      match input with
      | [] => (wr (buf + i) 0 m, [])
      | c :: input' =>
          let m' := wr (buf + i) c m in
          if (c =? 10) || (c =? 13) then (wr (buf + (i + 1)) 0 m', input')
          else gets_loop n' buf (i + 1) input' m'
      end
  end.
Definition gets (buf max : Z) (input : list Z) (m : mem) : mem * list Z :=
  gets_loop (Z.to_nat (max - 1)) buf 0 input m.


(** ** What the routines do *)

Lemma ulib_memmove_spec dst src n m : 0 ≤ n →
  memmove dst src n m = write_bytes dst (bytes_at m src (Z.to_nat n)) m.
Proof.
  intros Hn. unfold memmove. destruct (Z.ltb_spec dst src); [apply copy_up_spec; lia|].
  replace (dst + n) with (dst + Z.of_nat (Z.to_nat n)) by lia.
  replace (src + n) with (src + Z.of_nat (Z.to_nat n)) by lia. apply copy_down_spec. lia.
Qed.

(** [memmove], the kernel's and the user library's, copies correctly also
    when the two ranges overlap, in either direction: every byte of the
    destination range holds what the corresponding source byte held before the
    call, and no other byte changes. *)
Theorem memmove_overlap dst src n m x : 0 ≤ n →
  let moved := if decide (dst ≤ x < dst + n) then rd m (src + (x - dst)) else rd m x in
  rd (Str.memmove dst src n m) x = moved ∧ rd (memmove dst src n m) x = moved.
Proof.
  intros Hn. simpl. split; [by apply rd_memmove|].
  rewrite ulib_memmove_spec, <-memmove_spec by done. by apply rd_memmove.
Qed.

Lemma memmove_overlap_witness :
  rd (Str.memmove 11 10 4 (write_bytes 10 [1; 2; 3; 4; 5] ∅)) 12 = 2 ∧
  rd (memmove 11 10 4 (write_bytes 10 [1; 2; 3; 4; 5] ∅)) 12 = 2.
Proof.
  pose proof (memmove_overlap 11 10 4 (write_bytes 10 [1; 2; 3; 4; 5] ∅) 12 ltac:(lia)) as H.
  cbv zeta in H. rewrite decide_True in H by lia. exact H.
Defined.

