(* ===== verification/Umalloc.v ===== *)
(** The allocator of user programs ([umalloc.c]), on the program's memory. *)
From Stdlib Require Import ZArith Lia.
From stdpp Require Import base list gmap strings.
From S2P Require Import Prelude Machine Mem.

(** ** State *)

(** The program's memory, [freep], and the end of the heap, which [sbrk] moves. *)
Record ust := mkust { u_mem : mem; u_freep : Z; u_brk : Z }.
Definition upd_umem (f : mem → mem) (s : ust) : ust := mkust (f (u_mem s)) (u_freep s) (u_brk s).
Definition set_freep (p : Z) (s : ust) : ust := mkust (u_mem s) p (u_brk s).

Local Abbreviation U := (M Empty_set ust).

(** [union header]: [s.ptr] is at offset 0, [s.size] at 8. *)
Definition HEADER : Z := 16.
Definition hptr (m : mem) (a : Z) : Z := load64 m a.
Definition hsize (m : mem) (a : Z) : Z := load32 m (a + 8).
Definition set_hptr (a v : Z) (m : mem) : mem := store64 a v m.
Definition set_hsize (a v : Z) (m : mem) : mem := store32 (a + 8) v m.

(** The kernel's [sbrk]: whether it grants [n] more bytes when the heap ends at
    [brk]; a program has at most the machine's 128 megabytes. *)
Class Sbrk := {
  grants : Z → Z → bool;
  grants_memory brk n : grants brk n = true → brk + n ≤ PHYSTOP - KERNBASE
}.

Section umalloc.
(** The address of [base]. *)
Context (base : Z).

(** The [for] of [free]; there are at most [brk / 16] headers. *)
Fixpoint free_find (fuel : nat) (bp p : Z) (m : mem) : option Z :=
  match fuel with
  | O => None
  | S f =>
      let nx := hptr m p in
      if (p <? bp) && (bp <? nx) then Some p
      else if (nx <=? p) && ((p <? bp) || (bp <? nx)) then Some p
      else free_find f bp nx m
  end.

Definition free (ap : Z) : U unit :=
  let bp := u64 (ap - HEADER) in
  let! s := gets id in
  match free_find (Z.to_nat (u_brk s / HEADER)) bp (u_freep s) (u_mem s) with
  | None => λ s, Spin s []
  | Some p =>
      modify (upd_umem (λ m,
        if u64 (bp + HEADER * hsize m bp) =? hptr m p then
          let m' := set_hsize bp (u32 (hsize m bp + hsize m (hptr m p))) m in
          set_hptr bp (hptr m' (hptr m' p)) m'
        else set_hptr bp (hptr m p) m)) ;;
      modify (upd_umem (λ m,
        if u64 (p + HEADER * hsize m p) =? bp then
          let m' := set_hsize p (u32 (hsize m p + hsize m bp)) m in
          set_hptr p (hptr m' bp) m'
        else set_hptr p bp m)) ;;
      modify (set_freep p)
  end.

Context `{Sbrk}.

(** [sbrk(n)] takes an [int]; a negative one shrinks the heap. *)
Definition sbrk (n : Z) : U Z :=
  let! s := gets id in
  if grants (u_brk s) n then modify (λ s, mkust (u_mem s) (u_freep s) (u_brk s + n)) ;; ret (u_brk s)
  else ret (-1).

Definition morecore (nu : Z) : U Z :=
  let nu := if nu <? 4096 then 4096 else nu in
  let! p := sbrk (i32 (nu * HEADER)) in
  if p =? -1 then ret 0 else
  modify (upd_umem (set_hsize p nu)) ;;
  free (u64 (p + HEADER)) ;;
  gets u_freep.

(** What [malloc] does with a block [p] that is large enough. *)
Definition take_block (nunits prevp p : Z) : U Z :=
  let! s := gets id in
  let! p :=
    (if hsize (u_mem s) p =? nunits then
       modify (upd_umem (λ m, set_hptr prevp (hptr m p) m)) ;; ret p
     else
       modify (upd_umem (λ m, set_hsize p (u32 (hsize m p - nunits)) m)) ;;
       let! s := gets id in
       let p' := u64 (p + HEADER * hsize (u_mem s) p) in
       modify (upd_umem (set_hsize p' nunits)) ;; ret p') in
  modify (set_freep prevp) ;;
  ret (u64 (p + HEADER)).

(** The [for] of [malloc]: [p] is the block looked at and [prevp] the one
    before it. *)
Fixpoint malloc_loop (fuel : nat) (nunits prevp p : Z) : U Z :=
  match fuel with
  | O => λ s, Spin s []
  | S f =>
      let! s := gets id in
      if nunits <=? hsize (u_mem s) p then take_block nunits prevp p
      else if p =? u_freep s then
        let! p := morecore nunits in
        if p =? 0 then ret 0 else
        let! s := gets id in
        malloc_loop f nunits p (hptr (u_mem s) p)
      else malloc_loop f nunits p (hptr (u_mem s) p)
  end.

Definition units (nbytes : Z) : Z := u32 ((nbytes + HEADER - 1) / HEADER + 1).

(** Two laps of the free list are enough. *)
Definition malloc (nbytes : Z) : U Z :=
  let nunits := units nbytes in
  let! s := gets id in
  (if u_freep s =? 0 then
     modify (upd_umem (set_hptr base base)) ;;
     modify (set_freep base) ;;
     modify (upd_umem (set_hsize base 0))
   else ret tt) ;;
  let! s := gets id in
  malloc_loop (Z.to_nat (2 * (u_brk s / HEADER) + 8)) nunits (u_freep s) (hptr (u_mem s) (u_freep s)).
End umalloc.
