(* ===== verification/UmallocThm.v ===== *)
(** The allocator of user programs hands out disjoint blocks, loses no memory
    and joins what is freed. *)
From Stdlib Require Import ZArith Lia.
From stdpp Require Import base list gmap strings.
From S2P Require Import Prelude Machine Mem Umalloc.

(** ** Headers *)

Lemma hptr_set a v m : is_u64 v → hptr (set_hptr a v m) a = v.
Proof. intros Hv. unfold hptr, set_hptr. rewrite load64_store64. by apply u64_small. Qed.
Lemma hsize_set a v m : is_u32 v → hsize (set_hsize a v m) a = v.
Proof.
  intros Hv. unfold hsize, set_hsize, load32, store32. rewrite <- (le_bytes_length 4 v) at 2. rewrite bytes_write, le_value_bytes.
  apply Z.mod_small. exact Hv.
Qed.
Lemma rd_set_hptr a v m x : x < a ∨ a + 8 ≤ x → rd (set_hptr a v m) x = rd m x.
Proof. apply rd_store64_ne. Qed.
Lemma rd_set_hsize a v m x : x < a + 8 ∨ a + 12 ≤ x → rd (set_hsize a v m) x = rd m x.
Proof. intros Hx. apply rd_write_out. rewrite le_bytes_length. lia. Qed.

(** Memory that keeps the bytes of a header keeps it. *)
Lemma hdr_ext m m' a : (∀ x, a ≤ x < a + 16 → rd m' x = rd m x) → hptr m' a = hptr m a ∧ hsize m' a = hsize m a.
Proof.
  intros Hx. split; [apply load64_ext; intros x Hr; apply Hx; lia|]. unfold hsize, load32. f_equal. apply bytes_at_ext. intros x Hr. apply Hx. lia.
Qed.
Lemma hptr_set_hsize a v m : hptr (set_hsize a v m) a = hptr m a.
Proof. apply load64_ext. intros x Hx. apply rd_set_hsize. lia. Qed.
Lemma hsize_set_hptr a v m : hsize (set_hptr a v m) a = hsize m a.
Proof. unfold hsize, load32. f_equal. apply bytes_at_ext. intros x Hx. apply rd_set_hptr. lia. Qed.

(** ** Blocks *)

(** The address of a block's header and its size in units of 16 bytes. *)
Abbreviation blk := (Z * Z)%type.
Definition end_of (b : blk) : Z := b.1 + 16 * b.2.
Definition apart (x y : blk) : Prop := end_of x ≤ y.1 ∨ end_of y ≤ x.1.
Fixpoint disjoint_blocks (A : list blk) : Prop :=
  match A with [] => True | x :: A' => Forall (apart x) A' ∧ disjoint_blocks A' end.
Definition units_of (A : list blk) : Z := foldr (λ b n, b.2 + n) 0 A.

Lemma apart_sym x y : apart x y → apart y x.
Proof. unfold apart. tauto. Qed.
Lemma disjoint_perm A A' : A ≡ₚ A' → disjoint_blocks A → disjoint_blocks A'.
Proof.
  induction 1 as [|x A A' HA IH|x y A|A A' A'' _ IH _ IH']; simpl.
  - done.
  - intros [H1 H2]. split; [by rewrite <- HA|auto].
  - rewrite !Forall_cons. intros ((Hxy & Hy) & Hx & Hd). split_and!; [by apply apart_sym|done..].
  - auto.
Qed.
Lemma disjoint_lookup A : ∀ i j x y, disjoint_blocks A → A !! i = Some x → A !! j = Some y → i ≠ j → apart x y.
Proof.
  induction A as [|z A IH]; intros [|i] [|j] x y Hd Hi Hj Hij; try done; simpl in *; destruct Hd as [Hz Hd]; rewrite Forall_forall in Hz.
  - injection Hi as ->. apply Hz. by apply list_elem_of_lookup_2 in Hj.
  - injection Hj as ->. apply apart_sym, Hz. by apply list_elem_of_lookup_2 in Hi.
  - apply (IH i j); auto.
Qed.
Lemma units_app A A' : units_of (A ++ A') = units_of A + units_of A'.
Proof. induction A as [|x A IH]; [done|]. simpl. rewrite IH. lia. Qed.

(** The free blocks in memory: each header points to the next, the last to
    [e]. *)
Fixpoint chain (m : mem) (L : list blk) (e : Z) : Prop :=
  match L with
  | [] => True
  | x :: L' => hptr m x.1 = match L' with [] => e | y :: _ => y.1 end ∧ hsize m x.1 = x.2 ∧ chain m L' e
  end.
(** The address of the first block, or [e]. *)
Definition first (e : Z) (L : list blk) : Z := match L with [] => e | y :: _ => y.1 end.
Lemma chain_cons m x L e : chain m (x :: L) e ↔ hptr m x.1 = first e L ∧ hsize m x.1 = x.2 ∧ chain m L e.
Proof. done. Qed.
Lemma chain_app m L L' e : chain m (L ++ L') e ↔ chain m L (first e L') ∧ chain m L' e.
Proof.
  induction L as [|x L IH]; [simpl; tauto|]. cbn [app]. rewrite !chain_cons, IH. replace (first e (L ++ L')) with (first (first e L') L); [tauto|]. by destruct L.
Qed.
Lemma links_ext m m' L e : (∀ x, x ∈ L → hptr m' x.1 = hptr m x.1 ∧ hsize m' x.1 = hsize m x.1) → chain m L e → chain m' L e.
Proof.
  induction L as [|x L IH]; [done|]. intros Hx. rewrite !chain_cons. intros (Hp & Hs & Hc). destruct (Hx x) as [-> ->]; [by left|].
  split_and!; [done|done|]. apply IH; [|done]. intros y Hy. apply Hx. by right.
Qed.

(** Free blocks go up in memory and no two of them touch. *)
Fixpoint rising (lo : Z) (F : list blk) : Prop :=
  match F with [] => True | x :: F' => lo ≤ x.1 ∧ 1 ≤ x.2 ∧ rising (end_of x + 1) F' end.
Definition top (lo : Z) (F : list blk) : Z := foldl (λ _ x, end_of x + 1) lo F.

Lemma rising_app lo F F' : rising lo (F ++ F') ↔ rising lo F ∧ rising (top lo F) F'.
Proof. revert lo. induction F as [|x F IH]; intros lo; simpl; [tauto|]. rewrite IH. tauto. Qed.
Lemma rising_weaken lo lo' F : lo' ≤ lo → rising lo F → rising lo' F.
Proof. destruct F as [|x F]; [done|]. simpl. intros ? (? & ? & ?). split_and!; [lia|done|done]. Qed.
Lemma top_snoc lo F x : top lo (F ++ [x]) = end_of x + 1.
Proof. unfold top. by rewrite foldl_app. Qed.
Lemma rising_in lo F x : rising lo F → x ∈ F → lo ≤ x.1 ∧ 1 ≤ x.2.
Proof.
  revert lo. induction F as [|y F IH]; intros lo; [by intros _ ?%not_elem_of_nil|]. simpl. intros (Hl & Hn & Hr) [->|Hx]%elem_of_cons; [done|].
  destruct (IH _ Hr Hx). unfold end_of in *. lia.
Qed.
(** A block below the end of the others. *)
Lemma rising_top lo F x : rising lo F → x ∈ F → end_of x + 1 ≤ top lo F.
Proof.
  intros Hr (F1 & F2 & ->)%list_elem_of_split. apply rising_app in Hr as [_ Hr]. simpl in Hr. destruct Hr as (_ & _ & Hr).
  unfold top. rewrite foldl_app. cbn [foldl]. fold (top (end_of x + 1) F2).
  revert Hr. generalize (end_of x + 1). induction F2 as [|y F2 IH]; intros z; simpl; [lia|]. intros (Hz & Hy & Hr). specialize (IH _ Hr). unfold end_of in *. lia.
Qed.

(** ** The heap *)

Section heap.
Context (base brk0 : Z) (base_pos : 0 < base) (base_low : base + 16 ≤ brk0).

(** The header before the free blocks [l2] when [l1] precede them. *)
Definition pred (l1 : list blk) : Z := match last l1 with Some x => x.1 | None => base end.

Lemma pred_snoc l x : pred (l ++ [x]) = x.1.
Proof. unfold pred. by rewrite last_snoc. Qed.

Lemma chain_pred m l1 l2 : chain m ((base, 0) :: l1 ++ l2) base →
  hptr m (pred l1) = first base l2 ∧ hsize m (pred l1) = match last l1 with Some x => x.2 | None => 0 end.
Proof.
  destruct l1 as [|x l1 _] using rev_ind; [by intros (? & ? & _)|]. rewrite pred_snoc, last_snoc, <- app_assoc.
  change ((base, 0) :: l1 ++ [x] ++ l2) with (((base, 0) :: l1) ++ x :: l2). rewrite chain_app. by intros (_ & ? & ? & _).
Qed.
Lemma chain_first m l1 y l2 : chain m ((base, 0) :: l1 ++ y :: l2) base → hptr m y.1 = first base l2 ∧ hsize m y.1 = y.2.
Proof. change ((base, 0) :: l1 ++ y :: l2) with (((base, 0) :: l1) ++ y :: l2). rewrite chain_app. by intros (_ & ? & ? & _). Qed.

Lemma pred_bound lo l1 l2 : rising lo (l1 ++ l2) → brk0 ≤ lo → base ≤ pred l1 ∧ ∀ x, x ∈ l2 → pred l1 < x.1.
Proof.
  intros Hr Hlo. destruct l1 as [|y l1 _] using rev_ind.
  - split; [unfold pred; simpl; lia|]. intros x Hx. unfold pred; simpl. destruct (rising_in _ _ x Hr Hx). lia.
  - rewrite pred_snoc. apply rising_app in Hr as [Hr1 Hr2]. rewrite top_snoc in Hr2.
    destruct (rising_in _ _ y Hr1) as [Hy1 Hy2]; [rewrite elem_of_app; right; by left|]. split; [lia|]. intros x Hx. destruct (rising_in _ _ x Hr2 Hx). unfold end_of in *. lia.
Qed.

(** The free blocks below and above a block that is apart from them. *)
Lemma split_at lo F b : rising lo F → 1 ≤ b.2 → (∀ x, x ∈ F → apart x b) →
  ∃ F1 F2, F = F1 ++ F2 ∧ (∀ x, x ∈ F1 → end_of x ≤ b.1) ∧ (∀ x, x ∈ F2 → end_of b ≤ x.1).
Proof.
  intros Hr Hb. revert lo Hr. induction F as [|x F IH]; intros lo Hr Ha.
  { exists [], []. split_and!; [done|by intros ? ?%not_elem_of_nil..]. }
  simpl in Hr. destruct Hr as (Hlo & Hn & Hr). destruct (Ha x) as [Hx|Hx]; [by left| |].
  - destruct (IH _ Hr) as (F1 & F2 & -> & H1 & H2); [intros y Hy; apply Ha; by right|]. exists (x :: F1), F2. split_and!; [done| |done].
    by intros y [->|Hy]%elem_of_cons; [|apply H1].
  - exists [], (x :: F). split_and!; [done|by intros ? ?%not_elem_of_nil|]. intros y [->|Hy]%elem_of_cons; [done|].
    destruct (rising_in _ _ y Hr Hy). unfold end_of in *. lia.
Qed.

Section find.
Context (m : mem) (F F1 F2 : list blk) (b : blk).
Context (HF : F = F1 ++ F2) (Hc : chain m ((base, 0) :: F) base) (Hr : rising brk0 F).
Context (Hb : 1 ≤ b.2) (Hlo : brk0 ≤ b.1) (H1 : ∀ x, x ∈ F1 → end_of x ≤ b.1) (H2 : ∀ x, x ∈ F2 → end_of b ≤ x.1).

Lemma pred_below : pred F1 < b.1.
Proof.
  destruct F1 as [|x l _] eqn:HF1 using rev_ind; [unfold pred; simpl; lia|]. rewrite pred_snoc.
  assert (x ∈ F) as Hx by (rewrite HF, !elem_of_app; left; right; by left). destruct (rising_in _ _ x Hr Hx).
  specialize (H1 x ltac:(rewrite elem_of_app; right; by left)). unfold end_of in H1. lia.
Qed.
Lemma find_below l1 r fuel : F1 = l1 ++ r → (length r < fuel)%nat → free_find fuel b.1 (pred l1) m = Some (pred F1).
Proof.
  revert l1 fuel. induction r as [|y r IH]; intros l1 fuel HF1 Hfuel; (destruct fuel as [|fuel]; [simpl in Hfuel; lia|]); cbn [free_find].
  - rewrite app_nil_r in HF1. subst l1. destruct (chain_pred m F1 F2) as [-> _]; [by rewrite <- HF|]. pose proof pred_below as Hp. rewrite (proj2 (Z.ltb_lt _ _) Hp). cbn [andb].
    destruct F2 as [|z F2'] eqn:HF2; cbn [first].
    + rewrite (proj2 (Z.ltb_ge _ _)) by lia. rewrite (proj2 (Z.leb_le _ _)); [done|]. destruct (pred_bound brk0 F1 []) as [? _]; [by rewrite <- HF|lia|lia].
    + rewrite (proj2 (Z.ltb_lt _ _)); [done|]. specialize (H2 z ltac:(by left)). unfold end_of in H2. lia.
  - destruct (chain_pred m l1 (y :: r ++ F2)) as [Hn _]; [by rewrite HF, HF1, <- app_assoc in Hc|]. rewrite Hn. cbn [first].
    assert (y ∈ F1) as Hy by (rewrite HF1, elem_of_app; right; by left). assert (y ∈ F) as HyF by (rewrite HF, elem_of_app; by left).
    destruct (pred_bound brk0 l1 (y :: r ++ F2)) as [_ Hp]; [by rewrite HF, HF1, <- app_assoc in Hr|lia|]. specialize (Hp y ltac:(by left)).
    pose proof (H1 y Hy) as Hy1. destruct (rising_in _ _ y Hr HyF). unfold end_of in Hy1.
    rewrite (proj2 (Z.ltb_ge b.1 y.1)) by lia. rewrite andb_false_r. rewrite (proj2 (Z.leb_gt _ _)) by lia. cbn [andb].
    rewrite <- (pred_snoc l1 y). apply IH; [by rewrite <- app_assoc|simpl in Hfuel; lia].
Qed.
Lemma find_above l1 r l2 fuel : F2 = r ++ l2 → r ≠ [] → l1 = F1 ++ r → (length l2 + length F1 + 1 < fuel)%nat →
  free_find fuel b.1 (pred l1) m = Some (pred F1).
Proof.
  revert l1 r fuel. induction l2 as [|y l2 IH]; intros l1 r fuel HF2 Hne Hl1 Hfuel; (destruct fuel as [|fuel]; [simpl in Hfuel; lia|]); cbn [free_find].
  - assert (b.1 < pred l1) as Hp.
    { destruct r as [|z r _] using rev_ind; [done|]. rewrite Hl1, app_assoc, pred_snoc. specialize (H2 z ltac:(rewrite HF2, !elem_of_app; left; right; by left)). unfold end_of in H2. lia. }
    rewrite app_nil_r in HF2. destruct (chain_pred m l1 []) as [-> _]; [by rewrite Hl1, <- HF2, app_nil_r, <- HF|]. cbn [first].
    rewrite (proj2 (Z.ltb_ge (pred l1) b.1)) by lia. rewrite (proj2 (Z.ltb_ge b.1 base)) by lia. cbn [orb andb]. rewrite andb_false_r.
    apply (find_below [] F1); [done|lia].
  - assert (b.1 < pred l1 ∧ pred l1 < y.1) as [Hp Hy].
    { split; [|destruct (pred_bound brk0 l1 (y :: l2)) as [_ Hp]; [by rewrite Hl1, <- app_assoc, <- HF2, <- HF|lia|apply Hp; by left]].
      destruct r as [|z r _] using rev_ind; [done|]. rewrite Hl1, app_assoc, pred_snoc. specialize (H2 z ltac:(rewrite HF2, !elem_of_app; left; right; by left)). unfold end_of in H2. lia. }
    destruct (chain_pred m l1 (y :: l2)) as [-> _]; [by rewrite Hl1, <- app_assoc, <- HF2, <- HF|]. cbn [first].
    rewrite (proj2 (Z.ltb_ge (pred l1) b.1)) by lia. rewrite (proj2 (Z.leb_gt y.1 (pred l1))) by lia. cbn [andb].
    rewrite <- (pred_snoc l1 y). apply (IH (l1 ++ [y]) (r ++ [y])); [by rewrite <- app_assoc|by destruct r|by rewrite Hl1, app_assoc|simpl in Hfuel; lia].
Qed.

(** [free] finds the free block before the one it frees, wherever it starts. *)
Lemma find_run l1 l2 fuel : F = l1 ++ l2 → (length F + 1 < fuel)%nat → free_find fuel b.1 (pred l1) m = Some (pred F1).
Proof.
  intros Hl Hfuel. rewrite HF in Hl. assert (length F = length F1 + length F2)%nat as HlF by (by rewrite HF, length_app).
  destruct (app_eq_inv _ _ _ _ Hl) as [(r & HF1 & Hl2)|(r & Hl1 & HF2)].
  - apply (find_below l1 r); [done|]. rewrite HlF, HF1, length_app in Hfuel. lia.
  - destruct r as [|z r]; [rewrite app_nil_r in Hl1; subst l1; apply (find_below F1 []); [by rewrite app_nil_r|simpl; lia]|].
    apply (find_above l1 (z :: r) l2); [done|done|done|]. rewrite HlF, HF2, length_app in Hfuel. simpl in Hfuel. lia.
Qed.
End find.

(** ** What [free] does *)

(** A freed block joined to the free blocks above it, and below it. *)
Definition join_up (b : blk) (F2 : list blk) : blk * list blk :=
  match F2 with
  | y :: F2' => if end_of b =? y.1 then ((b.1, b.2 + y.2), F2') else (b, F2)
  | [] => (b, [])
  end.
Fixpoint join_down (F1 : list blk) (b : blk) : list blk :=
  match F1 with
  | [] => [b]
  | [x] => if end_of x =? b.1 then [(x.1, x.2 + b.2)] else [x; b]
  | x :: F1' => x :: join_down F1' b
  end.
Lemma join_down_snoc F1 x b : join_down (F1 ++ [x]) b = F1 ++ (if end_of x =? b.1 then [(x.1, x.2 + b.2)] else [x; b]).
Proof. induction F1 as [|y F1 IH]; [done|]. cbn [app]. rewrite <- IH. cbn [join_down]. by destruct F1. Qed.

Definition small (x : Z) : Prop := 0 ≤ x ≤ 134217728.

Definition write_up (bp p : Z) (m : mem) : mem :=
  if u64 (bp + HEADER * hsize m bp) =? hptr m p then
    let m' := set_hsize bp (u32 (hsize m bp + hsize m (hptr m p))) m in
    set_hptr bp (hptr m' (hptr m' p)) m'
  else set_hptr bp (hptr m p) m.
Definition write_down (bp p : Z) (m : mem) : mem :=
  if u64 (p + HEADER * hsize m p) =? bp then
    let m' := set_hsize p (u32 (hsize m p + hsize m bp)) m in
    set_hptr p (hptr m' bp) m'
  else set_hptr p bp m.

(** The headers of blocks that are apart are apart. *)
Definition off (a x : Z) : Prop := x + 16 ≤ a ∨ a + 16 ≤ x.

Lemma set_hptr_off a v m x : off a x → hptr (set_hptr a v m) x = hptr m x ∧ hsize (set_hptr a v m) x = hsize m x.
Proof. intros Ho. apply hdr_ext. intros y Hy. apply rd_set_hptr. unfold off in Ho. lia. Qed.
Lemma set_hsize_off a v m x : off a x → hptr (set_hsize a v m) x = hptr m x ∧ hsize (set_hsize a v m) x = hsize m x.
Proof. intros Ho. apply hdr_ext. intros y Hy. apply rd_set_hsize. unfold off in Ho. lia. Qed.

Lemma write_up_frame bp p m x : x < bp ∨ bp + 16 ≤ x → rd (write_up bp p m) x = rd m x.
Proof. intros Hx. unfold write_up. case_match; [rewrite rd_set_hptr, rd_set_hsize by lia|rewrite rd_set_hptr by lia]; done. Qed.
Lemma write_down_frame bp p m x : x < p ∨ p + 16 ≤ x → rd (write_down bp p m) x = rd m x.
Proof. intros Hx. unfold write_down. case_match; [rewrite rd_set_hptr, rd_set_hsize by lia|rewrite rd_set_hptr by lia]; done. Qed.

Lemma write_up_spec b p F2 m : hptr m p = first base F2 → hsize m b.1 = b.2 → chain m F2 base → off b.1 p →
  base + 16 ≤ b.1 → 1 ≤ b.2 → small (end_of b) → (∀ x, x ∈ F2 → end_of b ≤ x.1 ∧ 1 ≤ x.2 ∧ small (end_of x)) →
  hptr (write_up b.1 p m) b.1 = first base (join_up b F2).2 ∧ hsize (write_up b.1 p m) b.1 = (join_up b F2).1.2.
Proof.
  intros Hp Hb Hc Ho Hlo Hn Hs HF2. unfold small, end_of in *. unfold write_up, HEADER. rewrite Hp, Hb, u64_small by mach_lia.
  assert (first base F2 = b.1 + 16 * b.2 ↔ ∃ y F2', F2 = y :: F2' ∧ y.1 = b.1 + 16 * b.2) as Hiff.
  { destruct F2 as [|y F2']; simpl; [split; [lia|by intros (? & ? & ? & _)]|]. split; [by eauto|]. by intros (? & ? & [= <- <-] & ?). }
  destruct (Z.eqb_spec (b.1 + 16 * b.2) (first base F2)) as [He|He].
  - symmetry in He. apply Hiff in He as (y & F2' & -> & Hy). destruct (HF2 y) as (Hy1 & Hy2 & Hy3); [by left|]. rewrite chain_cons in Hc. destruct Hc as (Hcp & Hcs & _).
    cbn [first join_up]. unfold end_of. rewrite (proj2 (Z.eqb_eq _ _)) by lia. cbn [fst snd]. rewrite Hcs, u32_small by mach_lia.
    destruct (set_hsize_off b.1 (b.2 + y.2) m p Ho) as [-> _]. rewrite Hp. cbn [first]. destruct (set_hsize_off b.1 (b.2 + y.2) m y.1) as [-> _]; [unfold off; lia|].
    rewrite Hcp. rewrite hsize_set_hptr, hsize_set by mach_lia. split; [|done]. apply hptr_set. destruct F2' as [|z F2'']; simpl; [mach_lia|].
    destruct (HF2 z) as (? & ? & ?); [right; by left|]. mach_lia.
  - assert (join_up b F2 = (b, F2)) as ->.
    { destruct F2 as [|y F2']; [done|]. cbn [join_up]. unfold end_of. rewrite (proj2 (Z.eqb_neq _ _)); [done|]. cbn [first] in He. lia. }
    cbn [fst snd]. rewrite hsize_set_hptr, hptr_set; [done|]. destruct F2 as [|y F2']; simpl; [mach_lia|]. destruct (HF2 y) as (? & ? & ?); [by left|]. mach_lia.
Qed.

Lemma chain_off m m' a L e : (∀ y, y < a ∨ a + 16 ≤ y → rd m' y = rd m y) → (∀ x, x ∈ L → off a x.1) → chain m L e → chain m' L e.
Proof. intros Hm Ho. apply links_ext. intros x Hx. apply hdr_ext. intros y Hy. apply Hm. specialize (Ho x Hx). unfold off in Ho. lia. Qed.

Lemma write_down_spec F1 b F2 e m : chain m ((base, 0) :: F1) e → hptr m b.1 = first base F2 → hsize m b.1 = b.2 → chain m F2 base →
  rising brk0 F1 → (∀ x, x ∈ F1 → end_of x ≤ b.1) → brk0 ≤ b.1 → 1 ≤ b.2 → small (end_of b) → (∀ x, x ∈ F2 → end_of b ≤ x.1 ∧ small (end_of x) ∧ 1 ≤ x.2) →
  chain (write_down b.1 (pred F1) m) ((base, 0) :: join_down F1 b ++ F2) base.
Proof.
  intros Hc Hbp Hbs HcF2 Hr H1 Hlo Hn Hs H2. set (m' := write_down b.1 (pred F1) m).
  assert (∀ L e', (∀ x, x ∈ L → off (pred F1) x.1) → chain m L e' → chain m' L e') as Hkeep.
  { intros L e' HL. apply chain_off with (pred F1); [|done]. intros y Hy. by apply write_down_frame. }
  assert (is_u64 (first base F2)) as HF2u. { unfold small, end_of in *. destruct F2 as [|y F2']; simpl; [mach_lia|]. destruct (H2 y) as (? & ? & ?); [by left|]. mach_lia. }
  unfold small, end_of in *. destruct F1 as [|x l _] using rev_ind.
  - change (pred []) with base in *. rewrite chain_cons in Hc. destruct Hc as (_ & Hsz & _). cbn [fst snd] in Hsz. cbn [join_down app]. rewrite !chain_cons. cbn [fst snd first].
    assert (m' = set_hptr base b.1 m) as Hm'. { unfold m', write_down, HEADER. rewrite Hsz, u64_small by mach_lia. rewrite (proj2 (Z.eqb_neq _ _)) by lia. done. }
    destruct (set_hptr_off base b.1 m b.1) as [Ho1 Ho2]; [unfold off; lia|]. rewrite <- Hm' in Ho1, Ho2. rewrite Ho1, Ho2, Hm', hsize_set_hptr, hptr_set by mach_lia. split_and!; [done..|].
    rewrite <- Hm'. apply Hkeep; [|done]. intros y Hy. destruct (H2 y Hy) as (? & ? & ?). unfold off. lia.
  - rewrite pred_snoc in *. change ((base, 0) :: l ++ [x]) with (((base, 0) :: l) ++ [x]) in Hc. rewrite chain_app in Hc. destruct Hc as (Hcl & Hxp & Hxs & _). cbn [first] in Hcl.
    pose proof (H1 x ltac:(rewrite elem_of_app; right; by left)) as Hxb. rewrite rising_app in Hr. destruct Hr as [Hrl Hrx]. simpl in Hrx. destruct Hrx as (Htop & Hxn & _).
    assert (brk0 ≤ x.1) as Hxlo. { destruct l as [|z l _] using rev_ind; [exact Htop|]. rewrite top_snoc in Htop. destruct (rising_in _ _ z Hrl); [rewrite elem_of_app; right; by left|]. unfold end_of in Htop. lia. }
    assert (chain m' ((base, 0) :: l) x.1) as Hcl'.
    { apply Hkeep; [|done]. intros y [->|Hy]%elem_of_cons; unfold off; cbn [fst]; [lia|]. pose proof (rising_top _ _ y Hrl Hy). destruct (rising_in _ _ y Hrl Hy). unfold end_of in *. lia. }
    assert (chain m' F2 base) as HcF2'. { apply Hkeep; [|done]. intros y Hy. destruct (H2 y Hy) as (? & ? & ?). unfold off. lia. }
    assert (m' = if x.1 + 16 * x.2 =? b.1 then set_hptr x.1 (first base F2) (set_hsize x.1 (x.2 + b.2) m) else set_hptr x.1 b.1 m) as Hm'.
    { unfold m', write_down, HEADER. rewrite pred_snoc, Hxs, Hbs, u64_small by mach_lia. destruct (Z.eqb_spec (x.1 + 16 * x.2) b.1); [|done].
      rewrite u32_small by mach_lia. destruct (set_hsize_off x.1 (x.2 + b.2) m b.1) as [-> _]; [unfold off; lia|]. by rewrite Hbp. }
    rewrite join_down_snoc, <- app_assoc. change ((base, 0) :: l ++ ?z) with (((base, 0) :: l) ++ z). rewrite chain_app. unfold end_of.
    destruct (Z.eqb_spec (x.1 + 16 * x.2) b.1) as [He|He]; cbn [app first fst]; (split; [done|]); rewrite !chain_cons; cbn [fst snd first]; rewrite Hm'.
    + rewrite hsize_set_hptr, hsize_set, hptr_set by (done || mach_lia). split_and!; [done..|]. by rewrite <- Hm'.
    + destruct (set_hptr_off x.1 b.1 m b.1) as [-> ->]; [unfold off; lia|]. rewrite hsize_set_hptr, hptr_set by mach_lia. split_and!; [done..|]. by rewrite <- Hm'.
Qed.

(** The free list after [b] is freed between [F1] and [F2]. *)
Definition joined (F1 : list blk) (b : blk) (F2 : list blk) : list blk := join_down F1 (join_up b F2).1 ++ (join_up b F2).2.

Lemma joined_all (P : blk → Prop) F1 b F2 : (∀ x, x ∈ F1 ++ F2 → P x) → P b →
  (∀ x y, P x → P y → end_of x = y.1 → P (x.1, x.2 + y.2)) → ∀ x, x ∈ joined F1 b F2 → P x.
Proof.
  intros HF Hb Hj. unfold joined. assert (P (join_up b F2).1 ∧ ∀ x, x ∈ F1 ++ (join_up b F2).2 → P x) as [Hb' HF'].
  { destruct F2 as [|y F2']; [done|]. cbn [join_up]. destruct (Z.eqb_spec (end_of b) y.1); [|done]. cbn [fst snd]. split.
    - apply Hj; [done|apply HF; rewrite elem_of_app; right; by left|done].
    - intros x Hx. apply HF. rewrite elem_of_app, elem_of_cons in *. tauto. }
  clear HF Hb. destruct (join_up b F2) as [b' F2']. cbn [fst snd] in *. intros x [Hx|Hx]%elem_of_app; [|apply HF'; rewrite elem_of_app; by right].
  destruct F1 as [|z l _] using rev_ind; [by apply list_elem_of_singleton in Hx as ->|].
  assert (∀ x, x ∈ l ++ [z] → P x) as Hl by (intros y Hy; apply HF'; rewrite elem_of_app; by left).
  rewrite join_down_snoc in Hx. apply elem_of_app in Hx as [Hx|Hx]; [apply Hl; rewrite elem_of_app; by left|].
  assert (P z) as Hz by (apply Hl; rewrite elem_of_app; right; by left).
  destruct (Z.eqb_spec (end_of z) b'.1); rewrite ?elem_of_cons, elem_of_nil in Hx.
  - destruct Hx as [->|[]]. by apply Hj.
  - by destruct Hx as [->|[->|[]]].
Qed.

Lemma joined_units F1 b F2 : units_of (joined F1 b F2) = units_of (F1 ++ F2) + b.2.
Proof.
  unfold joined. assert ((join_up b F2).1.2 + units_of (join_up b F2).2 = b.2 + units_of F2) as Hu.
  { destruct F2 as [|y F2']; [done|]. cbn [join_up]. destruct (end_of b =? y.1); simpl; lia. }
  rewrite !units_app. destruct F1 as [|z l _] using rev_ind; [simpl; lia|]. rewrite join_down_snoc, !units_app. destruct (end_of z =? _); simpl; lia.
Qed.

Lemma joined_rising F1 b F2 : rising brk0 (F1 ++ F2) → 1 ≤ b.2 → brk0 ≤ b.1 → (∀ x, x ∈ F1 → end_of x ≤ b.1) → (∀ x, x ∈ F2 → end_of b ≤ x.1) →
  rising brk0 (joined F1 b F2).
Proof.
  intros [Hr1 Hr2]%rising_app Hn Hlo H1 H2. unfold joined.
  assert (1 ≤ (join_up b F2).1.2 ∧ (join_up b F2).1.1 = b.1 ∧ rising (end_of (join_up b F2).1 + 1) (join_up b F2).2) as (Hn' & Hb' & Hr2').
  { destruct F2 as [|y F2']; [done|]. simpl in Hr2. destruct Hr2 as (_ & Hy & Hr2). cbn [join_up]. destruct (Z.eqb_spec (end_of b) y.1) as [He|He]; cbn [fst snd].
    - split_and!; [lia|done|]. eapply rising_weaken; [|exact Hr2]. unfold end_of in *. cbn [fst snd]. lia.
    - split_and!; [done|done|]. cbn [rising]. specialize (H2 y ltac:(by left)). split_and!; [lia|done|done]. }
  destruct (join_up b F2) as [b' F2']. cbn [fst snd] in *.
  destruct F1 as [|z l _] using rev_ind; [cbn [join_down app rising]; split_and!; [lia|done|done]|].
  apply rising_app in Hr1 as [Hrl Hrz]. cbn [rising] in Hrz. destruct Hrz as (Htop & Hzn & _). pose proof (H1 z ltac:(rewrite elem_of_app; right; by left)) as Hz.
  rewrite join_down_snoc, <- app_assoc, rising_app. split; [done|]. destruct (Z.eqb_spec (end_of z) b'.1); cbn [app rising fst snd].
  - split_and!; [done|lia|]. eapply rising_weaken; [|exact Hr2']. unfold end_of in *. cbn [fst snd]. lia.
  - split_and!; [done|done|lia|done|done].
Qed.

Lemma joined_length F1 b F2 : (length (joined F1 b F2) ≤ S (length (F1 ++ F2)))%nat.
Proof.
  unfold joined. assert (length (join_up b F2).2 ≤ length F2)%nat as Hl. { destruct F2 as [|y F2']; [done|]. cbn [join_up]. destruct (end_of b =? y.1); simpl; lia. }
  destruct F1 as [|z l _] using rev_ind; [simpl in *; lia|]. rewrite join_down_snoc, !length_app. destruct (end_of z =? _); simpl; lia.
Qed.

(** Some free block covers [b]. *)
Lemma joined_covers F1 b F2 : 1 ≤ b.2 → (∀ x, x ∈ F1 ++ F2 → 1 ≤ x.2) → ∃ y, y ∈ joined F1 b F2 ∧ y.1 ≤ b.1 ∧ end_of b ≤ end_of y.
Proof.
  intros Hn HF. unfold joined. assert ((join_up b F2).1.1 = b.1 ∧ end_of b ≤ end_of (join_up b F2).1) as [Hb' He'].
  { destruct F2 as [|y F2']; [done|]. specialize (HF y ltac:(rewrite elem_of_app; right; by left)). cbn [join_up]. destruct (end_of b =? y.1); unfold end_of; cbn [fst snd]; lia. }
  destruct (join_up b F2) as [b' F2']. cbn [fst snd] in *. destruct F1 as [|z l _] using rev_ind; [exists b'; rewrite elem_of_app; split_and!; [left; by left|lia|lia]|].
  specialize (HF z ltac:(rewrite !elem_of_app; left; right; by left)). rewrite join_down_snoc. destruct (Z.eqb_spec (end_of z) b'.1) as [He|He].
  - exists (z.1, z.2 + b'.2). rewrite !elem_of_app. split_and!; [left; right; by left|..]; unfold end_of in *; cbn [fst snd]; lia.
  - exists b'. rewrite !elem_of_app. split_and!; [left; right; right; by left|lia|lia].
Qed.

(** The heap is the free blocks [F], the blocks [A] handed out, and nothing
    else. *)
Record heap (s : ust) (F A : list blk) : Prop := {
  hp_chain : chain (u_mem s) ((base, 0) :: F) base;
  hp_rising : rising brk0 F;
  hp_freep : ∃ l1 l2, F = l1 ++ l2 ∧ u_freep s = pred l1;
  hp_brk : small (u_brk s);
  hp_end : ∀ x, x ∈ F → end_of x ≤ u_brk s;
  hp_live : ∀ x, x ∈ A → brk0 ≤ x.1 ∧ 1 ≤ x.2 ∧ end_of x ≤ u_brk s ∧ hsize (u_mem s) x.1 = x.2;
  hp_apart : ∀ x y, x ∈ F → y ∈ A → apart x y;
  hp_disj : disjoint_blocks A;
  hp_units : 16 * (units_of F + units_of A) = u_brk s - brk0
}.

(** The bytes of the blocks of [A], headers included, are the same. *)
Definition kept (A : list blk) (m m' : mem) : Prop := ∀ x a, x ∈ A → x.1 ≤ a < end_of x → rd m' a = rd m a.

Lemma kept_size A m m' x : kept A m m' → x ∈ A → 1 ≤ x.2 → hsize m' x.1 = hsize m x.1.
Proof. intros Hk Hx Hn. apply hdr_ext. intros a Ha. apply (Hk x); [done|]. unfold end_of. lia. Qed.

Lemma pred_joined F1 b F2 : ∃ l1 l2, joined F1 b F2 = l1 ++ l2 ∧ pred F1 = pred l1.
Proof.
  unfold joined. destruct F1 as [|z l _] using rev_ind; [by exists [], (join_down [] (join_up b F2).1 ++ (join_up b F2).2)|]. rewrite join_down_snoc, pred_snoc, <- app_assoc. destruct (end_of z =? _).
  - eexists (l ++ [_]), _. rewrite <- app_assoc. split; [reflexivity|]. by rewrite pred_snoc.
  - eexists (l ++ [z]), _. rewrite <- app_assoc. split; [reflexivity|]. by rewrite pred_snoc.
Qed.

Lemma units_length lo F : rising lo F → Z.of_nat (length F) ≤ units_of F.
Proof. revert lo. induction F as [|x F IH]; intros lo; [done|]. cbn [rising length]. intros (_ & Hx & Hr). specialize (IH _ Hr). unfold units_of in *. cbn [foldr]. lia. Qed.
Lemma units_nonneg A : (∀ x, x ∈ A → 1 ≤ x.2) → 0 ≤ units_of A.
Proof.
  induction A as [|x A IH]; [done|]. intros HA. pose proof (HA x ltac:(by left)). assert (0 ≤ units_of A) by (apply IH; intros y Hy; apply HA; by right).
  unfold units_of in *. cbn [foldr]. lia.
Qed.

(** The free list after the writes of [free]. *)
Lemma free_writes m F1 b F2 : chain m ((base, 0) :: F1 ++ F2) base → rising brk0 (F1 ++ F2) → hsize m b.1 = b.2 → 1 ≤ b.2 → brk0 ≤ b.1 → small (end_of b) →
  (∀ x, x ∈ F1 → end_of x ≤ b.1) → (∀ x, x ∈ F2 → end_of b ≤ x.1 ∧ small (end_of x)) →
  chain (write_down b.1 (pred F1) (write_up b.1 (pred F1) m)) ((base, 0) :: joined F1 b F2) base.
Proof.
  intros Hc Hr Hbs Hn Hlo Hs H1 H2. pose proof Hr as [Hr1 Hr2]%rising_app.
  assert (∀ x, x ∈ F1 ++ F2 → brk0 ≤ x.1 ∧ 1 ≤ x.2) as HF12 by (intros x Hx; by apply (rising_in _ (F1 ++ F2))).
  assert (pred F1 + 16 ≤ b.1) as Hp.
  { destruct F1 as [|z l _] using rev_ind; [change (pred []) with base; lia|]. rewrite pred_snoc. specialize (H1 z ltac:(rewrite elem_of_app; right; by left)).
    destruct (HF12 z); [rewrite !elem_of_app; left; right; by left|]. unfold end_of in *. lia. }
  destruct (chain_pred m F1 F2 Hc) as [Hpp _]. change ((base, 0) :: F1 ++ F2) with (((base, 0) :: F1) ++ F2) in Hc. rewrite chain_app in Hc. destruct Hc as [Hc1 Hc2].
  destruct (write_up_spec b (pred F1) F2 m) as [Hup Hus]; [done|done|done|unfold off; lia|lia|done|done| |].
  { intros x Hx. destruct (H2 x Hx). destruct (HF12 x); [rewrite elem_of_app; by right|]. done. }
  assert (chain (write_up b.1 (pred F1) m) ((base, 0) :: F1) (first base F2) ∧ chain (write_up b.1 (pred F1) m) F2 base) as [Hc1' Hc2'].
  { split; (eapply (chain_off m _ b.1); [intros y Hy; by apply write_up_frame| |done]).
    - intros x [->|Hx]%elem_of_cons; unfold off; cbn [fst]; [lia|]. specialize (H1 x Hx). destruct (HF12 x); [rewrite elem_of_app; by left|]. unfold end_of in *. lia.
    - intros x Hx. destruct (H2 x Hx). unfold off, end_of in *. lia. }
  unfold joined. assert ((join_up b F2).1.1 = b.1 ∧ 1 ≤ (join_up b F2).1.2 ∧ small (end_of (join_up b F2).1) ∧ chain (write_up b.1 (pred F1) m) (join_up b F2).2 base ∧
    ∀ x, x ∈ (join_up b F2).2 → end_of (join_up b F2).1 ≤ x.1 ∧ small (end_of x) ∧ 1 ≤ x.2) as (Hb1 & Hb2 & Hb3 & Hb4 & Hb5).
  { destruct F2 as [|y F2']; [split_and!; try done; by intros ? ?%not_elem_of_nil|]. cbn [join_up]. destruct (H2 y) as [Hy1 Hy2]; [by left|]. cbn [rising] in Hr2. destruct Hr2 as (_ & Hy & Hr2).
    destruct (Z.eqb_spec (end_of b) y.1) as [He|He]; cbn [fst snd].
    - split_and!; [done|lia|unfold small, end_of in *; cbn [fst snd]; lia|by apply chain_cons in Hc2' as (_ & _ & ?)|].
      intros x Hx. destruct (rising_in _ _ x Hr2 Hx). destruct (H2 x) as [_ ?]; [by right|]. unfold end_of in *. cbn [fst snd]. split_and!; [lia|done|done].
    - split_and!; [done..|]. intros x Hx. destruct (H2 x Hx). destruct (HF12 x); [rewrite elem_of_app; by right|]. done. }
  pose proof (write_down_spec F1 (join_up b F2).1 (join_up b F2).2 (first base F2) (write_up b.1 (pred F1) m)) as Hw. rewrite Hb1 in Hw. by apply Hw.
Qed.

(** [free] gives a block back. *)
Lemma free_run s F A b : heap s F (b :: A) →
  ∃ s' F', free (b.1 + 16) s = Done tt s' [] ∧ heap s' F' A ∧ u_brk s' = u_brk s ∧ kept A (u_mem s) (u_mem s') ∧
    (length F' ≤ S (length F))%nat ∧ ∃ y, y ∈ F' ∧ y.1 ≤ b.1 ∧ end_of b ≤ end_of y.
Proof.
  intros [Hc Hr (l1 & l2 & Hl & Hp) Hbrk He Hlive Hap [HbA Hd] Hu]. destruct (Hlive b) as (Hlo & Hn & Hbe & Hbs); [by left|].
  destruct (split_at _ _ b Hr Hn) as (F1 & F2 & HF & H1 & H2); [intros x Hx; apply Hap; [done|by left]|].
  pose proof (units_length _ _ Hr) as Hlen. pose proof (units_nonneg A) as HuA. unfold units_of in Hu; cbn [foldr] in Hu; fold (units_of A) in Hu; fold (units_of F) in Hu.
  specialize (HuA ltac:(intros x Hx; by apply Hlive; right)). unfold small in *.
  assert (free_find (Z.to_nat (u_brk s / 16)) b.1 (u_freep s) (u_mem s) = Some (pred F1)) as Hfind.
  { rewrite Hp. apply (find_run _ F F1 F2 b HF Hc Hr Hn Hlo H1 H2 l1 l2); [done|]. pose proof (Z.div_mod (u_brk s) 16 ltac:(lia)). pose proof (Z.mod_pos_bound (u_brk s) 16 ltac:(lia)). lia. }
  assert (∀ x, x ∈ F1 ++ F2 → brk0 ≤ x.1 ∧ 1 ≤ x.2) as HF12 by (intros x Hx; apply (rising_in _ F); [done|by rewrite HF]).
  unfold free. rewrite bind_gets. unfold id. replace (u64 (b.1 + 16 - HEADER)) with b.1 by (unfold HEADER, end_of in *; mach_lia).
  change HEADER with 16 at 1. rewrite Hfind. rewrite !bind_modify. set (m' := write_down b.1 (pred F1) (write_up b.1 (pred F1) (u_mem s))).
  assert (kept A (u_mem s) m') as Hkept.
  { intros x a Hx Ha. unfold m'. destruct (Hlive x ltac:(by right)) as (Hx1 & Hx2 & _). rewrite Forall_forall in HbA. pose proof (HbA x Hx) as Hbx.
    rewrite write_down_frame, write_up_frame; [done|unfold apart, end_of in *; lia|]. destruct F1 as [|z l _] using rev_ind; [change (pred []) with base; lia|]. rewrite pred_snoc.
    destruct (HF12 z); [rewrite !elem_of_app; left; right; by left|]. destruct (Hap z x); [rewrite HF, !elem_of_app; left; right; by left|by right|..]; unfold end_of in *; lia. }
  exists (mkust m' (pred F1) (u_brk s)), (joined F1 b F2). split; [reflexivity|]. split; [|split_and!; [done|done|rewrite HF; apply joined_length|apply joined_covers; [done|apply HF12]]].
  split; cbn [u_mem u_freep u_brk].
  - apply free_writes; rewrite <- ?HF; try done; [unfold small; unfold end_of in *; lia|]. intros x Hx. split; [auto|]. assert (x ∈ F) as HxF by (rewrite HF, elem_of_app; by right).
    specialize (He x HxF). destruct (rising_in _ _ x Hr HxF). unfold small, end_of in *. lia.
  - apply joined_rising; rewrite <- ?HF; done.
  - apply pred_joined.
  - done.
  - apply joined_all; rewrite <- ?HF; [done|done|]. intros x y Hx Hy. unfold end_of in *. cbn [fst snd]. lia.
  - intros x Hx. destruct (Hlive x ltac:(by right)) as (? & ? & ? & Hsz). split_and!; [done..|]. by rewrite (kept_size A (u_mem s)).
  - intros x y Hx Hy. revert x Hx. destruct (Hlive y ltac:(by right)) as (_ & Hy2 & _). rewrite Forall_forall in HbA. apply joined_all; rewrite <- ?HF.
    + intros x Hx. apply Hap; [done|by right].
    + by apply HbA.
    + intros x z. unfold apart, end_of. cbn [fst snd]. lia.
  - done.
  - rewrite joined_units, <- HF. lia.
Qed.

(** ** What [malloc] does *)

Lemma chain_relink m l1 y l2 : chain m ((base, 0) :: l1 ++ y :: l2) base → rising brk0 (l1 ++ y :: l2) → is_u64 (first base l2) →
  chain (set_hptr (pred l1) (first base l2) m) ((base, 0) :: l1 ++ l2) base.
Proof.
  intros Hc Hr Hu. destruct (chain_pred _ _ _ Hc) as [_ Hsz]. assert (∀ x, x ∈ l1 ++ y :: l2 → brk0 ≤ x.1 ∧ 1 ≤ x.2) as HF by (intros x Hx; by apply (rising_in _ _ x Hr)).
  change ((base, 0) :: l1 ++ y :: l2) with (((base, 0) :: l1) ++ y :: l2) in Hc. change ((base, 0) :: l1 ++ l2) with (((base, 0) :: l1) ++ l2).
  rewrite chain_app in Hc. destruct Hc as (Hc1 & _ & _ & Hc2). set (m' := set_hptr _ _ m).
  assert (∀ L e, (∀ x, x ∈ L → off (pred l1) x.1) → chain m L e → chain m' L e) as Hkeep.
  { intros L e HL. apply chain_off with (pred l1); [|done]. intros a Ha. apply rd_set_hptr. lia. }
  rewrite chain_app. apply rising_app in Hr as [Hr1 Hr2]. cbn [rising] in Hr2. destruct Hr2 as (Hy & Hyn & Hr2). split.
  - destruct l1 as [|z l _] using rev_ind.
    + rewrite chain_cons. unfold m'. change (pred []) with base in *. rewrite hptr_set, hsize_set_hptr by done. done.
    + rewrite pred_snoc in *. rewrite last_snoc in Hsz. change ((base, 0) :: l ++ [z]) with (((base, 0) :: l) ++ [z]) in *. rewrite chain_app in Hc1 |- *. destruct Hc1 as [Hcl _]. cbn [first] in Hcl. split.
      * apply Hkeep; [|done]. apply rising_app in Hr1 as [Hrl Hrz]. cbn [rising] in Hrz. destruct (HF z) as [Hz1 _]; [rewrite !elem_of_app; left; right; by left|].
        intros x [->|Hx]%elem_of_cons; unfold off; cbn [fst]; [lia|]. pose proof (rising_top _ _ x Hrl Hx). destruct (rising_in _ _ x Hrl Hx). unfold end_of in *. lia.
      * rewrite chain_cons. unfold m'. rewrite pred_snoc, hptr_set, hsize_set_hptr by done. done.
  - apply Hkeep; [|done]. intros x Hx. destruct (rising_in _ _ x Hr2 Hx). unfold off.
    destruct l1 as [|z l _] using rev_ind; [change (pred []) with base; destruct (HF y); [by left|]; unfold end_of in *; lia|].
    rewrite pred_snoc. rewrite top_snoc in Hy. destruct (HF z) as [_ Hz]; [rewrite !elem_of_app; left; right; by left|]. unfold end_of in *. lia.
Qed.

Lemma heap_first s F A l1 l2 : heap s F A → F = l1 ++ l2 → is_u64 (first base l2).
Proof.
  intros Hh ->. pose proof (hp_brk _ _ _ Hh) as Hb. unfold small in Hb. destruct l2 as [|y l2]; cbn [first].
  - pose proof (hp_units _ _ _ Hh). pose proof (units_length _ _ (hp_rising _ _ _ Hh)). pose proof (units_nonneg A ltac:(intros z Hz; by apply (hp_live _ _ _ Hh))). mach_lia.
  - assert (y ∈ l1 ++ y :: l2) as Hy by (rewrite elem_of_app; right; by left). pose proof (hp_end _ _ _ Hh y Hy). destruct (rising_in _ _ y (hp_rising _ _ _ Hh) Hy). unfold end_of in *. mach_lia.
Qed.

(** A free block that is just large enough leaves the free list. *)
Lemma take_whole s l1 y l2 A : heap s (l1 ++ y :: l2) A →
  heap (mkust (set_hptr (pred l1) (first base l2) (u_mem s)) (pred l1) (u_brk s)) (l1 ++ l2) (y :: A) ∧ kept A (u_mem s) (set_hptr (pred l1) (first base l2) (u_mem s)).
Proof.
  intros Hh. assert (is_u64 (first base l2)) as Hu by (apply (heap_first _ _ _ (l1 ++ [y]) l2 Hh); by rewrite <- app_assoc).
  destruct Hh as [Hc Hr _ Hbrk He Hlive Hap Hd Hun]. assert (y ∈ l1 ++ y :: l2) as Hy by (rewrite elem_of_app; right; by left). destruct (rising_in _ _ y Hr Hy) as [Hy1 Hy2].
  pose proof Hr as [Hr1 Hr2]%rising_app. cbn [rising] in Hr2. destruct Hr2 as (Htop & _ & Hr2).
  assert (∀ x, x ∈ l1 ++ l2 → x ∈ l1 ++ y :: l2) as Hin by (intros x; rewrite !elem_of_app, elem_of_cons; tauto).
  assert (pred l1 + 16 ≤ y.1 ∧ (pred l1 = base ∨ ∃ z, z ∈ l1 ∧ pred l1 = z.1)) as [Hpy Hp].
  { destruct l1 as [|z l _] using rev_ind; [change (pred []) with base; split; [lia|by left]|]. rewrite pred_snoc. rewrite top_snoc in Htop. assert (z ∈ l ++ [z]) as Hz by (rewrite elem_of_app; right; by left).
    destruct (rising_in _ _ z Hr1 Hz). unfold end_of in *. split; [lia|right; by exists z]. }
  assert (∀ x a, (x ∈ A ∨ x = y) → x.1 ≤ a < end_of x → rd (set_hptr (pred l1) (first base l2) (u_mem s)) a = rd (u_mem s) a) as Hk.
  { intros x a Hx Ha. apply rd_set_hptr. destruct Hx as [Hx| ->]; [|lia]. destruct (Hlive x Hx) as (? & ? & _). destruct Hp as [->|(z & Hz & ->)]; [lia|].
    assert (z ∈ l1 ++ y :: l2) as HzF by (rewrite elem_of_app; by left). destruct (rising_in _ _ z Hr HzF). destruct (Hap z x HzF Hx); unfold end_of in *; lia. }
  split; [|intros x a Hx; apply (Hk x a); by left]. split; cbn [u_mem u_freep u_brk].
  - by apply (chain_relink _ _ y).
  - apply rising_app. split; [done|]. apply (rising_weaken (end_of y + 1)); [unfold end_of; lia|done].
  - by exists l1, l2.
  - done.
  - intros x Hx. apply He. auto.
  - intros x Hx. assert (x ∈ A ∨ x = y) as Hx' by (rewrite elem_of_cons in Hx; tauto).
    assert (brk0 ≤ x.1 ∧ 1 ≤ x.2 ∧ end_of x ≤ u_brk s ∧ hsize (u_mem s) x.1 = x.2) as (? & ? & ? & Hsz).
    { destruct Hx' as [Hx'| ->]; [by apply Hlive|]. split_and!; [done|done|by apply He|]. by apply (chain_first _ l1 y l2). }
    split_and!; [done..|]. transitivity (hsize (u_mem s) x.1); [|done]. apply hdr_ext. intros a Ha. apply (Hk x); [done|]. unfold end_of. lia.
  - intros x z Hx [->|Hz]%elem_of_cons; [|by apply Hap; auto]. apply elem_of_app in Hx as [Hx|Hx]; [left|right].
    + pose proof (rising_top _ _ x Hr1 Hx). lia.
    + destruct (rising_in _ _ x Hr2 Hx). lia.
  - split; [|done]. apply Forall_forall. intros z Hz. by apply Hap.
  - revert Hun. rewrite !units_app. unfold units_of. cbn [foldr]. fold (units_of l2) (units_of A). lia.
Qed.

(** The other free blocks are apart from one of them. *)
Lemma rising_apart lo l1 y l2 x : rising lo (l1 ++ y :: l2) → x ∈ l1 ++ l2 → apart x y.
Proof.
  intros [Hr1 (Htop & _ & Hr2)]%rising_app [Hx|Hx]%elem_of_app; [left|right].
  - pose proof (rising_top _ _ x Hr1 Hx). lia.
  - destruct (rising_in _ _ x Hr2 Hx). lia.
Qed.

Lemma chain_resize m m' l1 y k l2 : chain m ((base, 0) :: l1 ++ y :: l2) base → hptr m' y.1 = hptr m y.1 → hsize m' y.1 = k →
  (∀ x, x ∈ (base, 0) :: l1 ++ l2 → hptr m' x.1 = hptr m x.1 ∧ hsize m' x.1 = hsize m x.1) →
  chain m' ((base, 0) :: l1 ++ (y.1, k) :: l2) base.
Proof.
  change ((base, 0) :: l1 ++ y :: l2) with (((base, 0) :: l1) ++ y :: l2). change ((base, 0) :: l1 ++ (y.1, k) :: l2) with (((base, 0) :: l1) ++ (y.1, k) :: l2).
  change ((base, 0) :: l1 ++ l2) with (((base, 0) :: l1) ++ l2). rewrite !chain_app. intros (Hc1 & Hp & _ & Hc2) Hp' Hs' Hk. split; [|split; [exact (eq_trans Hp' Hp)|split; [exact Hs'|]]].
  - eapply links_ext; [|done]. intros x Hx. apply Hk. rewrite elem_of_app. by left.
  - eapply links_ext; [|done]. intros x Hx. apply Hk. rewrite elem_of_app. by right.
Qed.

(** A larger one keeps its head. *)
Lemma take_tail s l1 y l2 A n : heap s (l1 ++ y :: l2) A → 1 ≤ n < y.2 →
  let b := (y.1 + 16 * (y.2 - n), n) in let m' := set_hsize b.1 n (set_hsize y.1 (y.2 - n) (u_mem s)) in
  heap (mkust m' (pred l1) (u_brk s)) (l1 ++ (y.1, y.2 - n) :: l2) (b :: A) ∧ kept A (u_mem s) m'.
Proof.
  intros [Hc Hr _ Hbrk He Hlive Hap Hd Hun] Hn b m'. assert (y ∈ l1 ++ y :: l2) as Hy by (rewrite elem_of_app; right; by left).
  destruct (rising_in _ _ y Hr Hy) as [Hy1 Hy2]. pose proof (He y Hy) as Hye. unfold small in Hbrk.
  assert (∀ x, x ∈ l1 ++ l2 → x ∈ l1 ++ y :: l2) as Hin by (intros x; rewrite !elem_of_app, elem_of_cons; tauto).
  assert (∀ a, a < y.1 ∨ end_of y ≤ a → rd m' a = rd (u_mem s) a) as Hm'.
  { intros a Ha. unfold m', b. cbn [fst]. rewrite !rd_set_hsize; [done|..]; unfold end_of in *; lia. }
  assert (hptr m' y.1 = hptr (u_mem s) y.1 ∧ hsize m' y.1 = y.2 - n) as [Hyp Hys].
  { unfold m', b. cbn [fst]. destruct (set_hsize_off (y.1 + 16 * (y.2 - n)) n (set_hsize y.1 (y.2 - n) (u_mem s)) y.1) as [-> ->]; [unfold off; lia|].
    rewrite hptr_set_hsize, hsize_set by (unfold end_of in *; mach_lia). done. }
  assert (hsize m' b.1 = n) as Hbs by (unfold m'; apply hsize_set; unfold end_of in *; mach_lia).
  assert (kept A (u_mem s) m') as Hk. { intros x a Hx Ha. apply Hm'. destruct (Hap y x Hy Hx); unfold end_of in *; lia. }
  split; [|done]. split; cbn [u_mem u_freep u_brk].
  - apply (chain_resize (u_mem s)); [done..|]. intros x Hx. apply hdr_ext. intros a Ha. apply Hm'. rewrite elem_of_cons in Hx. destruct Hx as [->|Hx]; [cbn [fst] in Ha; lia|].
    destruct (rising_in _ _ x Hr (Hin x Hx)). destruct (rising_apart _ _ _ _ _ Hr Hx); unfold end_of in *; lia.
  - apply rising_app in Hr as (Hr1 & Htop & _ & Hr2). apply rising_app. cbn [rising]. split_and!; [done|done|cbn; lia|]. eapply rising_weaken; [|done]. unfold end_of. cbn [fst snd]. lia.
  - by exists l1, ((y.1, y.2 - n) :: l2).
  - done.
  - intros x Hx. rewrite elem_of_app, elem_of_cons in Hx. destruct Hx as [Hx|[->|Hx]]; [apply He, Hin; rewrite elem_of_app; by left|unfold end_of in *; cbn [fst snd]; lia|apply He, Hin; rewrite elem_of_app; by right].
  - intros x [->|Hx]%elem_of_cons; [unfold b, end_of in *; cbn [fst snd]; split_and!; [lia|lia|lia|exact Hbs]|].
    destruct (Hlive x Hx) as (? & ? & ? & Hsz). split_and!; [done..|]. by rewrite (kept_size A (u_mem s)).
  - intros x z Hx Hz. rewrite elem_of_app, elem_of_cons in Hx. rewrite elem_of_cons in Hz.
    assert (x = (y.1, y.2 - n) ∨ x ∈ l1 ++ l2) as [->|Hx'] by (rewrite elem_of_app; tauto).
    + destruct Hz as [->|Hz]; [|pose proof (Hap y z Hy Hz)]; unfold apart, b, end_of in *; cbn [fst snd]; lia.
    + destruct Hz as [->|Hz]; [|by apply Hap; auto]. pose proof (rising_apart _ _ _ _ _ Hr Hx'). unfold apart, b, end_of in *. cbn [fst snd]. lia.
  - split; [|done]. apply Forall_forall. intros z Hz. pose proof (Hap y z Hy Hz). unfold apart, b, end_of in *. cbn [fst snd]. lia.
  - revert Hun. rewrite !units_app. unfold units_of. cbn [foldr fst snd]. unfold b. cbn [snd]. lia.
Qed.

Lemma take_run s l1 y l2 A n : heap s (l1 ++ y :: l2) A → 1 ≤ n ≤ y.2 →
  ∃ s' F' b, take_block n (pred l1) y.1 s = Done (b.1 + 16) s' [] ∧ heap s' F' (b :: A) ∧ b.2 = n ∧ u_brk s' = u_brk s ∧ kept A (u_mem s) (u_mem s').
Proof.
  intros Hh Hn. assert (y ∈ l1 ++ y :: l2) as Hy by (rewrite elem_of_app; right; by left). pose proof (hp_end _ _ _ Hh y Hy) as Hye.
  destruct (rising_in _ _ y (hp_rising _ _ _ Hh) Hy) as [Hy1 Hy2]. pose proof (hp_brk _ _ _ Hh) as Hbrk. unfold small in Hbrk.
  destruct (chain_first _ _ _ _ (hp_chain _ _ _ Hh)) as [Hyp Hys]. unfold take_block. rewrite bind_gets. unfold id. rewrite Hys. unfold end_of in Hye.
  destruct (Z.eqb_spec y.2 n) as [He|He].
  - destruct (take_whole _ _ _ _ _ Hh) as [Hh' Hk]. rewrite bind_assoc, bind_modify, bind_ret, bind_modify. unfold ret, HEADER. rewrite u64_small by mach_lia.
    eexists _, _, y. split; [reflexivity|]. unfold upd_umem, set_freep. cbn [u_mem u_freep u_brk]. rewrite Hyp. split_and!; [exact Hh'|done|done|exact Hk].
  - destruct (take_tail _ _ _ _ _ n Hh ltac:(lia)) as [Hh' Hk]. set (b := (y.1 + 16 * (y.2 - n), n)) in *. cbv zeta in *.
    rewrite bind_assoc, bind_modify, bind_assoc, bind_gets. cbn [id upd_umem u_mem]. rewrite Hys, u32_small by mach_lia. rewrite hsize_set by mach_lia.
    rewrite bind_assoc, bind_modify, bind_ret, bind_modify. unfold ret, HEADER. rewrite (u64_small (y.1 + _)) by mach_lia. rewrite u64_small by mach_lia.
    eexists _, _, b. split; [reflexivity|]. unfold upd_umem, set_freep. cbn [u_mem u_freep u_brk]. rewrite Hys, u32_small by mach_lia. split_and!; [exact Hh'|done|done|exact Hk].
Qed.

Context `{Sbrk}.

(** The bytes [morecore] asks for. *)
Definition core (n : Z) : Z := 16 * (n `max` 4096).

(** A new block at the end of the heap, as if it had been handed out. *)
Lemma heap_grow s F A nu : heap s F A → 1 ≤ nu → small (u_brk s + 16 * nu) →
  heap (mkust (set_hsize (u_brk s) nu (u_mem s)) (u_freep s) (u_brk s + 16 * nu)) F ((u_brk s, nu) :: A) ∧ kept A (u_mem s) (set_hsize (u_brk s) nu (u_mem s)).
Proof.
  intros [Hc Hr Hp Hbrk He Hlive Hap Hd Hun] Hnu Hs. unfold small in *. pose proof (units_length _ _ Hr). pose proof (units_nonneg A ltac:(intros z Hz; by apply Hlive)) as HuA.
  assert (kept A (u_mem s) (set_hsize (u_brk s) nu (u_mem s))) as Hk. { intros x a Hx Ha. apply rd_set_hsize. destruct (Hlive x Hx) as (_ & _ & ? & _). lia. }
  split; [|done]. split; cbn [u_mem u_freep u_brk]; try done.
  - apply (chain_off (u_mem s) _ (u_brk s)); [intros a Ha; apply rd_set_hsize; lia| |done].
    intros x [->|Hx]%elem_of_cons; unfold off; cbn [fst]; [lia|]. specialize (He x Hx). destruct (rising_in _ _ x Hr Hx). unfold end_of in *. lia.
  - intros x Hx. specialize (He x Hx). lia.
  - intros x [->|Hx]%elem_of_cons.
    + unfold end_of. cbn [fst snd]. rewrite hsize_set by mach_lia. split_and!; lia.
    + destruct (Hlive x Hx) as (? & ? & ? & Hsz). split_and!; [done|done|lia|]. by rewrite (kept_size A (u_mem s)).
  - intros x y Hx [->|Hy]%elem_of_cons; [left; cbn; by apply He|by apply Hap].
  - split; [|done]. apply Forall_forall. intros x Hx. right. cbn. by apply Hlive.
  - unfold units_of in *. cbn [foldr snd]. lia.
Qed.

Lemma pred_pos l1 l2 : rising brk0 (l1 ++ l2) → 0 < pred l1.
Proof. intros Hr. destruct (pred_bound brk0 l1 l2 Hr ltac:(lia)). lia. Qed.

Lemma morecore_run s F A n : heap s F A → 1 ≤ n → 16 * n < 2147483648 →
  (grants (u_brk s) (core n) = false ∧ morecore n s = Done 0 s []) ∨
  (∃ s' F', morecore n s = Done (u_freep s') s' [] ∧ 0 < u_freep s' ∧ heap s' F' A ∧ kept A (u_mem s) (u_mem s') ∧ u_brk s' = u_brk s + core n ∧ (length F' ≤ S (length F))%nat ∧ ∃ y, y ∈ F' ∧ n ≤ y.2).
Proof.
  intros Hh Hn Hmax. set (nu := if n <? 4096 then 4096 else n). assert (nu = n `max` 4096) as Hnu by (unfold nu; destruct (Z.ltb_spec n 4096); lia).
  pose proof (hp_brk _ _ _ Hh) as Hbrk. unfold small in Hbrk. unfold morecore, sbrk. fold nu. rewrite bind_assoc, bind_gets. unfold id.
  assert (i32 (nu * HEADER) = core n) as -> by (unfold core, HEADER; rewrite i32_small; mach_lia).
  destruct (grants (u_brk s) (core n)) eqn:Hg; [right|by left]. apply grants_memory in Hg. change (PHYSTOP - KERNBASE) with 134217728 in Hg. unfold core in Hg |- *. rewrite <- Hnu in *.
  rewrite bind_assoc, bind_modify, bind_ret. rewrite (proj2 (Z.eqb_neq _ _)) by lia. rewrite bind_modify.
  destruct (heap_grow s F A nu Hh) as [Hh' Hk]; [lia|unfold small; lia|].
  destruct (free_run _ _ _ _ Hh') as (s' & F' & Hf & Hh'' & Hb & Hk' & Hlen & y & Hy & Hy1 & Hy2). cbn [fst u_mem u_brk] in *.
  unfold HEADER. rewrite u64_small by mach_lia. rewrite (bind_done _ _ _ _ _ Hf). exists s', F'. split; [reflexivity|].
  destruct (hp_freep _ _ _ Hh'') as (l1 & l2 & HF & Hp). split_and!; [|done| |done|done|].
  - rewrite Hp. apply (pred_pos l1 l2). rewrite <- HF. apply Hh''.
  - intros x a Hx Ha. rewrite (Hk' x a Hx Ha). by apply (Hk x).
  - exists y. split; [done|]. unfold end_of in *. cbn [fst snd] in *. lia.
Qed.

(** One lap of the free list, from [freep] to [freep]. *)
Section lap.
Context (s : ust) (F A : list blk) (n : Z) (Hh : heap s F A) (Hn : 1 ≤ n).

Lemma walk_free r : ∀ l1 t fuel, F = l1 ++ r ++ t → (∀ y, y ∈ r → y.1 ≠ u_freep s) →
  (∃ k1 y k2, F = k1 ++ y :: k2 ∧ n ≤ y.2 ∧ malloc_loop (length r + fuel) n (pred l1) (first base (r ++ t)) s = take_block n (pred k1) y.1 s) ∨
  ((∀ y, y ∈ r → y.2 < n) ∧ malloc_loop (length r + fuel) n (pred l1) (first base (r ++ t)) s = malloc_loop fuel n (pred (l1 ++ r)) (first base t) s).
Proof.
  induction r as [|y r IH]; intros l1 t fuel HF Hne.
  { right. split; [by intros ? ?%not_elem_of_nil|]. by rewrite app_nil_r. }
  assert (chain (u_mem s) ((base, 0) :: l1 ++ y :: r ++ t) base) as Hc by (rewrite HF in Hh; apply Hh). destruct (chain_first _ _ _ _ Hc) as [Hyp Hys].
  cbn [length app Nat.add malloc_loop first]. rewrite bind_gets. unfold id. rewrite Hys. destruct (Z.leb_spec n y.2) as [Hfit|Hfit].
  { left. by exists l1, y, (r ++ t). }
  rewrite (proj2 (Z.eqb_neq _ _)) by (apply Hne; by left). rewrite Hyp, <- (pred_snoc l1 y).
  destruct (IH (l1 ++ [y]) t fuel) as [Hl|[Hr Hl]]; [by rewrite <- app_assoc|intros z Hz; apply Hne; by right|by left|].
  right. split; [intros z [->|Hz]%elem_of_cons; auto|]. by rewrite Hl, <- app_assoc.
Qed.

Lemma at_freep fuel p q : p = u_freep s → hsize (u_mem s) p < n →
  malloc_loop (S fuel) n q p s = bind (morecore n) (λ p, if p =? 0 then ret 0 else let! s := gets id in malloc_loop fuel n p (hptr (u_mem s) p)) s.
Proof. intros Hp Hs. cbn [malloc_loop]. rewrite bind_gets. unfold id. rewrite (proj2 (Z.leb_gt _ _)) by done. by rewrite (proj2 (Z.eqb_eq _ _)) by done. Qed.

Lemma lap fuel : 
  (∃ k1 y k2, F = k1 ++ y :: k2 ∧ n ≤ y.2 ∧
     malloc_loop (length F + 1 + fuel) n (u_freep s) (hptr (u_mem s) (u_freep s)) s = take_block n (pred k1) y.1 s) ∨
  ((∀ y, y ∈ F → y.2 < n) ∧ malloc_loop (length F + 1 + fuel) n (u_freep s) (hptr (u_mem s) (u_freep s)) s =
     bind (morecore n) (λ p, if p =? 0 then ret 0 else let! s := gets id in malloc_loop fuel n p (hptr (u_mem s) p)) s).
Proof.
  destruct (hp_freep _ _ _ Hh) as (k1 & k2 & HF & Hp). pose proof (hp_chain _ _ _ Hh) as Hc. pose proof (hp_rising _ _ _ Hh) as Hr.
  destruct (chain_pred (u_mem s) k1 k2) as [Hpp _]; [by rewrite <- HF|]. destruct Hc as (Hbp & Hbs & _). cbn [fst snd] in Hbp, Hbs. fold (first base F) in Hbp.
  assert (length F = length k1 + length k2)%nat as Hlen by (by rewrite HF, length_app). rewrite Hp, Hpp.
  destruct (walk_free k2 k1 [] (length k1 + 1 + fuel)) as [Hl|[Hk2 Hl]]; [by rewrite app_nil_r| | |].
  { intros y Hy. rewrite Hp. destruct (pred_bound brk0 k1 k2) as [_ Hb]; [by rewrite <- HF|lia|]. specialize (Hb y Hy). lia. }
  { left. rewrite app_nil_r in Hl. by replace (length F + 1 + fuel)%nat with (length k2 + (length k1 + 1 + fuel))%nat by lia. }
  rewrite app_nil_r in Hl. replace (length F + 1 + fuel)%nat with (length k2 + (length k1 + 1 + fuel))%nat by lia. rewrite Hl. cbn [first].
  destruct k1 as [|z k1 _] using rev_ind.
  { right. split; [intros y Hy; apply Hk2; by rewrite HF in Hy|]. cbn [length Nat.add]. apply at_freep; [by rewrite Hp|lia]. }
  rewrite pred_snoc in *. assert (z ∈ F) as Hz by (rewrite HF, !elem_of_app; left; right; by left). destruct (rising_in _ _ z Hr Hz) as [Hz1 Hz2].
  rewrite length_app. cbn [length]. replace (length k1 + 1 + 1 + fuel)%nat with (S (length k1 + S fuel)) by lia. cbn [malloc_loop]. rewrite bind_gets. unfold id.
  rewrite Hbs, (proj2 (Z.leb_gt _ _)) by lia. rewrite (proj2 (Z.eqb_neq _ _)) by lia. rewrite Hbp. rewrite <- app_assoc in HF. cbn [app] in HF.
  change base with (pred []) at 1 3. rewrite HF. destruct (walk_free k1 [] (z :: k2) (S fuel)) as [Hl'|[Hk1 Hl']]; [by rewrite HF| |left; by rewrite <- HF in *|].
  { intros y Hy. rewrite Hp. rewrite HF in Hr. apply rising_app in Hr as (Hr1 & Htop & _). pose proof (rising_top _ _ y Hr1 Hy). destruct (rising_in _ _ y Hr1 Hy). unfold end_of in *. lia. }
  rewrite Hl'. cbn [app first]. destruct (chain_first (u_mem s) k1 z k2) as [Hzp Hzs]; [rewrite <- HF; apply Hh|].
  destruct (Z.leb_spec n z.2) as [Hfit|Hfit].
  - left. exists k1, z, k2. split_and!; [done|done|]. cbn [malloc_loop]. rewrite bind_gets. unfold id. rewrite Hzs, (proj2 (Z.leb_le _ _)) by done. done.
  - right. split; [intros y; rewrite elem_of_app, elem_of_cons; intros [Hy|[->|Hy]]; auto|]. apply at_freep; [done|by rewrite Hzs].
Qed.
End lap.

(** Sizes whose rounding up to units fits the [int] of [sbrk]. *)
Definition request_ok (nbytes : Z) : Prop := 0 ≤ nbytes ≤ 2147483600.
Lemma units_ok n : request_ok n → 1 ≤ units n ∧ 16 * units n < 2147483648 ∧ n ≤ 16 * (units n - 1).
Proof. intros Hn. unfold request_ok, units, HEADER in *. mach_lia. Qed.

(** [malloc] on a heap: a new block, or 0 when no free block is large enough and
    the kernel refuses. *)
Definition malloc_post (s : ust) (A : list blk) (n p : Z) (s' : ust) : Prop :=
  (p = 0 ∧ grants (u_brk s) (core (units n)) = false ∧ ∃ F', heap s' F' A) ∨
  (∃ F' b, p = b.1 + 16 ∧ b.2 = units n ∧ heap s' F' (b :: A)).

Lemma malloc_run s F A n : heap s F A → request_ok n →
  ∃ p s', malloc base n s = Done p s' [] ∧ kept A (u_mem s) (u_mem s') ∧ malloc_post s A n p s'.
Proof.
  intros Hh (Hu1 & Hu2 & _)%units_ok. unfold malloc. rewrite bind_gets. unfold id. destruct (hp_freep _ _ _ Hh) as (l1 & l2 & HF & Hp).
  pose proof (pred_pos l1 l2 ltac:(rewrite <- HF; apply Hh)) as Hpos. rewrite (proj2 (Z.eqb_neq _ _)) by lia. rewrite bind_ret, bind_gets. cbv beta.
  pose proof (units_length _ _ (hp_rising _ _ _ Hh)) as Hlen. pose proof (hp_units _ _ _ Hh) as Hun. pose proof (units_nonneg A ltac:(intros z Hz; by apply (hp_live _ _ _ Hh))) as HuA.
  unfold HEADER. assert (Z.of_nat (length F) ≤ u_brk s / 16) as Hq by (apply Z.div_le_lower_bound; lia).
  set (fuel := Z.to_nat (2 * (u_brk s / 16) + 8)). replace fuel with (length F + 1 + (fuel - length F - 1))%nat by lia. destruct (lap s F A (units n) Hh Hu1 (fuel - length F - 1)) as [(k1 & y & k2 & HF' & Hy & ->)|[Hnone ->]].
  { rewrite HF' in Hh. destruct (take_run _ _ _ _ _ (units n) Hh ltac:(lia)) as (s' & F' & b & Ht & Hh' & Hb & _ & Hk). exists (b.1 + 16), s'. split_and!; [done|done|]. right. eauto. }
  destruct (morecore_run _ _ _ _ Hh Hu1 Hu2) as [[Hg Hm]|(s1 & F1 & Hm & Hpos1 & Hh1 & Hk1 & Hb1 & Hlen1 & y & Hy & Hyn)]; rewrite (bind_done _ _ _ _ _ Hm).
  { exists 0, s. split_and!; [done|by intros ? ?|]. left. eauto. }
  rewrite (proj2 (Z.eqb_neq _ _)) by lia. rewrite bind_gets. unfold id.
  replace (fuel - length F - 1)%nat with (length F1 + 1 + (fuel - length F - length F1 - 2))%nat by lia.
  destruct (lap s1 F1 A (units n) Hh1 Hu1 (fuel - length F - length F1 - 2)) as [(k1 & y' & k2 & HF' & Hy' & ->)|[Hnone' _]]; [|specialize (Hnone' y Hy); lia].
  rewrite HF' in Hh1. destruct (take_run _ _ _ _ _ (units n) Hh1 ltac:(lia)) as (s' & F' & b & Ht & Hh' & Hb & _ & Hk).
  exists (b.1 + 16), s'. split_and!; [done| |right; eauto]. intros x a Hx Ha. rewrite (Hk x a Hx Ha). by apply (Hk1 x).
Qed.

(** The first call sets the free list up. *)
Lemma malloc_first m n : small brk0 → request_ok n →
  ∃ p s', malloc base n (mkust m 0 brk0) = Done p s' [] ∧ malloc_post (mkust m 0 brk0) [] n p s'.
Proof.
  intros Hs Hn. set (s1 := mkust (set_hsize base 0 (set_hptr base base m)) base brk0).
  assert (heap s1 [] []) as Hh.
  { unfold small in Hs. split; cbn [u_mem u_freep u_brk s1]; try done; try (by intros ? ?%not_elem_of_nil).
    - rewrite chain_cons. cbn [fst snd first]. rewrite hptr_set_hsize, hptr_set, hsize_set by mach_lia. done.
    - by exists [], [].
    - by intros x y ?%not_elem_of_nil.
    - change (16 * (0 + 0) = brk0 - brk0). lia. }
  destruct (malloc_run s1 [] [] n Hh Hn) as (p & s' & Hm & _ & Hp). exists p, s'. split; [|exact Hp]. rewrite <- Hm.
  unfold malloc. rewrite !bind_gets. unfold id. cbn [u_freep]. change (0 =? 0) with true. cbn match. unfold s1 at 1. cbn [u_freep].
  rewrite (proj2 (Z.eqb_neq base 0)) by lia. mrun. reflexivity.
Qed.
End heap.

(** ** Programs that use the allocator *)

(** A state of a program, with the blocks it holds: it calls [malloc] and
    [free], and writes into its blocks. *)
Inductive hstep (base : Z) `{Sbrk} : ust * list blk → ust * list blk → Prop :=
| h_malloc s A n p s' t : request_ok n → malloc base n s = Done p s' t →
    hstep base (s, A) (s', if p =? 0 then A else (p - 16, units n) :: A)
| h_free s A b A' s' t : A ≡ₚ b :: A' → free (b.1 + 16) s = Done tt s' t → hstep base (s, A) (s', A')
| h_write s A b a v : b ∈ A → b.1 + 16 ≤ a < end_of b → hstep base (s, A) (upd_umem (wr a v) s, A).

(** A program's heap: not yet used, or set up. *)
Definition in_heap (base brk0 : Z) (s : ust) (A : list blk) : Prop :=
  (u_freep s = 0 ∧ u_brk s = brk0 ∧ A = []) ∨ ∃ F, heap base brk0 s F A.

Lemma heap_perm base brk0 s F A A' : A ≡ₚ A' → heap base brk0 s F A → heap base brk0 s F A'.
Proof.
  intros HA [Hc Hr Hp Hbrk He Hlive Hap Hd Hun]. split; try done.
  - intros x. rewrite <- HA. apply Hlive.
  - intros x y Hx. rewrite <- HA. by apply Hap.
  - by apply (disjoint_perm A).
  - assert (units_of A' = units_of A) as ->; [|done]. clear -HA. unfold units_of. induction HA; cbn [foldr]; lia.
Qed.

(** The program writes into its block. *)
Lemma heap_write base brk0 s F A b a v : 0 < base → base + 16 ≤ brk0 → heap base brk0 s F A → b ∈ A → b.1 + 16 ≤ a < end_of b → heap base brk0 (upd_umem (wr a v) s) F A.
Proof.
  intros Hb0 Hb1 [Hc Hr Hp Hbrk He Hlive Hap Hd Hun] Hb Ha. destruct (Hlive b Hb) as (Hlo & Hn & _).
  assert (∀ x, x ≠ a → rd (wr a v (u_mem s)) x = rd (u_mem s) x) as Hrd by (intros x Hx; rewrite rd_wr; by rewrite decide_False by congruence).
  split; cbn [u_mem u_freep u_brk upd_umem]; try done.
  - eapply links_ext; [|done]. intros x Hx. apply hdr_ext. intros y Hy. apply Hrd. rewrite elem_of_cons in Hx. destruct Hx as [->|Hx]; [cbn [fst] in Hy; lia|].
    destruct (rising_in _ _ x Hr Hx). destruct (Hap x b Hx Hb); unfold end_of in *; lia.
  - intros x Hx. destruct (Hlive x Hx) as (? & ? & ? & Hsz). split_and!; [done..|]. rewrite <- Hsz. apply hdr_ext. intros y Hy. apply Hrd. intros ->.
    apply list_elem_of_lookup in Hb as [i Hi]. apply list_elem_of_lookup in Hx as [j Hj].
    destruct (decide (i = j)) as [->|Hij]; [rewrite Hi in Hj; injection Hj as ->; lia|]. destruct (disjoint_lookup A i j b x Hd Hi Hj Hij); unfold end_of in *; lia.
Qed.

Lemma heap_step base brk0 `{Sbrk} c c' : 0 < base → base + 16 ≤ brk0 → small brk0 → in_heap base brk0 c.1 c.2 → hstep base c c' → in_heap base brk0 c'.1 c'.2.
Proof.
  intros Hb0 Hb1 Hs Hi Hstep. destruct Hstep as [s A n p s' t Hn Hm|s A b A' s' t HA Hf|s A b a v Hb Ha]; cbn [fst snd] in *.
  - assert (malloc_post base brk0 s A n p s') as Hp.
    { destruct Hi as [(Hfp & Hbrk & ->)|[F Hh]].
      - destruct s as [m fp brk]. cbn in Hfp, Hbrk. subst fp brk. destruct (malloc_first base brk0 Hb0 Hb1 m n Hs Hn) as (p' & s'' & Hm' & Hp). rewrite Hm' in Hm. by injection Hm as <- <- _.
      - destruct (malloc_run base brk0 Hb0 Hb1 s F A n Hh Hn) as (p' & s'' & Hm' & _ & Hp). rewrite Hm' in Hm. by injection Hm as <- <- _. }
    right. destruct Hp as [(-> & _ & Hh)|(F' & b & -> & Hb & Hh)]; [done|]. exists F'. destruct (hp_live _ _ _ _ _ Hh b) as (Hlo & _); [by left|].
    rewrite (proj2 (Z.eqb_neq _ _)) by lia. replace (b.1 + 16 - 16) with b.1 by lia. rewrite <- Hb. by destruct b.
  - destruct Hi as [(_ & _ & ->)|[F Hh]]; [by apply Permutation_nil_cons in HA|]. right.
    destruct (free_run base brk0 Hb0 Hb1 s F A' b (heap_perm _ _ _ _ _ _ HA Hh)) as (s'' & F' & Hf' & Hh' & _). rewrite Hf' in Hf. injection Hf as <- _. eauto.
  - destruct Hi as [(_ & _ & ->)|[F Hh]]; [by apply not_elem_of_nil in Hb|]. right. exists F. by eapply heap_write.
Qed.

(** Without gaps the free blocks are one. *)
Lemma rising_units lo F e : rising lo F → (∀ x, x ∈ F → end_of x ≤ e) → F ≠ [] → lo + 16 * units_of F ≤ e.
Proof.
  revert lo. induction F as [|x F IH]; intros lo; [done|]. intros (Hlo & Hn & Hr) He _. pose proof (He x ltac:(by left)) as Hx. unfold units_of. cbn [foldr]. fold (units_of F).
  destruct F as [|y F]; [unfold units_of, end_of in *; cbn [foldr]; lia|]. assert (end_of x + 1 + 16 * units_of (y :: F) ≤ e) by (apply IH; [done|intros z Hz; apply He; by right|done]).
  unfold end_of in *. lia.
Qed.
Lemma rising_full lo F e : rising lo F → (∀ x, x ∈ F → end_of x ≤ e) → lo + 16 * units_of F = e → F = [] ∨ F = [(lo, units_of F)].
Proof.
  destruct F as [|x F]; [by left|]. intros (Hlo & Hn & Hr) He Hu. right. pose proof (He x ltac:(by left)) as Hx. unfold units_of in Hu |- *. cbn [foldr] in Hu |- *. fold (units_of F) in Hu |- *.
  destruct F as [|y F]; [destruct x as [a k]; unfold units_of, end_of in *; cbn in *; f_equal; f_equal; lia|].
  assert (end_of x + 1 + 16 * units_of (y :: F) ≤ e) by (apply rising_units; [done|intros z Hz; apply He; by right|done]). unfold end_of in *. lia.
Qed.

(** The free list in memory. *)
Definition free_list (base : Z) (s : ust) (F : list blk) : Prop :=
  if u_freep s =? 0 then F = [] else chain (u_mem s) ((base, 0) :: F) base.

(** C16. However a program whose requests are of at most 2147483600 bytes
    allocates, frees and writes its blocks: the blocks it holds are disjoint
    and in the heap; every byte of the heap is in one of them or on the free
    list, whose blocks are in order and never touch, so that when all is freed
    the heap is one block again; [malloc] of such a request returns, with
    enough bytes apart from all other blocks or 0 if the kernel refuses, and
    [free] returns; and neither changes a byte of the blocks held. *)
Theorem umalloc_correct `{Sbrk} base brk0 m s A : 0 < base → base + 16 ≤ brk0 → small brk0 → rtc (hstep base) (mkust m 0 brk0, []) (s, A) →
  disjoint_blocks A ∧ (∀ b, b ∈ A → brk0 ≤ b.1 ∧ end_of b ≤ u_brk s) ∧
  (∃ F, free_list base s F ∧ rising brk0 F ∧ (∀ x y, x ∈ F → y ∈ A → apart x y) ∧ 16 * (units_of F + units_of A) = u_brk s - brk0 ∧
     (A = [] → F = [] ∨ F = [(brk0, units_of F)])) ∧
  (∀ n, request_ok n → ∃ p s', malloc base n s = Done p s' [] ∧ kept A (u_mem s) (u_mem s') ∧
     ((p = 0 ∧ grants (u_brk s) (core (units n)) = false) ∨
      ∃ b, p = b.1 + 16 ∧ n ≤ 16 * (b.2 - 1) ∧ brk0 ≤ b.1 ∧ end_of b ≤ u_brk s' ∧ Forall (apart b) A)) ∧
  (∀ b A', A ≡ₚ b :: A' → ∃ s', free (b.1 + 16) s = Done tt s' [] ∧ kept A' (u_mem s) (u_mem s')).
Proof.
  intros Hb0 Hb1 Hs Hrun. assert (in_heap base brk0 s A) as Hi.
  { change (in_heap base brk0 (s, A).1 (s, A).2). revert Hrun. apply (rtc_invariant (λ c, in_heap base brk0 c.1 c.2)); [|by left]. intros c c' Hc. by apply heap_step. }
  assert (∀ n p s', malloc_post base brk0 s A n p s' → request_ok n → (p = 0 ∧ grants (u_brk s) (core (units n)) = false) ∨
      ∃ b, p = b.1 + 16 ∧ n ≤ 16 * (b.2 - 1) ∧ brk0 ≤ b.1 ∧ end_of b ≤ u_brk s' ∧ Forall (apart b) A) as Hpost.
  { intros n p s' [(-> & Hg & _)|(F' & b & -> & Hb & Hh)] Hn; [by left|right]. destruct (units_ok n Hn) as (_ & _ & Hle). destruct (hp_live _ _ _ _ _ Hh b) as (? & ? & ? & _); [by left|].
    destruct (hp_disj _ _ _ _ _ Hh) as [Hd _]. exists b. rewrite Hb. done. }
  destruct Hi as [(Hfp & Hbrk & ->)|[F Hh]].
  - destruct s as [m' fp brk]. cbn in Hfp, Hbrk. subst fp brk. split_and!; [done|by intros ? ?%not_elem_of_nil| | |].
    + exists []. split_and!; [done|done|by intros ? ? ?%not_elem_of_nil|unfold units_of; cbn; lia|by left].
    + intros n Hn. destruct (malloc_first base brk0 Hb0 Hb1 m' n Hs Hn) as (p & s' & Hm & Hp). exists p, s'. split_and!; [done|by intros ? ? ?%not_elem_of_nil|by apply Hpost].
    + by intros b A' ?%Permutation_nil_cons.
  - split_and!; [apply Hh|intros b Hb; destruct (hp_live _ _ _ _ _ Hh b Hb) as (? & ? & ? & _); done| | |].
    + exists F. destruct (hp_freep _ _ _ _ _ Hh) as (l1 & l2 & HF & Hp). pose proof (pred_pos base brk0 Hb0 Hb1 l1 l2 ltac:(rewrite <- HF; apply Hh)) as Hpos.
      split_and!; [unfold free_list; rewrite (proj2 (Z.eqb_neq _ _)) by lia; apply Hh|apply Hh|apply Hh|apply Hh|].
      intros ->. apply (rising_full brk0 F (u_brk s)); [apply Hh|apply Hh|]. pose proof (hp_units _ _ _ _ _ Hh) as Hu. unfold units_of in Hu |- *. cbn [foldr] in Hu. lia.
    + intros n Hn. destruct (malloc_run base brk0 Hb0 Hb1 s F A n Hh Hn) as (p & s' & Hm & Hk & Hp). exists p, s'. split_and!; [done|done|by apply Hpost].
    + intros b A' HA. destruct (free_run base brk0 Hb0 Hb1 s F A' b (heap_perm _ _ _ _ _ _ HA Hh)) as (s' & F' & Hf & _ & _ & Hk & _). eauto.
Qed.

(** A kernel that grants what fits the machine; a program that allocates two
    blocks and frees the first. *)
#[local] Instance sbrk_all : Sbrk.
Proof. refine {| grants brk n := brk + n <=? PHYSTOP - KERNBASE |}. intros brk n Hn. by apply Z.leb_le. Defined.

Definition state_after {A} (o : outcome Empty_set ust A) : ust := match o with Done _ s _ | Panic _ s _ | Spin s _ | Asleep _ s _ => s end.
Definition heap1 : ust := state_after (malloc 4096 100 (mkust ∅ 0 8192)).
Definition heap2 : ust := state_after (malloc 4096 20 heap1).
Definition heap3 : ust := state_after (free 73616 heap2).

Lemma umalloc_correct_witness : ∃ s, malloc 4096 200 heap3 = Done 73344 s [] ∧ kept [(73552, 3)] (u_mem heap3) (u_mem s).
Proof.
  destruct (umalloc_correct 4096 8192 ∅ heap3 [(73552, 3)]) as (_ & _ & _ & Hm & _); [lia|lia|unfold small; lia| |].
  { apply (rtc_l _ _ (heap1, [(73600, 8)])); [apply (h_malloc 4096 (mkust ∅ 0 8192) [] 100 73616 heap1 []); [unfold request_ok; lia|vm_compute; reflexivity]|].
    apply (rtc_l _ _ (heap2, [(73552, 3); (73600, 8)])); [apply (h_malloc 4096 heap1 [(73600, 8)] 20 73568 heap2 []); [unfold request_ok; lia|vm_compute; reflexivity]|].
    apply rtc_once, (h_free 4096 heap2 _ (73600, 8) _ heap3 []); [apply perm_swap|vm_compute; reflexivity]. }
  destruct (Hm 200) as (p & s' & Hr & Hk & _); [unfold request_ok; lia|]. exists s'. split; [|done]. rewrite Hr. f_equal.
  assert (match malloc 4096 200 heap3 with Done p _ _ => p | _ => 0 end = 73344) as Hp by (vm_compute; reflexivity). by rewrite Hr in Hp.
Defined.
