(* ===== verification/Kalloc.v ===== *)
(** The physical page allocator ([kalloc.c]): a free list threaded through the
    free pages themselves. *)
From Stdlib Require Import ZArith Lia.
From stdpp Require Import base list gmap strings.
From S2P Require Import Prelude Machine Mem Str.

(** ** State *)

(** [kmem] and the physical memory the list runs through; a null pointer is
    [0]. *)
Record kmem := mkkmem {
  km_lock : bool;
  freelist : Z;
  pm : mem
}.
Definition set_freelist (v : Z) (s : kmem) : kmem := mkkmem (km_lock s) v (pm s).
Definition set_pm (v : mem) (s : kmem) : kmem := mkkmem (km_lock s) (freelist s) v.
Definition upd_pm (f : mem → mem) (s : kmem) : kmem := set_pm (f (pm s)) s.

#[export, refine] Instance kmem_locked : Locked kmem :=
  {| held := km_lock; set_held b s := mkkmem b (freelist s) (pm s) |}.
Proof. all: by try intros ? ? []; try intros ? []; try intros []. Defined.

(** ** Operations *)

Section ops.
(** The linker symbol [end], the first address after the kernel. *)
Context {E : Type} (kend : Z).

Definition kfree (pa : Z) : M E kmem unit :=
  if negb (pa mod PGSIZE =? 0) || (pa <? kend) || (PHYSTOP <=? pa) then panic "kfree" else
  modify (upd_pm (memset pa 1 PGSIZE)) ;;
  acquire ;;
  let! fl := gets freelist in
  modify (upd_pm (store64 pa fl)) ;;
  modify (set_freelist pa) ;;
  release.

Definition kalloc : M E kmem Z :=
  acquire ;;
  let! r := gets freelist in
  (if negb (r =? 0) then
     let! m := gets pm in
     modify (set_freelist (load64 m r))
   else ret tt) ;;
  release ;;
  (if negb (r =? 0) then modify (upd_pm (memset r 5 PGSIZE)) else ret tt) ;;
  ret r.

(** [for(; p + PGSIZE <= pa_end; p += PGSIZE) kfree(p);] *)
Fixpoint freerange_loop (fuel : nat) (p pa_end : Z) : M E kmem unit :=
  if p + PGSIZE <=? pa_end then
    match fuel with
    | O => λ s, Spin s []
    | S f => kfree p ;; freerange_loop f (p + PGSIZE) pa_end
    end
  else ret tt.
Definition freerange (pa_start pa_end : Z) : M E kmem unit :=
  freerange_loop (Z.to_nat ((pa_end - pa_start) / PGSIZE + 1)) (PGROUNDUP pa_start) pa_end.

Definition kinit : M E kmem unit :=
  modify (set_held false) ;;
  freerange kend PHYSTOP.
End ops.

(** ** The free list as a list of pages *)

(** The pages that [kfree] accepts. *)
Definition page_ok (kend p : Z) : Prop := p mod PGSIZE = 0 ∧ kend ≤ p < PHYSTOP.

Fixpoint chain (m : mem) (head : Z) (l : list Z) : Prop :=
  match l with
  | [] => head = 0
  | p :: l' => head = p ∧ chain m (load64 m p) l'
  end.

Record kinv (kend : Z) (s : kmem) (l : list Z) : Prop := {
  ki_kend : 0 < kend;
  ki_lock : km_lock s = false;
  ki_chain : chain (pm s) (freelist s) l;
  ki_nodup : NoDup l;
  ki_pages : Forall (page_ok kend) l
}.

Definition in_page (p x : Z) : Prop := p ≤ x < p + PGSIZE.
#[export] Instance in_page_dec p x : Decision (in_page p x).
Proof. unfold in_page. apply _. Defined.

(** Memories that agree outside the pages [ps]. *)
Definition same_outside (ps : list Z) (m m' : mem) : Prop :=
  ∀ x, (∀ p, p ∈ ps → ¬ in_page p x) → rd m' x = rd m x.

#[global] Arguments PGSIZE : simpl never.

Lemma page_sep kend p q x : page_ok kend p → page_ok kend q → in_page p x → in_page q x → p = q.
Proof. unfold page_ok, in_page, PGSIZE. intros [H1 _] [H2 _] H3 H4. mach_lia. Qed.

Lemma page_mod_sep p q x : p mod PGSIZE = 0 → q mod PGSIZE = 0 → in_page p x → in_page q x → p = q.
Proof. unfold in_page, PGSIZE. intros. mach_lia. Qed.

Lemma chain_ext m m' head l :
  (∀ p x, p ∈ l → p ≤ x < p + 8 → rd m x = rd m' x) → chain m head l → chain m' head l.
Proof.
  revert head. induction l as [|p l IH]; intros head Hx; simpl; [done|].
  intros (-> & Hc). split; [done|].
  rewrite <-(load64_ext m) by (intros x ?; apply (Hx p); [left|lia]).
  apply IH; [|done]. intros q x Hq. apply Hx. by right.
Qed.

Lemma chain_page m head kend l q bs a : chain m head l → Forall (page_ok kend) l → q ∉ l →
  q mod PGSIZE = 0 → q ≤ a → a + Z.of_nat (length bs) ≤ q + PGSIZE → chain (write_bytes a bs m) head l.
Proof.
  intros Hc Hl Hq Hqm Ha Hb. eapply chain_ext; [|exact Hc]. intros p x Hp Hx.
  symmetry. apply rd_write_out.
  rewrite Forall_forall in Hl. destruct (Hl p Hp) as [Hm _].
  destruct (decide (p = q)) as [->|Hne]; [done|]. unfold PGSIZE in *. mach_lia.
Qed.

Lemma chain_store64 m head kend l q a v : chain m head l → Forall (page_ok kend) l → q ∉ l →
  q mod PGSIZE = 0 → q ≤ a → a + 8 ≤ q + PGSIZE → chain (store64 a v m) head l.
Proof. intros. eapply (chain_page _ _ _ _ q); done. Qed.
Lemma chain_memset m head kend l q c : chain m head l → Forall (page_ok kend) l → q ∉ l →
  q mod PGSIZE = 0 → chain (memset q c PGSIZE m) head l.
Proof.
  intros. rewrite memset_spec. eapply (chain_page _ _ _ _ q); [done|done|done|done|lia|].
  rewrite length_replicate. unfold PGSIZE. lia.
Qed.

Lemma page_ok_u64 kend p : 0 < kend → page_ok kend p → is_u64 p ∧ p ≠ 0.
Proof. unfold page_ok, PHYSTOP, KERNBASE. wrap_unfold. lia. Qed.

Lemma chain_head_u64 kend m head l : 0 < kend → chain m head l → Forall (page_ok kend) l → is_u64 head.
Proof.
  intros Hk Hc Hl. destruct l as [|p l]; simpl in *; [subst; wrap_unfold; lia|].
  destruct Hc as [-> _]. apply Forall_cons in Hl as [Hp _]. by eapply page_ok_u64.
Qed.

(** ** One call *)

Section runs.
Context {E : Type} (kend : Z).

Lemma kalloc_nil s : kinv kend s [] → kalloc (E:=E) s = Done 0 s [].
Proof.
  intros [Hk Hl Hc _ _]. destruct s as [lk fl m]; simpl in *; subst. done.
Qed.

Lemma kalloc_cons s p l : kinv kend s (p :: l) →
  let s' := mkkmem false (load64 (pm s) p) (memset p 5 PGSIZE (pm s)) in
  kalloc (E:=E) s = Done p s' [] ∧ kinv kend s' l.
Proof.
  intros [Hk Hl Hc Hnd Hp]. destruct s as [lk fl m]; simpl in *; subst lk.
  destruct Hc as [-> Hc]. apply Forall_cons in Hp as [Hp Hps]. apply NoDup_cons in Hnd as [Hnin Hnd].
  destruct (page_ok_u64 _ _ Hk Hp) as [_ Hp0]. split.
  - unfold kalloc, acquire, release. mstep. destruct (Z.eqb_spec p 0); [done|]. done.
  - split; try done; simpl. eapply chain_memset; [done|done|done|apply Hp].
Qed.

Lemma kfree_run s p l : kinv kend s l → page_ok kend p → p ∉ l →
  let s' := mkkmem false p (store64 p (freelist s) (memset p 1 PGSIZE (pm s))) in
  kfree (E:=E) kend p s = Done tt s' [] ∧ kinv kend s' (p :: l).
Proof.
  intros [Hk Hl Hc Hnd Hps] [Hp1 Hp2] Hnin. destruct s as [lk fl m]; simpl in *; subst lk. split.
  - unfold kfree, acquire, release.
    replace (p mod PGSIZE =? 0) with true by (symmetry; by apply Z.eqb_eq).
    destruct (Z.ltb_spec p kend), (Z.leb_spec PHYSTOP p); try lia. done.
  - split; try done; simpl; [|by constructor..]. split; [done|].
    rewrite load64_store64, u64_small by (by eapply chain_head_u64).
    eapply (chain_store64 _ _ _ _ p); [by eapply chain_memset|done|done|done|lia|unfold PGSIZE; lia].
Qed.

(** What a call leaves of memory. *)
Lemma kalloc_mem s p l x : kinv kend s (p :: l) → ¬ in_page p x →
  rd (memset p 5 PGSIZE (pm s)) x = rd (pm s) x.
Proof. intros _ Hx. rewrite rd_memset by done. by rewrite decide_False. Qed.
Lemma kfree_mem fl m p x : ¬ in_page p x → rd (store64 p fl (memset p 1 PGSIZE m)) x = rd m x.
Proof.
  unfold in_page, PGSIZE. intros Hx. rewrite rd_store64_ne by lia. rewrite rd_memset by done.
  by rewrite decide_False.
Qed.
End runs.

(** ** Initialisation *)

(** [n] consecutive pages from [p]. *)
Fixpoint pages_from (p : Z) (n : nat) : list Z :=
  match n with O => [] | S n' => p :: pages_from (p + PGSIZE) n' end.

Lemma elem_of_pages_from p n q :
  q ∈ pages_from p n ↔ ∃ i, (i < n)%nat ∧ q = p + Z.of_nat i * PGSIZE.
Proof.
  revert p. induction n as [|n IH]; intros p; simpl.
  - split; [by intros ?%not_elem_of_nil|naive_solver lia].
  - rewrite elem_of_cons, IH. split.
    + intros [->|(i & Hi & ->)]; [exists 0%nat; lia|exists (S i); lia].
    + intros (i & Hi & ->). destruct i as [|i]; [left; lia|right; exists i; lia].
Qed.

Lemma pages_from_NoDup p n : NoDup (pages_from p n).
Proof.
  revert p. induction n as [|n IH]; intros p; simpl; constructor; [|done].
  rewrite elem_of_pages_from. intros (i & _ & H). unfold PGSIZE in *. lia.
Qed.

(** The pages between [end] and [PHYSTOP]. *)
Definition all_pages (kend : Z) : list Z :=
  pages_from (PGROUNDUP kend) (Z.to_nat ((PHYSTOP - PGROUNDUP kend) / PGSIZE)).

Lemma elem_of_all_pages kend p : 0 < kend ≤ PHYSTOP → p ∈ all_pages kend ↔ page_ok kend p.
Proof.
  intros Hk. unfold all_pages, page_ok. rewrite elem_of_pages_from.
  unfold PHYSTOP, KERNBASE in *.
  rewrite PGROUNDUP_div by lia. unfold PGSIZE. split.
  - intros (i & Hi & ->). mach_lia.
  - intros [Hm Hp]. exists (Z.to_nat ((p - (kend + 4095) / 4096 * 4096) / 4096)). mach_lia.
Qed.

Lemma freerange_loop_run {E} kend f p n s l : kinv kend s l →
  Forall (page_ok kend) (pages_from p n) → (∀ q, q ∈ l → q < p) → (n ≤ f)%nat →
  p + Z.of_nat n * PGSIZE ≤ PHYSTOP < p + Z.of_nat n * PGSIZE + PGSIZE →
  ∃ s', freerange_loop (E:=E) kend f p PHYSTOP s = Done tt s' [] ∧
        kinv kend s' (reverse (pages_from p n) ++ l).
Proof.
  revert f p s l. induction n as [|n IH]; intros f p s l Hi Hps Hl Hf Hn.
  - exists s. split; [|done]. destruct f; simpl; destruct (Z.leb_spec (p + PGSIZE) PHYSTOP); (done || lia).
  - simpl in Hps. apply Forall_cons in Hps as [Hp Hps].
    destruct f as [|f]; [lia|]. simpl. destruct (Z.leb_spec (p + PGSIZE) PHYSTOP); [|unfold PGSIZE in *; lia].
    destruct (kfree_run (E:=E) kend s p l) as [Hrun Hinv]; [done|done|intros Hin; apply Hl in Hin; lia|].
    rewrite (bind_done _ _ _ _ _ Hrun).
    destruct (IH f (p + PGSIZE) _ _ Hinv) as (s' & Hs' & Hinv'); [done| |lia|lia|].
    + intros q Hq. apply elem_of_cons in Hq as [->|Hq]; [unfold PGSIZE; lia|].
      apply Hl in Hq. unfold PGSIZE. lia.
    + exists s'. split; [done|]. by rewrite reverse_cons, <-app_assoc.
Qed.

Lemma kinit_run {E} kend s : 0 < kend ≤ PHYSTOP → freelist s = 0 →
  ∃ s', kinit (E:=E) kend s = Done tt s' [] ∧ kinv kend s' (reverse (all_pages kend)).
Proof.
  intros Hk Hfl. destruct s as [lk fl m]; simpl in *; subst fl.
  destruct (freerange_loop_run (E:=E) kend (Z.to_nat ((PHYSTOP - kend) / PGSIZE + 1)) (PGROUNDUP kend)
    (Z.to_nat ((PHYSTOP - PGROUNDUP kend) / PGSIZE)) (mkkmem false 0 m) []) as (s' & Hs' & Hinv).
  - split; [lia|done|done|constructor|constructor].
  - apply Forall_forall. intros p Hp. by apply elem_of_all_pages.
  - intros q Hq. by apply not_elem_of_nil in Hq.
  - unfold PHYSTOP, KERNBASE in *. rewrite PGROUNDUP_div by lia. unfold PGSIZE. mach_lia.
  - unfold PHYSTOP, KERNBASE in *. rewrite PGROUNDUP_div by lia. unfold PGSIZE. mach_lia.
  - rewrite app_nil_r in Hinv. exists s'.
    split; [unfold kinit; rewrite bind_modify; exact Hs'|done].
Qed.

(** [kinit] terminates without a panic and puts on the free list every
    page between [end] and [PHYSTOP], each once. *)
Theorem kinit_frees_all_pages kend s : 0 < kend ≤ PHYSTOP → freelist s = 0 →
  ∃ s' l, kinit (E:=unit) kend s = Done tt s' [] ∧ kinv kend s' l ∧ (∀ p, p ∈ l ↔ page_ok kend p).
Proof.
  intros Hk Hfl. destruct (kinit_run (E:=unit) kend s Hk Hfl) as (s' & Hs' & Hinv).
  exists s', (reverse (all_pages kend)). split; [done|]. split; [done|].
  intros p. rewrite elem_of_reverse. by apply elem_of_all_pages.
Qed.

Lemma kinit_frees_all_pages_witness : ∃ s' l,
  kinit (E:=unit) (PHYSTOP - 10000) (mkkmem false 0 ∅) = Done tt s' [] ∧ kinv (PHYSTOP - 10000) s' l ∧
  (∀ p, p ∈ l ↔ page_ok (PHYSTOP - 10000) p).
Proof.
  apply (kinit_frees_all_pages (PHYSTOP - 10000) (mkkmem false 0 ∅)); [unfold PHYSTOP, KERNBASE; lia|reflexivity].
Defined.

(** ** Clients

    [kmem] with the pages its clients hold. A client may allocate, free a page
    it holds, and write anywhere in the pages it holds. *)
Inductive kstep (kend : Z) : kmem * list Z → kmem * list Z → Prop :=
| k_alloc s hs r s' t : kalloc (E:=unit) s = Done r s' t → r ≠ 0 → kstep kend (s, hs) (s', r :: hs)
| k_fail s hs s' t : kalloc (E:=unit) s = Done 0 s' t → kstep kend (s, hs) (s', hs)
| k_free s hs p hs' s' t : hs ≡ₚ p :: hs' → kfree (E:=unit) kend p s = Done tt s' t →
    kstep kend (s, hs) (s', hs')
| k_write s hs p a v : p ∈ hs → in_page p a → kstep kend (s, hs) (upd_pm (wr a v) s, hs).

Definition client_inv (kend : Z) (c : kmem * list Z) : Prop :=
  ∃ l, kinv kend c.1 l ∧ l ++ c.2 ≡ₚ all_pages kend.

Lemma client_split kend l hs : 0 < kend ≤ PHYSTOP → l ++ hs ≡ₚ all_pages kend →
  NoDup hs ∧ (∀ p, p ∈ hs → p ∉ l ∧ page_ok kend p).
Proof.
  intros Hk Hp. assert (NoDup (l ++ hs)) as Hnd by (rewrite Hp; apply pages_from_NoDup).
  apply NoDup_app in Hnd as (_ & Hd & Hh). split; [done|]. intros p Hin. split; [naive_solver|].
  apply elem_of_all_pages; [done|]. rewrite <-Hp. apply elem_of_app. by right.
Qed.

Lemma client_inv_step kend c c' : 0 < kend ≤ PHYSTOP → client_inv kend c → kstep kend c c' → client_inv kend c'.
Proof.
  intros Hk (l & Hi & Hp) Hs. destruct Hs as [s hs r s' t Hr Hr0|s hs s' t Hr|s hs p hs' s' t Hh Hr|s hs p a v Hin Ha];
    simpl in *; destruct (client_split _ _ _ Hk Hp) as [Hnd Hheld].
  - destruct l as [|p l]; [rewrite (kalloc_nil _ _ Hi) in Hr; by simplify_eq|].
    destruct (kalloc_cons (E:=unit) _ _ _ _ Hi) as [Hr' Hi']. rewrite Hr in Hr'. simplify_eq.
    exists l. split; [done|]. simpl. rewrite <-Hp. by rewrite <-Permutation_middle.
  - destruct l as [|p l]; [rewrite (kalloc_nil _ _ Hi) in Hr; simplify_eq; by exists []|].
    destruct (kalloc_cons (E:=unit) _ _ _ _ Hi) as [Hr' Hi']. rewrite Hr in Hr'. simplify_eq.
    destruct Hi as [Hke _ _ _ Hpg]. apply Forall_cons in Hpg as [Hok _].
    by destruct (page_ok_u64 _ _ Hke Hok).
  - assert (p ∈ hs) as [Hnin Hok]%Hheld by (rewrite Hh; left).
    destruct (kfree_run (E:=unit) _ _ _ _ Hi Hok Hnin) as [Hr' Hi']. rewrite Hr in Hr'. simplify_eq.
    exists (p :: l). split; [done|]. simpl. rewrite <-Hp, Hh. by rewrite <-Permutation_middle.
  - apply Hheld in Hin as [Hnin [Hok _]]. exists l. split; [|done]. destruct Hi as [? ? Hc ? ?].
    split; try done; simpl. eapply (chain_page _ _ _ _ p [v] a); try done; unfold in_page in *; simpl; lia.
Qed.

(** C27. Safety of the allocator. Start from a free list of all pages and let
    clients allocate, free what they hold and write what they hold, in any
    order. Then no page is held twice; the next [kalloc] does not panic, fails
    only when every page is held, otherwise returns a page nobody holds; and
    freeing a held page does not panic. Neither call changes a byte of a page
    that stays held. *)
Theorem kalloc_safe kend s0 s hs : 0 < kend ≤ PHYSTOP → kinv kend s0 (all_pages kend) →
  rtc (kstep kend) (s0, []) (s, hs) →
  NoDup hs ∧
  (∃ r s', kalloc (E:=unit) s = Done r s' [] ∧ r ∉ hs ∧ (r = 0 ↔ hs ≡ₚ all_pages kend) ∧
           (∀ p x, p ∈ hs → in_page p x → rd (pm s') x = rd (pm s) x)) ∧
  (∀ q, q ∈ hs → ∃ s', kfree (E:=unit) kend q s = Done tt s' [] ∧
     ∀ p x, p ∈ hs → p ≠ q → in_page p x → rd (pm s') x = rd (pm s) x).
Proof.
  intros Hk Hi0 Hr.
  apply (rtc_invariant (client_inv kend)) in Hr as (l & Hi & Hp); simpl in *;
    [|by intros a b; apply client_inv_step|exists (all_pages kend); by rewrite app_nil_r].
  destruct (client_split _ _ _ Hk Hp) as [Hnd Hheld]. split; [done|]. split.
  - destruct l as [|p l].
    + exists 0, s. split; [by eapply kalloc_nil|]. split; [|done].
      intros Hin. apply Hheld in Hin as [_ Hok]. by destruct (page_ok_u64 kend 0 ltac:(lia) Hok).
    + destruct (kalloc_cons (E:=unit) _ _ _ _ Hi) as [Hr' _]. eexists p, _. split; [exact Hr'|].
      assert (p ∉ hs) as Hnin by (intros Hin; apply Hheld in Hin as [Hn _]; by destruct Hn; left).
      destruct Hi as [Hke ? ? ? Hpg]. apply Forall_cons in Hpg as [Hok _].
      split; [done|]. split; [|].
      * split; [intros ->; by destruct (page_ok_u64 _ _ Hke Hok)|].
        intros Hall. rewrite Hall in Hp. apply Permutation_length in Hp. simpl in Hp. rewrite length_app in Hp. lia.
      * intros q x Hq Hx. simpl. rewrite rd_memset by done. rewrite decide_False; [done|].
        intros Hx'. destruct (Hheld q Hq) as [_ Hqok]. by assert (p = q) as -> by (eapply page_sep; done).
  - intros q Hq. destruct (Hheld q Hq) as [Hnin Hok].
    destruct (kfree_run (E:=unit) _ _ _ _ Hi Hok Hnin) as [Hr' _]. eexists. split; [exact Hr'|].
    intros p x Hpin Hne Hx. apply kfree_mem. intros Hx'. apply Hne.
    apply Hheld in Hpin as [_ Hpok]. eapply page_sep; done.
Qed.

(** A free list of the last two pages of memory. *)
Definition two_pages : kmem :=
  mkkmem false (PHYSTOP - 8192) (store64 (PHYSTOP - 8192) (PHYSTOP - 4096) ∅).
Lemma two_pages_inv : kinv (PHYSTOP - 10000) two_pages (all_pages (PHYSTOP - 10000)).
Proof.
  split; [done|done|split; [reflexivity|split; reflexivity]|apply pages_from_NoDup|].
  apply Forall_forall. intros p. by apply elem_of_all_pages.
Qed.

Lemma kalloc_safe_witness : ∃ s hs, hs = [PHYSTOP - 8192] ∧
  (NoDup hs ∧
   (∃ r s', kalloc (E:=unit) s = Done r s' [] ∧ r ∉ hs ∧ (r = 0 ↔ hs ≡ₚ all_pages (PHYSTOP - 10000)) ∧
            (∀ p x, p ∈ hs → in_page p x → rd (pm s') x = rd (pm s) x)) ∧
   (∀ q, q ∈ hs → ∃ s', kfree (E:=unit) (PHYSTOP - 10000) q s = Done tt s' [] ∧
      ∀ p x, p ∈ hs → p ≠ q → in_page p x → rd (pm s') x = rd (pm s) x)).
Proof.
  eexists _, _. split; [reflexivity|].
  apply (kalloc_safe (PHYSTOP - 10000) two_pages).
  - done.
  - exact two_pages_inv.
  - eapply rtc_once, k_alloc; [reflexivity|done].
Defined.
