(* ===== verification/Vm.v ===== *)
(** Page tables and user memory ([vm.c], and the page-table part of
    [proc.c]): the Sv39 radix tree in physical memory, its construction and
    destruction, and the copies between user and kernel memory. *)
From Stdlib Require Import ZArith Lia.
From stdpp Require Import base list gmap strings.
From S2P Require Import Prelude Machine Mem Str Kalloc.

(** ** Operations

    A page table is the physical address of its root page. Kernel buffers
    passed to or filled by the copy routines are byte lists. *)

Definition has (pte flag : Z) : bool := negb (Z.land pte flag =? 0).

Section ops.
Context {E : Type} (kend : Z).
Local Abbreviation K := (M E kmem).

Definition get_pte (a : Z) : K Z := gets (λ s, load64 (pm s) a).
Definition set_pte (a v : Z) : K unit := modify (upd_pm (store64 a v)).
Definition zero_page (pa : Z) : K unit := modify (upd_pm (memset pa 0 PGSIZE)).

(** [walk]'s loop from [level] down to 1; the result is the address of the
    PTE, 0 if there is none. *)
Fixpoint walk_from (level : nat) (pagetable va : Z) (alloc : bool) : K Z :=
  match level with
  | O => ret (pagetable + 8 * PX 0 va)
  | S l' =>
      let pte := pagetable + 8 * PX (Z.of_nat level) va in
      let! v := get_pte pte in
      if has v PTE_V then walk_from l' (PTE2PA v) va alloc
      else if negb alloc then ret 0 else
        let! pt' := kalloc in
        if pt' =? 0 then ret 0 else
        zero_page pt' ;;
        set_pte pte (Z.lor (PA2PTE pt') PTE_V) ;;
        walk_from l' pt' va alloc
  end.
Definition walk (pagetable va : Z) (alloc : bool) : K Z :=
  if MAXVA <=? va then panic "walk" else walk_from 2 pagetable va alloc.

Definition walkaddr (pagetable va : Z) : K Z :=
  if MAXVA <=? va then ret 0 else
  let! pte := walk pagetable va false in
  if pte =? 0 then ret 0 else
  let! v := get_pte pte in
  if negb (has v PTE_V) then ret 0 else
  if negb (has v PTE_U) then ret 0 else
  ret (PTE2PA v).

(** The [for(;;)] loop of [mappages]. *)
Fixpoint mappages_loop (fuel : nat) (pagetable a last pa perm : Z) : K Z :=
  match fuel with
  | O => λ s, Spin s []
  | S f =>
      let! pte := walk pagetable a true in
      if pte =? 0 then ret (-1) else
      let! v := get_pte pte in
      if has v PTE_V then panic "mappages: remap" else
      set_pte pte (Z.lor (Z.lor (PA2PTE pa) perm) PTE_V) ;;
      if a =? last then ret 0 else
      mappages_loop f pagetable (u64 (a + PGSIZE)) last (u64 (pa + PGSIZE)) perm
  end.
Definition mappages (pagetable va size pa perm : Z) : K Z :=
  if negb (va mod PGSIZE =? 0) then panic "mappages: va not aligned" else
  if negb (size mod PGSIZE =? 0) then panic "mappages: size not aligned" else
  if size =? 0 then panic "mappages: size" else
  mappages_loop (Z.to_nat (size / PGSIZE)) pagetable va (u64 (va + size - PGSIZE)) pa perm.

Definition kvmmap (kpgtbl va pa sz perm : Z) : K unit :=
  let! r := mappages kpgtbl va sz pa perm in
  if negb (r =? 0) then panic "kvmmap" else ret tt.

(** [for(a = va; a < va + npages*PGSIZE; a += PGSIZE)] *)
Fixpoint uvmunmap_loop (fuel : nat) (pagetable a lim : Z) (do_free : bool) : K unit :=
  if negb (a <? lim) then ret tt else
  match fuel with
  | O => λ s, Spin s []
  | S f =>
      let! pte := walk pagetable a false in
      if pte =? 0 then panic "uvmunmap: walk" else
      let! v := get_pte pte in
      if negb (has v PTE_V) then panic "uvmunmap: not mapped" else
      if PTE_FLAGS v =? PTE_V then panic "uvmunmap: not a leaf" else
      (if do_free then kfree kend (PTE2PA v) else ret tt) ;;
      set_pte pte 0 ;;
      uvmunmap_loop f pagetable (u64 (a + PGSIZE)) lim do_free
  end.
Definition uvmunmap (pagetable va npages : Z) (do_free : bool) : K unit :=
  if negb (va mod PGSIZE =? 0) then panic "uvmunmap: not aligned" else
  uvmunmap_loop (Z.to_nat npages) pagetable va (u64 (va + npages * PGSIZE)) do_free.

Definition uvmcreate : K Z :=
  let! pagetable := kalloc in
  if pagetable =? 0 then ret 0 else
  zero_page pagetable ;;
  ret pagetable.

Definition uvmfirst (pagetable : Z) (src : list Z) : K unit :=
  if PGSIZE <=? Z.of_nat (length src) then panic "uvmfirst: more than a page" else
  let! mem := kalloc in
  zero_page mem ;;
  let! _ := mappages pagetable 0 PGSIZE mem (Z.lor (Z.lor (Z.lor PTE_W PTE_R) PTE_X) PTE_U) in
  modify (upd_pm (write_bytes mem src)).

Definition uvmdealloc (pagetable oldsz newsz : Z) : K Z :=
  if oldsz <=? newsz then ret oldsz else
  (if PGROUNDUP newsz <? PGROUNDUP oldsz then
     let npages := i32 ((PGROUNDUP oldsz - PGROUNDUP newsz) / PGSIZE) in
     uvmunmap pagetable (PGROUNDUP newsz) (u64 npages) true
   else ret tt) ;;
  ret newsz.

(** [for(a = oldsz; a < newsz; a += PGSIZE)]; [oldsz] is the rounded value. *)
Fixpoint uvmalloc_loop (fuel : nat) (pagetable a oldsz newsz xperm : Z) : K Z :=
  if negb (a <? newsz) then ret newsz else
  match fuel with
  | O => λ s, Spin s []
  | S f =>
      let! mem := kalloc in
      if mem =? 0 then
        let! _ := uvmdealloc pagetable a oldsz in ret 0
      else
        zero_page mem ;;
        let! r := mappages pagetable a PGSIZE mem (Z.lor (Z.lor PTE_R PTE_U) xperm) in
        if negb (r =? 0) then
          kfree kend mem ;;
          let! _ := uvmdealloc pagetable a oldsz in ret 0
        else uvmalloc_loop f pagetable (u64 (a + PGSIZE)) oldsz newsz xperm
  end.
Definition uvmalloc (pagetable oldsz newsz xperm : Z) : K Z :=
  if newsz <? oldsz then ret oldsz else
  let oldsz' := PGROUNDUP oldsz in
  uvmalloc_loop (Z.to_nat ((newsz - oldsz) / PGSIZE + 1)) pagetable oldsz' oldsz' newsz xperm.

(** [freewalk]'s recursion; a page-table tree has three levels. *)
Fixpoint freewalk (depth : nat) (pagetable : Z) : K unit :=
  match depth with
  | O => λ s, Spin s []
  | S d =>
      for_upto 512 (λ i,
        let a := pagetable + 8 * Z.of_nat i in
        let! pte := get_pte a in
        if has pte PTE_V && negb (has pte (Z.lor (Z.lor PTE_R PTE_W) PTE_X)) then
          freewalk d (PTE2PA pte) ;;
          set_pte a 0
        else if has pte PTE_V then panic "freewalk: leaf"
        else ret tt) ;;
      kfree kend pagetable
  end.

Definition uvmfree (pagetable sz : Z) : K unit :=
  (if 0 <? sz then uvmunmap pagetable 0 (PGROUNDUP sz / PGSIZE) true else ret tt) ;;
  freewalk 3 pagetable.

(** [for(i = 0; i < sz; i += PGSIZE)]; the two [goto err]s are [err]. *)
Fixpoint uvmcopy_loop (fuel : nat) (old new i sz : Z) : K Z :=
  let err := uvmunmap new 0 (i / PGSIZE) true ;; ret (-1) in
  if negb (i <? sz) then ret 0 else
  match fuel with
  | O => λ s, Spin s []
  | S f =>
      let! pte := walk old i false in
      if pte =? 0 then panic "uvmcopy: pte should exist" else
      let! v := get_pte pte in
      if negb (has v PTE_V) then panic "uvmcopy: page not present" else
      let pa := PTE2PA v in
      let flags := PTE_FLAGS v in
      let! mem := kalloc in
      if mem =? 0 then err else
      modify (upd_pm (memmove mem pa PGSIZE)) ;;
      let! r := mappages new i PGSIZE mem flags in
      if negb (r =? 0) then
        kfree kend mem ;; err
      else uvmcopy_loop f old new (u64 (i + PGSIZE)) sz
  end.
Definition uvmcopy (old new sz : Z) : K Z :=
  uvmcopy_loop (Z.to_nat ((sz + PGSIZE - 1) / PGSIZE)) old new 0 sz.

Definition uvmclear (pagetable va : Z) : K unit :=
  let! pte := walk pagetable va false in
  if pte =? 0 then panic "uvmclear" else
  let! v := get_pte pte in
  set_pte pte (Z.land v (u64 (Z.lnot PTE_U))).

(** [copyout]: [src] holds the [len] bytes still to copy. *)
Fixpoint copyout_loop (fuel : nat) (pagetable dstva : Z) (src : list Z) : K Z :=
  match src with
  | [] => ret 0
  | _ =>
  match fuel with
  | O => λ s, Spin s []
  | S f =>
      let va0 := PGROUNDDOWN dstva in
      if MAXVA <=? va0 then ret (-1) else
      let! pte := walk pagetable va0 false in
      if pte =? 0 then ret (-1) else
      let! v := get_pte pte in
      if negb (has v PTE_V) || negb (has v PTE_U) || negb (has v PTE_W) then ret (-1) else
      let pa0 := PTE2PA v in
      let n := Z.to_nat (Z.min (PGSIZE - (dstva - va0)) (Z.of_nat (length src))) in
      modify (upd_pm (write_bytes (pa0 + (dstva - va0)) (take n src))) ;;
      copyout_loop f pagetable (u64 (va0 + PGSIZE)) (drop n src)
  end end.
Definition copyout (pagetable dstva : Z) (src : list Z) : K Z :=
  copyout_loop (length src) pagetable dstva src.

(** [copyin]: the bytes stored at [dst], with the return value; on an error
    they are the bytes copied before it. *)
Fixpoint copyin_loop (fuel : nat) (pagetable srcva len : Z) : K (list Z * Z) :=
  if negb (0 <? len) then ret ([], 0) else
  match fuel with
  | O => λ s, Spin s []
  | S f =>
      let va0 := PGROUNDDOWN srcva in
      let! pa0 := walkaddr pagetable va0 in
      if pa0 =? 0 then ret ([], -1) else
      let n := Z.min (PGSIZE - (srcva - va0)) len in
      let! bs := gets (λ s, bytes_at (pm s) (pa0 + (srcva - va0)) (Z.to_nat n)) in
      let! (bs', r) := copyin_loop f pagetable (u64 (va0 + PGSIZE)) (len - n) in
      ret (bs ++ bs', r)
  end.
Definition copyin (pagetable srcva len : Z) : K (list Z * Z) :=
  copyin_loop (Z.to_nat len) pagetable srcva len.

(** The inner loop of [copyinstr]: at most [n] bytes from [p]; whether the NUL
    was found. *)
Fixpoint copystr (m : mem) (n : nat) (p : Z) : list Z * bool :=
  match n with
  | O => ([], false)
  | S n' =>
      if rd m p =? 0 then ([0], true)
      else let '(bs, g) := copystr m n' (p + 1) in (rd m p :: bs, g)
  end.
Fixpoint copyinstr_loop (fuel : nat) (pagetable srcva max : Z) : K (list Z * Z) :=
  if negb (0 <? max) then ret ([], -1) else
  match fuel with
  | O => λ s, Spin s []
  | S f =>
      let va0 := PGROUNDDOWN srcva in
      let! pa0 := walkaddr pagetable va0 in
      if pa0 =? 0 then ret ([], -1) else
      let n := Z.min (PGSIZE - (srcva - va0)) max in
      let! (bs, got_null) := gets (λ s, copystr (pm s) (Z.to_nat n) (pa0 + (srcva - va0))) in
      if (got_null : bool) then ret (bs, 0) else
      let! (bs', r) := copyinstr_loop f pagetable (u64 (va0 + PGSIZE)) (max - n) in
      ret (bs ++ bs', r)
  end.
Definition copyinstr (pagetable srcva max : Z) : K (list Z * Z) :=
  copyinstr_loop (Z.to_nat max) pagetable srcva max.

(** *** The page tables of processes and of the kernel *)

(** The linker symbols [etext] and [trampoline]. *)
Context (etext trampoline : Z).

Definition proc_mapstacks (kpgtbl : Z) : K unit :=
  for_upto NPROC (λ i,
    let! pa := kalloc in
    if pa =? 0 then panic "kalloc" else
    kvmmap kpgtbl (KSTACK (Z.of_nat i)) pa PGSIZE (Z.lor PTE_R PTE_W)).

Definition kvmmake : K Z :=
  let! kpgtbl := kalloc in
  zero_page kpgtbl ;;
  kvmmap kpgtbl UART0 UART0 PGSIZE (Z.lor PTE_R PTE_W) ;;
  kvmmap kpgtbl VIRTIO0 VIRTIO0 PGSIZE (Z.lor PTE_R PTE_W) ;;
  kvmmap kpgtbl PLIC PLIC 67108864 (Z.lor PTE_R PTE_W) ;;
  kvmmap kpgtbl KERNBASE KERNBASE (etext - KERNBASE) (Z.lor PTE_R PTE_X) ;;
  kvmmap kpgtbl etext etext (PHYSTOP - etext) (Z.lor PTE_R PTE_W) ;;
  kvmmap kpgtbl TRAMPOLINE trampoline PGSIZE (Z.lor PTE_R PTE_X) ;;
  proc_mapstacks kpgtbl ;;
  ret kpgtbl.

(** [proc_pagetable(p)]; the argument is [p->trapframe]. *)
Definition proc_pagetable (trapframe : Z) : K Z :=
  let! pagetable := uvmcreate in
  if pagetable =? 0 then ret 0 else
  let! r := mappages pagetable TRAMPOLINE PGSIZE trampoline (Z.lor PTE_R PTE_X) in
  if r <? 0 then uvmfree pagetable 0 ;; ret 0 else
  let! r := mappages pagetable TRAPFRAME PGSIZE trapframe (Z.lor PTE_R PTE_W) in
  if r <? 0 then
    uvmunmap pagetable TRAMPOLINE 1 false ;;
    uvmfree pagetable 0 ;;
    ret 0
  else ret pagetable.

Definition proc_freepagetable (pagetable sz : Z) : K unit :=
  uvmunmap pagetable TRAMPOLINE 1 false ;;
  uvmunmap pagetable TRAPFRAME 1 false ;;
  uvmfree pagetable sz.
End ops.
