(* ===== verification/Pagetable.v ===== *)
(** The page-table tree of [vm.c] as a finite map from tree positions to
    pages: what [walk], [mappages] and [uvmunmap] do to the translation. *)
From Stdlib Require Import ZArith Lia.
From stdpp Require Import base list gmap strings.
From S2P Require Import Prelude Machine Mem Str Kalloc Vm.

#[local] Opaque memset load64 store64.

(** ** Page-table entries *)

(** The entry [mappages] stores for page [pa] with permissions [f]. *)
Definition mkpte (pa f : Z) : Z := Z.lor (Z.lor (PA2PTE pa) f) PTE_V.

Lemma land_mod v g : 0 ≤ g < 1024 → Z.land v g = Z.land (v mod 1024) g.
Proof.
  intros Hg. change 1024 with (2 ^ 10) at 1. rewrite <-Z.land_ones by lia.
  rewrite <-Z.land_assoc. f_equal. rewrite Z.land_comm, Z.land_ones by lia.
  symmetry. apply Z.mod_small. lia.
Qed.

Lemma lor_shift a f : 0 ≤ f < 1024 → Z.lor (a * 1024) f = a * 1024 + f.
Proof.
  intros Hf. assert (Z.land (a * 1024) f = 0) as H0.
  { rewrite land_mod by done. by rewrite Z.mod_mul by lia. }
  rewrite <-Z.lxor_lor by done. symmetry. by apply Z.add_nocarry_lxor.
Qed.

Lemma lor_small f g : 0 ≤ f < 1024 → 0 ≤ g < 1024 → 0 ≤ Z.lor f g < 1024.
Proof.
  intros Hf Hg. split; [apply Z.lor_nonneg; lia|].
  destruct (decide (Z.lor f g = 0)) as [->|Hn]; [lia|].
  apply (Z.log2_lt_pow2 (Z.lor f g) 10); [pose proof (proj2 (Z.lor_nonneg f g)); lia|].
  rewrite Z.log2_lor by lia. apply Z.max_lub_lt.
  - destruct (decide (f = 0)) as [->|]; [simpl; lia|]. apply Z.log2_lt_pow2; lia.
  - destruct (decide (g = 0)) as [->|]; [simpl; lia|]. apply Z.log2_lt_pow2; lia.
Qed.

(** Addresses that fit a page-table entry. *)
Definition pte_page (pa : Z) : Prop := pa mod PGSIZE = 0 ∧ 0 ≤ pa < 2 ^ 50.

Lemma PA2PTE_eq pa : pte_page pa → PA2PTE pa = pa / 4096 * 1024.
Proof.
  intros [_ H]. unfold PA2PTE. rewrite Z.shiftr_div_pow2, Z.shiftl_mul_pow2 by lia.
  change (2 ^ 12) with 4096. change (2 ^ 10) with 1024. change (2 ^ 50) with 1125899906842624 in H.
  apply u64_small. mach_lia.
Qed.

Lemma mkpte_eq pa f : pte_page pa → 0 ≤ f < 1024 → mkpte pa f = pa / 4096 * 1024 + Z.lor f 1.
Proof.
  intros Hp Hf. unfold mkpte. rewrite PA2PTE_eq, <-Z.lor_assoc by done.
  apply lor_shift. apply lor_small; [done|unfold PTE_V; lia].
Qed.

Lemma PTE2PA_eq v : is_u64 v → PTE2PA v = u64 (v / 1024 * 4096).
Proof. intros _. unfold PTE2PA. by rewrite Z.shiftr_div_pow2, Z.shiftl_mul_pow2 by lia. Qed.

Lemma mkpte_u64 pa f : pte_page pa → 0 ≤ f < 1024 → is_u64 (mkpte pa f).
Proof.
  intros Hp Hf. rewrite mkpte_eq by done. pose proof (lor_small f 1 Hf ltac:(lia)).
  destruct Hp as [_ Hp]. change (2 ^ 50) with 1125899906842624 in Hp. mach_lia.
Qed.

Lemma PTE2PA_mkpte pa f : pte_page pa → 0 ≤ f < 1024 → PTE2PA (mkpte pa f) = pa.
Proof.
  intros Hp Hf. rewrite PTE2PA_eq by (by apply mkpte_u64). rewrite mkpte_eq by done.
  pose proof (lor_small f 1 Hf ltac:(lia)). destruct Hp as [Hm Hp]. unfold PGSIZE in Hm.
  change (2 ^ 50) with 1125899906842624 in Hp. mach_lia.
Qed.

Lemma mkpte_flag pa f g : pte_page pa → 0 ≤ f < 1024 → 0 ≤ g < 1024 →
  has (mkpte pa f) g = has (Z.lor f 1) g.
Proof.
  intros Hp Hf Hg. unfold has. rewrite mkpte_eq by done. pose proof (lor_small f 1 Hf ltac:(lia)).
  rewrite land_mod by done. do 3 f_equal. mach_lia.
Qed.

Lemma mkpte_V pa f : pte_page pa → 0 ≤ f < 1024 → has (mkpte pa f) PTE_V = true.
Proof.
  intros Hp Hf. rewrite mkpte_flag by (done || unfold PTE_V; lia). unfold has, PTE_V.
  rewrite Z.land_lor_distr_l. change (Z.land 1 1) with 1.
  destruct (Z.eqb_spec (Z.lor (Z.land f 1) 1) 0) as [H|]; [|done].
  apply Z.lor_eq_0_iff in H. lia.
Qed.

Lemma PTE_FLAGS_mkpte pa f : pte_page pa → 0 ≤ f < 1024 → PTE_FLAGS (mkpte pa f) = Z.lor f 1.
Proof.
  intros Hp Hf. unfold PTE_FLAGS. rewrite mkpte_eq by done. pose proof (lor_small f 1 Hf ltac:(lia)).
  change 1023 with (Z.ones 10). rewrite Z.land_ones by lia. change (2 ^ 10) with 1024. mach_lia.
Qed.

Lemma page_ok_pte kend p : 0 < kend → page_ok kend p → pte_page p.
Proof. unfold page_ok, pte_page, PHYSTOP, KERNBASE. lia. Qed.

(** ** Indices *)

(** The position, among the nodes of level [l], of the node that translates
    [va]. *)
Definition pfx (l : nat) (va : Z) : Z := va / 2 ^ (21 + 9 * Z.of_nat l).

Lemma PX_eq l va : 0 ≤ l → PX l va = (va / 2 ^ (12 + 9 * l)) mod 512.
Proof.
  intros Hl. unfold PX, PXSHIFT, PGSHIFT, PXMASK. rewrite Z.shiftr_div_pow2 by lia.
  change 511 with (Z.ones 9). by rewrite Z.land_ones by lia.
Qed.
Lemma PX_range l va : 0 ≤ l → 0 ≤ PX l va < 512.
Proof. intros. rewrite PX_eq by done. apply Z.mod_pos_bound. lia. Qed.

Lemma pfx_step l va : pfx l va = pfx (S l) va * 512 + PX (Z.of_nat (S l)) va.
Proof.
  unfold pfx. rewrite PX_eq by lia.
  replace (12 + 9 * Z.of_nat (S l)) with (21 + 9 * Z.of_nat l) by lia.
  replace (21 + 9 * Z.of_nat (S l)) with (21 + 9 * Z.of_nat l + 9) by lia.
  rewrite (Z.pow_add_r 2 (21 + 9 * Z.of_nat l) 9) by lia. change (2 ^ 9) with 512.
  set (w := 2 ^ (21 + 9 * Z.of_nat l)). assert (0 < w) by (apply Z.pow_pos_nonneg; lia).
  rewrite <-Z.div_div by lia. pose proof (Z.div_mod (va / w) 512). lia.
Qed.

Lemma pfx_root va : 0 ≤ va < MAXVA → pfx 2 va = 0.
Proof.
  intros H. unfold pfx, MAXVA in *. apply Z.div_small.
  change (Z.shiftl 1 (9 + 9 + 9 + 12 - 1)) with 274877906944 in H.
  change (2 ^ (21 + 9 * Z.of_nat 2)) with 549755813888. lia.
Qed.

Lemma pfx_up l va : pfx (S l) va = pfx l va / 512.
Proof. rewrite (pfx_step l). pose proof (PX_range (Z.of_nat (S l)) va). mach_lia. Qed.

(** ** The tree *)

Abbreviation nodemap := (gmap (nat * Z) Z).

(** [nodes] gives the pages of the page table rooted at [root]: the node of
    level [l] at position [x] is the page [nodes !! (l, x)]. *)
Record pgt (kend : Z) (m : mem) (nodes : nodemap) (root : Z) : Prop := {
  pg_root : nodes !! (2%nat, 0) = Some root;
  pg_inj : ∀ k k' p, nodes !! k = Some p → nodes !! k' = Some p → k = k';
  pg_page : ∀ k p, nodes !! k = Some p → page_ok kend p;
  pg_parent : ∀ l y q, nodes !! (l, y) = Some q →
    (l = 2%nat ∧ y = 0) ∨ ((l < 2)%nat ∧ is_Some (nodes !! (S l, y / 512)));
  pg_child : ∀ l x p i, nodes !! (S l, x) = Some p → 0 ≤ i < 512 →
    load64 m (p + 8 * i) = match nodes !! (l, x * 512 + i) with Some q => mkpte q 0 | None => 0 end
}.

(** The address of the entry that translates [va], 0 if there is none, and
    its value, 0 (invalid) if there is none. *)
Definition leaf_addr (nodes : nodemap) (va : Z) : Z :=
  match nodes !! (0%nat, pfx 0 va) with Some p => p + 8 * PX 0 va | None => 0 end.
Definition leaf (m : mem) (nodes : nodemap) (va : Z) : Z :=
  match nodes !! (0%nat, pfx 0 va) with Some p => load64 m (p + 8 * PX 0 va) | None => 0 end.

(** The pages of the tree. *)
Definition node_pages (nodes : nodemap) : list Z := (map_to_list nodes).*2.

(** The bytes of the tree's pages. *)
Definition in_nodes (nodes : nodemap) (x : Z) : Prop := ∃ k p, nodes !! k = Some p ∧ in_page p x.

Section tree.
Context {E : Type} (kend : Z) (kend_pos : 0 < kend).

Lemma node_pte m nodes root k p : pgt kend m nodes root → nodes !! k = Some p → pte_page p.
Proof. intros H Hk. eapply page_ok_pte; [done|]. by eapply pg_page. Qed.
Lemma node_nonzero m nodes root k p : pgt kend m nodes root → nodes !! k = Some p → 0 < p.
Proof. intros H Hk. apply (pg_page _ _ _ _ H) in Hk as [_ ?]. lia. Qed.

(** A node's ancestors on the path of [va] exist. *)
Lemma node_above m nodes root va l : pgt kend m nodes root → (l < 2)%nat →
  is_Some (nodes !! (l, pfx l va)) → is_Some (nodes !! (S l, pfx (S l) va)).
Proof.
  intros H Hl [q Hq]. destruct (pg_parent _ _ _ _ H _ _ _ Hq) as [[-> _]|[_ Hp]]; [lia|].
  by rewrite pfx_up.
Qed.

Lemma has_0 f : has 0 f = false.
Proof. done. Qed.

Lemma walk_from_false s nodes root va l p : pgt kend (pm s) nodes root → (l ≤ 2)%nat →
  nodes !! (l, pfx l va) = Some p →
  walk_from (E:=E) l p va false s = Done (leaf_addr nodes va) s [].
Proof.
  intros H. revert p. induction l as [|l IH]; intros p Hl Hp.
  - unfold leaf_addr. by rewrite Hp.
  - cbn [walk_from]. unfold get_pte. mrun.
    rewrite (pg_child _ _ _ _ H _ _ _ _ Hp) by (apply PX_range; lia). rewrite <-pfx_step.
    destruct (nodes !! (l, pfx l va)) as [q|] eqn:Hq.
    + rewrite mkpte_V, PTE2PA_mkpte by (lia || by eapply node_pte). apply IH; [lia|done].
    + rewrite has_0. simpl. unfold leaf_addr.
      assert (nodes !! (0%nat, pfx 0 va) = None) as ->; [|done].
      apply eq_None_not_Some. intros H0. apply eq_None_not_Some in Hq. apply Hq.
      destruct l as [|[|l]]; [done| |lia]. eapply node_above; [done|lia|done].
Qed.

Lemma walk_false s nodes root va : pgt kend (pm s) nodes root → 0 ≤ va < MAXVA →
  walk (E:=E) root va false s = Done (leaf_addr nodes va) s [].
Proof.
  intros H Hva. unfold walk. destruct (Z.leb_spec MAXVA va); [lia|].
  eapply walk_from_false; [done|lia|]. rewrite pfx_root by done. apply H.
Qed.

(** ** Adding a node *)

Lemma entry_in_page p i : 0 ≤ i < 512 → p ≤ p + 8 * i ∧ p + 8 * i + 8 ≤ p + PGSIZE.
Proof. unfold PGSIZE. lia. Qed.

(** Entries of distinct nodes, or of one node at distinct indices, are
    distinct. *)
Lemma entry_disjoint p i p' i' : p mod PGSIZE = 0 → p' mod PGSIZE = 0 → 0 ≤ i < 512 → 0 ≤ i' < 512 →
  p ≠ p' ∨ i ≠ i' → p + 8 * i + 8 ≤ p' + 8 * i' ∨ p' + 8 * i' + 8 ≤ p + 8 * i.
Proof. unfold PGSIZE. intros. mach_lia. Qed.

Lemma entry_page_disjoint p i q : p mod PGSIZE = 0 → q mod PGSIZE = 0 → 0 ≤ i < 512 → p ≠ q →
  p + 8 * i + 8 ≤ q ∨ q + PGSIZE ≤ p + 8 * i.
Proof. unfold PGSIZE. intros. mach_lia. Qed.

(** Memory after [walk] has allocated [q] for entry [i] of node [p]. *)
Definition node_mem (p i q : Z) (m : mem) : mem :=
  store64 (p + 8 * i) (mkpte q 0) (memset q 0 PGSIZE (memset q 5 PGSIZE m)).

Lemma node_mem_out p i q m x : ¬ in_page p x → ¬ in_page q x → 0 ≤ i < 512 → rd (node_mem p i q m) x = rd m x.
Proof.
  unfold in_page, PGSIZE. intros Hp Hq Hi. unfold node_mem.
  rewrite rd_store64_ne by lia. by rewrite !rd_memset, !decide_False by (done || unfold PGSIZE; lia).
Qed.

Lemma node_mem_load p i q m a : p mod PGSIZE = 0 → q mod PGSIZE = 0 → 0 ≤ i < 512 → p ≠ q →
  a + 8 ≤ p + 8 * i ∨ p + 8 * i + 8 ≤ a → a + 8 ≤ q ∨ q + PGSIZE ≤ a →
  load64 (node_mem p i q m) a = load64 m a.
Proof.
  intros Hp Hq Hi Hne Ha Hb. unfold node_mem. rewrite load64_store64_ne by lia.
  apply load64_ext. intros x Hx. rewrite !rd_memset, !decide_False by (done || lia). done.
Qed.

Lemma load64_zero m a : (∀ x, a ≤ x < a + 8 → rd m x = 0) → load64 m a = 0.
Proof. intros H. rewrite (load64_ext m ∅) by (intros; rewrite H by lia; done). done. Qed.

Lemma node_mem_new p i q m j : p mod PGSIZE = 0 → q mod PGSIZE = 0 → 0 ≤ i < 512 → p ≠ q → 0 ≤ j < 512 →
  load64 (node_mem p i q m) (q + 8 * j) = 0.
Proof.
  intros Hp Hq Hi Hne Hj. unfold node_mem.
  rewrite load64_store64_ne by (apply entry_disjoint; try done; left; done).
  apply load64_zero. intros x Hx. rewrite rd_memset, decide_True by (unfold PGSIZE; lia). done.
Qed.

Lemma pgt_add m nodes root l x p i q : pgt kend m nodes root → (l < 2)%nat →
  nodes !! (S l, x) = Some p → 0 ≤ i < 512 → nodes !! (l, x * 512 + i) = None →
  page_ok kend q → (∀ k r, nodes !! k = Some r → r ≠ q) →
  pgt kend (node_mem p i q m) (<[(l, x * 512 + i) := q]> nodes) root.
Proof.
  intros H Hl Hp Hi Hn Hq Hfresh.
  pose proof (pg_page _ _ _ _ H _ _ Hp) as [Hpm _]. pose proof Hq as [Hqm _].
  assert (p ≠ q) as Hpq by (by eapply Hfresh). split.
  - rewrite lookup_insert_ne by (intros [= ->]; lia). apply H.
  - intros k k' r. rewrite !lookup_insert. repeat case_decide; subst; intros Hk Hk'; simplify_eq; try done.
    + by destruct (Hfresh _ _ Hk').
    + by destruct (Hfresh _ _ Hk).
    + by eapply H.
  - intros k r. rewrite lookup_insert. case_decide; intros; simplify_eq; [done|by eapply H].
  - intros l' y r. rewrite lookup_insert. case_decide as Hc; intros Hr.
    + injection Hc as <- <-. right. split; [lia|]. rewrite lookup_insert_ne by (intros [=]; lia).
      replace ((x * 512 + i) / 512) with x by mach_lia. eauto.
    + destruct (pg_parent _ _ _ _ H _ _ _ Hr) as [?|[? [p' Hp']]]; [by left|right].
      split; [done|]. rewrite lookup_insert. case_decide; eauto.
  - intros l' x' p' i' Hp' Hi'. rewrite lookup_insert in Hp'. case_decide as Hc; simplify_eq.
    + rewrite node_mem_new by done. rewrite lookup_insert_ne by (intros [=]; lia).
      destruct (nodes !! (l', (x * 512 + i) * 512 + i')) as [r|] eqn:Hr; [|done].
      destruct (pg_parent _ _ _ _ H _ _ _ Hr) as [[? ?]|[_ [p'' Hp'']]]; [lia|].
      replace (((x * 512 + i) * 512 + i') / 512) with (x * 512 + i) in Hp'' by mach_lia. congruence.
    + pose proof (pg_page _ _ _ _ H _ _ Hp') as [Hpm' _].
      assert (p' ≠ q) as Hpq' by (by eapply Hfresh). rewrite (lookup_insert nodes).
      case_decide as Hc'; simplify_eq.
      * assert (x' = x ∧ i' = i) as [-> ->] by lia. simplify_eq. unfold node_mem.
        rewrite load64_store64, u64_small; [done|]. apply mkpte_u64; [by eapply page_ok_pte|lia].
      * rewrite node_mem_load; try done.
        { by apply (pg_child _ _ _ _ H). }
        { apply entry_disjoint; try done. destruct (decide (p' = p)) as [->|]; [|by left]. right.
          intros ->. pose proof (pg_inj _ _ _ _ H _ _ _ Hp Hp'). congruence. }
        { by apply entry_page_disjoint. }
Qed.

(** ** Memory, free list and tree together *)

Record vmst (s : kmem) (nodes : nodemap) (root : Z) (l : list Z) : Prop := {
  vm_kinv : kinv kend s l;
  vm_pgt : pgt kend (pm s) nodes root;
  vm_sep : ∀ k p, nodes !! k = Some p → p ∉ l
}.

(** A tree grown by free pages: pages are conserved, and memory outside the
    tree does not change. *)
Record grown (s : kmem) (nodes : nodemap) (l : list Z) (s' : kmem) (nodes' : nodemap) (l' : list Z) : Prop := {
  gr_sub : nodes ⊆ nodes';
  gr_pages : l' ++ node_pages nodes' ≡ₚ l ++ node_pages nodes;
  gr_free : ∀ p, p ∈ l' → p ∈ l;
  gr_frame : ∀ x, ¬ in_nodes nodes' x → rd (pm s') x = rd (pm s) x
}.

Lemma grown_refl s nodes l : grown s nodes l s nodes l.
Proof. by split. Qed.

Lemma in_nodes_sub nodes nodes' x : nodes ⊆ nodes' → in_nodes nodes x → in_nodes nodes' x.
Proof. intros Hs (k & p & Hk & Hx). exists k, p. split; [|done]. by eapply lookup_weaken. Qed.

Lemma grown_trans s nodes l s' nodes' l' s'' nodes'' l'' :
  grown s nodes l s' nodes' l' → grown s' nodes' l' s'' nodes'' l'' → grown s nodes l s'' nodes'' l''.
Proof.
  intros [Hs Hp Hf Hr] [Hs' Hp' Hf' Hr']. split.
  - by etrans.
  - by rewrite Hp'.
  - auto.
  - intros x Hx. rewrite Hr' by done. apply Hr. intros Hn. apply Hx. by eapply in_nodes_sub.
Qed.

Lemma node_pages_insert k q nodes : nodes !! k = None → node_pages (<[k := q]> nodes) ≡ₚ q :: node_pages nodes.
Proof. intros H. unfold node_pages. by rewrite map_to_list_insert. Qed.

(** One allocation of [walk]. *)
Lemma grow_step s nodes root q l lv x p i : vmst s nodes root (q :: l) → (lv < 2)%nat →
  nodes !! (S lv, x) = Some p → 0 ≤ i < 512 → nodes !! (lv, x * 512 + i) = None →
  let s' := mkkmem false (load64 (pm s) q) (node_mem p i q (pm s)) in
  let nodes' := <[(lv, x * 512 + i) := q]> nodes in
  vmst s' nodes' root l ∧ grown s nodes (q :: l) s' nodes' l ∧
  ∀ va, leaf (pm s') nodes' va = leaf (pm s) nodes va.
Proof.
  intros [Hk Ht Hs] Hl Hp Hi Hn. pose proof (ki_pages _ _ _ Hk) as [Hq _]%Forall_cons.
  pose proof (ki_nodup _ _ _ Hk) as [Hql _]%NoDup_cons.
  assert (∀ k r, nodes !! k = Some r → r ≠ q) as Hfresh by (intros k r Hr ->; eapply Hs; [done|left]).
  pose proof (pg_page _ _ _ _ Ht _ _ Hp) as [Hpm _]. pose proof Hq as [Hqm _].
  destruct (kalloc_cons (E:=E) _ _ _ _ Hk) as [_ [? ? Hc Hnd Hpg]]. split_and!; [split|split|].
  - split; [exact kend_pos|reflexivity| |exact Hnd|exact Hpg]. cbn [pm freelist] in *.
    eapply (chain_store64 _ _ _ _ p); [by eapply chain_memset|done| |done|lia|unfold PGSIZE; lia].
    intros Hin. eapply Hs; [done|by right].
  - by apply pgt_add.
  - intros k r. rewrite lookup_insert. case_decide; intros Hr; [by simplify_eq|].
    intros Hin. eapply Hs; [done|by right].
  - by apply insert_subseteq.
  - rewrite node_pages_insert by done. by rewrite <-Permutation_middle.
  - intros r Hr. by right.
  - intros y Hy. simpl. apply node_mem_out; [| |done].
    + intros Hin. apply Hy. exists (S lv, x), p. split; [|done]. rewrite lookup_insert_ne; [done|]. intros [=]. lia.
    + intros Hin. apply Hy. eexists _, q. split; [apply lookup_insert_eq|done].
  - intros va. unfold leaf. simpl. rewrite lookup_insert. case_decide as Hc'.
    + injection Hc' as -> Hx. rewrite node_mem_new; try done; [|by eapply Hfresh|apply PX_range; lia].
      by rewrite <-Hx, Hn.
    + destruct (nodes !! (0%nat, pfx 0 va)) as [r|] eqn:Hr; [|done].
      pose proof (pg_page _ _ _ _ Ht _ _ Hr) as [Hrm _].
      apply node_mem_load; try done; [by eapply Hfresh| |].
      * apply entry_disjoint; try done; [apply PX_range; lia|]. left. intros ->.
        pose proof (pg_inj _ _ _ _ Ht _ _ _ Hp Hr). congruence.
      * apply entry_page_disjoint; try done; [apply PX_range; lia|by eapply Hfresh].
Qed.

(** The nodes that a walk of [va] from level [lv] down may add. *)
Definition adds (lv : nat) (va : Z) (nodes nodes' : nodemap) : Prop :=
  ∀ k, is_Some (nodes' !! k) → is_Some (nodes !! k) ∨ ∃ i, (i < lv)%nat ∧ k = (i, pfx i va).

Lemma walk_from_true s nodes root l lv p va : vmst s nodes root l → (lv ≤ 2)%nat →
  nodes !! (lv, pfx lv va) = Some p →
  ∃ r s' nodes' l', walk_from (E:=E) lv p va true s = Done r s' [] ∧ vmst s' nodes' root l' ∧
    grown s nodes l s' nodes' l' ∧ (∀ va', leaf (pm s') nodes' va' = leaf (pm s) nodes va') ∧
    (length l ≤ length l' + lv)%nat ∧ adds lv va nodes nodes' ∧
    ((0 < r ∧ r = leaf_addr nodes' va ∧ is_Some (nodes' !! (0%nat, pfx 0 va))) ∨ (r = 0 ∧ l' = [] ∧ (length l < lv)%nat)).
Proof.
  revert s nodes l p. induction lv as [|lv IH]; intros s nodes l p Hv Hl Hp.
  - exists (leaf_addr nodes va), s, nodes, l. unfold leaf_addr. rewrite Hp. split; [done|]. split; [done|].
    split; [apply grown_refl|]. split; [done|]. split; [lia|]. split; [by left|]. left. pose proof (node_nonzero _ _ _ _ _ (vm_pgt _ _ _ _ Hv) Hp).
    pose proof (PX_range 0 va). split; [lia|]. split; [done|]. eauto.
  - cbn [walk_from]. unfold get_pte. mrun.
    rewrite (pg_child _ _ _ _ (vm_pgt _ _ _ _ Hv) _ _ _ _ Hp) by (apply PX_range; lia).
    rewrite <-pfx_step. destruct (nodes !! (lv, pfx lv va)) as [q|] eqn:Hq.
    + pose proof (node_pte _ _ _ _ _ (vm_pgt _ _ _ _ Hv) Hq).
      rewrite mkpte_V, PTE2PA_mkpte by (done || lia).
      destruct (IH s nodes l q Hv ltac:(lia) Hq) as (r & s' & nodes' & l' & Hr & Hv' & Hg & Hlf & Hu & Had & Hres).
      exists r, s', nodes', l'. split_and!; try (done || lia).
      { intros k Hk. destruct (Had k Hk) as [?|(i & ? & ?)]; [by left|right; exists i; split; [lia|done]]. }
      destruct Hres as [?|(? & ? & ?)]; [by left|right; split_and!; (done || lia)].
    + rewrite has_0. simpl. destruct l as [|q l].
      { rewrite (bind_done _ _ _ _ _ (kalloc_nil _ _ (vm_kinv _ _ _ _ Hv))). simpl.
        exists 0, s, nodes, []. split; [done|]. split; [done|]. split; [apply grown_refl|]. split; [done|]. split; [lia|]. split; [by left|]. right. split_and!; [done|done|simpl; lia]. }
      destruct (kalloc_cons (E:=E) _ _ _ _ (vm_kinv _ _ _ _ Hv)) as [Hrun _].
      pose proof (ki_pages _ _ _ (vm_kinv _ _ _ _ Hv)) as [Hok _]%Forall_cons.
      rewrite (bind_done _ _ _ _ _ Hrun).
      destruct (page_ok_u64 _ _ kend_pos Hok) as [_ Hq0]. destruct (Z.eqb_spec q 0); [done|].
      unfold zero_page, set_pte. mrun.
      destruct (grow_step s nodes root q l lv (pfx (S lv) va) p (PX (Z.of_nat (S lv)) va)) as (Hv' & Hg & Hlf);
        [done|lia|done|apply PX_range; lia|by rewrite <-pfx_step|].
      rewrite <-pfx_step in Hv', Hg, Hlf.
      edestruct IH as (r & s' & nodes' & l' & Hr & Hv'' & Hg' & Hlf' & Hu & Had & Hres); [exact Hv'|lia|apply lookup_insert_eq|].
      exists r, s', nodes', l'. split; [|split; [done|split; [by eapply grown_trans|split; [|split; [simpl; lia|split]]]]].
      3: { intros k Hk. destruct (Had k Hk) as [Hk'|(i & ? & ?)]; [|right; exists i; split; [lia|done]].
           rewrite lookup_insert in Hk'. case_decide as Hc; [right; exists lv; split; [lia|done]|by left]. }
      3: { destruct Hres as [?|(? & ? & ?)]; [by left|right; split_and!; (done || simpl; lia)]. }
      2: { intros va'. by rewrite Hlf', Hlf. }
      rewrite <-Hr. unfold node_mem, mkpte. by rewrite Z.lor_0_r.
Qed.

Lemma walk_true s nodes root l va : vmst s nodes root l → 0 ≤ va < MAXVA →
  ∃ r s' nodes' l', walk (E:=E) root va true s = Done r s' [] ∧ vmst s' nodes' root l' ∧
    grown s nodes l s' nodes' l' ∧ (∀ va', leaf (pm s') nodes' va' = leaf (pm s) nodes va') ∧
    (length l ≤ length l' + 2)%nat ∧ adds 2 va nodes nodes' ∧
    ((0 < r ∧ r = leaf_addr nodes' va ∧ is_Some (nodes' !! (0%nat, pfx 0 va))) ∨ (r = 0 ∧ l' = [] ∧ (length l < 2)%nat)).
Proof.
  intros Hv Hva. unfold walk. destruct (Z.leb_spec MAXVA va); [lia|].
  eapply walk_from_true; [done|lia|]. rewrite pfx_root by done. apply Hv.
Qed.

(** ** Changing a translation *)

(** Addresses of one page have one entry. *)
Lemma leaf_index va va' : pfx 0 va = pfx 0 va' ∧ PX 0 va = PX 0 va' ↔ va / PGSIZE = va' / PGSIZE.
Proof.
  rewrite !PX_eq by lia. unfold pfx, PGSIZE. change (2 ^ (21 + 9 * Z.of_nat 0)) with 2097152.
  change (2 ^ (12 + 9 * 0)) with 4096. split.
  - intros [H1 H2]. mach_lia.
  - intros H. split; [mach_lia|by rewrite H].
Qed.

Lemma leaf_page m nodes va va' : va / PGSIZE = va' / PGSIZE → leaf m nodes va = leaf m nodes va'.
Proof. intros [H1 H2]%leaf_index. unfold leaf. by rewrite H1, H2. Qed.

Lemma leaf_load m nodes va : is_Some (nodes !! (0%nat, pfx 0 va)) →
  load64 m (leaf_addr nodes va) = leaf m nodes va.
Proof. intros [p Hp]. unfold leaf_addr, leaf. by rewrite Hp. Qed.

(** Storing the entry that translates [va]. *)
Lemma set_leaf s nodes root l va v : vmst s nodes root l → is_Some (nodes !! (0%nat, pfx 0 va)) → is_u64 v →
  let s' := upd_pm (store64 (leaf_addr nodes va) v) s in
  vmst s' nodes root l ∧ grown s nodes l s' nodes l ∧
  ∀ va', leaf (pm s') nodes va' = if decide (va' / PGSIZE = va / PGSIZE) then v else leaf (pm s) nodes va'.
Proof.
  intros [Hk Ht Hs] [p Hp] Hv. pose proof (PX_range 0 va ltac:(lia)) as Hi.
  assert (leaf_addr nodes va = p + 8 * PX 0 va) as -> by (unfold leaf_addr; by rewrite Hp).
  pose proof (pg_page _ _ _ _ Ht _ _ Hp) as [Hpm _]. split_and!; [split| |].
  - destruct Hk as [? ? Hc ? ?]. split; [done|done| |done|done]. cbn [upd_pm set_pm pm freelist] in *.
    eapply (chain_store64 _ _ _ _ p); [done|done|by eapply Hs|done|lia|unfold PGSIZE; lia].
  - destruct Ht as [? Hinj Hpg ? Hc]. split; try done. intros l' x q i Hq Hi'. cbn [upd_pm set_pm pm].
    pose proof (Hpg _ _ Hq) as [Hqm _].
    rewrite load64_store64_ne by (apply entry_disjoint; try done; left; intros ->;
      pose proof (Hinj _ _ _ Hq Hp); congruence). by apply Hc.
  - done.
  - split; [done|done|done|]. intros x Hx. cbn [upd_pm set_pm pm]. apply rd_store64_ne.
    destruct (decide (in_page p x)) as [Hin|Hin]; [destruct Hx; by exists (0%nat, pfx 0 va), p|].
    unfold in_page, PGSIZE in Hin. lia.
  - intros va'. cbn [upd_pm set_pm pm]. unfold leaf. case_decide as Hc.
    + apply leaf_index in Hc as [-> ->]. rewrite Hp, load64_store64. by apply u64_small.
    + destruct (nodes !! (0%nat, pfx 0 va')) as [q|] eqn:Hq; [|done].
      pose proof (pg_page _ _ _ _ Ht _ _ Hq) as [Hqm _]. apply load64_store64_ne.
      apply entry_disjoint; try done; [apply PX_range; lia|].
      destruct (decide (q = p)) as [->|]; [right|by left]. intros Hx. apply Hc. apply leaf_index.
      split; [|done]. pose proof (pg_inj _ _ _ _ Ht _ _ _ Hq Hp). congruence.
Qed.

(** The translation [as_] with [n] pages from [va] mapped to the pages from
    [pa]. *)
Definition map_range (as_ : Z → Z) (va : Z) (n : nat) (pa perm va' : Z) : Z :=
  let i := va' / PGSIZE - va / PGSIZE in
  if decide (0 ≤ i < Z.of_nat n) then mkpte (pa + i * PGSIZE) perm else as_ va'.

Lemma map_range_S as_ va n pa perm va' : va mod PGSIZE = 0 →
  map_range (λ v, if decide (v / PGSIZE = va / PGSIZE) then mkpte pa perm else as_ v)
    (va + PGSIZE) n (pa + PGSIZE) perm va' = map_range as_ va (S n) pa perm va'.
Proof.
  intros Hva. unfold map_range.
  replace ((va + PGSIZE) / PGSIZE) with (va / PGSIZE + 1) by (unfold PGSIZE in *; mach_lia).
  repeat case_decide; try lia; try done.
  - f_equal. unfold PGSIZE. lia.
  - f_equal. replace (va' / PGSIZE - va / PGSIZE) with 0 by lia. lia.
Qed.

(** What the loop of [mappages] does: it maps all [n] pages, or runs out of
    memory having mapped the first [k]. *)
Lemma mappages_loop_run fuel n s nodes root l a pa perm : vmst s nodes root l →
  (0 < n ≤ fuel)%nat → a mod PGSIZE = 0 → 0 ≤ a → a + Z.of_nat n * PGSIZE ≤ MAXVA →
  pa mod PGSIZE = 0 → 0 ≤ pa → pa + Z.of_nat n * PGSIZE ≤ 2 ^ 50 → 0 ≤ perm < 1024 →
  (∀ i, 0 ≤ i < Z.of_nat n → has (leaf (pm s) nodes (a + i * PGSIZE)) PTE_V = false) →
  ∃ r s' nodes' l' k,
    mappages_loop (E:=E) fuel root a (a + (Z.of_nat n - 1) * PGSIZE) pa perm s = Done r s' [] ∧
    vmst s' nodes' root l' ∧ grown s nodes l s' nodes' l' ∧
    (∀ va', leaf (pm s') nodes' va' = map_range (leaf (pm s) nodes) a k pa perm va') ∧
    (length l ≤ length l' + 2 * n)%nat ∧
    (∀ x, is_Some (nodes' !! x) → is_Some (nodes !! x) ∨ ∃ i lv, 0 ≤ i < Z.of_nat n ∧ (lv < 2)%nat ∧ x = (lv, pfx lv (a + i * PGSIZE))) ∧
    (r = 0 ∧ k = n ∨ r = -1 ∧ (k < n)%nat ∧ l' = [] ∧ (length l < 2 * n)%nat).
Proof.
  revert fuel s nodes l a pa. induction n as [|n IH]; intros fuel s nodes l a pa Hv Hf Ha Ha0 Hmax Hpa Hpa0 Hpm Hperm Hun; [lia|].
  destruct fuel as [|f]; [lia|]. cbn [mappages_loop].
  destruct (walk_true s nodes root l a) as (r & s1 & nodes1 & l1 & Hw & Hv1 & Hg1 & Hlf1 & Hu1 & Had1 & Hr);
    [done|unfold PGSIZE in *; lia|].
  assert (∀ x, is_Some (nodes1 !! x) → is_Some (nodes !! x) ∨ ∃ i lv, 0 ≤ i < Z.of_nat (S n) ∧ (lv < 2)%nat ∧ x = (lv, pfx lv (a + i * PGSIZE))) as Had.
  { intros x Hx. destruct (Had1 x Hx) as [?|(lv & ? & ->)]; [by left|right]. exists 0, lv. split; [lia|]. by rewrite Z.mul_0_l, Z.add_0_r. }
  rewrite (bind_done _ _ _ _ _ Hw).
  destruct Hr as [(Hr & -> & Hn)|(-> & -> & Hl2)].
  2: { simpl. exists (-1), s1, nodes1, [], 0%nat. split; [done|]. split; [done|]. split; [done|]. split.
       - intros va'. rewrite Hlf1. unfold map_range. by rewrite decide_False by lia.
       - split; [simpl in *; lia|]. split; [exact Had|]. right. split_and!; (done || lia). }
  destruct (Z.eqb_spec (leaf_addr nodes1 a) 0); [lia|].
  unfold get_pte, set_pte. mrun. rewrite leaf_load, Hlf1 by done.
  pose proof (Hun 0 ltac:(lia)) as Hun0. rewrite Z.mul_0_l, Z.add_0_r in Hun0. rewrite Hun0. mrun.
  assert (pte_page pa) as Hpp by (split; unfold PGSIZE in *; lia).
  destruct (set_leaf s1 nodes1 root l1 a (mkpte pa perm)) as (Hv2 & Hg2 & Hlf2);
    [done|done|by apply mkpte_u64|].
  change (Z.lor (Z.lor (PA2PTE pa) perm) PTE_V) with (mkpte pa perm).
  destruct (Z.eqb_spec a (a + (Z.of_nat (S n) - 1) * PGSIZE)) as [He|He].
  - assert (n = 0%nat) as -> by (unfold PGSIZE in He; lia).
    eexists 0, _, nodes1, l1, 1%nat. split; [reflexivity|]. split; [done|].
    split; [by eapply grown_trans|]. split; [|split; [lia|split; [exact Had|by left]]]. intros va'. rewrite Hlf2, Hlf1. unfold map_range.
    repeat case_decide; try lia; try done. f_equal.
    replace (va' / PGSIZE - a / PGSIZE) with 0 by lia. lia.
  - assert (0 < n)%nat by (destruct n; [|lia]; unfold PGSIZE in He; lia).
    assert (u64 (a + PGSIZE) = a + PGSIZE) as ->.
    { apply u64_small. unfold MAXVA in Hmax. change (Z.shiftl 1 (9 + 9 + 9 + 12 - 1)) with 274877906944 in Hmax.
      unfold PGSIZE in *. wrap_unfold. lia. }
    assert (u64 (pa + PGSIZE) = pa + PGSIZE) as ->.
    { apply u64_small. change (2 ^ 50) with 1125899906842624 in Hpm. unfold PGSIZE in *. wrap_unfold. lia. }
    replace (a + (Z.of_nat (S n) - 1) * PGSIZE) with (a + PGSIZE + (Z.of_nat n - 1) * PGSIZE) by (unfold PGSIZE; lia).
    edestruct (IH f _ nodes1 l1 (a + PGSIZE) (pa + PGSIZE) Hv2) as (r & s' & nodes' & l' & k & Hrun & Hv' & Hg' & Hlf' & Hu' & Had' & Hres);
      try (unfold PGSIZE in *; (lia || mach_lia)).
    { intros i Hi. rewrite Hlf2, Hlf1, decide_False by (unfold PGSIZE in *; mach_lia).
      replace (a + PGSIZE + i * PGSIZE) with (a + (i + 1) * PGSIZE) by (unfold PGSIZE; lia). apply Hun. lia. }
    exists r, s', nodes', l', (S k). split; [done|]. split; [done|].
    split; [by eapply grown_trans; [|eapply grown_trans]|]. split.
    + intros va'. rewrite Hlf', <-map_range_S by done. unfold map_range. case_decide; [done|].
      by rewrite Hlf2, Hlf1.
    + split; [lia|]. split.
      { intros x Hx. destruct (Had' x Hx) as [Hx'|(i & lv & ? & ? & ->)]; [by apply Had|right]. exists (i + 1), lv.
        split; [lia|]. split; [done|]. do 2 f_equal. unfold PGSIZE. lia. }
      destruct Hres as [[-> ->]|(-> & ? & -> & ?)]; [by left|right; split_and!; (done || lia)].
Qed.

Lemma MAXVA_eq : MAXVA = 274877906944.
Proof. reflexivity. Qed.

Lemma mappages_run n s nodes root l va pa perm : vmst s nodes root l →
  (0 < n)%nat → va mod PGSIZE = 0 → 0 ≤ va → va + Z.of_nat n * PGSIZE ≤ MAXVA →
  pa mod PGSIZE = 0 → 0 ≤ pa → pa + Z.of_nat n * PGSIZE ≤ 2 ^ 50 → 0 ≤ perm < 1024 →
  (∀ i, 0 ≤ i < Z.of_nat n → has (leaf (pm s) nodes (va + i * PGSIZE)) PTE_V = false) →
  ∃ r s' nodes' l' k,
    mappages (E:=E) root va (Z.of_nat n * PGSIZE) pa perm s = Done r s' [] ∧
    vmst s' nodes' root l' ∧ grown s nodes l s' nodes' l' ∧
    (∀ va', leaf (pm s') nodes' va' = map_range (leaf (pm s) nodes) va k pa perm va') ∧
    (∀ x, is_Some (nodes' !! x) → is_Some (nodes !! x) ∨ ∃ i lv, 0 ≤ i < Z.of_nat n ∧ (lv < 2)%nat ∧ x = (lv, pfx lv (va + i * PGSIZE))) ∧
    (r = 0 ∧ k = n ∨ r = -1 ∧ (k < n)%nat ∧ l' = [] ∧ (length l < 2 * n)%nat).
Proof.
  intros Hv Hn Hva Hva0 Hmax Hpa Hpa0 Hpm Hperm Hun.
  destruct (mappages_loop_run n n s nodes root l va pa perm)
    as (r & s' & nodes' & l' & k & Hr & Hv' & Hg & Hl & _ & Had & Hres); try done.
  exists r, s', nodes', l', k. split_and!; try done. unfold mappages.
  rewrite Hva, Z.mod_mul by done. cbn [Z.eqb negb].
  destruct (Z.eqb_spec (Z.of_nat n * PGSIZE) 0); [unfold PGSIZE in *; lia|].
  rewrite Z.div_mul, Nat2Z.id by done. rewrite MAXVA_eq in Hmax.
  rewrite u64_small by (wrap_unfold; unfold PGSIZE in *; lia).
  by replace (va + Z.of_nat n * PGSIZE - PGSIZE) with (va + (Z.of_nat n - 1) * PGSIZE) by lia.
Qed.

(** ** Pages outside the tree *)

Lemma elem_of_node_pages nodes p : p ∈ node_pages nodes ↔ ∃ k, nodes !! k = Some p.
Proof.
  unfold node_pages. rewrite list_elem_of_fmap. split.
  - intros ([k q] & -> & Hin). exists k. by apply elem_of_map_to_list in Hin.
  - intros [k Hk]. exists (k, p). split; [done|]. by apply elem_of_map_to_list.
Qed.

Lemma in_nodes_node_pages nodes x : in_nodes nodes x ↔ ∃ p, p ∈ node_pages nodes ∧ in_page p x.
Proof.
  unfold in_nodes. setoid_rewrite elem_of_node_pages. naive_solver.
Qed.

Lemma leaf_ext kend' m m' nodes root va : pgt kend' m nodes root →
  (∀ x, in_nodes nodes x → rd m' x = rd m x) → leaf m' nodes va = leaf m nodes va.
Proof.
  intros Ht Hx. unfold leaf. destruct (nodes !! (0%nat, pfx 0 va)) as [p|] eqn:Hp; [|done].
  apply load64_ext. intros x Hr. apply Hx. exists (0%nat, pfx 0 va), p. split; [done|].
  pose proof (PX_range 0 va). unfold in_page, PGSIZE. lia.
Qed.

Lemma pgt_ext m m' nodes root : pgt kend m nodes root →
  (∀ x, in_nodes nodes x → rd m' x = rd m x) → pgt kend m' nodes root.
Proof.
  intros [H1 H2 H3 H4 H5] Hx. split; try done. intros l x p i Hp Hi.
  rewrite <-(H5 l x p i Hp Hi). apply load64_ext. intros y Hy. apply Hx.
  exists (S l, x), p. split; [done|]. unfold in_page, PGSIZE. lia.
Qed.

(** Writes outside the tree and the free pages change neither. *)
Lemma vmst_frame s nodes root l m' : vmst s nodes root l →
  (∀ x, in_nodes nodes x ∨ (∃ p, p ∈ l ∧ in_page p x) → rd m' x = rd (pm s) x) →
  vmst (set_pm m' s) nodes root l ∧ ∀ va, leaf m' nodes va = leaf (pm s) nodes va.
Proof.
  intros [[? ? Hc ? ?] Ht Hs] Hx. split; [split; [split|..]|]; try done.
  - cbn [set_pm pm freelist]. eapply chain_ext; [|exact Hc]. intros p x Hp Hr. symmetry. apply Hx. right.
    exists p. split; [done|]. unfold in_page, PGSIZE. lia.
  - eapply pgt_ext; [done|]. intros x Hn. apply Hx. by left.
  - intros va. eapply leaf_ext; [done|]. intros x Hn. apply Hx. by left.
Qed.

(** A page that is neither free nor in the tree. *)
Definition outside (nodes : nodemap) (l : list Z) (d : Z) : Prop :=
  page_ok kend d ∧ d ∉ l ∧ d ∉ node_pages nodes.

Lemma outside_bytes s nodes root l d x : vmst s nodes root l → outside nodes l d → in_page d x →
  ¬ (in_nodes nodes x ∨ (∃ p, p ∈ l ∧ in_page p x)).
Proof.
  intros [Hk Ht _] (Hok & Hl & Hn) Hx [(k & p & Hp & Hx')|(p & Hp & Hx')].
  - apply Hn. apply elem_of_node_pages. exists k.
    by rewrite <-(page_sep kend p d x (pg_page _ _ _ _ Ht _ _ Hp) Hok Hx' Hx).
  - apply Hl. pose proof (ki_pages _ _ _ Hk) as Hps. rewrite Forall_forall in Hps.
    by rewrite <-(page_sep kend p d x (Hps p Hp) Hok Hx' Hx).
Qed.

(** Writing bytes of such a page. *)
Lemma vmst_write s nodes root l d a bs : vmst s nodes root l → outside nodes l d →
  d ≤ a → a + Z.of_nat (length bs) ≤ d + PGSIZE →
  vmst (upd_pm (write_bytes a bs) s) nodes root l ∧
  ∀ va, leaf (write_bytes a bs (pm s)) nodes va = leaf (pm s) nodes va.
Proof.
  intros Hv Ho Ha Hb. apply vmst_frame; [done|]. intros x Hx. apply rd_write_out.
  destruct (decide (in_page d x)) as [Hin|Hin]; [by destruct (outside_bytes _ _ _ _ _ _ Hv Ho Hin)|].
  unfold in_page in Hin. lia.
Qed.

(** Freeing such a page. *)
Lemma vmst_kfree s nodes root l d : vmst s nodes root l → outside nodes l d →
  ∃ s', kfree (E:=E) kend d s = Done tt s' [] ∧ vmst s' nodes root (d :: l) ∧
    (∀ va, leaf (pm s') nodes va = leaf (pm s) nodes va) ∧
    (∀ x, ¬ in_page d x → rd (pm s') x = rd (pm s) x).
Proof.
  intros Hv Ho. pose proof Hv as [Hk Ht Hs]. pose proof Ho as (Hok & Hl & Hn).
  destruct (kfree_run (E:=E) _ _ _ _ Hk Hok Hl) as [Hr Hk']. eexists. split; [exact Hr|].
  assert (∀ x, in_nodes nodes x → rd (store64 d (freelist s) (memset d 1 PGSIZE (pm s))) x = rd (pm s) x) as Hx.
  { intros x Hx. apply kfree_mem. intros Hin. apply (outside_bytes _ _ _ _ _ _ Hv Ho Hin). by left. }
  split; [split; [done| |]|split].
  - by eapply pgt_ext.
  - intros k p Hp [->|Hin]%elem_of_cons; [|by eapply Hs]. apply Hn. apply elem_of_node_pages. eauto.
  - intros va. by eapply leaf_ext.
  - intros x Hd. by apply kfree_mem.
Qed.

(** Allocating a page. *)
Lemma vmst_kalloc s nodes root q l : vmst s nodes root (q :: l) →
  ∃ s', kalloc (E:=E) s = Done q s' [] ∧ vmst s' nodes root l ∧ outside nodes l q ∧ q ≠ 0 ∧
    (∀ va, leaf (pm s') nodes va = leaf (pm s) nodes va) ∧
    (∀ x, ¬ in_page q x → rd (pm s') x = rd (pm s) x).
Proof.
  intros Hv. pose proof Hv as [Hk Ht Hs].
  destruct (kalloc_cons (E:=E) _ _ _ _ Hk) as [Hr Hk']. eexists. split; [exact Hr|].
  pose proof (ki_pages _ _ _ Hk) as [Hok _]%Forall_cons. pose proof (ki_nodup _ _ _ Hk) as [Hql _]%NoDup_cons.
  assert (q ∉ node_pages nodes) as Hn by (intros [k Hq]%elem_of_node_pages; eapply Hs; [done|left]).
  assert (∀ x, ¬ in_page q x → rd (memset q 5 PGSIZE (pm s)) x = rd (pm s) x) as Hx.
  { intros x Hx. rewrite rd_memset by done. by rewrite decide_False. }
  assert (∀ x, in_nodes nodes x → rd (memset q 5 PGSIZE (pm s)) x = rd (pm s) x) as Hx'.
  { intros x (k & p & Hp & Hin). apply Hx. intros Hq. apply Hn. apply elem_of_node_pages. exists k.
    by rewrite (page_sep kend q p x Hok (pg_page _ _ _ _ Ht _ _ Hp) Hq Hin). }
  split; [split; [done| |]|split_and!].
  - by eapply pgt_ext.
  - intros k p Hp Hin. eapply Hs; [done|by right].
  - done.
  - by eapply page_ok_u64.
  - intros va. by eapply leaf_ext.
  - done.
Qed.
End tree.
