(* ===== verification/Uvm.v ===== *)
(** User address spaces: what [uvmunmap], [uvmdealloc], [uvmalloc],
    [uvmcopy], [uvmfree] and the copy routines of [vm.c] do to the pages a
    page table maps. *)
From Stdlib Require Import ZArith Lia.
From stdpp Require Import base list gmap strings.
From S2P Require Import Prelude Machine Mem Str Kalloc Vm Pagetable.

#[local] Opaque memset load64 store64.

(** A user page: its physical page and its permissions. *)
Abbreviation upage := (Z * Z)%type.

Section uvm.
Context {E : Type} (kend : Z) (kend_pos : 0 < kend).

Lemma leaf_some m nodes va : leaf m nodes va ≠ 0 → is_Some (nodes !! (0%nat, pfx 0 va)).
Proof. unfold leaf. destruct (nodes !! (0%nat, pfx 0 va)); [eauto|done]. Qed.

Lemma leaf_addr_pos m nodes root va : pgt kend m nodes root → is_Some (nodes !! (0%nat, pfx 0 va)) →
  leaf_addr nodes va =? 0 = false.
Proof.
  intros Ht [p Hp]. unfold leaf_addr. rewrite Hp. pose proof (node_nonzero kend kend_pos _ _ _ _ _ Ht Hp).
  pose proof (PX_range 0 va). apply Z.eqb_neq. lia.
Qed.

Lemma mkpte_nonzero pa f : pte_page pa → 0 ≤ f < 1024 → mkpte pa f ≠ 0.
Proof. intros Hp Hf H. pose proof (mkpte_V pa f Hp Hf) as Hv. by rewrite H in Hv. Qed.

(** Reading the entry that translates [va]. *)
Lemma bind_get_leaf {A} s nodes va d f (k : Z → M E kmem A) :
  leaf (pm s) nodes va = mkpte d f → pte_page d → 0 ≤ f < 1024 →
  bind (get_pte (leaf_addr nodes va)) k s = k (mkpte d f) s.
Proof.
  intros Hl Hd Hf. unfold get_pte. mrun. rewrite leaf_load; [by rewrite Hl|].
  apply (leaf_some (pm s)). rewrite Hl. by apply mkpte_nonzero.
Qed.

(** ** User pages *)

Definition flags_ok (f : Z) : Prop := 0 ≤ f < 1024 ∧ Z.lor f 1 ≠ 1.

(** The pages [ds] are mapped consecutively from [a], and are neither free nor
    page-table pages. *)
Record mapped (s : kmem) (nodes : nodemap) (l : list Z) (a : Z) (ds : list upage) : Prop := {
  mp_leaf : ∀ (i : nat) d f, ds !! i = Some (d, f) →
    leaf (pm s) nodes (a + Z.of_nat i * PGSIZE) = mkpte d f;
  mp_flags : ∀ d f, (d, f) ∈ ds → flags_ok f;
  mp_out : ∀ d, d ∈ ds.*1 → outside kend nodes l d;
  mp_nodup : NoDup ds.*1
}.

Lemma mapped_cons s nodes l a d f ds : mapped s nodes l a ((d, f) :: ds) →
  leaf (pm s) nodes a = mkpte d f ∧ flags_ok f ∧ outside kend nodes l d ∧ d ∉ ds.*1 ∧
  mapped s nodes l (a + PGSIZE) ds.
Proof.
  intros [Hl Hf Ho Hn]. simpl in *. apply NoDup_cons in Hn as [Hd Hn].
  split_and!; [|eapply Hf; left|apply Ho; left|done|split].
  - rewrite <-(Hl 0%nat d f) by done. f_equal. lia.
  - intros i d' f' Hi. rewrite <-(Hl (S i) d' f') by done. f_equal. lia.
  - intros d' f' Hin. eapply Hf. by right.
  - intros d' Hin. apply Ho. by right.
  - done.
Qed.

Lemma outside_pte nodes l d : outside kend nodes l d → pte_page d.
Proof. intros [H _]. by eapply page_ok_pte. Qed.

(** The translation without [n] pages from [va]. *)
Definition unmap_range (as_ : Z → Z) (va : Z) (n : nat) (va' : Z) : Z :=
  let i := va' / PGSIZE - va / PGSIZE in
  if decide (0 ≤ i < Z.of_nat n) then 0 else as_ va'.

Lemma unmap_range_S as_ va n va' : va mod PGSIZE = 0 →
  unmap_range (λ v, if decide (v / PGSIZE = va / PGSIZE) then 0 else as_ v) (va + PGSIZE) n va' =
  unmap_range as_ va (S n) va'.
Proof.
  intros Hva. unfold unmap_range.
  replace ((va + PGSIZE) / PGSIZE) with (va / PGSIZE + 1) by (unfold PGSIZE in *; mach_lia).
  repeat case_decide; try lia; done.
Qed.

Lemma MAXVA_small x : x ≤ MAXVA → x < 18446744073709551616.
Proof. unfold MAXVA. change (Z.shiftl 1 (9 + 9 + 9 + 12 - 1)) with 274877906944. lia. Qed.

(** [uvmunmap] with [do_free]: the pages go back to the free list. *)
Lemma uvmunmap_loop_run fuel s nodes root l a ds : vmst kend s nodes root l → mapped s nodes l a ds →
  (length ds ≤ fuel)%nat → a mod PGSIZE = 0 → 0 ≤ a → a + Z.of_nat (length ds) * PGSIZE ≤ MAXVA →
  ∃ s', uvmunmap_loop (E:=E) kend fuel root a (a + Z.of_nat (length ds) * PGSIZE) true s = Done tt s' [] ∧
    vmst kend s' nodes root (reverse ds.*1 ++ l) ∧
    (∀ va', leaf (pm s') nodes va' = unmap_range (leaf (pm s) nodes) a (length ds) va') ∧
    (∀ x, ¬ in_nodes nodes x → (∀ d, d ∈ ds.*1 → ¬ in_page d x) → rd (pm s') x = rd (pm s) x).
Proof.
  revert fuel s l a. induction ds as [|[d f] ds IH]; intros fuel s l a Hv Hm Hf Ha Ha0 Hmax.
  - exists s. split; [|split; [done|split; [|done]]].
    + destruct fuel; simpl; rewrite Z.add_0_r; destruct (Z.ltb_spec a a); (lia || done).
    + intros va'. unfold unmap_range. by rewrite decide_False by (simpl; lia).
  - apply mapped_cons in Hm as (Hl & [Hfl Hf1] & Ho & Hd & Hm). cbn [length] in *.
    destruct fuel as [|fuel]; [lia|]. cbn [uvmunmap_loop].
    destruct (Z.ltb_spec a (a + Z.of_nat (S (length ds)) * PGSIZE)); [|unfold PGSIZE in *; lia]. cbn [negb].
    pose proof (outside_pte _ _ _ Ho) as Hpd.
    rewrite (bind_done _ _ _ _ _ (walk_false kend kend_pos s nodes root a (vm_pgt _ _ _ _ _ Hv)
              ltac:(unfold PGSIZE in *; lia))).
    assert (is_Some (nodes !! (0%nat, pfx 0 a))) as Hsome
      by (apply (leaf_some (pm s)); rewrite Hl; by apply mkpte_nonzero).
    rewrite (leaf_addr_pos (pm s) nodes root) by (done || apply Hv).
    rewrite (bind_get_leaf s nodes a d f) by done.
    rewrite mkpte_V, PTE_FLAGS_mkpte, PTE2PA_mkpte by done. cbn [negb].
    destruct (Z.eqb_spec (Z.lor f 1) PTE_V); [done|].
    destruct (vmst_kfree (E:=E) kend s nodes root l d Hv Ho) as (s1 & Hr1 & Hv1 & Hl1 & Hx1).
    rewrite (bind_done _ _ _ _ _ Hr1). unfold set_pte. mrun.
    destruct (set_leaf kend s1 nodes root (d :: l) a 0) as (Hv2 & Hg2 & Hl2); [done|done|wrap_unfold; lia|].
    assert (u64 (a + PGSIZE) = a + PGSIZE) as ->.
    { apply u64_small. split; [unfold PGSIZE; lia|]. apply MAXVA_small. unfold PGSIZE in *. lia. }
    replace (a + Z.of_nat (S (length ds)) * PGSIZE) with (a + PGSIZE + Z.of_nat (length ds) * PGSIZE)
      by (unfold PGSIZE; lia).
    destruct (IH fuel _ (d :: l) (a + PGSIZE) Hv2) as (s' & Hr' & Hv' & Hl' & Hx').
    + destruct Hm as [Hml Hmf Hmo Hmn]. split; [|done| |done].
      * intros i d' f' Hi. rewrite Hl2, Hl1, decide_False by (unfold PGSIZE in *; mach_lia). by apply Hml.
      * intros d' Hd'. destruct (Hmo d' Hd') as (Hok & Hnl & Hnn). split_and!; [done| |done].
        intros [->|?]%elem_of_cons; done.
    + lia.
    + unfold PGSIZE in *. mach_lia.
    + unfold PGSIZE. lia.
    + unfold PGSIZE in *. lia.
    + exists s'. split; [done|]. split; [by rewrite fmap_cons, reverse_cons, <-app_assoc|]. split.
      * intros va'. rewrite Hl', <-unmap_range_S by done. unfold unmap_range. case_decide; [done|].
        by rewrite Hl2, Hl1.
      * intros x Hn Hds. rewrite Hx'; [|done|intros d' Hd'; apply Hds; by right].
        rewrite (gr_frame _ _ _ _ _ _ Hg2) by done. apply Hx1. apply Hds. left.
Qed.

(** ** Address spaces *)

(** The user pages of a process: [ds] mapped from address 0, nothing between
    them and the trapframe. *)
Record uspace (s : kmem) (nodes : nodemap) (root : Z) (l : list Z) (ds : list upage) : Prop := {
  us_vm : vmst kend s nodes root l;
  us_map : mapped s nodes l 0 ds;
  us_top : Z.of_nat (length ds) * PGSIZE ≤ TRAPFRAME;
  us_rest : ∀ va, Z.of_nat (length ds) * PGSIZE ≤ va < TRAPFRAME → leaf (pm s) nodes va = 0
}.

Lemma TRAPFRAME_eq : TRAPFRAME = 274877898752.
Proof. reflexivity. Qed.

Lemma mapped_drop s nodes l a ds k : mapped s nodes l a ds →
  mapped s nodes l (a + Z.of_nat k * PGSIZE) (drop k ds).
Proof.
  intros [Hl Hf Ho Hn]. split.
  - intros i d f Hi. rewrite lookup_drop in Hi. rewrite <-(Hl _ _ _ Hi). f_equal. lia.
  - intros d f Hin. apply (Hf d f). rewrite <-(take_drop k ds). apply elem_of_app. by right.
  - intros d Hin. apply Ho. rewrite <-(take_drop k ds), fmap_app. apply elem_of_app. by right.
  - rewrite <-(take_drop k ds), fmap_app in Hn. by apply NoDup_app in Hn as (_ & _ & Hn).
Qed.

(** Address spaces that agree on what is mapped. *)
Lemma mapped_weaken s nodes l a ds s' nodes' l' : mapped s nodes l a ds →
  (∀ i d f, ds !! i = Some (d, f) →
     leaf (pm s') nodes' (a + Z.of_nat i * PGSIZE) = leaf (pm s) nodes (a + Z.of_nat i * PGSIZE)) →
  (∀ d, d ∈ ds.*1 → outside kend nodes l d → outside kend nodes' l' d) →
  mapped s' nodes' l' a ds.
Proof.
  intros [Hl Hf Ho Hn] Hl' Ho'. split; [|done| |done].
  - intros i d f Hi. rewrite (Hl' i d f Hi). by apply Hl.
  - intros d Hd. apply Ho'; [done|by apply Ho].
Qed.

Lemma outside_grown s nodes l s' nodes' l' d : grown s nodes l s' nodes' l' →
  outside kend nodes l d → outside kend nodes' l' d.
Proof.
  intros Hg (Hok & Hl & Hn). assert (d ∉ l' ++ node_pages nodes') as Hd.
  { rewrite (gr_pages _ _ _ _ _ _ Hg). rewrite elem_of_app. tauto. }
  rewrite elem_of_app in Hd. split_and!; tauto.
Qed.

Lemma outside_not_nodes m nodes root l d x : pgt kend m nodes root → outside kend nodes l d →
  in_page d x → ¬ in_nodes nodes x.
Proof.
  intros Ht (Hok & _ & Hn) Hx (k & p & Hp & Hx'). apply Hn. apply elem_of_node_pages. exists k.
  by rewrite <-(page_sep kend p d x (pg_page _ _ _ _ Ht _ _ Hp) Hok Hx' Hx).
Qed.

(** A grown tree leaves the bytes of other pages alone. *)
Lemma grown_bytes s nodes l s' nodes' root l' d x : grown s nodes l s' nodes' l' →
  vmst kend s' nodes' root l' → outside kend nodes l d → in_page d x → rd (pm s') x = rd (pm s) x.
Proof.
  intros Hg Hv Ho Hx. apply (gr_frame _ _ _ _ _ _ Hg).
  eapply outside_not_nodes; [apply Hv|by eapply outside_grown|done].
Qed.

Lemma mapped_out s nodes l a ds d : mapped s nodes l a ds → d ∈ ds.*1 → outside kend nodes l d.
Proof. intros [_ _ Ho _]. apply Ho. Qed.

Lemma unmap_drop_leaf as_ (k n : nat) va : Z.of_nat k * PGSIZE ≤ va → va / PGSIZE < Z.of_nat n →
  unmap_range as_ (Z.of_nat k * PGSIZE) (n - k) va = 0.
Proof.
  intros H1 H2. unfold unmap_range. rewrite Z.div_mul by done.
  rewrite decide_True; [done|]. unfold PGSIZE in *. mach_lia.
Qed.
Lemma unmap_keep_leaf as_ (k n : nat) va : va / PGSIZE < Z.of_nat k ∨ Z.of_nat n ≤ va / PGSIZE →
  unmap_range as_ (Z.of_nat k * PGSIZE) (n - k) va = as_ va.
Proof.
  intros H1. unfold unmap_range. rewrite Z.div_mul by done.
  rewrite decide_False; [done|]. lia.
Qed.

(** Unmapping the pages from the [k]th on. *)
Lemma uvmunmap_tail s nodes root l ds k : uspace s nodes root l ds → (k ≤ length ds)%nat →
  ∃ s', uvmunmap (E:=E) kend root (Z.of_nat k * PGSIZE) (Z.of_nat (length ds - k)) true s = Done tt s' [] ∧
    uspace s' nodes root (reverse (drop k ds).*1 ++ l) (take k ds) ∧
    (∀ va, TRAPFRAME ≤ va → leaf (pm s') nodes va = leaf (pm s) nodes va) ∧
    (∀ x, ¬ in_nodes nodes x → (∀ d, d ∈ (drop k ds).*1 → ¬ in_page d x) → rd (pm s') x = rd (pm s) x).
Proof.
  intros [Hv Hm Htop Hrest] Hk. unfold uvmunmap.
  assert ((Z.of_nat k * PGSIZE) mod PGSIZE = 0) as Hmod by (by apply Z.mod_mul).
  rewrite Hmod. simpl. pose proof TRAPFRAME_eq as Htf. pose proof MAXVA_eq as Hmv.
  pose proof (mapped_drop _ _ _ _ _ k Hm) as Hmd. rewrite Z.add_0_l in Hmd.
  destruct (uvmunmap_loop_run (Z.to_nat (Z.of_nat (length ds - k))) s nodes root l _ _ Hv Hmd)
    as (s' & Hr & Hv' & Hl' & Hx'); try done.
  { rewrite length_drop. lia. } { unfold PGSIZE. lia. } { rewrite length_drop. unfold PGSIZE in *. lia. }
  rewrite length_drop in Hr, Hl'.
  exists s'. rewrite u64_small by (wrap_unfold; unfold PGSIZE in *; lia).
  split; [done|]. split; [split; [done| | |]|split; [|done]].
  - destruct Hm as [Hml Hmf Hmo Hmn]. rewrite <-(take_drop k ds), fmap_app in Hmn.
    apply NoDup_app in Hmn as (Hn1 & Hn2 & _). split.
    + intros i d f Hi. pose proof (lookup_lt_Some _ _ _ Hi) as Hlt. rewrite length_take in Hlt.
      rewrite lookup_take_lt in Hi by lia. rewrite Hl', unmap_keep_leaf; [by apply Hml|].
      unfold PGSIZE. mach_lia.
    + intros d f Hin. apply (Hmf d f). rewrite <-(take_drop k ds). apply elem_of_app. by left.
    + intros d Hd. destruct (Hmo d) as (Hok & Hnl & Hnn).
      { rewrite <-(take_drop k ds), fmap_app. apply elem_of_app. by left. }
      split_and!; [done| |done]. rewrite elem_of_app, elem_of_reverse. intros [?|?]; [|done].
      by eapply Hn2.
    + done.
  - rewrite length_take. unfold PGSIZE in *. lia.
  - intros va Hva. rewrite length_take in Hva. rewrite Hl'.
    destruct (decide (va / PGSIZE < Z.of_nat (length ds))).
    + apply unmap_drop_leaf; [unfold PGSIZE in *; lia|done].
    + rewrite unmap_keep_leaf by lia. apply Hrest. unfold PGSIZE in *. mach_lia.
  - intros va Hva. rewrite Hl'. apply unmap_keep_leaf. unfold PGSIZE in *. mach_lia.
Qed.

(** The number of pages that hold [sz] bytes. *)
Definition npages (sz : Z) : nat := Z.to_nat ((sz + 4095) / PGSIZE).

Lemma PGROUNDUP_npages sz : 0 ≤ sz ≤ TRAPFRAME → PGROUNDUP sz = Z.of_nat (npages sz) * PGSIZE.
Proof.
  rewrite TRAPFRAME_eq. intros H. rewrite PGROUNDUP_div by lia. unfold npages.
  rewrite Z2Nat.id; [done|]. unfold PGSIZE. mach_lia.
Qed.
Lemma npages_mono a b : 0 ≤ a ≤ b → (npages a ≤ npages b)%nat.
Proof. intros H. unfold npages. apply Z2Nat.inj_le; unfold PGSIZE; mach_lia. Qed.

Lemma uvmdealloc_run s nodes root l ds oldsz newsz : uspace s nodes root l ds →
  0 ≤ newsz ≤ oldsz → oldsz ≤ TRAPFRAME → length ds = npages oldsz →
  let k := npages newsz in
  ∃ s', uvmdealloc (E:=E) kend root oldsz newsz s = Done newsz s' [] ∧
    uspace s' nodes root (reverse (drop k ds).*1 ++ l) (take k ds) ∧
    (∀ va, TRAPFRAME ≤ va → leaf (pm s') nodes va = leaf (pm s) nodes va) ∧
    (∀ x, ¬ in_nodes nodes x → (∀ d, d ∈ (drop k ds).*1 → ¬ in_page d x) → rd (pm s') x = rd (pm s) x).
Proof.
  intros Hu Hsz Htop Hlen k. pose proof (npages_mono newsz oldsz ltac:(lia)) as Hk. fold k in Hk.
  unfold uvmdealloc. rewrite !PGROUNDUP_npages by lia. fold k.
  destruct (decide (k < length ds)%nat) as [Hlt|Hge].
  - destruct (Z.leb_spec oldsz newsz) as [Hle|_].
    { assert (newsz = oldsz) by lia. unfold k in Hlt. subst. lia. }
    destruct (Z.ltb_spec (Z.of_nat k * PGSIZE) (Z.of_nat (npages oldsz) * PGSIZE)); [|unfold PGSIZE in *; lia].
    rewrite TRAPFRAME_eq in Htop.
    assert (u64 (i32 ((Z.of_nat (npages oldsz) * PGSIZE - Z.of_nat k * PGSIZE) / PGSIZE)) =
      Z.of_nat (length ds - k)) as ->.
    { rewrite <-Hlen. pose proof (us_top _ _ _ _ _ Hu) as Ht. rewrite TRAPFRAME_eq in Ht. unfold PGSIZE in *.
      replace ((Z.of_nat (length ds) * 4096 - Z.of_nat k * 4096) / 4096) with (Z.of_nat (length ds - k)) by mach_lia.
      rewrite i32_small, u64_small by (wrap_unfold; lia). done. }
    destruct (uvmunmap_tail s nodes root l ds k Hu) as (s' & Hr & Hrest); [lia|].
    exists s'. split; [|done]. rewrite (bind_done _ _ _ _ _ Hr). done.
  - assert (k = length ds) as Hke by lia. rewrite Hke, drop_ge, take_ge by done. simpl.
    exists s. split; [|done]. destruct (Z.leb_spec oldsz newsz); [by assert (newsz = oldsz) as -> by lia|].
    rewrite Hlen. destruct (Z.ltb_spec (Z.of_nat (npages oldsz) * PGSIZE) (Z.of_nat (npages oldsz) * PGSIZE)); [lia|done].
Qed.

(** *** Growing *)

Lemma mappages_one s nodes root l a pa perm : vmst kend s nodes root l →
  a mod PGSIZE = 0 → 0 ≤ a ≤ MAXVA - PGSIZE → pte_page pa → 0 ≤ perm < 1024 →
  leaf (pm s) nodes a = 0 →
  ∃ r s' nodes' l', mappages (E:=E) root a PGSIZE pa perm s = Done r s' [] ∧
    vmst kend s' nodes' root l' ∧ grown s nodes l s' nodes' l' ∧ (length l ≤ length l' + 2)%nat ∧
    (r = 0 ∧ (∀ va, leaf (pm s') nodes' va =
        if decide (va / PGSIZE = a / PGSIZE) then mkpte pa perm else leaf (pm s) nodes va) ∨
     r = -1 ∧ l' = [] ∧ (length l < 2)%nat ∧ ∀ va, leaf (pm s') nodes' va = leaf (pm s) nodes va).
Proof.
  intros Hv Ha Ha0 [Hpa Hpa0] Hperm Hl. change (2 ^ 50) with 1125899906842624 in Hpa0. rewrite MAXVA_eq in Ha0.
  destruct (mappages_loop_run (E:=E) kend kend_pos 1 1 s nodes root l a pa perm)
    as (r & s' & nodes' & l' & k & Hr & Hv' & Hg & Hlf & Hu & _ & Hres); try done;
    try (rewrite ?MAXVA_eq; unfold PGSIZE in *; lia).
  { change (2 ^ 50) with 1125899906842624. unfold PGSIZE in *. mach_lia. }
  { intros i Hi. assert (i = 0) as -> by lia. by rewrite Z.mul_0_l, Z.add_0_r, Hl. }
  exists r, s', nodes', l'. split_and!; [|done|done|lia|].
  - unfold mappages. rewrite Ha. rewrite u64_small by (wrap_unfold; unfold PGSIZE in *; lia).
    replace (a + PGSIZE - PGSIZE) with (a + (Z.of_nat 1 - 1) * PGSIZE) by lia. exact Hr.
  - destruct Hres as [[-> ->]|(-> & ? & -> & ?)].
    + left. split; [done|]. intros va. rewrite Hlf. unfold map_range.
      repeat case_decide; try lia; try done. f_equal. replace (va / PGSIZE - a / PGSIZE) with 0 by lia. lia.
    + right. assert (k = 0%nat) as -> by lia. split; [done|]. split; [done|]. split; [lia|]. intros va. rewrite Hlf. unfold map_range.
      by rewrite decide_False by lia.
Qed.

(** *** The steps of growing an address space *)

Lemma uspace_frame s nodes root l ds m' : uspace s nodes root l ds →
  (∀ x, in_nodes nodes x ∨ (∃ p, p ∈ l ∧ in_page p x) → rd m' x = rd (pm s) x) →
  uspace (set_pm m' s) nodes root l ds ∧ ∀ va, leaf m' nodes va = leaf (pm s) nodes va.
Proof.
  intros [Hv Hm Ht Hr] Hx. destruct (vmst_frame kend _ _ _ _ _ Hv Hx) as [Hv' Hl']. split; [|done].
  split; [done| |done|].
  - eapply mapped_weaken; [done| |done]. intros. by rewrite Hl'.
  - intros va Hva. rewrite Hl'. by apply Hr.
Qed.

Lemma uspace_write s nodes root l ds q a bs : uspace s nodes root l ds → outside kend nodes l q →
  q ≤ a → a + Z.of_nat (length bs) ≤ q + PGSIZE →
  uspace (upd_pm (write_bytes a bs) s) nodes root l ds ∧
  ∀ va, leaf (write_bytes a bs (pm s)) nodes va = leaf (pm s) nodes va.
Proof.
  intros Hu Ho Ha Hb. apply uspace_frame; [done|]. intros x Hx. apply rd_write_out.
  destruct (decide (in_page q x)) as [Hin|Hin].
  - by destruct (outside_bytes kend _ _ _ _ _ _ (us_vm _ _ _ _ _ Hu) Ho Hin).
  - unfold in_page in Hin. lia.
Qed.

Lemma uspace_kalloc s nodes root q l ds : uspace s nodes root (q :: l) ds →
  ∃ s', kalloc (E:=E) s = Done q s' [] ∧ uspace s' nodes root l ds ∧ outside kend nodes l q ∧
    q ∉ ds.*1 ∧ q ≠ 0 ∧ (∀ va, leaf (pm s') nodes va = leaf (pm s) nodes va) ∧
    (∀ x, ¬ in_page q x → rd (pm s') x = rd (pm s) x).
Proof.
  intros [Hv Hm Ht Hr]. destruct (vmst_kalloc (E:=E) kend kend_pos _ _ _ _ _ Hv)
    as (s' & Hrun & Hv' & Ho & Hq0 & Hl & Hx).
  exists s'. split_and!; try done.
  - split; [done| |done|].
    + eapply mapped_weaken; [done| |]; [intros; by rewrite Hl|].
      intros d _ (Hok & Hd & Hn). split_and!; [done| |done]. intros Hin. apply Hd. by right.
    + intros va Hva. rewrite Hl. by apply Hr.
  - intros Hin. destruct (mapped_out _ _ _ _ _ _ Hm Hin) as (_ & Hn & _). apply Hn. left.
Qed.

Lemma uspace_kfree s nodes root l ds q : uspace s nodes root l ds → outside kend nodes l q → q ∉ ds.*1 →
  ∃ s', kfree (E:=E) kend q s = Done tt s' [] ∧ uspace s' nodes root (q :: l) ds ∧
    (∀ va, leaf (pm s') nodes va = leaf (pm s) nodes va) ∧
    (∀ x, ¬ in_page q x → rd (pm s') x = rd (pm s) x).
Proof.
  intros [Hv Hm Ht Hr] Ho Hq. destruct (vmst_kfree (E:=E) kend _ _ _ _ _ Hv Ho) as (s' & Hrun & Hv' & Hl & Hx).
  exists s'. split_and!; try done. split; [done| |done|].
  - eapply mapped_weaken; [done| |]; [intros; by rewrite Hl|].
    intros d Hd (Hok & Hdl & Hn). split_and!; [done| |done]. intros [->|?]%elem_of_cons; done.
  - intros va Hva. rewrite Hl. by apply Hr.
Qed.

Lemma uspace_grown s nodes root l ds s' nodes' l' : uspace s nodes root l ds →
  vmst kend s' nodes' root l' → grown s nodes l s' nodes' l' →
  (∀ va, 0 ≤ va < TRAPFRAME → leaf (pm s') nodes' va = leaf (pm s) nodes va) →
  uspace s' nodes' root l' ds.
Proof.
  intros [Hv Hm Ht Hr] Hv' Hg Hl. split; [done| |done|].
  - eapply mapped_weaken; [done| |].
    + intros i d f Hi%lookup_lt_Some. apply Hl. unfold PGSIZE in *. lia.
    + intros d _. by eapply outside_grown.
  - intros va Hva. rewrite Hl by (unfold PGSIZE in Hva; lia). by apply Hr.
Qed.

(** Mapping one more page. *)
Lemma uspace_map s nodes root l ds q perm : uspace s nodes root l ds → outside kend nodes l q → q ∉ ds.*1 →
  (Z.of_nat (length ds) + 1) * PGSIZE ≤ TRAPFRAME → flags_ok perm →
  ∃ r s' nodes' l', mappages (E:=E) root (Z.of_nat (length ds) * PGSIZE) PGSIZE q perm s = Done r s' [] ∧
    grown s nodes l s' nodes' l' ∧
    (∀ va, TRAPFRAME ≤ va → leaf (pm s') nodes' va = leaf (pm s) nodes va) ∧ (length l ≤ length l' + 2)%nat ∧
    (r = 0 ∧ uspace s' nodes' root l' (ds ++ [(q, perm)]) ∨
     r = -1 ∧ l' = [] ∧ (length l < 2)%nat ∧ uspace s' nodes' root l' ds ∧ outside kend nodes' l' q).
Proof.
  intros Hu Ho Hq Htop [Hf Hf1]. pose proof Hu as [Hv Hm Ht Hr]. rewrite TRAPFRAME_eq in *.
  destruct (mappages_one s nodes root l (Z.of_nat (length ds) * PGSIZE) q perm Hv)
    as (r & s' & nodes' & l' & Hrun & Hv' & Hg & Hlen & Hres);
    [by apply Z.mod_mul|rewrite MAXVA_eq; unfold PGSIZE in *; lia|by eapply outside_pte|exact Hf
    |apply Hr; unfold PGSIZE in *; lia|].
  exists r, s', nodes', l'. split; [done|]. split; [done|].
  destruct Hres as [[-> Hl]|(-> & -> & Hl2 & Hl)].
  2: { split; [intros va _; apply Hl|]. split; [done|]. right. split; [done|]. split; [done|]. split; [done|].
       split; [|by eapply outside_grown]. eapply uspace_grown; done. }
  rewrite Z.div_mul in Hl by done. split.
  { intros va Hva. rewrite Hl, decide_False; [done|]. unfold PGSIZE in *. mach_lia. }
  split; [done|]. left. split; [done|]. destruct Hm as [Hml Hmf Hmo Hmn]. split; [done|split| |].
  - intros i d f Hi. rewrite Hl, Z.add_0_l, Z.div_mul by done. case_decide as Hc.
    + assert (i = length ds) as -> by lia. rewrite lookup_app_r, Nat.sub_diag in Hi by lia. by injection Hi as -> ->.
    + pose proof (lookup_lt_Some _ _ _ Hi) as Hlt. rewrite length_app in Hlt. simpl in Hlt.
      rewrite lookup_app_l in Hi by lia. by rewrite <-(Hml _ _ _ Hi).
  - intros d f [Hin|Hin]%elem_of_app; [by eapply Hmf|]. apply list_elem_of_singleton in Hin. by simplify_eq.
  - intros d. rewrite fmap_app, elem_of_app. intros [Hin|Hin]; [by eapply outside_grown, Hmo|].
    apply list_elem_of_singleton in Hin as ->. by eapply outside_grown.
  - rewrite fmap_app. apply NoDup_app. split_and!; [done| |apply NoDup_singleton].
    intros d Hd ->%list_elem_of_singleton. done.
  - rewrite length_app. simpl. rewrite TRAPFRAME_eq. unfold PGSIZE in *. lia.
  - intros va Hva. rewrite length_app in Hva. simpl in Hva. rewrite TRAPFRAME_eq in Hva.
    rewrite Hl, decide_False by (unfold PGSIZE in *; mach_lia). apply Hr. unfold PGSIZE in *. lia.
Qed.

(** *** [uvmalloc] *)

Lemma same_outside_refl W m : same_outside W m m.
Proof. done. Qed.
Lemma same_outside_trans W m m1 m2 : same_outside W m m1 → same_outside W m1 m2 → same_outside W m m2.
Proof. intros H1 H2 x Hx. by rewrite H2, H1. Qed.
Lemma same_outside_mono W W' m m' : (∀ p, p ∈ W → p ∈ W') → same_outside W m m' → same_outside W' m m'.
Proof. intros HW H x Hx. apply H. auto. Qed.
Lemma grown_outside s nodes l s' nodes' l' : grown s nodes l s' nodes' l' →
  same_outside (l ++ node_pages nodes) (pm s) (pm s').
Proof.
  intros Hg x Hx. apply (gr_frame _ _ _ _ _ _ Hg). intros (p & Hp & Hin)%in_nodes_node_pages.
  apply (Hx p); [|done]. rewrite <-(gr_pages _ _ _ _ _ _ Hg). apply elem_of_app. by right.
Qed.

(** Writes to free and page-table pages leave the other pages alone. *)
Lemma outside_kept s nodes root l d x m m' : vmst kend s nodes root l → outside kend nodes l d →
  in_page d x → same_outside (l ++ node_pages nodes) m m' → rd m' x = rd m x.
Proof.
  intros Hv (Hok & Hl & Hn) Hx Hs. apply Hs. intros p [Hp|Hp]%elem_of_app Hpx.
  - apply Hl. pose proof (ki_pages _ _ _ (vm_kinv _ _ _ _ _ Hv)) as Hps. rewrite Forall_forall in Hps.
    by rewrite <-(page_sep kend p d x (Hps p Hp) Hok Hpx Hx).
  - apply Hn. pose proof Hp as [k Hk]%elem_of_node_pages.
    by rewrite <-(page_sep kend p d x (pg_page _ _ _ _ (vm_pgt _ _ _ _ _ Hv) _ _ Hk) Hok Hpx Hx).
Qed.

Lemma npages_mul k : npages (Z.of_nat k * PGSIZE) = k.
Proof. unfold npages, PGSIZE. apply Nat2Z.inj. mach_lia. Qed.

(** Both failures of [uvmalloc] release the pages added so far. *)
Lemma uvmalloc_undo s nodes root l ds0 new : uspace s nodes root l (ds0 ++ new) →
  ∃ s', (let! _ := uvmdealloc (E:=E) kend root (Z.of_nat (length (ds0 ++ new)) * PGSIZE)
                     (Z.of_nat (length ds0) * PGSIZE) in ret 0) s = Done 0 s' [] ∧
    uspace s' nodes root (reverse new.*1 ++ l) ds0 ∧
    (∀ va, TRAPFRAME ≤ va → leaf (pm s') nodes va = leaf (pm s) nodes va) ∧
    same_outside (node_pages nodes ++ new.*1) (pm s) (pm s').
Proof.
  intros Hu. destruct (uvmdealloc_run s nodes root l (ds0 ++ new) (Z.of_nat (length (ds0 ++ new)) * PGSIZE)
    (Z.of_nat (length ds0) * PGSIZE) Hu) as (s' & Hr & Hu' & Hl & Hx).
  { rewrite length_app. unfold PGSIZE. lia. } { apply Hu. } { by rewrite npages_mul. }
  rewrite npages_mul, drop_app_length, take_app_length in *.
  exists s'. rewrite (bind_done _ _ _ _ _ Hr). split; [done|]. split; [done|]. split; [done|].
  intros x H. apply Hx.
  - rewrite in_nodes_node_pages. intros (p & Hp & Hin). apply (H p); [|done]. apply elem_of_app. by left.
  - intros d Hd. apply H. apply elem_of_app. by right.
Qed.

(** [PGSIZE] as the length of a byte list. *)
Definition PGN : nat := Z.to_nat PGSIZE.
Lemma PGN_eq : Z.of_nat PGN = PGSIZE.
Proof. reflexivity. Qed.
#[local] Opaque PGN.

Definition zeros : list Z := replicate PGN (u8 0).
Lemma zeros_length : length zeros = PGN.
Proof. apply length_replicate. Qed.
Lemma zeros_lookup x : (x < PGN)%nat → zeros !!! x = 0.
Proof. intros. by apply (lookup_total_replicate_2 _ (u8 0)). Qed.
(** Page [q] holds the bytes [bs]. *)
Definition page_is (m : mem) (q : Z) (bs : list Z) : Prop :=
  ∀ i : nat, (i < PGN)%nat → rd m (q + Z.of_nat i) = bs !!! i.

Lemma page_is_write q bs m : length bs = PGN → page_is (write_bytes q bs m) q bs.
Proof.
  intros H i Hi. apply rd_write_in. apply list_lookup_lookup_total_lt. lia.
Qed.
Lemma page_is_ext m m' q bs : (∀ x, in_page q x → rd m' x = rd m x) → page_is m q bs → page_is m' q bs.
Proof.
  intros H Hp i Hi. rewrite H; [by apply Hp|]. unfold in_page. rewrite <-PGN_eq. lia.
Qed.
Lemma page_is_bytes m q bs : length bs = PGN → page_is m q bs ↔ bytes_at m q PGN = bs.
Proof.
  intros Hl. split.
  - intros H. apply list_eq. intros i. destruct (decide (i < PGN)%nat) as [Hi|Hi].
    + rewrite bytes_at_lookup, H by done. symmetry. apply list_lookup_lookup_total_lt. lia.
    + rewrite !lookup_ge_None_2; [done|lia|]. rewrite bytes_at_length. lia.
  - intros <- i Hi. symmetry. apply list_lookup_total_correct. by apply bytes_at_lookup.
Qed.
Lemma page_is_zero m q x : page_is m q zeros → in_page q x → rd m x = 0.
Proof.
  unfold in_page. rewrite <-PGN_eq. intros Hb Hx.
  rewrite <-(zeros_lookup (Z.to_nat (x - q))), <-Hb by lia. f_equal. lia.
Qed.
#[local] Opaque zeros.

Lemma zero_page_run s q : zero_page (E:=E) q s = Done tt (upd_pm (write_bytes q zeros) s) [].
Proof. unfold zero_page, modify, upd_pm. by rewrite memset_spec. Qed.

Definition zeroed (m : mem) (ds : list upage) : Prop := ∀ d x, d ∈ ds.*1 → in_page d x → rd m x = 0.

#[local] Opaque mappages uvmdealloc kalloc kfree.

(** One page of [uvmalloc] or [uvmcopy]: allocate [q], fill it with [bs] and
    map it behind the others. *)
Lemma add_page s nodes root q l ds bs perm : uspace s nodes root (q :: l) ds → length bs = PGN →
  (Z.of_nat (length ds) + 1) * PGSIZE ≤ TRAPFRAME → flags_ok perm →
  ∃ s1 r s' nodes' l', kalloc (E:=E) s = Done q s1 [] ∧ q ≠ 0 ∧
    same_outside [q] (pm s) (pm s1) ∧ outside kend nodes l q ∧
    mappages (E:=E) root (Z.of_nat (length ds) * PGSIZE) PGSIZE q perm (upd_pm (write_bytes q bs) s1) =
      Done r s' [] ∧
    l' ++ node_pages nodes' ≡ₚ l ++ node_pages nodes ∧
    same_outside (q :: l ++ node_pages nodes) (pm s) (pm s') ∧
    page_is (pm s') q bs ∧
    (∀ va, TRAPFRAME ≤ va → leaf (pm s') nodes' va = leaf (pm s) nodes va) ∧ (length l ≤ length l' + 2)%nat ∧
    (r = 0 ∧ uspace s' nodes' root l' (ds ++ [(q, perm)]) ∨
     r = -1 ∧ l' = [] ∧ (length l < 2)%nat ∧ uspace s' nodes' root l' ds ∧ outside kend nodes' l' q ∧ q ∉ ds.*1).
Proof.
  intros Hu Hbs Htop Hf.
  destruct (uspace_kalloc _ _ _ _ _ _ Hu) as (s1 & Hr1 & Hu1 & Ho1 & Hq1 & Hq0 & Hl1 & Hx1).
  destruct (uspace_write _ _ _ _ _ q q bs Hu1 Ho1) as [Hu2 Hl2]; [lia|rewrite Hbs, PGN_eq; lia|].
  destruct (uspace_map _ _ _ _ _ q perm Hu2 Ho1 Hq1 Htop Hf) as (r & s3 & nodes3 & l3 & Hr3 & Hg3 & Hl3 & Hlen & Hres).
  exists s1, r, s3, nodes3, l3. split_and!; try done.
  - intros x Hx. apply Hx1. apply Hx. left.
  - apply Hg3.
  - intros x Hx. rewrite (grown_outside _ _ _ _ _ _ Hg3) by (intros p Hp; apply Hx; by right).
    simpl. assert (¬ in_page q x) as Hq by (apply Hx; left).
    rewrite rd_write_out by (rewrite Hbs, PGN_eq; unfold in_page in Hq; lia). by apply Hx1.
  - eapply page_is_ext; [|apply (page_is_write q bs (pm s1) Hbs)]. intros x Hx.
    apply (gr_frame _ _ _ _ _ _ Hg3).
    assert (vmst kend s3 nodes3 root l3) as Hv3 by (destruct Hres as [[_ H]|(_ & _ & _ & H & _)]; apply H).
    eapply outside_not_nodes; [apply Hv3|by eapply outside_grown|done].
  - intros va Hva. rewrite Hl3 by done. simpl. by rewrite Hl2.
  - destruct Hres as [?|(? & ? & ? & ? & ?)]; [by left|by right].
Qed.

Lemma uvmalloc_loop_run n fuel s nodes root l ds0 new newsz xperm :
  let perm := Z.lor (Z.lor PTE_R PTE_U) xperm in
  uspace s nodes root l (ds0 ++ new) → flags_ok perm → 0 ≤ newsz ≤ TRAPFRAME →
  npages newsz = (length (ds0 ++ new) + n)%nat → (n ≤ fuel)%nat →
  zeroed (pm s) new → Forall (λ u, u.2 = perm) new →
  ∃ r s' nodes' l' ds', uvmalloc_loop (E:=E) kend fuel root (Z.of_nat (length (ds0 ++ new)) * PGSIZE)
      (Z.of_nat (length ds0) * PGSIZE) newsz xperm s = Done r s' [] ∧
    uspace s' nodes' root l' ds' ∧
    l' ++ node_pages nodes' ++ ds'.*1 ≡ₚ l ++ node_pages nodes ++ (ds0 ++ new).*1 ∧
    same_outside (l ++ node_pages nodes ++ new.*1) (pm s) (pm s') ∧
    (∀ va, TRAPFRAME ≤ va → leaf (pm s') nodes' va = leaf (pm s) nodes va) ∧
    (r = newsz ∧ (∃ new', ds' = ds0 ++ new' ∧ length ds' = npages newsz ∧ zeroed (pm s') new' ∧
                    Forall (λ u, u.2 = perm) new') ∨
     r = 0 ∧ ds' = ds0 ∧ (length l < 3 * n)%nat).
Proof.
  intros perm. revert fuel s nodes l new.
  induction n as [|n IH]; intros fuel s nodes l new Hu Hfl Hsz Hn Hfuel Hz Hp.
  - exists newsz, s, nodes, l, (ds0 ++ new). split_and!; try done.
    + destruct fuel; cbn [uvmalloc_loop];
        (destruct (Z.ltb_spec (Z.of_nat (length (ds0 ++ new)) * PGSIZE) newsz); [|done]);
        unfold npages, PGSIZE in *; mach_lia.
    + left. split; [done|]. exists new. split_and!; try done. by rewrite Hn, Nat.add_0_r.
  - destruct fuel as [|fuel]; [lia|]. cbn [uvmalloc_loop].
    destruct (Z.ltb_spec (Z.of_nat (length (ds0 ++ new)) * PGSIZE) newsz) as [Hlt|];
      [|unfold npages, PGSIZE in *; mach_lia]. cbn [negb].
    destruct l as [|q l].
    { rewrite (bind_done _ _ _ _ _ (kalloc_nil _ _ (vm_kinv _ _ _ _ _ (us_vm _ _ _ _ _ Hu)))). cbn [Z.eqb].
      destruct (uvmalloc_undo _ _ _ _ _ _ Hu) as (s' & Hr & Hu' & Hl & Hx).
      exists 0, s', nodes, (reverse new.*1 ++ []), ds0. split_and!; try done.
      - rewrite fmap_app, reverse_Permutation, app_nil_r. simpl. solve_Permutation.
      - right. split_and!; [done|done|simpl; lia]. }
    destruct (add_page s nodes root q l (ds0 ++ new) zeros perm Hu)
      as (s1 & r & s3 & nodes3 & l3 & Hr1 & Hq0 & _ & _ & Hr3 & Hpm & Hx3 & Hb3 & Hl3 & Hlen3 & Hres);
      [apply zeros_length|rewrite TRAPFRAME_eq in *; unfold PGSIZE in *; lia|done|].
    rewrite (bind_done _ _ _ _ _ Hr1). destruct (Z.eqb_spec q 0); [done|].
    rewrite (bind_done _ _ _ _ _ (zero_page_run _ _)), (bind_done _ _ _ _ _ Hr3).
    assert (q :: (l ++ node_pages nodes) ++ new.*1 = (q :: l) ++ node_pages nodes ++ new.*1) as HW
      by (by rewrite <-app_assoc).
    destruct Hres as [[-> Hu3]|(-> & -> & Hl2 & Hu3 & Ho3 & Hqd)]; cbn [Z.eqb negb].
    + (* mapped: go on *)
      assert (u64 (Z.of_nat (length (ds0 ++ new)) * PGSIZE + PGSIZE) =
              Z.of_nat (length (ds0 ++ new ++ [(q, perm)])) * PGSIZE) as ->.
      { rewrite u64_small by (rewrite TRAPFRAME_eq in Hsz; wrap_unfold; unfold PGSIZE in *; lia).
        rewrite !length_app. simpl. unfold PGSIZE. lia. }
      rewrite <-app_assoc in Hu3.
      destruct (IH fuel s3 nodes3 l3 (new ++ [(q, perm)]) Hu3 Hfl Hsz) as
        (r' & s' & nodes' & l' & ds' & Hr' & Hu' & Hpm' & Hx' & Hl' & Hres').
      { rewrite Hn, !length_app. simpl. lia. } { lia. }
      { intros d x Hd Hx. rewrite fmap_app in Hd. apply elem_of_app in Hd as [Hd|Hd%list_elem_of_singleton].
        - rewrite (outside_kept _ _ _ _ d x _ _ (us_vm _ _ _ _ _ Hu)
            ltac:(eapply mapped_out; [apply Hu|rewrite fmap_app; apply elem_of_app; by right]) Hx Hx3). by eapply Hz.
        - simpl in Hd. subst d. by eapply page_is_zero. }
      { apply Forall_app. split; [done|]. by constructor. }
      exists r', s', nodes', l', ds'. split_and!; try done.
      * rewrite Hpm', !fmap_app. simpl. rewrite app_assoc, Hpm. solve_Permutation.
      * eapply same_outside_trans; eapply same_outside_mono; [|exact Hx3| |exact Hx'].
        { rewrite <-HW. mem_tauto. }
        { intros p. rewrite <-HW, fmap_app, app_assoc, Hpm. revert p. mem_tauto. }
      * intros va Hva. by rewrite Hl', Hl3.
      * destruct Hres' as [?|(-> & -> & ?)]; [by left|right]. split_and!; [done|done|simpl; lia].
    + (* page-table page missing: give everything back *)
      destruct (uspace_kfree _ _ _ _ _ _ Hu3 Ho3 Hqd) as (s4 & Hr4 & Hu4 & Hl4 & Hx4).
      rewrite (bind_done _ _ _ _ _ Hr4).
      destruct (uvmalloc_undo _ _ _ _ _ _ Hu4) as (s' & Hr & Hu' & Hl & Hx).
      exists 0, s', nodes3, (reverse new.*1 ++ [q]), ds0. split_and!; try done.
      * rewrite fmap_app, reverse_Permutation. 
        transitivity (q :: ([] ++ node_pages nodes3) ++ ds0.*1 ++ new.*1); [solve_Permutation|].
        rewrite Hpm. solve_Permutation.
      * rewrite <-HW. eapply same_outside_trans; [eapply same_outside_mono; [|exact Hx3]; mem_tauto|].
        eapply same_outside_trans; [intros x Hx0; apply Hx4, Hx0; left|].
        eapply same_outside_mono; [|exact Hx]. intros p.
        pose proof (elem_of_Permutation_proper p _ _ Hpm) as He.
        rewrite !elem_of_app in He. revert p He. mem_tauto.
      * intros va Hva. by rewrite Hl, Hl4, Hl3.
      * right. split_and!; [done|done|simpl in *; lia].
Qed.

(** ** [uvmcopy]: two address spaces *)

(** An address space survives writes to pages it does not own. *)
Lemma uspace_other s onodes oroot l ds s' l' W : uspace s onodes oroot l ds → kinv kend s' l' →
  Forall (page_ok kend) W → (∀ p, p ∈ node_pages onodes ++ ds.*1 → p ∉ W) → (∀ p, p ∈ l' → p ∈ W) →
  same_outside W (pm s) (pm s') →
  uspace s' onodes oroot l' ds ∧ (∀ va, leaf (pm s') onodes va = leaf (pm s) onodes va) ∧
  (∀ d x, d ∈ ds.*1 → in_page d x → rd (pm s') x = rd (pm s) x).
Proof.
  intros [Hv Hm Ht Hr] Hk HW Hd Hl' Hx. rewrite Forall_forall in HW.
  assert (∀ p x, page_ok kend p → p ∉ W → in_page p x → rd (pm s') x = rd (pm s) x) as Hkeep.
  { intros p x Hp Hn Hin. apply Hx. intros w Hw Hwx. apply Hn.
    by rewrite <-(page_sep kend w p x (HW w Hw) Hp Hwx Hin). }
  assert (∀ x, in_nodes onodes x → rd (pm s') x = rd (pm s) x) as Hn.
  { intros x (k & p & Hp & Hin). apply (Hkeep p); [by eapply (pg_page _ _ _ _ (vm_pgt _ _ _ _ _ Hv))| |done].
    apply Hd. apply elem_of_app. left. apply elem_of_node_pages. eauto. }
  assert (∀ va, leaf (pm s') onodes va = leaf (pm s) onodes va) as Hl by (intros; eapply leaf_ext; [apply Hv|done]).
  split_and!; [split; [split| | |]| |]; try done.
  - eapply pgt_ext; [apply Hv|done].
  - intros k p Hp Hin. apply (Hd p); [|auto]. apply elem_of_app. left. apply elem_of_node_pages. eauto.
  - eapply mapped_weaken; [done|intros; by rewrite Hl|]. intros d Hdin (Hok & _ & Hnn). split_and!; [done| |done].
    intros Hin. apply (Hd d); [|auto]. apply elem_of_app. by right.
  - intros va Hva. rewrite Hl. by apply Hr.
  - intros d x Hdin Hin. apply (Hkeep d); [by apply (mapped_out _ _ _ _ _ _ Hm)| |done].
    apply Hd. apply elem_of_app. by right.
Qed.

Lemma mkpte_lor1 q f : mkpte q (Z.lor f 1) = mkpte q f.
Proof. unfold mkpte, PTE_V. by rewrite <-!Z.lor_assoc. Qed.

Lemma flags_ok_lor1 f : flags_ok f → flags_ok (Z.lor f 1).
Proof.
  intros [H1 H2]. split; [apply lor_small; lia|]. by rewrite <-Z.lor_assoc.
Qed.

(** The pages of [new] hold what the pages of [ds] hold, with their
    permissions. *)
Definition copies (m : mem) (ds new : list upage) : Prop :=
  ∀ (i : nat) q g, new !! i = Some (q, g) →
    ∃ d f, ds !! i = Some (d, f) ∧ g = Z.lor f 1 ∧ bytes_at m q PGN = bytes_at m d PGN.

Lemma copies_ext m m' ds new : copies m ds new →
  (∀ p x, p ∈ ds.*1 ++ new.*1 → in_page p x → rd m' x = rd m x) → copies m' ds new.
Proof.
  intros Hc Hx i q g Hi. destruct (Hc i q g Hi) as (d & f & Hd & -> & Hb). exists d, f. split_and!; [done..|].
  assert (∀ p, p ∈ ds.*1 ++ new.*1 → bytes_at m' p PGN = bytes_at m p PGN) as He.
  { intros p Hp. apply bytes_at_ext. intros x Hr. apply (Hx p); [done|]. rewrite PGN_eq in Hr. done. }
  rewrite !He; [done| |]; apply elem_of_app.
  - left. change d with (d, f).1. apply list_elem_of_fmap_2. by eapply list_elem_of_lookup_2.
  - right. change q with (q, Z.lor f 1).1. apply list_elem_of_fmap_2. by eapply list_elem_of_lookup_2.
Qed.

Lemma bytes_page_ext m m' d : (∀ x, in_page d x → rd m' x = rd m x) → bytes_at m' d PGN = bytes_at m d PGN.
Proof. intros H. apply bytes_at_ext. intros x Hx. apply H. rewrite PGN_eq in Hx. done. Qed.

Lemma copies_snoc m ds new d f q : copies m ds new → ds !! length new = Some (d, f) →
  bytes_at m q PGN = bytes_at m d PGN → copies m ds (new ++ [(q, Z.lor f 1)]).
Proof.
  intros Hc Hd Hb i q' g Hi. destruct (decide (i < length new)%nat).
  - rewrite lookup_app_l in Hi by lia. exact (Hc i q' g Hi).
  - pose proof (lookup_lt_Some _ _ _ Hi) as Hlt. rewrite length_app in Hlt. simpl in Hlt.
    assert (i = length new) as -> by lia. rewrite lookup_app_r, Nat.sub_diag in Hi by lia.
    injection Hi as <- <-. exists d, f. split_and!; [exact Hd|reflexivity|exact Hb].
Qed.

Lemma uspace_pages_ok s nodes root l ds : uspace s nodes root l ds →
  Forall (page_ok kend) (l ++ node_pages nodes ++ ds.*1).
Proof.
  intros [Hv Hm _ _]. apply Forall_app. split; [apply Hv|]. apply Forall_app. split; apply Forall_forall.
  - intros p [k Hp]%elem_of_node_pages. by eapply (pg_page _ _ _ _ (vm_pgt _ _ _ _ _ Hv)).
  - intros d Hd. by apply (mapped_out _ _ _ _ _ _ Hm).
Qed.

(** A failed [uvmcopy] releases the pages copied so far. *)
Lemma uvmcopy_undo s nodes root l new : uspace s nodes root l new →
  ∃ s', (uvmunmap (E:=E) kend root 0 (Z.of_nat (length new) * PGSIZE / PGSIZE) true ;; ret (-1)) s = Done (-1) s' [] ∧
    uspace s' nodes root (reverse new.*1 ++ l) [] ∧
    (∀ va, TRAPFRAME ≤ va → leaf (pm s') nodes va = leaf (pm s) nodes va) ∧
    same_outside (node_pages nodes ++ new.*1) (pm s) (pm s').
Proof.
  intros Hu. destruct (uvmunmap_tail s nodes root l new 0 Hu) as (s' & Hr & Hu' & Hl & Hx); [lia|].
  rewrite Nat.sub_0_r in Hr. rewrite Z.div_mul by done. exists s'.
  rewrite (bind_done _ _ _ _ _ Hr). rewrite take_0 in Hu'. split_and!; try done.
  intros x H. apply Hx.
  - rewrite in_nodes_node_pages. intros (p & Hp & Hin). apply (H p); [|done]. apply elem_of_app. by left.
  - intros d Hd. apply H. apply elem_of_app. by right.
Qed.

Lemma uvmcopy_fail s nodes root l new s0 onodes oroot lo ds W :
  uspace s nodes root l new → uspace s0 onodes oroot lo ds → l ++ node_pages nodes ++ new.*1 ≡ₚ W →
  (∀ p, p ∈ node_pages onodes ++ ds.*1 → p ∉ W) → same_outside W (pm s0) (pm s) →
  ∃ s' l', (uvmunmap (E:=E) kend root 0 (Z.of_nat (length new) * PGSIZE / PGSIZE) true ;; ret (-1)) s = Done (-1) s' [] ∧
    uspace s' nodes root l' [] ∧ uspace s' onodes oroot l' ds ∧ l' ++ node_pages nodes ++ [] ≡ₚ W ∧
    same_outside W (pm s0) (pm s') ∧ (∀ va, TRAPFRAME ≤ va → leaf (pm s') nodes va = leaf (pm s) nodes va).
Proof.
  intros Hu Hou HW Hd Hx. destruct (uvmcopy_undo _ _ _ _ _ Hu) as (s' & Hr & Hu' & Hl & Hx').
  assert (same_outside W (pm s0) (pm s')) as Hs.
  { eapply same_outside_trans; [exact Hx|]. eapply same_outside_mono; [|exact Hx'].
    intros p. rewrite <-HW. revert p. mem_tauto. }
  exists s', (reverse new.*1 ++ l). split_and!; try done.
  - eapply (uspace_other s0 onodes oroot lo ds s' _ W); try done; [apply Hu'| |].
    + rewrite <-HW. by eapply uspace_pages_ok.
    + intros p. rewrite <-HW, elem_of_app, elem_of_reverse. intros H. rewrite !elem_of_app. tauto.
  - rewrite <-HW, reverse_Permutation. solve_Permutation.
Qed.

(** Looking up the entry of a user page. *)
Lemma walk_user {A} s nodes root l ds (i : nat) d f (X : M E kmem A) (k : Z → Z → M E kmem A) :
  uspace s nodes root l ds → ds !! i = Some (d, f) →
  (let! pte := walk root (Z.of_nat i * PGSIZE) false in
   if pte =? 0 then X else let! v := get_pte pte in k pte v) s =
  k (leaf_addr nodes (Z.of_nat i * PGSIZE)) (mkpte d f) s.
Proof.
  intros [Hv Hm Ht _] Hi. pose proof (mp_leaf _ _ _ _ _ Hm _ _ _ Hi) as Hleaf. rewrite Z.add_0_l in Hleaf.
  assert ((d, f) ∈ ds) as Hdin by (by eapply list_elem_of_lookup_2).
  destruct (mp_flags _ _ _ _ _ Hm _ _ Hdin) as [Hf _].
  assert (pte_page d) as Hp.
  { eapply outside_pte, (mp_out _ _ _ _ _ Hm). change d with (d, f).1. by apply list_elem_of_fmap_2. }
  assert (0 ≤ Z.of_nat i * PGSIZE < MAXVA) as Hva.
  { apply lookup_lt_Some in Hi. rewrite TRAPFRAME_eq in Ht. rewrite MAXVA_eq. unfold PGSIZE in *. lia. }
  rewrite (bind_done _ _ _ _ _ (walk_false kend kend_pos s nodes root _ (vm_pgt _ _ _ _ _ Hv) Hva)).
  rewrite (leaf_addr_pos (pm s) nodes root);
    [|apply Hv|apply (leaf_some (pm s)); rewrite Hleaf; by apply mkpte_nonzero].
  by rewrite (bind_get_leaf s nodes _ d f).
Qed.

Lemma user_page s nodes root l ds (i : nat) d f : uspace s nodes root l ds → ds !! i = Some (d, f) →
  d ∈ ds.*1 ∧ flags_ok f ∧ outside kend nodes l d ∧ pte_page d.
Proof.
  intros Hu Hi. assert ((d, f) ∈ ds) as Hdin by (by eapply list_elem_of_lookup_2).
  assert (d ∈ ds.*1) as Hd by (change d with (d, f).1; by apply list_elem_of_fmap_2).
  pose proof (mapped_out _ _ _ _ _ _ (us_map _ _ _ _ _ Hu) Hd) as Ho.
  split_and!; [done|by eapply (mp_flags _ _ _ _ _ (us_map _ _ _ _ _ Hu))|done|by eapply outside_pte].
Qed.

#[local] Opaque uvmunmap walk.

(** The loop of [uvmcopy] with [new] copied. [W] are the pages of the child
    and the free pages. *)
Lemma uvmcopy_loop_run n fuel s nodes root l new onodes oroot ds sz W :
  uspace s nodes root l new → uspace s onodes oroot l ds → l ++ node_pages nodes ++ new.*1 ≡ₚ W →
  (∀ p, p ∈ node_pages onodes ++ ds.*1 → p ∉ W) → copies (pm s) ds new →
  0 ≤ sz ≤ TRAPFRAME → length ds = npages sz → length ds = (length new + n)%nat → (n ≤ fuel)%nat →
  ∃ r s' nodes' l' new', uvmcopy_loop (E:=E) kend fuel oroot root (Z.of_nat (length new) * PGSIZE) sz s = Done r s' [] ∧
    uspace s' nodes' root l' new' ∧ uspace s' onodes oroot l' ds ∧ l' ++ node_pages nodes' ++ new'.*1 ≡ₚ W ∧
    same_outside W (pm s) (pm s') ∧
    (∀ va, TRAPFRAME ≤ va → leaf (pm s') nodes' va = leaf (pm s) nodes va) ∧
    (r = 0 ∧ length new' = length ds ∧ copies (pm s') ds new' ∨
     r = -1 ∧ new' = [] ∧ (length l < 3 * n)%nat).
Proof.
  revert fuel s nodes l new.
  induction n as [|n IH]; intros fuel s nodes l new Hu Hou HW Hd Hc Hsz Hlen Hn Hfuel.
  - exists 0, s, nodes, l, new. split_and!; try done.
    + destruct fuel; cbn [uvmcopy_loop];
        (destruct (Z.ltb_spec (Z.of_nat (length new) * PGSIZE) sz); [|done]);
        unfold npages, PGSIZE in *; mach_lia.
    + left. split_and!; [done|lia|done].
  - destruct fuel as [|fuel]; [lia|]. cbn [uvmcopy_loop].
    destruct (Z.ltb_spec (Z.of_nat (length new) * PGSIZE) sz) as [Hlt|]; [|unfold npages, PGSIZE in *; mach_lia].
    cbn [negb]. destruct (lookup_lt_is_Some_2 ds (length new)) as [[d f] Hdf]; [lia|].
    destruct (user_page _ _ _ _ _ _ _ _ Hou Hdf) as (Hd1 & Hf & Hod & Hdp). pose proof Hf as [Hf1 _].
    rewrite (walk_user s onodes oroot l ds (length new) d f) by done.
    rewrite mkpte_V, PTE2PA_mkpte, PTE_FLAGS_mkpte by done. cbn [negb].
    assert (d ∉ W) as HdW by (apply Hd, elem_of_app; by right).
    destruct l as [|q l].
    { rewrite (bind_done _ _ _ _ _ (kalloc_nil _ _ (vm_kinv _ _ _ _ _ (us_vm _ _ _ _ _ Hu)))). cbn [Z.eqb].
      destruct (uvmcopy_fail _ _ _ _ _ _ _ _ _ _ _ Hu Hou HW Hd (same_outside_refl _ _))
        as (s' & l' & Hr & Hu' & Hou' & HW' & Hx & Hl).
      exists (-1), s', nodes, l', []. split_and!; try done. right. split_and!; [done|done|simpl; lia]. }
    destruct (add_page s nodes root q l new (bytes_at (pm s) d PGN) (Z.lor f 1) Hu)
      as (s1 & r & s3 & nodes3 & l3 & Hr1 & Hq0 & Hx1 & Ho1 & Hr3 & Hpm & Hx3 & Hb3 & Hl3 & Hlen3 & Hres);
      [apply bytes_at_length|rewrite TRAPFRAME_eq in *; unfold PGSIZE in *; lia|by apply flags_ok_lor1|].
    rewrite (bind_done _ _ _ _ _ Hr1). destruct (Z.eqb_spec q 0); [done|]. mrun.
    assert (upd_pm (memmove q d PGSIZE) s1 = upd_pm (write_bytes q (bytes_at (pm s) d PGN)) s1) as ->.
    { unfold upd_pm. rewrite memmove_spec by done. change (Z.to_nat PGSIZE) with PGN.
      rewrite (bytes_page_ext (pm s) (pm s1) d); [reflexivity|]. intros x Hx. apply Hx1. intros p ->%list_elem_of_singleton Hpx. apply HdW. rewrite <-HW.
      rewrite (page_sep kend d q x (proj1 Hod) (proj1 Ho1) Hx Hpx). left. }
    rewrite (bind_done _ _ _ _ _ Hr3).
    assert (same_outside W (pm s) (pm s3)) as HxW.
    { eapply same_outside_mono; [|exact Hx3]. intros p. rewrite <-HW. revert p. mem_tauto. }
    destruct Hres as [[-> Hu3]|(-> & -> & Hl2 & Hu3 & Ho3 & Hqd)]; cbn [Z.eqb negb].
    + destruct (uspace_other s onodes oroot (q :: l) ds s3 l3 W Hou) as (Hou3 & _ & Hbk).
      { apply Hu3. } { rewrite <-HW. by eapply uspace_pages_ok. } { done. }
      { intros p Hp. rewrite <-HW. assert (p ∈ l ++ node_pages nodes) as Hin by (rewrite <-Hpm; apply elem_of_app; by left).
        apply elem_of_app in Hin. revert p Hp Hin. mem_tauto. } { done. }
      assert (u64 (Z.of_nat (length new) * PGSIZE + PGSIZE) =
              Z.of_nat (length (new ++ [(q, Z.lor f 1)])) * PGSIZE) as ->.
      { rewrite u64_small by (rewrite TRAPFRAME_eq in Hsz; wrap_unfold; unfold PGSIZE in *; lia).
        rewrite length_app. simpl. unfold PGSIZE. lia. }
      destruct (IH fuel s3 nodes3 l3 (new ++ [(q, Z.lor f 1)]) Hu3 Hou3)
        as (r' & s' & nodes' & l' & new' & Hr' & Hu' & Hou' & HW' & Hx' & Hl' & Hres'); try done.
      { rewrite <-HW, fmap_app. simpl. rewrite app_assoc, Hpm. solve_Permutation. }
      { apply (copies_snoc _ _ _ d f); [|done|].
        - eapply copies_ext; [done|]. intros p x [Hp|Hp]%elem_of_app Hx; [by apply (Hbk p)|].
          eapply outside_kept; [apply Hu|by eapply mapped_out; [apply Hu|]|done|exact Hx3].
        - apply page_is_bytes in Hb3 as ->; [|apply bytes_at_length]. symmetry. apply bytes_page_ext.
          intros x Hx. by apply (Hbk d). }
      { rewrite length_app. simpl. lia. } { lia. }
      exists r', s', nodes', l', new'. split_and!; try done.
      * by eapply same_outside_trans.
      * intros va Hva. by rewrite Hl', Hl3.
      * destruct Hres' as [?|(-> & -> & ?)]; [by left|right]. split_and!; [done|done|simpl; lia].
    + destruct (uspace_kfree _ _ _ _ _ _ Hu3 Ho3 Hqd) as (s4 & Hr4 & Hu4 & Hl4 & Hx4).
      rewrite (bind_done _ _ _ _ _ Hr4).
      destruct (uvmcopy_fail s4 nodes3 root [q] new s onodes oroot (q :: l) ds W Hu4 Hou)
        as (s' & l' & Hr & Hu' & Hou' & HW' & Hx & Hl); try done.
      { rewrite <-HW. simpl. rewrite app_assoc, Hpm. solve_Permutation. }
      { eapply same_outside_trans; [exact HxW|]. intros x Hx0. apply Hx4, Hx0. rewrite <-HW. left. }
      exists (-1), s', nodes3, l', []. split_and!; try done;
        [|right; split_and!; [done|done|simpl in *; lia]].
      intros va Hva. by rewrite Hl, Hl4, Hl3.
Qed.
End uvm.
