(* ===== verification/Uvmfree.v ===== *)
(** Tearing down an address space ([freewalk], [uvmfree] and
    [proc_freepagetable]): every page goes back to the free list. *)
From Stdlib Require Import ZArith Lia.
From stdpp Require Import base list gmap strings.
From S2P Require Import Prelude Machine Mem Str Kalloc Vm Pagetable Uvm.

#[local] Opaque memset load64 store64.

(** [k] is the node [r] of the tree or below it. *)
Definition desc (r k : nat * Z) : Prop := (k.1 ≤ r.1)%nat ∧ k.2 / 512 ^ Z.of_nat (r.1 - k.1) = r.2.

Lemma desc_refl r : desc r r.
Proof. destruct r as [l x]. unfold desc; simpl. rewrite Nat.sub_diag. simpl. by rewrite Z.div_1_r. Qed.

Lemma pow512 n : 0 < 512 ^ Z.of_nat n.
Proof. apply Z.pow_pos_nonneg; lia. Qed.

(** A node below [(S lv, x)] is below exactly one of its children. *)
Lemma desc_child lv x k : desc (S lv, x) k → k ≠ (S lv, x) →
  ∃ i, 0 ≤ i < 512 ∧ desc (lv, x * 512 + i) k.
Proof.
  destruct k as [l y]. unfold desc; simpl. intros [Hl Hy] Hne.
  assert (l ≤ lv)%nat as Hl'.
  { destruct (decide (l = S lv)) as [->|]; [|lia]. rewrite Nat.sub_diag in Hy. simpl in Hy.
    rewrite Z.div_1_r in Hy. by subst. }
  set (z := y / 512 ^ Z.of_nat (lv - l)). exists (z - x * 512).
  assert (z / 512 = x) as Hz.
  { rewrite <-Hy. replace (S lv - l)%nat with (lv - l + 1)%nat by lia.
    rewrite Nat2Z.inj_add, Z.pow_add_r by lia. change (512 ^ Z.of_nat 1) with 512.
    unfold z. rewrite Z.div_div; [done|pose proof (pow512 (lv - l)); lia|lia]. }
  split; [mach_lia|]. split; [done|]. lia.
Qed.
Lemma child_desc lv x i k : 0 ≤ i < 512 → desc (lv, x * 512 + i) k → desc (S lv, x) k ∧ k ≠ (S lv, x).
Proof.
  destruct k as [l y]. unfold desc; simpl. intros Hi [Hl Hy]. split; [split; [lia|]|intros [= -> ->]; lia].
  replace (S lv - l)%nat with (lv - l + 1)%nat by lia.
  rewrite Nat2Z.inj_add, Z.pow_add_r by lia. change (512 ^ Z.of_nat 1) with 512.
  rewrite <-Z.div_div; [|pose proof (pow512 (lv - l)); lia|lia]. rewrite Hy. mach_lia.
Qed.
Lemma desc_sibling lv x i j k : desc (lv, x * 512 + i) k → desc (lv, x * 512 + j) k → i = j.
Proof. unfold desc. simpl. lia. Qed.

Section free.
Context {E : Type} (kend : Z) (kend_pos : 0 < kend).
Context (nodes : nodemap).
Context (Hinj : ∀ k k' p, nodes !! k = Some p → nodes !! k' = Some p → k = k').
Context (Hpage : ∀ k p, nodes !! k = Some p → page_ok kend p).
Context (Hparent : ∀ l y q, nodes !! (l, y) = Some q →
  (l = 2%nat ∧ y = 0) ∨ ((l < 2)%nat ∧ is_Some (nodes !! (S l, y / 512)))).

(** The entries of the nodes at or below [r]; leaves are unmapped. *)
Definition entries_ok (m : mem) (r : nat * Z) : Prop :=
  ∀ l y q i, desc r (l, y) → nodes !! (l, y) = Some q → 0 ≤ i < 512 →
    match l with
    | O => has (load64 m (q + 8 * i)) PTE_V = false
    | S l' => load64 m (q + 8 * i) = match nodes !! (l', y * 512 + i) with Some c => mkpte c 0 | None => 0 end
    end.

(** Pages of the nodes that satisfy [K]. *)
Definition pages_of (K : nat * Z → Prop) (p : Z) : Prop := ∃ k, K k ∧ nodes !! k = Some p.

Lemma entries_ext m m' r (K : nat * Z → Prop) : entries_ok m r →
  (∀ x, (∀ p, pages_of K p → ¬ in_page p x) → rd m' x = rd m x) →
  (∀ k, desc r k → ¬ K k) → entries_ok m' r.
Proof.
  intros He Hx HK l y q i Hd Hq Hi.
  assert (load64 m' (q + 8 * i) = load64 m (q + 8 * i)) as Heq.
  { apply load64_ext. intros x Hr. apply Hx. intros p (k & Hk & Hp) Hin.
    assert (in_page q x) as Hqx by (unfold in_page, PGSIZE; lia).
    assert (p = q) as -> by (eapply page_sep; [by eapply Hpage|by eapply Hpage|done|done]).
    apply (HK (l, y)); [done|]. by rewrite (Hinj _ _ _ Hq Hp). }
  rewrite Heq. by apply He.
Qed.

Lemma entries_child m lv x i : entries_ok m (S lv, x) → 0 ≤ i < 512 → entries_ok m (lv, x * 512 + i).
Proof. intros He Hi l y q j Hd. apply He. by eapply child_desc. Qed.

Lemma mkpte_table q : pte_page q → has (mkpte q 0) (Z.lor (Z.lor PTE_R PTE_W) PTE_X) = false.
Proof.
  intros Hq. rewrite mkpte_flag; [done|done|lia|].
  change (Z.lor (Z.lor PTE_R PTE_W) PTE_X) with 14. lia.
Qed.

(** What [freewalk] of the subtree at [r] achieves. *)
Definition freed (K : nat * Z → Prop) (s s' : kmem) (l l' : list Z) : Prop :=
  kinv kend s' l' ∧ (∀ p, p ∈ l' ↔ p ∈ l ∨ pages_of K p) ∧
  (∀ x, (∀ p, pages_of K p → ¬ in_page p x) → rd (pm s') x = rd (pm s) x).

(** Freeing the node itself, when its subtrees are gone. *)
Lemma free_node s l k p : kinv kend s l → nodes !! k = Some p → p ∉ l →
  ∃ s' l', kfree (E:=E) kend p s = Done tt s' [] ∧ freed (λ k', k' = k) s s' l l'.
Proof.
  intros Hk Hp Hn. destruct (kfree_run (E:=E) kend s p l Hk (Hpage _ _ Hp) Hn) as [Hr Hk'].
  eexists _, (p :: l). split; [exact Hr|]. split_and!; [done| |].
  - intros q. rewrite elem_of_cons. unfold pages_of. naive_solver.
  - intros x Hx. apply kfree_mem. apply Hx. by exists k.
Qed.

Lemma freed_trans K K' K'' s s1 s2 l l1 l2 : freed K s s1 l l1 → freed K' s1 s2 l1 l2 →
  (∀ k, K'' k ↔ K k ∨ K' k) → freed K'' s s2 l l2.
Proof.
  intros (_ & H1 & Hx1) (Hk2 & H2 & Hx2) HK.
  assert (∀ p, pages_of K'' p ↔ pages_of K p ∨ pages_of K' p) as HP.
  { intros p. unfold pages_of. setoid_rewrite HK. naive_solver. }
  split_and!; [done| |].
  - intros p. rewrite H2, H1, HP. tauto.
  - intros x Hx. rewrite Hx2, Hx1; [done| |]; intros p Hp; apply Hx, HP; tauto.
Qed.

(** The body of [freewalk]'s loop at entry [i] of node [(S lv, x)]. *)
Definition freewalk_body (d : nat) (pagetable : Z) (i : nat) : M E kmem unit :=
  let a := pagetable + 8 * Z.of_nat i in
  let! pte := get_pte a in
  if has pte PTE_V && negb (has pte (Z.lor (Z.lor PTE_R PTE_W) PTE_X)) then
    freewalk kend d (PTE2PA pte) ;;
    set_pte a 0
  else if has pte PTE_V then panic "freewalk: leaf"
  else ret tt.

Lemma freewalk_eq d p : freewalk (E:=E) kend (S d) p = (for_upto 512 (freewalk_body d p) ;; kfree kend p).
Proof. done. Qed.

Definition under (lv : nat) (x : Z) (i : nat) (k : nat * Z) : Prop :=
  ∃ j, Z.of_nat i ≤ j < 512 ∧ desc (lv, x * 512 + j) k.

(** A node exists only below existing nodes. *)
Lemma desc_exists n lv z l y q : (lv - l = n)%nat → (lv ≤ 2)%nat → nodes !! (l, y) = Some q →
  desc (lv, z) (l, y) → is_Some (nodes !! (lv, z)).
Proof.
  revert l y q. induction n as [|n IH]; intros l y q Hn Hlv Hq [Hl Hy]; simpl in *.
  - assert (l = lv) as -> by lia. rewrite Nat.sub_diag in Hy. simpl in Hy. rewrite Z.div_1_r in Hy. subst. eauto.
  - destruct (Hparent _ _ _ Hq) as [[-> _]|[_ [p Hp]]]; [lia|].
    eapply (IH (S l)); [lia|done|exact Hp|]. split; simpl; [lia|]. rewrite <-Hy.
    replace (lv - l)%nat with (1 + (lv - S l))%nat by lia.
    rewrite Nat2Z.inj_add, Z.pow_add_r by lia. change (512 ^ Z.of_nat 1) with 512.
    rewrite Z.div_div; [done|lia|apply pow512].
Qed.

(** One iteration of the loop. *)
Lemma freewalk_one lv x p s l (i : nat) :
  (∀ q, nodes !! (lv, x * 512 + Z.of_nat i) = Some q →
     ∃ s' l', freewalk (E:=E) kend (S lv) q s = Done tt s' [] ∧ freed (desc (lv, x * 512 + Z.of_nat i)) s s' l l') →
  nodes !! (S lv, x) = Some p → (i < 512)%nat → kinv kend s l → p ∉ l →
  load64 (pm s) (p + 8 * Z.of_nat i) =
    match nodes !! (lv, x * 512 + Z.of_nat i) with Some c => mkpte c 0 | None => 0 end →
  ∃ s1 l1, freewalk_body (S lv) p i s = Done tt s1 [] ∧ kinv kend s1 l1 ∧
    (∀ q, q ∈ l1 ↔ q ∈ l ∨ pages_of (desc (lv, x * 512 + Z.of_nat i)) q) ∧
    (∀ y, (∀ q, pages_of (desc (lv, x * 512 + Z.of_nat i)) q → ¬ in_page q y) →
       y < p + 8 * Z.of_nat i ∨ p + 8 * Z.of_nat i + 8 ≤ y → rd (pm s1) y = rd (pm s) y).
Proof.
  intros Hone Hp Hi Hk Hpl Hload. unfold freewalk_body, get_pte. mrun. rewrite Hload.
  destruct (nodes !! (lv, x * 512 + Z.of_nat i)) as [q|] eqn:Hq.
  - assert (pte_page q) as Hpq by (eapply page_ok_pte; [done|by eapply Hpage]).
    rewrite mkpte_V, mkpte_table, PTE2PA_mkpte by (done || lia). cbn [andb negb].
    destruct (Hone q eq_refl) as (s1 & l1 & Hr1 & Hk1 & Hl1 & Hx1).
    rewrite (bind_done _ _ _ _ _ Hr1). unfold set_pte, modify. eexists _, l1. split; [reflexivity|].
    assert (p ∉ l1) as Hpl1.
    { rewrite Hl1. intros [?|(k & Hd & Hkp)]; [done|]. rewrite (Hinj _ _ _ Hkp Hp) in Hd.
      by apply child_desc in Hd as [_ ?]; [|lia]. }
    split_and!; [|done|].
    + destruct Hk1 as [? ? Hc ? ?]. split; try done. eapply (chain_store64 _ _ _ _ p); try done;
        [by apply (Hpage _ _ Hp)|lia|unfold PGSIZE; lia].
    + intros y Hy Hout. cbn [upd_pm set_pm pm]. rewrite rd_store64_ne by lia. by apply Hx1.
  - rewrite has_0. simpl. exists s, l. split_and!; [done|done| |done].
    intros q. split; [tauto|]. intros [?|([l' y] & Hd & Hkq)]; [done|].
    assert (lv ≤ 2)%nat as Hlv by (destruct (Hparent _ _ _ Hp) as [[? _]|[? _]]; lia).
    destruct (desc_exists _ _ _ _ _ _ eq_refl Hlv Hkq Hd) as [c Hc]. congruence.
Qed.

(** [freewalk] of the children from the [i]th on, given that it works on one. *)
Lemma freewalk_children lv x p s l n i :
  (∀ j q s l, 0 ≤ j < 512 → nodes !! (lv, x * 512 + j) = Some q → kinv kend s l →
     entries_ok (pm s) (lv, x * 512 + j) → (∀ p, pages_of (desc (lv, x * 512 + j)) p → p ∉ l) →
     ∃ s' l', freewalk (E:=E) kend (S lv) q s = Done tt s' [] ∧ freed (desc (lv, x * 512 + j)) s s' l l') →
  nodes !! (S lv, x) = Some p → (i + n = 512)%nat → kinv kend s l → p ∉ l →
  (∀ j, Z.of_nat i ≤ j < 512 → entries_ok (pm s) (lv, x * 512 + j) ∧
     load64 (pm s) (p + 8 * j) = match nodes !! (lv, x * 512 + j) with Some c => mkpte c 0 | None => 0 end) →
  (∀ q, pages_of (under lv x i) q → q ∉ l) →
  ∃ s' l', for_from n i (freewalk_body (S lv) p) s = Done tt s' [] ∧
    kinv kend s' l' ∧ (∀ q, q ∈ l' ↔ q ∈ l ∨ pages_of (under lv x i) q) ∧
    (∀ y, ¬ in_page p y → (∀ q, pages_of (under lv x i) q → ¬ in_page q y) → rd (pm s') y = rd (pm s) y).
Proof.
  intros Hone Hp. revert s l i. induction n as [|n IH]; intros s l i Hin Hk Hpl He Hl.
  - exists s, l. split_and!; try done. intros q. split; [tauto|]. intros [?|(k & (j & Hj & _) & _)]; [done|lia].
  - destruct (He (Z.of_nat i) ltac:(lia)) as [Hei Hload]. cbn [for_from].
    assert (∀ k, desc (lv, x * 512 + Z.of_nat i) k → under lv x i k) as Hsub by (intros k Hd; exists (Z.of_nat i); split; [lia|done]).
    assert (∀ k, under lv x (S i) k → under lv x i k) as Hsub' by (intros k (j & Hj & Hd); exists j; split; [lia|done]).
    assert (∀ k, under lv x i k ↔ desc (lv, x * 512 + Z.of_nat i) k ∨ under lv x (S i) k) as Hun.
    { intros k. split; [|naive_solver]. intros (j & Hj & Hd). destruct (decide (j = Z.of_nat i)) as [->|]; [by left|].
      right. exists j. split; [lia|done]. }
    destruct (freewalk_one lv x p s l i) as (s1 & l1 & Hr1 & Hk1 & Hl1 & Hx1); try done; [|lia|].
    { intros q Hq. apply Hone; [lia|done|done|done|]. intros q' (k & Hd & Hkq). apply Hl. exists k. auto. }
    rewrite (bind_done _ _ _ _ _ Hr1).
    destruct (IH s1 l1 (S i)) as (s' & l' & Hr' & Hk' & Hl' & Hx'); [lia|done| | | |].
    + rewrite Hl1. intros [?|(k & Hd & Hkp)]; [done|]. rewrite (Hinj _ _ _ Hkp Hp) in Hd.
      by apply child_desc in Hd as [_ ?]; [|lia].
    + intros j Hj. destruct (He j ltac:(lia)) as [Hej Hlj]. split.
      * eapply (entries_ext _ _ _ (λ k, desc (lv, x * 512 + Z.of_nat i) k ∨ k = (S lv, x))); [exact Hej| |].
        { intros y Hy. apply Hx1.
          - intros q (k & Hd & Hkq). apply Hy. exists k. auto.
          - assert (¬ in_page p y) as Hpy by (apply Hy; exists (S lv, x); auto). unfold in_page, PGSIZE in Hpy. lia. }
        { intros k Hd [Hd'| ->]; [apply (desc_sibling _ _ _ _ _ Hd) in Hd'; lia|].
          apply child_desc in Hd as [_ ?]; [done|lia]. }
      * rewrite <-Hlj. apply load64_ext. intros y Hy. apply Hx1; [|lia].
        intros q (k & Hd & Hkq) Hqy. assert (in_page p y) as Hpy by (unfold in_page, PGSIZE; lia).
        assert (q = p) as -> by (eapply page_sep; [by eapply Hpage|by eapply Hpage|done|done]).
        rewrite (Hinj _ _ _ Hkq Hp) in Hd. by apply child_desc in Hd as [_ ?]; [|lia].
    + intros q (k & Hu & Hkq). rewrite Hl1. intros [Hql|(k' & Hd & Hkq')]; [by apply (Hl q); [exists k; auto|]|].
      rewrite (Hinj _ _ _ Hkq' Hkq) in Hd. destruct Hu as (j & Hj & Hd'). pose proof (desc_sibling _ _ _ _ _ Hd Hd'). lia.
    + exists s', l'. split_and!; [done|done| |].
      * intros q. rewrite Hl', Hl1. unfold pages_of. setoid_rewrite Hun. naive_solver.
      * intros y Hy Hq. rewrite Hx'; [|done|]. 2: { intros q (k & Hku & Hkq). apply Hq. exists k. auto. }
        apply Hx1; [|unfold in_page, PGSIZE in Hy; lia]. intros q (k & Hku & Hkq). apply Hq. exists k. auto.
Qed.

(** [freewalk] frees the pages of the tree at and below its argument. *)
Lemma freewalk_run lv x p s l : nodes !! (lv, x) = Some p → kinv kend s l → entries_ok (pm s) (lv, x) →
  (∀ q, pages_of (desc (lv, x)) q → q ∉ l) →
  ∃ s' l', freewalk (E:=E) kend (S lv) p s = Done tt s' [] ∧ freed (desc (lv, x)) s s' l l'.
Proof.
  revert x p s l. induction lv as [|lv IH]; intros x p s l Hp Hk He Hl; rewrite freewalk_eq.
  - assert (for_upto 512 (freewalk_body 0 p) s = Done tt s []) as Hloop.
    { unfold for_upto. assert (∀ n i, (i + n = 512)%nat → for_from n i (freewalk_body 0 p) s = Done tt s []) as H.
      { induction n as [|n IHn]; intros i Hi; [done|]. cbn [for_from].
        pose proof (He 0%nat x p (Z.of_nat i) (desc_refl _) Hp ltac:(lia)) as Hv. simpl in Hv.
        rewrite (bind_done _ _ tt s s); [apply IHn; lia|]. unfold freewalk_body, get_pte. mrun. by rewrite Hv. }
      by apply H. }
    rewrite (bind_done _ _ _ _ _ Hloop).
    destruct (free_node s l (0%nat, x) p Hk Hp) as (s' & l' & Hr & Hf).
    { apply Hl. exists (0%nat, x). split; [apply desc_refl|done]. }
    exists s', l'. split; [done|]. destruct Hf as (Hk' & Hl' & Hx').
    assert (∀ q, pages_of (λ k, k = (0%nat, x)) q ↔ pages_of (desc (0%nat, x)) q) as HP.
    { intros q. unfold pages_of. split; [intros (k & -> & Hkq); exists (0%nat, x); split; [apply desc_refl|done]|].
      intros ([l0 y] & [Hl0 Hy] & Hkq). simpl in *. assert (l0 = 0%nat) as -> by lia. simpl in Hy.
      rewrite Z.div_1_r in Hy. subst y. eauto. }
    split_and!; [done|intros q; rewrite Hl'; by rewrite HP|intros y Hy; apply Hx'; intros q Hq; by apply Hy, HP].
  - destruct (freewalk_children lv x p s l 512 0) as (s1 & l1 & Hr1 & Hk1 & Hl1 & Hx1); try done.
    { intros j q s0 l0 Hj Hq Hk0 He0 Hl0. by apply IH. }
    { apply Hl. exists (S lv, x). split; [apply desc_refl|done]. }
    { intros j Hj. split; [by apply entries_child|]. by apply (He (S lv) x p j (desc_refl _) Hp). }
    { intros q (k & (j & Hj & Hd) & Hkq). apply Hl. exists k. split; [|done]. by eapply child_desc. }
    unfold for_upto. rewrite (bind_done _ _ _ _ _ Hr1).
    destruct (free_node s1 l1 (S lv, x) p Hk1 Hp) as (s' & l' & Hr & Hk' & Hl' & Hx').
    { rewrite Hl1. intros [Hin|(k & (j & Hj & Hd) & Hkp)].
      - revert Hin. apply Hl. exists (S lv, x). split; [apply desc_refl|done].
      - rewrite (Hinj _ _ _ Hkp Hp) in Hd. by apply child_desc in Hd as [_ ?]. }
    exists s', l'. split; [done|].
    assert (∀ q, pages_of (desc (S lv, x)) q ↔ pages_of (under lv x 0) q ∨ pages_of (λ k, k = (S lv, x)) q) as HP.
    { intros q. unfold pages_of, under. split.
      - intros (k & Hd & Hkq). destruct (decide (k = (S lv, x))) as [->|Hne]; [right; eauto|left].
        destruct (desc_child _ _ _ Hd Hne) as (j & Hj & Hd'). eauto.
      - intros [(k & (j & Hj & Hd) & Hkq)|(k & -> & Hkq)]; [|exists (S lv, x); split; [apply desc_refl|done]].
        exists k. split; [|done]. by eapply child_desc. }
    split_and!; [done|intros q; rewrite Hl', Hl1, HP; tauto|].
    intros y Hy. rewrite Hx'; [apply Hx1|]; intros; try (apply Hy, HP; tauto).
    apply Hy, HP. right. by exists (S lv, x).
Qed.
End free.

(** ** Whole address spaces *)

(** A process's page table: the user pages, the trapframe and the trampoline,
    and nothing else. *)
Record pspace (kend : Z) (s : kmem) (nodes : nodemap) (root : Z) (l : list Z) (ds : list upage)
    (trampoline trapframe : Z) : Prop := {
  ps_user : uspace kend s nodes root l ds;
  ps_tramp : leaf (pm s) nodes TRAMPOLINE = mkpte trampoline (Z.lor PTE_R PTE_X);
  ps_tf : leaf (pm s) nodes TRAPFRAME = mkpte trapframe (Z.lor PTE_R PTE_W);
  ps_none : ∀ va, MAXVA ≤ va → leaf (pm s) nodes va = 0;
  ps_pages : pte_page trampoline ∧ pte_page trapframe
}.

Section whole.
Context {E : Type} (kend : Z) (kend_pos : 0 < kend).

(** [uvmunmap] of one page without freeing it. *)
Lemma uvmunmap_one s nodes root l a d f : vmst kend s nodes root l → leaf (pm s) nodes a = mkpte d f →
  pte_page d → flags_ok f → a mod PGSIZE = 0 → 0 ≤ a ≤ MAXVA - PGSIZE →
  ∃ s', uvmunmap (E:=E) kend root a 1 false s = Done tt s' [] ∧ vmst kend s' nodes root l ∧
    grown s nodes l s' nodes l ∧
    ∀ va, leaf (pm s') nodes va = if decide (va / PGSIZE = a / PGSIZE) then 0 else leaf (pm s) nodes va.
Proof.
  intros Hv Hl Hd [Hf Hf1] Ha Hmax. pose proof MAXVA_eq as Hmv. unfold uvmunmap. rewrite Ha. cbn [negb Z.eqb].
  rewrite u64_small by (wrap_unfold; unfold PGSIZE in *; lia). change (Z.to_nat 1) with 1%nat. cbn [uvmunmap_loop].
  destruct (Z.ltb_spec a (a + 1 * PGSIZE)); [|unfold PGSIZE in *; lia]. cbn [negb].
  assert (is_Some (nodes !! (0%nat, pfx 0 a))) as Hs by (apply (leaf_some (pm s)); rewrite Hl; by apply mkpte_nonzero).
  rewrite (bind_done _ _ _ _ _ (walk_false kend kend_pos s nodes root a (vm_pgt _ _ _ _ _ Hv) ltac:(unfold PGSIZE in *; lia))).
  rewrite (leaf_addr_pos kend kend_pos (pm s) nodes root) by (done || apply Hv).
  rewrite (bind_get_leaf s nodes a d f), mkpte_V, PTE_FLAGS_mkpte by done. cbn [negb].
  destruct (Z.eqb_spec (Z.lor f 1) PTE_V); [done|]. unfold set_pte. mrun.
  destruct (set_leaf kend s nodes root l a 0 Hv Hs) as (Hv' & Hg & Hl'); [wrap_unfold; lia|].
  eexists. split; [|split_and!; [exact Hv'|exact Hg|exact Hl']].
  rewrite u64_small by (wrap_unfold; unfold PGSIZE in *; lia).
  destruct (Z.ltb_spec (a + PGSIZE) (a + 1 * PGSIZE)); [lia|done].
Qed.

(** An address space with nothing mapped is torn down by [freewalk]. *)
Lemma freewalk_empty s nodes root l : vmst kend s nodes root l →
  (∀ va, 0 ≤ va → leaf (pm s) nodes va = 0) →
  ∃ s' l', freewalk (E:=E) kend 3 root s = Done tt s' [] ∧ kinv kend s' l' ∧
    l' ≡ₚ l ++ node_pages nodes ∧ same_outside (node_pages nodes) (pm s) (pm s').
Proof.
  intros [Hk [Hroot Hinj Hpage Hpar Hch] Hsep] Hz.
  assert (∀ k p, nodes !! k = Some p → desc (2%nat, 0) k) as Hall.
  { intros [l' y] p Hp. assert (∀ n l' y p, (2 - l' = n)%nat → nodes !! (l', y) = Some p → desc (2%nat, 0) (l', y)) as H.
    { clear -Hpar. induction n as [|n IH]; intros l' y p Hn Hp; destruct (Hpar _ _ _ Hp) as [[-> ->]|[Hl [p' Hp']]]; try lia;
        try apply desc_refl. pose proof (IH (S l') (y / 512) p' ltac:(lia) Hp') as [_ Hd]. simpl in Hd.
      split; simpl; [lia|]. rewrite <-Hd. replace (2 - l')%nat with (1 + (2 - S l'))%nat by lia.
      rewrite Nat2Z.inj_add, Z.pow_add_r by lia. change (512 ^ Z.of_nat 1) with 512.
      rewrite Z.div_div; [done|lia|apply pow512]. }
    by eapply H. }
  destruct (freewalk_run (E:=E) kend kend_pos nodes Hinj Hpage Hpar 2 0 root s l Hroot Hk) as (s' & l' & Hr & Hk' & Hl' & Hx').
  - intros [|l'] y q i Hd Hq Hi; [|by apply Hch].
    destruct Hd as [_ Hd]. simpl in Hd. change (512 ^ Z.of_nat 2) with 262144 in Hd.
    set (va := y * 2097152 + i * 4096). assert (0 ≤ va) as Hva by (subst va; mach_lia).
    specialize (Hz va Hva). unfold leaf in Hz. rewrite PX_eq in Hz by lia.
    assert (pfx 0 va = y) as Hpf.
    { unfold pfx. change (2 ^ (21 + 9 * Z.of_nat 0)) with 2097152. subst va. mach_lia. }
    assert ((va / 2 ^ (12 + 9 * 0)) mod 512 = i) as Hpx.
    { change (2 ^ (12 + 9 * 0)) with 4096. subst va. mach_lia. }
    rewrite Hpf, Hq, Hpx in Hz. by rewrite Hz.
  - intros q (k & _ & Hkq). by eapply Hsep.
  - exists s', l'. split_and!; [done|done| |].
    + apply NoDup_Permutation; [apply Hk'| |].
      * apply NoDup_app. split_and!; [apply Hk|intros q Hq [k Hkq]%elem_of_node_pages; by eapply Hsep|].
        unfold node_pages. apply NoDup_fmap_2_strong; [|apply NoDup_map_to_list].
        intros [k p] [k' p'] Hin Hin' Heq. simpl in Heq. subst p'.
        apply elem_of_map_to_list in Hin, Hin'. by rewrite (Hinj _ _ _ Hin Hin').
      * intros q. rewrite Hl', elem_of_app, elem_of_node_pages. unfold pages_of. naive_solver.
    + intros x Hx. apply Hx'. intros q (k & _ & Hkq). apply Hx. apply elem_of_node_pages. eauto.
Qed.

Lemma uvmfree_run s nodes root l ds sz : uspace kend s nodes root l ds →
  (∀ va, TRAPFRAME ≤ va → leaf (pm s) nodes va = 0) → 0 ≤ sz ≤ TRAPFRAME → length ds = npages sz →
  ∃ s' l', uvmfree (E:=E) kend root sz s = Done tt s' [] ∧ kinv kend s' l' ∧
    l' ≡ₚ l ++ node_pages nodes ++ ds.*1 ∧ same_outside (node_pages nodes ++ ds.*1) (pm s) (pm s').
Proof.
  intros Hu Htop Hsz Hlen.
  assert (∃ s1, (if 0 <? sz then uvmunmap (E:=E) kend root 0 (PGROUNDUP sz / PGSIZE) true else ret tt) s = Done tt s1 [] ∧
    uspace kend s1 nodes root (reverse ds.*1 ++ l) [] ∧ (∀ va, TRAPFRAME ≤ va → leaf (pm s1) nodes va = 0) ∧
    same_outside (node_pages nodes ++ ds.*1) (pm s) (pm s1)) as (s1 & Hr1 & Hu1 & Htop1 & Hx1).
  { destruct (Z.ltb_spec 0 sz) as [Hpos|Hz].
    - destruct (uvmunmap_tail (E:=E) kend kend_pos s nodes root l ds 0 Hu) as (s1 & Hr & Hu1 & Hl1 & Hx1); [lia|].
      rewrite Nat.sub_0_r in Hr. rewrite PGROUNDUP_npages, Z.div_mul, <-Hlen by done. rewrite drop_0, take_0 in *.
      exists s1. split_and!; [done|done|intros va Hva; rewrite Hl1; auto|].
      intros x Hx. apply Hx1; [|intros d Hd; apply Hx, elem_of_app; by right].
      rewrite in_nodes_node_pages. intros (p & Hp & Hin). apply (Hx p); [|done]. apply elem_of_app. by left.
    - assert (sz = 0) as -> by lia. destruct ds; [|done]. exists s. by split_and!. }
  unfold uvmfree. rewrite (bind_done _ _ _ _ _ Hr1).
  destruct (freewalk_empty s1 nodes root (reverse ds.*1 ++ l)) as (s' & l' & Hr & Hk & Hl & Hx); [apply Hu1| |].
  { intros va Hva. destruct (decide (TRAPFRAME ≤ va)); [by apply Htop1|].
    apply (us_rest _ _ _ _ _ _ Hu1). simpl. lia. }
  exists s', l'. split_and!; [done|done| |].
  - rewrite Hl, reverse_Permutation. solve_Permutation.
  - eapply same_outside_trans; [exact Hx1|]. eapply same_outside_mono; [|exact Hx]. mem_tauto.
Qed.

Lemma flags_ok_RX : flags_ok (Z.lor PTE_R PTE_X).
Proof. change (Z.lor PTE_R PTE_X) with 10. split; [lia|done]. Qed.
Lemma flags_ok_RW : flags_ok (Z.lor PTE_R PTE_W).
Proof. change (Z.lor PTE_R PTE_W) with 6. split; [lia|done]. Qed.

Lemma TRAMPOLINE_eq : TRAMPOLINE = 274877902848.
Proof. reflexivity. Qed.

Lemma uspace_leaf_ext s nodes root l ds s' : uspace kend s nodes root l ds → vmst kend s' nodes root l →
  (∀ va, 0 ≤ va < TRAPFRAME → leaf (pm s') nodes va = leaf (pm s) nodes va) → uspace kend s' nodes root l ds.
Proof.
  intros [Hv Hm Ht Hr] Hv' Hl. split; [done| |done|].
  - eapply mapped_weaken; [done| |done]. intros i d f Hi%lookup_lt_Some. apply Hl. unfold PGSIZE in *. lia.
  - intros va Hva. rewrite Hl by (unfold PGSIZE in Hva; lia). by apply Hr.
Qed.

(** [proc_freepagetable] puts the page-table pages and the user pages on the
    free list, and writes nothing else. *)
Lemma proc_freepagetable_run s nodes root l ds sz trampoline trapframe :
  pspace kend s nodes root l ds trampoline trapframe → 0 ≤ sz ≤ TRAPFRAME → length ds = npages sz →
  ∃ s' l', proc_freepagetable (E:=E) kend root sz s = Done tt s' [] ∧ kinv kend s' l' ∧
    l' ≡ₚ l ++ node_pages nodes ++ ds.*1 ∧ same_outside (node_pages nodes ++ ds.*1) (pm s) (pm s').
Proof.
  intros [Hu Htr Htf Hno [Hp1 Hp2]] Hsz Hlen. pose proof TRAPFRAME_eq as E1. pose proof TRAMPOLINE_eq as E2. pose proof MAXVA_eq as E3.
  assert (∀ s s', grown s nodes l s' nodes l → same_outside (node_pages nodes ++ ds.*1) (pm s) (pm s')) as Hgo.
  { intros s0 s0' Hg x Hx. apply (gr_frame _ _ _ _ _ _ Hg). rewrite in_nodes_node_pages. intros (p & Hp & Hin).
    apply (Hx p); [apply elem_of_app; by left|done]. }
  destruct (uvmunmap_one s nodes root l TRAMPOLINE trampoline (Z.lor PTE_R PTE_X)) as (s1 & Hr1 & Hv1 & Hg1 & Hl1);
    [apply Hu|done|done|exact flags_ok_RX|reflexivity|rewrite E2, E3; unfold PGSIZE; lia|].
  destruct (uvmunmap_one s1 nodes root l TRAPFRAME trapframe (Z.lor PTE_R PTE_W)) as (s2 & Hr2 & Hv2 & Hg2 & Hl2);
    [done|by rewrite Hl1, decide_False by (rewrite E1, E2; unfold PGSIZE; done)|done|exact flags_ok_RW
    |reflexivity|rewrite E1, E3; unfold PGSIZE; lia|].
  assert (uspace kend s2 nodes root l ds) as Hu2.
  { eapply uspace_leaf_ext; [done|done|]. intros va Hva. rewrite Hl2, Hl1, !decide_False; [done| |];
      rewrite ?E1, ?E2 in *; unfold PGSIZE; mach_lia. }
  destruct (uvmfree_run s2 nodes root l ds sz Hu2) as (s' & l' & Hr & Hk & Hl & Hx); [|done|done|].
  { intros va Hva. rewrite Hl2, Hl1. repeat case_decide; try done. apply Hno. rewrite ?E1, ?E2, ?E3 in *. unfold PGSIZE in *. mach_lia. }
  exists s', l'. split_and!; [|done|done|].
  - unfold proc_freepagetable. by rewrite (bind_done _ _ _ _ _ Hr1), (bind_done _ _ _ _ _ Hr2).
  - eapply same_outside_trans; [by apply Hgo|]. eapply same_outside_trans; [by apply Hgo|done].
Qed.

(** *** Creation *)

Lemma uvmcreate_run s q l : kinv kend s (q :: l) →
  ∃ s', uvmcreate (E:=E) s = Done q s' [] ∧ q ≠ 0 ∧ vmst kend s' {[(2%nat, 0) := q]} q l ∧
    (∀ va, leaf (pm s') {[(2%nat, 0) := q]} va = 0) ∧ same_outside [q] (pm s) (pm s').
Proof.
  intros Hk. destruct (kalloc_cons (E:=E) _ _ _ _ Hk) as [Hr Hk1].
  pose proof (ki_pages _ _ _ Hk) as [Hok Hps]%Forall_cons. pose proof (ki_nodup _ _ _ Hk) as [Hql Hnd]%NoDup_cons.
  destruct (page_ok_u64 _ _ kend_pos Hok) as [_ Hq0]. unfold uvmcreate. rewrite (bind_done _ _ _ _ _ Hr).
  destruct (Z.eqb_spec q 0); [done|]. unfold zero_page. mrun.
  exists (mkkmem false (load64 (pm s) q) (memset q 0 PGSIZE (memset q 5 PGSIZE (pm s)))).
  split; [reflexivity|]. split; [done|].
  destruct Hk1 as [_ _ Hc _ _]. cbn [pm freelist km_lock] in *.
  split_and!; [split; [split|split|]| |].
  - exact kend_pos.
  - reflexivity.
  - eapply chain_memset; [done|done|done|by apply Hok].
  - done.
  - done.
  - apply lookup_singleton_eq.
  - intros k k' p [<- _]%lookup_singleton_Some [<- _]%lookup_singleton_Some. done.
  - by intros k p [_ <-]%lookup_singleton_Some.
  - intros l' y r [[= <- <-] <-]%lookup_singleton_Some. by left.
  - intros l' x p i [[= <- <-] <-]%lookup_singleton_Some Hi. rewrite lookup_singleton_ne by done.
    apply load64_zero. intros y Hy. cbn [pm]. rewrite rd_memset by (unfold PGSIZE; lia).
    rewrite decide_True; [reflexivity|]. unfold PGSIZE. lia.
  - by intros k p [_ <-]%lookup_singleton_Some.
  - intros va. unfold leaf. by rewrite lookup_singleton_ne.
  - intros x Hx. assert (¬ in_page q x) as Hq by (apply Hx; left).
    cbn [pm]. rewrite !rd_memset by (unfold PGSIZE; lia). rewrite !decide_False by exact Hq. reflexivity.
Qed.

Lemma empty_uspace s nodes root l : vmst kend s nodes root l →
  (∀ va, 0 ≤ va < TRAPFRAME → leaf (pm s) nodes va = 0) → uspace kend s nodes root l [].
Proof.
  intros Hv Hl. split; [done|split| |]; try done.
  - intros d f Hin. by apply not_elem_of_nil in Hin.
  - intros d Hin. by apply not_elem_of_nil in Hin.
  - constructor.
Qed.

Lemma node_pages_singleton k q : node_pages {[k := q]} = [q].
Proof. unfold node_pages. by rewrite map_to_list_singleton. Qed.

(** Giving up on an address space without user pages. *)
Lemma uvmfree_empty s nodes root l W : vmst kend s nodes root l → (∀ va, 0 ≤ va → leaf (pm s) nodes va = 0) →
  l ++ node_pages nodes ≡ₚ W →
  ∃ s' l', (uvmfree (E:=E) kend root 0 ;; ret 0) s = Done 0 s' [] ∧ kinv kend s' l' ∧ l' ≡ₚ W ∧
    same_outside W (pm s) (pm s').
Proof.
  intros Hv Hl HW. pose proof TRAPFRAME_eq as E1.
  destruct (uvmfree_run s nodes root l [] 0) as (s' & l' & Hr & Hk & Hp & Hx).
  { apply empty_uspace; [done|]. intros va Hva. apply Hl. lia. } { intros va Hva. apply Hl. lia. } { lia. } { done. }
  exists s', l'. rewrite (bind_done _ _ _ _ _ Hr). simpl in *. rewrite app_nil_r in Hp, Hx.
  split_and!; [done|done|by rewrite Hp|]. eapply same_outside_mono; [|exact Hx].
  intros p Hp'. rewrite <-HW. apply elem_of_app. by right.
Qed.

(** [proc_pagetable] builds an empty address space, or fails and gives back
    the pages it took. *)
Lemma proc_pagetable_run s l trampoline trapframe : kinv kend s l → pte_page trampoline → pte_page trapframe →
  ∃ r s' l', proc_pagetable (E:=E) kend trampoline trapframe s = Done r s' [] ∧ same_outside l (pm s) (pm s') ∧
    ((r ≠ 0 ∧ (length l ≤ length l' + 5)%nat ∧
      ∃ nodes, pspace kend s' nodes r l' [] trampoline trapframe ∧ l' ++ node_pages nodes ≡ₚ l) ∨
     (r = 0 ∧ kinv kend s' l' ∧ l' ≡ₚ l ∧ (length l < 5)%nat)).
Proof.
  intros Hk Hp1 Hp2. pose proof TRAPFRAME_eq as E1. pose proof TRAMPOLINE_eq as E2. pose proof MAXVA_eq as E3.
  unfold proc_pagetable. destruct l as [|q l].
  { exists 0, s, []. unfold uvmcreate. rewrite bind_assoc, (bind_done _ _ _ _ _ (kalloc_nil _ _ Hk)).
    split_and!; [done|done|right; split_and!; (done || simpl; lia)]. }
  destruct (uvmcreate_run s q l Hk) as (s1 & Hr1 & Hq0 & Hv1 & Hl1 & Hx1). rewrite (bind_done _ _ _ _ _ Hr1).
  destruct (Z.eqb_spec q 0); [done|].
  destruct (mappages_one (E:=E) kend kend_pos s1 _ q l TRAMPOLINE trampoline (Z.lor PTE_R PTE_X) Hv1)
    as (r2 & s2 & N2 & l2 & Hr2 & Hv2 & Hg2 & Hlen2 & Hres2);
    [reflexivity|rewrite E2, E3; unfold PGSIZE; lia|done|exact (proj1 flags_ok_RX)|apply Hl1|].
  rewrite (bind_done _ _ _ _ _ Hr2). pose proof (gr_pages _ _ _ _ _ _ Hg2) as Hp2'.
  rewrite node_pages_singleton, <-Permutation_cons_append in Hp2'.
  assert (same_outside (q :: l) (pm s) (pm s2)) as Hx2.
  { eapply same_outside_trans; [eapply same_outside_mono; [|exact Hx1]; mem_tauto|].
    eapply same_outside_mono; [|by eapply grown_outside]. rewrite node_pages_singleton. mem_tauto. }
  destruct Hres2 as [[-> Hl2]|(-> & -> & Hsh2 & Hl2)]; cbn [Z.ltb Z.compare].
  2: { destruct (uvmfree_empty s2 N2 q [] (q :: l) Hv2) as (s' & l' & Hr & Hk' & Hp' & Hx').
       - intros va Hva. by rewrite Hl2, Hl1.
       - done.
       - exists 0, s', l'. split_and!; [done|by eapply same_outside_trans|right]. split_and!; (done || simpl; lia). }
  destruct (mappages_one (E:=E) kend kend_pos s2 N2 q l2 TRAPFRAME trapframe (Z.lor PTE_R PTE_W) Hv2)
    as (r3 & s3 & N3 & l3 & Hr3 & Hv3 & Hg3 & Hlen3 & Hres3);
    [reflexivity|rewrite E1, E3; unfold PGSIZE; lia|done|exact (proj1 flags_ok_RW)
    |by rewrite Hl2, decide_False, Hl1 by (rewrite E1, E2; done)|].
  rewrite (bind_done _ _ _ _ _ Hr3). pose proof (gr_pages _ _ _ _ _ _ Hg3) as Hp3'. rewrite Hp2' in Hp3'.
  assert (same_outside (q :: l) (pm s) (pm s3)) as Hx3.
  { eapply same_outside_trans; [exact Hx2|]. eapply same_outside_mono; [|by eapply grown_outside].
    intros p Hp. by rewrite Hp2' in Hp. }
  destruct Hres3 as [[-> Hl3]|(-> & -> & Hsh3 & Hl3)]; cbn [Z.ltb Z.compare].
  - exists q, s3, l3. split_and!; [done|done|left]. split; [done|]. split; [simpl; lia|]. exists N3. split; [split|done].
    + apply empty_uspace; [done|]. intros va Hva. rewrite Hl3, Hl2, !decide_False, Hl1; [done| |];
        rewrite ?E1, ?E2 in *; unfold PGSIZE; mach_lia.
    + rewrite Hl3, Hl2, decide_False, decide_True by (rewrite ?E1, ?E2; done). done.
    + by rewrite Hl3, decide_True.
    + intros va Hva. rewrite Hl3, Hl2, !decide_False, Hl1; [done| |];
        rewrite ?E1, ?E2, ?E3 in *; unfold PGSIZE; mach_lia.
    + done.
  - destruct (uvmunmap_one s3 N3 q [] TRAMPOLINE trampoline (Z.lor PTE_R PTE_X)) as (s4 & Hr4 & Hv4 & Hg4 & Hl4);
      [done|by rewrite Hl3, Hl2, decide_True|done|exact flags_ok_RX|reflexivity|rewrite E2, E3; unfold PGSIZE; lia|].
    rewrite (bind_done _ _ _ _ _ Hr4).
    destruct (uvmfree_empty s4 N3 q [] (q :: l) Hv4) as (s' & l' & Hr & Hk' & Hp' & Hx').
    + intros va Hva. rewrite Hl4, Hl3, Hl2. case_decide; [done|]. by rewrite Hl1.
    + done.
    + exists 0, s', l'. split_and!; [done| |right; split_and!; (done || simpl in *; lia)].
      eapply same_outside_trans; [exact Hx3|]. eapply same_outside_trans; [|exact Hx'].
      eapply same_outside_mono; [|by eapply grown_outside]. intros p Hp. by rewrite Hp3' in Hp.
Qed.
End whole.
