(* ===== verification/Copy.v ===== *)
(** The copies between kernel and user memory ([copyout], [copyin] and
    [copyinstr] of [vm.c]) against user memory as a byte array. *)
From Stdlib Require Import ZArith Lia.
From stdpp Require Import base list gmap strings.
From S2P Require Import Prelude Machine Mem Str Kalloc Vm Pagetable Uvm.

#[local] Opaque memset load64 store64 walk.

(** ** User memory *)

(** The byte at user address [va], and whether user code may write or read
    there. *)
Definition ub (m : mem) (ds : list upage) (va : Z) : Z :=
  match ds !! Z.to_nat (va / PGSIZE) with Some (d, _) => rd m (d + va mod PGSIZE) | None => 0 end.
Definition uwritable (ds : list upage) (va : Z) : bool :=
  (0 <=? va) && match ds !! Z.to_nat (va / PGSIZE) with Some (_, f) => has f PTE_U && has f PTE_W | None => false end.
Definition ureadable (ds : list upage) (va : Z) : bool :=
  (0 <=? va) && match ds !! Z.to_nat (va / PGSIZE) with Some (_, f) => has f PTE_U | None => false end.

(** The [n] bytes from user address [va]. *)
Fixpoint ubs (m : mem) (ds : list upage) (va : Z) (n : nat) : list Z :=
  match n with O => [] | S n' => ub m ds va :: ubs m ds (va + 1) n' end.

Lemma ubs_app m ds va n k : ubs m ds va (n + k) = ubs m ds va n ++ ubs m ds (va + Z.of_nat n) k.
Proof.
  revert va. induction n as [|n IH]; intros va; simpl; [by rewrite Z.add_0_r|].
  rewrite IH. do 3 f_equal. lia.
Qed.
Lemma ubs_length m ds va n : length (ubs m ds va n) = n.
Proof. revert va. induction n as [|n IH]; intros va; simpl; [done|]. by rewrite IH. Qed.
Lemma ubs_lookup m ds va n (i : nat) : (i < n)%nat → ubs m ds va n !! i = Some (ub m ds (va + Z.of_nat i)).
Proof.
  revert va i. induction n as [|n IH]; intros va i Hi; [lia|]. destruct i as [|i]; simpl.
  - by rewrite Z.add_0_r.
  - rewrite IH by lia. do 2 f_equal. lia.
Qed.

Lemma has_lor1 f g : Z.land 1 g = 0 → has (Z.lor f 1) g = has f g.
Proof. intros H. unfold has. by rewrite Z.land_lor_distr_l, H, Z.lor_0_r. Qed.

Section copy.
Context {E : Type} (kend : Z) (kend_pos : 0 < kend).
Context (nodes : nodemap) (root : Z) (l : list Z) (ds : list upage).

(** A process's address space: nothing above the user pages is accessible to
    user code (the trapframe and the trampoline are mapped without
    [PTE_U]). *)
Definition aspace (s : kmem) : Prop :=
  uspace kend s nodes root l ds ∧
  ∀ va, TRAPFRAME ≤ va < MAXVA → has (leaf (pm s) nodes va) PTE_U = false.

Lemma PGROUNDDOWN_page va : is_u64 va → PGROUNDDOWN va = va / PGSIZE * PGSIZE.
Proof. apply PGROUNDDOWN_div. Qed.

(** A page that is not a user page has no entry that is valid and [PTE_U]. *)
Lemma leaf_not_user s va : aspace s → 0 ≤ va < MAXVA → ds !! Z.to_nat (va / PGSIZE) = None →
  has (leaf (pm s) nodes va) PTE_U = false.
Proof.
  intros [[Hv Hm Ht Hr] Htop] Hva Hn. apply lookup_ge_None in Hn.
  destruct (decide (TRAPFRAME ≤ va)); [by apply Htop; lia|].
  rewrite Hr; [done|]. unfold PGSIZE in *. mach_lia.
Qed.

(** The entry found for the page at [va0], as the copy routines use it. *)
Lemma walk_entry {A} s va (X : M E kmem A) (k : Z → M E kmem A) : aspace s → 0 ≤ va < MAXVA → va mod PGSIZE = 0 →
  (let! pte := walk root va false in if pte =? 0 then X else let! v := get_pte pte in k v) s =
  match ds !! Z.to_nat (va / PGSIZE) with
  | Some (d, f) => k (mkpte d f) s
  | None => if decide (is_Some (nodes !! (0%nat, pfx 0 va))) then k (leaf (pm s) nodes va) s else X s
  end.
Proof.
  intros Ha Hva Hmod. pose proof Ha as [Hu Htop].
  destruct (ds !! Z.to_nat (va / PGSIZE)) as [[d f]|] eqn:Hi.
  - pose proof (walk_user (E:=E) kend kend_pos s nodes root l ds _ d f X (λ _, k) Hu Hi) as Hw.
    replace (Z.of_nat (Z.to_nat (va / PGSIZE)) * PGSIZE) with va in Hw; [exact Hw|].
    unfold PGSIZE in *. mach_lia.
  - pose proof (vm_pgt _ _ _ _ _ (us_vm _ _ _ _ _ _ Hu)) as Hp.
    rewrite (bind_done _ _ _ _ _ (walk_false kend kend_pos s nodes root va Hp Hva)). case_decide as Hs.
    + rewrite (leaf_addr_pos kend kend_pos (pm s) nodes root) by done. unfold get_pte. mrun.
      by rewrite leaf_load.
    + unfold leaf_addr. destruct (nodes !! (0%nat, pfx 0 va)) as [p|] eqn:Hq; [by destruct Hs|]. done.
Qed.

Lemma ds_lookup s i d f : aspace s → ds !! i = Some (d, f) →
  pte_page d ∧ 0 ≤ f < 1024 ∧ outside kend nodes l d ∧ d ∈ ds.*1.
Proof. intros [Hu _] Hi. destruct (user_page kend kend_pos _ _ _ _ _ _ _ _ Hu Hi) as (? & [? _] & ? & ?). done. Qed.

(** Writing inside user page [i]. *)
Lemma ub_write s (i : nat) d f o bs va : aspace s → ds !! i = Some (d, f) → 0 ≤ o →
  o + Z.of_nat (length bs) ≤ PGSIZE → 0 ≤ va →
  let a := Z.of_nat i * PGSIZE + o in
  ub (write_bytes (d + o) bs (pm s)) ds va =
  if decide (a ≤ va < a + Z.of_nat (length bs)) then bs !!! Z.to_nat (va - a) else ub (pm s) ds va.
Proof.
  intros Ha Hi Ho Hlen Hva a. unfold ub.
  destruct (ds !! Z.to_nat (va / PGSIZE)) as [[d' f']|] eqn:Hj.
  - rewrite rd_write. destruct (decide (i = Z.to_nat (va / PGSIZE))) as [->|Hne].
    + rewrite Hi in Hj. injection Hj as <- <-. subst a. unfold PGSIZE in *.
      repeat case_decide; try mach_lia; try done. f_equal. mach_lia.
    + assert (d ≠ d') as Hdd.
      { intros ->. apply Hne. pose proof (mp_nodup _ _ _ _ _ _ (us_map _ _ _ _ _ _ (proj1 Ha))) as Hnd.
        eapply NoDup_lookup; [exact Hnd|rewrite list_lookup_fmap, Hi; done|rewrite list_lookup_fmap, Hj; done]. }
      destruct (ds_lookup _ _ _ _ Ha Hi) as ([Hm _] & _). destruct (ds_lookup _ _ _ _ Ha Hj) as ([Hm' _] & _).
      subst a. unfold PGSIZE in *. rewrite !decide_False by mach_lia. done.
  - rewrite decide_False; [done|]. apply lookup_ge_None in Hj. apply lookup_lt_Some in Hi.
    subst a. unfold PGSIZE in *. mach_lia.
Qed.

(** Writing bytes of a user page keeps the address space. *)
Lemma aspace_write s (i : nat) d f a bs : aspace s → ds !! i = Some (d, f) →
  d ≤ a → a + Z.of_nat (length bs) ≤ d + PGSIZE → aspace (upd_pm (write_bytes a bs) s).
Proof.
  intros Ha Hi H1 H2. destruct (ds_lookup _ _ _ _ Ha Hi) as (_ & _ & Ho & _). destruct Ha as [Hu Htop].
  destruct (uspace_write kend _ _ _ _ _ d a bs Hu Ho H1 H2) as [Hu' Hl]. split; [done|].
  intros va Hva. simpl. rewrite Hl. by apply Htop.
Qed.

Lemma user_addr s (i : nat) d f : aspace s → ds !! i = Some (d, f) → (Z.of_nat i + 1) * PGSIZE ≤ TRAPFRAME.
Proof.
  intros [[_ _ Ht _] _] Hi%lookup_lt_Some. unfold PGSIZE in *. lia.
Qed.

(** Only writable user pages differ. *)
Definition changes_user (m m' : mem) : Prop :=
  ∀ x, rd m' x ≠ rd m x → ∃ d f, (d, f) ∈ ds ∧ has f PTE_U = true ∧ has f PTE_W = true ∧ in_page d x.

Lemma changes_user_refl m : changes_user m m.
Proof. by intros x Hx. Qed.
Lemma changes_user_trans m m1 m2 : changes_user m m1 → changes_user m1 m2 → changes_user m m2.
Proof.
  intros H1 H2 x Hx. destruct (decide (rd m2 x = rd m1 x)) as [He|]; [|by apply H2].
  apply H1. by rewrite <-He.
Qed.

(** The outcome of copying [src] to [dstva]: the first [k] bytes are stored. *)
Record copied (s s' : kmem) (dstva : Z) (src : list Z) (r : Z) (k : nat) : Prop := {
  cp_space : aspace s';
  cp_le : (k ≤ length src)%nat;
  cp_res : r = 0 ∧ k = length src ∨ r = -1 ∧ (k < length src)%nat ∧ uwritable ds (dstva + Z.of_nat k) = false;
  cp_range : ∀ va, dstva ≤ va < dstva + Z.of_nat k → uwritable ds va = true;
  cp_bytes : ∀ va, 0 ≤ va → ub (pm s') ds va =
    if decide (dstva ≤ va < dstva + Z.of_nat k) then src !!! Z.to_nat (va - dstva) else ub (pm s) ds va;
  cp_mem : changes_user (pm s) (pm s')
}.

Lemma copied_none s dstva src r : aspace s →
  r = 0 ∧ src = [] ∨ r = -1 ∧ src ≠ [] ∧ uwritable ds dstva = false → copied s s dstva src r 0.
Proof.
  intros Ha Hr. split; [done|lia| | | |apply changes_user_refl].
  - destruct Hr as [[-> ->]|(-> & Hs & Hw)]; [by left|right]. rewrite Z.add_0_r. split_and!; [done| |done].
    destruct src; simpl; [done|lia].
  - intros va Hva. lia.
  - intros va Hva. by rewrite decide_False by lia.
Qed.

(** One page: [n] bytes are stored at [dstva], inside user page [i]. *)
Lemma copied_page s dstva src (i : nat) d f n : aspace s → 0 ≤ dstva → i = Z.to_nat (dstva / PGSIZE) →
  ds !! i = Some (d, f) → has f PTE_U = true → has f PTE_W = true →
  (n ≤ length src)%nat → dstva mod PGSIZE + Z.of_nat n ≤ PGSIZE →
  let s1 := upd_pm (write_bytes (d + dstva mod PGSIZE) (take n src)) s in
  (n = length src → copied s s1 dstva src 0 n) ∧
  (∀ s' r k, copied s1 s' (dstva + Z.of_nat n) (drop n src) r k → copied s s' dstva src r (n + k)).
Proof.
  intros Ha Hd0 Hi Hlk HU HW Hn Hoff s1.
  assert (length (take n src) = n) as Hlen by (rewrite length_take; lia).
  assert (0 ≤ dstva mod PGSIZE < PGSIZE) as Hm by (apply Z.mod_pos_bound; done).
  assert (aspace s1) as Ha1 by (eapply aspace_write; [done|done|lia|rewrite Hlen; lia]).
  assert (Z.of_nat i * PGSIZE + dstva mod PGSIZE = dstva) as Hdst by (subst i; unfold PGSIZE in *; mach_lia).
  assert (∀ va, dstva ≤ va < dstva + Z.of_nat n → uwritable ds va = true) as Hw.
  { intros va Hva. unfold uwritable. assert (Z.to_nat (va / PGSIZE) = i) as -> by (unfold PGSIZE in *; mach_lia).
    rewrite Hlk, HU, HW. destruct (Z.leb_spec 0 va); [done|lia]. }
  assert (∀ va, 0 ≤ va → ub (pm s1) ds va =
    if decide (dstva ≤ va < dstva + Z.of_nat n) then take n src !!! Z.to_nat (va - dstva) else ub (pm s) ds va) as Hub.
  { intros va Hva. simpl. rewrite (ub_write s i d f) by (done || lia). by rewrite Hlen, Hdst. }
  assert (∀ j, (j < n)%nat → take n src !!! j = src !!! j) as Htk
    by (intros j Hj; by rewrite !list_lookup_total_alt, lookup_take_lt).
  assert (changes_user (pm s) (pm s1)) as Hc.
  { intros x Hx. exists d, f. split_and!; [by eapply list_elem_of_lookup_2|done|done|].
    destruct (decide (in_page d x)) as [|Hout]; [done|]. destruct Hx. apply rd_write_out.
    unfold in_page in Hout. lia. }
  split.
  - intros ->. split; [done|lia|by left|done| |done]. intros va Hva. rewrite Hub by done.
    case_decide; [|done]. apply Htk. lia.
  - intros s' r k [H1 H2 H3 H4 H5 H6]. rewrite length_drop in *. split; [done|lia| | | |by eapply changes_user_trans].
    + destruct H3 as [[-> ->]|(-> & ? & Hn')]; [left; lia|right]. split_and!; [done|lia|].
      by replace (dstva + Z.of_nat (n + k)) with (dstva + Z.of_nat n + Z.of_nat k) by lia.
    + intros va Hva. destruct (decide (va < dstva + Z.of_nat n)); [apply Hw; lia|apply H4; lia].
    + intros va Hva. rewrite H5, Hub by done. repeat case_decide; try lia; try done.
      * rewrite !list_lookup_total_alt, lookup_drop. do 2 f_equal. lia.
      * apply Htk. lia.
Qed.

Lemma mkpte_user d f : pte_page d → 0 ≤ f < 1024 →
  has (mkpte d f) PTE_V = true ∧ has (mkpte d f) PTE_U = has f PTE_U ∧ has (mkpte d f) PTE_W = has f PTE_W.
Proof.
  intros Hd Hf. rewrite mkpte_V, !mkpte_flag by (done || unfold PTE_U, PTE_W; lia).
  by rewrite !has_lor1.
Qed.

Lemma copyout_loop_run fuel s dstva src : aspace s → is_u64 dstva → (length src ≤ fuel)%nat →
  ∃ r s' k, copyout_loop (E:=E) fuel root dstva src s = Done r s' [] ∧ copied s s' dstva src r k.
Proof.
  revert s dstva src. induction fuel as [|fuel IH]; intros s dstva src Ha Hd Hf.
  { destruct src; [|simpl in Hf; lia]. exists 0, s, 0%nat. split; [done|]. apply copied_none; [done|by left]. }
  destruct src as [|b src']; [exists 0, s, 0%nat; split; [done|apply copied_none; [done|by left]]|].
  cbn [copyout_loop]. set (src := b :: src') in *. assert (src ≠ []) as Hne by done.
  rewrite PGROUNDDOWN_page by done. set (va0 := dstva / PGSIZE * PGSIZE).
  assert (0 ≤ va0 ≤ dstva ∧ dstva - va0 = dstva mod PGSIZE ∧ va0 mod PGSIZE = 0 ∧ va0 / PGSIZE = dstva / PGSIZE)
    as (Hv0 & Hoff & Hmod & Hdiv) by (subst va0; wrap_unfold; unfold PGSIZE; mach_lia).
  assert (∀ s : kmem, aspace s → uwritable ds dstva = false → ∃ r s' k,
    Done (E:=E) (-1) s [] = Done r s' [] ∧ copied s s' dstva src r k) as Hfail.
  { intros s0 Ha0 Hw. exists (-1), s0, 0%nat. split; [done|]. apply copied_none; [done|by right]. }
  destruct (Z.leb_spec MAXVA va0) as [Hbig|Hsmall].
  { apply Hfail; [done|]. unfold uwritable. rewrite <-Hdiv.
    destruct (ds !! Z.to_nat (va0 / PGSIZE)) as [[d f]|] eqn:Hi; [|by rewrite andb_false_r].
    apply (user_addr _ _ _ _ Ha) in Hi. rewrite TRAPFRAME_eq in Hi. rewrite MAXVA_eq in Hbig.
    unfold PGSIZE in *. mach_lia. }
  rewrite walk_entry by (done || lia). rewrite Hdiv.
  destruct (ds !! Z.to_nat (dstva / PGSIZE)) as [[d f]|] eqn:Hi.
  - destruct (ds_lookup _ _ _ _ Ha Hi) as (Hpd & Hfr & Ho & _). destruct (mkpte_user d f Hpd Hfr) as (-> & -> & ->).
    destruct (has f PTE_U) eqn:HU, (has f PTE_W) eqn:HW; cbn [negb orb];
      try (apply Hfail; [done|]; unfold uwritable; rewrite Hi, HU, ?HW; by rewrite andb_false_r).
    rewrite PTE2PA_mkpte by done. rewrite Hoff. mrun.
    set (n := Z.to_nat (Z.min (PGSIZE - dstva mod PGSIZE) (Z.of_nat (length src)))).
    assert (0 ≤ dstva mod PGSIZE < PGSIZE) as Hm by (apply Z.mod_pos_bound; done).
    destruct (copied_page s dstva src (Z.to_nat (dstva / PGSIZE)) d f n Ha) as [Hlast Hmore]; try done; try (unfold n; lia).
    destruct (decide (n = length src)) as [Hall|Hpart].
    + eexists 0, _, n. split; [|by apply Hlast]. rewrite Hall, drop_ge by done. destruct fuel; reflexivity.
    + assert (0 < n)%nat by (subst n src; simpl in *; unfold PGSIZE in *; lia).
      pose proof (user_addr _ _ _ _ Ha Hi) as Hua. rewrite TRAPFRAME_eq in Hua.
      assert (u64 (va0 + PGSIZE) = dstva + Z.of_nat n) as ->.
      { rewrite u64_small by (wrap_unfold; unfold PGSIZE in *; mach_lia). subst n. lia. }
      destruct (IH (upd_pm (write_bytes (d + dstva mod PGSIZE) (take n src)) s) (dstva + Z.of_nat n) (drop n src))
        as (r & s' & k & Hr & Hc).
      * eapply aspace_write; [done|done|lia|]. rewrite length_take. subst n. lia.
      * wrap_unfold. subst n. unfold PGSIZE in *. mach_lia.
      * rewrite length_drop. subst src. simpl in *. lia.
      * exists r, s', (n + k)%nat. split; [exact Hr|by apply Hmore].
  - assert (uwritable ds dstva = false) as Hw by (unfold uwritable; by rewrite Hi, andb_false_r).
    case_decide; [|by apply Hfail].
    rewrite (leaf_not_user s va0 Ha) by (lia || by rewrite Hdiv). cbn [negb orb].
    rewrite orb_true_r. by apply Hfail.
Qed.

(** ** Reading *)

Lemma walkaddr_run s va : aspace s → is_u64 va → va mod PGSIZE = 0 →
  walkaddr (E:=E) root va s =
  Done (match ds !! Z.to_nat (va / PGSIZE) with Some (d, f) => if has f PTE_U then d else 0 | None => 0 end) s [].
Proof.
  intros Ha Hva Hmod. unfold walkaddr. destruct (Z.leb_spec MAXVA va) as [Hbig|Hs].
  { destruct (ds !! Z.to_nat (va / PGSIZE)) as [[d f]|] eqn:Hi; [|done].
    apply (user_addr _ _ _ _ Ha) in Hi. rewrite TRAPFRAME_eq in Hi. rewrite MAXVA_eq in Hbig.
    unfold PGSIZE in *. mach_lia. }
  rewrite walk_entry by (done || wrap_unfold; lia).
  destruct (ds !! Z.to_nat (va / PGSIZE)) as [[d f]|] eqn:Hi.
  - destruct (ds_lookup _ _ _ _ Ha Hi) as (Hpd & Hfr & _). destruct (mkpte_user d f Hpd Hfr) as (-> & -> & _).
    rewrite PTE2PA_mkpte by done. by destruct (has f PTE_U).
  - case_decide; [|done]. rewrite (leaf_not_user s va Ha) by (wrap_unfold; lia || done). by destruct (negb _).
Qed.

(** Bytes inside user page [i] are the bytes of its physical page. *)
Lemma ubs_page m (i : nat) d f va n : ds !! i = Some (d, f) → 0 ≤ va → i = Z.to_nat (va / PGSIZE) →
  va mod PGSIZE + Z.of_nat n ≤ PGSIZE → ubs m ds va n = bytes_at m (d + va mod PGSIZE) n.
Proof.
  intros Hi Hva Hiv Hn. apply list_eq. intros j. destruct (decide (j < n)%nat) as [Hj|Hj].
  - rewrite ubs_lookup, bytes_at_lookup by done. f_equal. unfold ub.
    replace (Z.to_nat ((va + Z.of_nat j) / PGSIZE)) with i by (unfold PGSIZE in *; mach_lia).
    rewrite Hi. f_equal. unfold PGSIZE in *. mach_lia.
  - rewrite !lookup_ge_None_2; [done| |]; rewrite ?bytes_at_length, ?ubs_length; lia.
Qed.

(** The outcome of reading from [srcva]: [k] bytes are readable. *)
Definition readable_to (srcva : Z) (k : nat) : Prop :=
  ∀ va, srcva ≤ va < srcva + Z.of_nat k → ureadable ds va = true.

Lemma readable_page s (i : nat) d f va n : aspace s → ds !! i = Some (d, f) → has f PTE_U = true → 0 ≤ va →
  i = Z.to_nat (va / PGSIZE) → va mod PGSIZE + Z.of_nat n ≤ PGSIZE → readable_to va n.
Proof.
  intros Ha Hi HU Hva Hiv Hn va' Hr. unfold ureadable.
  replace (Z.to_nat (va' / PGSIZE)) with i by (unfold PGSIZE in *; mach_lia). rewrite Hi, HU.
  destruct (Z.leb_spec 0 va'); [done|lia].
Qed.

Lemma readable_app va n k : readable_to va n → readable_to (va + Z.of_nat n) k → readable_to va (n + k).
Proof.
  intros H1 H2 va' Hr. destruct (decide (va' < va + Z.of_nat n)); [apply H1; lia|apply H2; lia].
Qed.

(** The page loop shared by [copyin] and [copyinstr]. *)
Lemma read_page {A} s srcva (X : M E kmem A) (k : Z → M E kmem A) : aspace s → is_u64 srcva →
  let va0 := PGROUNDDOWN srcva in
  srcva - va0 = srcva mod PGSIZE ∧
  ((ureadable ds srcva = false ∧ (let! pa0 := walkaddr root va0 in if pa0 =? 0 then X else k pa0) s = X s) ∨
   (∃ d f, ds !! Z.to_nat (srcva / PGSIZE) = Some (d, f) ∧ has f PTE_U = true ∧
     (let! pa0 := walkaddr root va0 in if pa0 =? 0 then X else k pa0) s = k d s ∧
     u64 (va0 + PGSIZE) = srcva + (PGSIZE - srcva mod PGSIZE) ∧ is_u64 (u64 (va0 + PGSIZE)))).
Proof.
  intros Ha Hs. rewrite PGROUNDDOWN_page by done. set (va0 := srcva / PGSIZE * PGSIZE). cbv zeta.
  assert (0 ≤ va0 ≤ srcva ∧ srcva - va0 = srcva mod PGSIZE ∧ va0 mod PGSIZE = 0 ∧ va0 / PGSIZE = srcva / PGSIZE)
    as (Hv0 & Hoff & Hmod & Hdiv) by (subst va0; wrap_unfold; unfold PGSIZE; mach_lia).
  split; [done|].
  assert (is_u64 va0) as Hu by (wrap_unfold; lia).
  rewrite (bind_done _ _ _ _ _ (walkaddr_run s va0 Ha Hu Hmod)), Hdiv.
  destruct (ds !! Z.to_nat (srcva / PGSIZE)) as [[d f]|] eqn:Hi.
  - destruct (has f PTE_U) eqn:HU.
    + right. exists d, f. destruct (ds_lookup _ _ _ _ Ha Hi) as (_ & _ & (Hok & _) & _).
      destruct (page_ok_u64 _ _ kend_pos Hok) as [_ Hd0]. apply Z.eqb_neq in Hd0. rewrite Hd0.
      pose proof (user_addr _ _ _ _ Ha Hi) as Hua. rewrite TRAPFRAME_eq in Hua.
      assert (is_u64 (va0 + PGSIZE)) as Hu' by (wrap_unfold; unfold PGSIZE in *; mach_lia).
      rewrite u64_small by done. split_and!; try done. lia.
    + left. split; [|done]. unfold ureadable. by rewrite Hi, HU, andb_false_r.
  - left. split; [|done]. unfold ureadable. by rewrite Hi, andb_false_r.
Qed.

Lemma copyin_loop_run fuel s srcva (len : nat) : aspace s → is_u64 srcva → (len ≤ fuel)%nat →
  ∃ r k, copyin_loop (E:=E) fuel root srcva (Z.of_nat len) s = Done (ubs (pm s) ds srcva k, r) s [] ∧
    readable_to srcva k ∧
    (r = 0 ∧ k = len ∨ r = -1 ∧ (k < len)%nat ∧ ureadable ds (srcva + Z.of_nat k) = false).
Proof.
  intros Ha. revert srcva len. induction fuel as [|fuel IH]; intros srcva len Hs Hf.
  { assert (len = 0%nat) as -> by lia. exists 0, 0%nat. split_and!; [done|intros va ?; lia|by left]. }
  destruct (decide (len = 0%nat)) as [->|Hlen].
  { exists 0, 0%nat. split_and!; [done|intros va ?; lia|by left]. }
  cbn [copyin_loop]. destruct (Z.ltb_spec 0 (Z.of_nat len)); [|lia]. cbn [negb].
  match goal with |- context [bind (walkaddr root (PGROUNDDOWN srcva)) (λ pa0, if pa0 =? 0 then ?X else @?k pa0)] =>
    destruct (read_page s srcva X k Ha Hs) as (Hoff & [[Hr ->]|(d & f & Hi & HU & -> & Hnext & Hnu)]) end.
  { exists (-1), 0%nat. split_and!; [done|intros va ?; lia|right; rewrite Z.add_0_r; split_and!; (done || lia)]. }
  rewrite Hoff. mrun.
  set (n := Z.to_nat (Z.min (PGSIZE - srcva mod PGSIZE) (Z.of_nat len))).
  assert (0 ≤ srcva mod PGSIZE < PGSIZE) as Hm by (apply Z.mod_pos_bound; done).
  assert (Z.min (PGSIZE - srcva mod PGSIZE) (Z.of_nat len) = Z.of_nat n ∧ (n ≤ len)%nat ∧ (0 < n)%nat ∧
    srcva mod PGSIZE + Z.of_nat n ≤ PGSIZE) as (-> & Hn1 & Hn2 & Hn3) by (subst n; lia).
  assert (0 ≤ srcva) as Hs0 by (wrap_unfold; lia).
  rewrite <-(ubs_page (pm s) _ d f srcva n Hi Hs0 eq_refl Hn3).
  pose proof (readable_page s _ d f srcva n Ha Hi HU Hs0 eq_refl Hn3) as Hrd.
  replace (Z.of_nat len - Z.of_nat n) with (Z.of_nat (len - n)) by lia.
  destruct (IH (u64 (PGROUNDDOWN srcva + PGSIZE)) (len - n)%nat Hnu ltac:(lia)) as (r & k & Hr & Hk & Hres).
  rewrite (bind_done _ _ _ _ _ Hr). destruct (decide (n = len)) as [->|Hne].
  - assert (k = 0%nat) as -> by lia. exists 0, len. simpl. rewrite app_nil_r. split_and!; [|done|by left].
    destruct Hres as [[-> _]|?]; [done|lia].
  - assert (u64 (PGROUNDDOWN srcva + PGSIZE) = srcva + Z.of_nat n) as He by (subst n; lia).
    rewrite He in *. exists r, (n + k)%nat. rewrite ubs_app. split_and!; [done|by apply readable_app|].
    destruct Hres as [[-> ->]|(-> & ? & Hu)]; [left; lia|right]. split_and!; [done|lia|].
    by replace (srcva + Z.of_nat (n + k)) with (srcva + Z.of_nat n + Z.of_nat k) by lia.
Qed.

(** *** Strings *)

Lemma copystr_run m n p : ∃ j, (copystr m n p).1 = bytes_at m p j ∧ (j ≤ n)%nat ∧
  ((copystr m n p).2 = true ∧ (∃ str, bytes_at m p j = str ++ [0] ∧ Forall (λ c, c ≠ 0) str) ∨
   (copystr m n p).2 = false ∧ j = n ∧ Forall (λ c, c ≠ 0) (bytes_at m p n)).
Proof.
  revert p. induction n as [|n IH]; intros p; cbn [copystr].
  - exists 0%nat. split_and!; [done|lia|right; by repeat constructor].
  - destruct (Z.eqb_spec (rd m p) 0) as [Hz|Hz].
    + exists 1%nat. split_and!; [by rewrite <-Hz|lia|left]. split; [done|]. exists []. by rewrite <-Hz.
    + destruct (IH (p + 1)) as (j & H1 & H2 & H3). destruct (copystr m n (p + 1)) as [bs g]. simpl in *. subst bs.
      exists (S j). split_and!; [done|lia|]. destruct H3 as [(-> & str & Hs & Hf)|(-> & -> & Hf)]; [left|right].
      * split; [done|]. exists (rd m p :: str). split; [simpl; by rewrite Hs|by constructor].
      * split_and!; [done|done|by constructor].
Qed.

(** The outcome of [copyinstr]: the string with its NUL, or the bytes before
    the limit or the first unreadable address. *)
Definition str_result (s : kmem) (srcva : Z) (max k : nat) (r : Z) : Prop :=
  (r = 0 ∧ (k ≤ max)%nat ∧ ∃ str, ubs (pm s) ds srcva k = str ++ [0] ∧ Forall (λ c, c ≠ 0) str) ∨
  (r = -1 ∧ Forall (λ c, c ≠ 0) (ubs (pm s) ds srcva k) ∧
   (k = max ∨ (k < max)%nat ∧ ureadable ds (srcva + Z.of_nat k) = false)).

Lemma copyinstr_loop_run fuel s srcva (max : nat) : aspace s → is_u64 srcva → (max ≤ fuel)%nat →
  ∃ r k, copyinstr_loop (E:=E) fuel root srcva (Z.of_nat max) s = Done (ubs (pm s) ds srcva k, r) s [] ∧
    readable_to srcva k ∧ str_result s srcva max k r.
Proof.
  intros Ha. revert srcva max. induction fuel as [|fuel IH]; intros srcva max Hs Hf.
  { assert (max = 0%nat) as -> by lia. exists (-1), 0%nat. split_and!; [done|intros va ?; lia|right; by repeat constructor]. }
  destruct (decide (max = 0%nat)) as [->|Hmax].
  { exists (-1), 0%nat. split_and!; [done|intros va ?; lia|right; by repeat constructor]. }
  cbn [copyinstr_loop]. destruct (Z.ltb_spec 0 (Z.of_nat max)); [|lia]. cbn [negb].
  match goal with |- context [bind (walkaddr root (PGROUNDDOWN srcva)) (λ pa0, if pa0 =? 0 then ?X else @?k pa0)] =>
    destruct (read_page s srcva X k Ha Hs) as (Hoff & [[Hr ->]|(d & f & Hi & HU & -> & Hnext & Hnu)]) end.
  { exists (-1), 0%nat. split_and!; [done|intros va ?; lia|right]. split_and!; [done|constructor|right].
    rewrite Z.add_0_r. split; [lia|done]. }
  rewrite Hoff. mrun.
  set (n := Z.to_nat (Z.min (PGSIZE - srcva mod PGSIZE) (Z.of_nat max))).
  assert (0 ≤ srcva mod PGSIZE < PGSIZE) as Hm by (apply Z.mod_pos_bound; done).
  assert (Z.min (PGSIZE - srcva mod PGSIZE) (Z.of_nat max) = Z.of_nat n ∧ (n ≤ max)%nat ∧ (0 < n)%nat ∧
    srcva mod PGSIZE + Z.of_nat n ≤ PGSIZE) as (-> & Hn1 & Hn2 & Hn3) by (subst n; lia).
  assert (0 ≤ srcva) as Hs0 by (wrap_unfold; lia).
  assert (∀ j, (j ≤ n)%nat → bytes_at (pm s) (d + srcva mod PGSIZE) j = ubs (pm s) ds srcva j ∧ readable_to srcva j) as Hj.
  { intros j Hj. split; [symmetry; eapply ubs_page; (done || lia)|eapply readable_page; (done || lia)]. }
  destruct (copystr_run (pm s) n (d + srcva mod PGSIZE)) as (j & H1 & H2 & H3).
  destruct (copystr (pm s) n (d + srcva mod PGSIZE)) as [bs g]. simpl in *. subst bs.
  destruct (Hj j H2) as [Hbj Hrj]. rewrite Hbj.
  destruct H3 as [(-> & str & Hstr & Hnz)|(-> & -> & Hnz)].
  { exists 0, j. split_and!; [done|done|left]. split_and!; [done|lia|]. exists str. by rewrite <-Hbj. }
  rewrite Hbj in Hnz.
  replace (Z.of_nat max - Z.of_nat n) with (Z.of_nat (max - n)) by lia.
  destruct (IH (u64 (PGROUNDDOWN srcva + PGSIZE)) (max - n)%nat Hnu ltac:(lia)) as (r & k & Hr & Hk & Hres).
  rewrite (bind_done _ _ _ _ _ Hr). destruct (decide (n = max)) as [->|Hne].
  - assert (k = 0%nat ∧ r = -1) as [-> ->].
    { destruct Hres as [(_ & ? & str & He & _)|(-> & _ & ?)]; [|lia]. assert (k = 0%nat) as -> by lia. by destruct str. }
    exists (-1), max. simpl. rewrite app_nil_r. split_and!; [done|done|right]. split_and!; [done|done|by left].
  - assert (u64 (PGROUNDDOWN srcva + PGSIZE) = srcva + Z.of_nat n) as He by (subst n; lia).
    rewrite He in *. exists r, (n + k)%nat. rewrite ubs_app. split_and!; [done|by apply readable_app|].
    unfold str_result. rewrite ubs_app. destruct Hres as [(-> & ? & str & Hs' & Hnz')|(-> & Hnz' & Hend)]; [left|right].
    + split_and!; [done|lia|]. exists (ubs (pm s) ds srcva n ++ str). rewrite Hs', app_assoc. split; [done|].
      by apply Forall_app.
    + split_and!; [done|by apply Forall_app|]. destruct Hend as [->|[? Hu]]; [left; lia|right]. split; [lia|].
      by replace (srcva + Z.of_nat (n + k)) with (srcva + Z.of_nat n + Z.of_nat k) by lia.
Qed.
End copy.
