(* ===== verification/VmThm.v ===== *)
(** The theorems about user memory: mapping, growing, cloning and releasing
    address spaces, and the copies between kernel and user. *)
From Stdlib Require Import ZArith Lia.
From stdpp Require Import base list gmap strings.
From S2P Require Import Prelude Machine Mem Str Kalloc Vm Pagetable Uvm Uvmfree Copy.

#[local] Opaque memset load64 store64 walk.

(** ** An example address space *)

Definition kend0 : Z := PHYSTOP - 16 * 4096.
Definition tramp0 : Z := KERNBASE.
Definition tf0 : Z := KERNBASE + 4096.

Lemma kend0_ok : 0 < kend0 ≤ PHYSTOP.
Proof. unfold kend0, PHYSTOP, KERNBASE. lia. Qed.
Lemma kend0_pos : 0 < kend0.
Proof. apply kend0_ok. Qed.
Lemma tramp0_page : pte_page tramp0.
Proof. by split. Qed.
Lemma tf0_page : pte_page tf0.
Proof. by split. Qed.

Lemma flags_ok_perm xperm : 0 ≤ xperm < 1024 → flags_ok (Z.lor (Z.lor PTE_R PTE_U) xperm).
Proof.
  intros Hx. change (Z.lor PTE_R PTE_U) with 18. split; [apply lor_small; lia|].
  intros H. assert (Z.testbit (Z.lor (Z.lor 18 xperm) 1) 1 = Z.testbit 1 1) as Hb by (by rewrite H).
  rewrite !Z.lor_spec in Hb. done.
Qed.

Lemma pspace_empty : ∃ s nodes root l, pspace kend0 s nodes root l [] tramp0 tf0 ∧ (11 ≤ length l)%nat.
Proof.
  destruct (kinit_run (E:=unit) kend0 (mkkmem false 0 ∅) kend0_ok eq_refl) as (s0 & _ & Hk).
  assert (length (reverse (all_pages kend0)) = 16%nat) as Hlen by (rewrite length_reverse; reflexivity).
  destruct (proc_pagetable_run (E:=unit) kend0 kend0_pos s0 _ tramp0 tf0 Hk tramp0_page tf0_page)
    as (r & s & l & _ & _ & [(_ & Hl & nodes & Hp & _)|(_ & _ & _ & Hl)]); [|lia].
  exists s, nodes, r, l. split; [done|lia].
Qed.

Lemma pspace_uspace_kept kend s nodes root l ds tr tf s' nodes' l' ds' : pspace kend s nodes root l ds tr tf →
  uspace kend s' nodes' root l' ds' →
  (∀ va, TRAPFRAME ≤ va → leaf (pm s') nodes' va = leaf (pm s) nodes va) → pspace kend s' nodes' root l' ds' tr tf.
Proof.
  intros [H1 H2 H3 H4 H5] Hu Hl. pose proof TRAPFRAME_eq. pose proof TRAMPOLINE_eq. pose proof MAXVA_eq.
  split; [done| | | |done].
  - by rewrite Hl by lia.
  - by rewrite Hl by lia.
  - intros va Hva. rewrite Hl by lia. by apply H4.
Qed.

(** One writable page at address 0, and enough free pages. *)
Lemma pspace_page : ∃ s nodes root l q, pspace kend0 s nodes root l [(q, 22)] tramp0 tf0 ∧ (8 ≤ length l)%nat.
Proof.
  destruct pspace_empty as (s & nodes & root & l & Hp & Hl).
  destruct l as [|q l]; [simpl in Hl; lia|].
  destruct (add_page (E:=unit) kend0 kend0_pos s nodes root q l [] zeros 22 (ps_user _ _ _ _ _ _ _ _ Hp))
    as (s1 & r & s' & nodes' & l' & _ & _ & _ & _ & _ & _ & _ & _ & Htop & Hlen & Hres);
    [apply zeros_length|simpl; rewrite TRAPFRAME_eq; unfold PGSIZE; lia|split; [lia|done]|].
  destruct Hres as [[_ Hu]|(_ & -> & ? & _)]; [|simpl in *; lia].
  exists s', nodes', root, l', q. split; [|simpl in *; lia]. by eapply pspace_uspace_kept.
Qed.

Lemma pspace_aspace kend s nodes root l ds tr tf : pspace kend s nodes root l ds tr tf →
  aspace kend nodes root l ds s.
Proof.
  intros [Hu Htr Htf Hno [H1 H2]]. split; [done|]. intros va Hva.
  pose proof TRAPFRAME_eq as E1. pose proof TRAMPOLINE_eq as E2. pose proof MAXVA_eq as E3. rewrite E1, E3 in Hva.
  destruct (decide (va < TRAMPOLINE)).
  - rewrite (leaf_page _ _ va TRAPFRAME), Htf by (rewrite E1, E2 in *; unfold PGSIZE; mach_lia).
    rewrite mkpte_flag; [done|done|change (Z.lor PTE_R PTE_W) with 6; lia|unfold PTE_U; lia].
  - rewrite (leaf_page _ _ va TRAMPOLINE), Htr by (rewrite E2 in *; unfold PGSIZE; mach_lia).
    rewrite mkpte_flag; [done|done|change (Z.lor PTE_R PTE_X) with 10; lia|unfold PTE_U; lia].
Qed.

(** ** Mapping *)

(** [mappages] on unmapped, page-aligned addresses never panics. Either it
    returns 0 and every page of the range translates to its physical page with
    the given permissions, or it returns -1 having mapped a prefix of the range
    when no page was left for a page-table page. Every other translation is
    unchanged, pages are only moved from the free list into the tree, and
    memory outside the tree is not written. *)
Theorem mappages_correct kend s nodes root l va n pa perm :
  0 < kend → vmst kend s nodes root l → (0 < n)%nat → va mod PGSIZE = 0 → 0 ≤ va →
  va + Z.of_nat n * PGSIZE ≤ MAXVA → pa mod PGSIZE = 0 → 0 ≤ pa → pa + Z.of_nat n * PGSIZE ≤ 2 ^ 50 →
  0 ≤ perm < 1024 → (∀ i, 0 ≤ i < Z.of_nat n → has (leaf (pm s) nodes (va + i * PGSIZE)) PTE_V = false) →
  ∃ r s' nodes' l' k,
    mappages (E:=unit) root va (Z.of_nat n * PGSIZE) pa perm s = Done r s' [] ∧
    vmst kend s' nodes' root l' ∧ grown s nodes l s' nodes' l' ∧
    (∀ va', leaf (pm s') nodes' va' = map_range (leaf (pm s) nodes) va k pa perm va') ∧
    (r = 0 ∧ k = n ∨ r = -1 ∧ (k < n)%nat ∧ l' = [] ∧ (length l < 2 * n)%nat).
Proof.
  intros Hk Hv Hn Hva Hva0 Hmax Hpa Hpa0 Hpm Hperm Hun.
  destruct (mappages_run (E:=unit) kend Hk n s nodes root l va pa perm)
    as (r & s' & nodes' & l' & k & Hr & Hv' & Hg & Hl & _ & Hres); try done.
  by exists r, s', nodes', l', k.
Qed.

Lemma mappages_correct_witness : ∃ s nodes root l r s' nodes' l' k,
  mappages (E:=unit) root 4096 (Z.of_nat 2 * PGSIZE) tramp0 18 s = Done r s' [] ∧
  vmst kend0 s' nodes' root l' ∧ grown s nodes l s' nodes' l' ∧
  (∀ va', leaf (pm s') nodes' va' = map_range (leaf (pm s) nodes) 4096 k tramp0 18 va') ∧
  (r = 0 ∧ k = 2%nat ∨ r = -1 ∧ (k < 2)%nat ∧ l' = [] ∧ (length l < 2 * 2)%nat).
Proof.
  destruct pspace_empty as (s & nodes & root & l & Hp & _). exists s, nodes, root, l.
  apply (mappages_correct kend0).
  - exact kend0_pos.
  - apply Hp.
  - lia.
  - reflexivity.
  - lia.
  - rewrite MAXVA_eq. unfold PGSIZE. lia.
  - reflexivity.
  - unfold tramp0, KERNBASE. lia.
  - unfold tramp0, KERNBASE, PGSIZE. lia.
  - lia.
  - intros i Hi. rewrite (us_rest _ _ _ _ _ _ (ps_user _ _ _ _ _ _ _ _ Hp)); [done|].
    simpl. rewrite TRAPFRAME_eq. unfold PGSIZE. lia.
Defined.

(** ** Growing *)

(** C37. [uvmalloc] grows an address space from [oldsz] to [newsz] bytes
    without panicking. It returns [newsz] with the missing pages appended,
    zero-filled and with the requested permissions, or it returns 0 with the
    address space exactly as before, which happens only when fewer than three
    pages per requested page are free. Pages are conserved between free list,
    page table and user memory, and nothing else is written: in particular the
    contents of the old pages are kept. *)
Theorem uvmalloc_correct kend s nodes root l ds oldsz newsz xperm :
  0 < kend → uspace kend s nodes root l ds → 0 ≤ oldsz ≤ newsz → newsz ≤ TRAPFRAME →
  length ds = npages oldsz → 0 ≤ xperm < 1024 →
  ∃ r s' nodes' l' ds', uvmalloc (E:=unit) kend root oldsz newsz xperm s = Done r s' [] ∧
    uspace kend s' nodes' root l' ds' ∧
    l' ++ node_pages nodes' ++ ds'.*1 ≡ₚ l ++ node_pages nodes ++ ds.*1 ∧
    same_outside (l ++ node_pages nodes) (pm s) (pm s') ∧
    (r = newsz ∧ (∃ new, ds' = ds ++ new ∧ length ds' = npages newsz ∧ zeroed (pm s') new ∧
                    Forall (λ u, u.2 = Z.lor (Z.lor PTE_R PTE_U) xperm) new) ∨
     r = 0 ∧ ds' = ds ∧ (length l < 3 * (npages newsz - npages oldsz))%nat).
Proof.
  intros Hk Hu Hsz Htop Hlen Hx.
  pose proof (npages_mono oldsz newsz Hsz) as Hmono.
  destruct (uvmalloc_loop_run (E:=unit) kend Hk (npages newsz - npages oldsz)
    (Z.to_nat ((newsz - oldsz) / PGSIZE + 1)) s nodes root l ds [] newsz xperm)
    as (r & s' & nodes' & l' & ds' & Hr & Hu' & Hp & Ho & _ & Hres).
  - by rewrite app_nil_r.
  - by apply flags_ok_perm.
  - lia.
  - rewrite app_nil_r. lia.
  - unfold npages, PGSIZE. mach_lia.
  - intros d x Hd. by apply not_elem_of_nil in Hd.
  - constructor.
  - rewrite !app_nil_r in *. exists r, s', nodes', l', ds'. split_and!; try done.
    unfold uvmalloc. destruct (Z.ltb_spec newsz oldsz); [lia|].
    by rewrite PGROUNDUP_npages, <-Hlen by lia.
Qed.

Lemma uvmalloc_correct_witness : ∃ s nodes root l ds r s' nodes' l' ds',
  uvmalloc (E:=unit) kend0 root 4096 12288 4 s = Done r s' [] ∧
  uspace kend0 s' nodes' root l' ds' ∧
  l' ++ node_pages nodes' ++ ds'.*1 ≡ₚ l ++ node_pages nodes ++ ds.*1 ∧
  same_outside (l ++ node_pages nodes) (pm s) (pm s') ∧
  (r = 12288 ∧ (∃ new, ds' = ds ++ new ∧ length ds' = npages 12288 ∧ zeroed (pm s') new ∧
                  Forall (λ u, u.2 = Z.lor (Z.lor PTE_R PTE_U) 4) new) ∨
   r = 0 ∧ ds' = ds ∧ (length l < 3 * (npages 12288 - npages 4096))%nat).
Proof.
  destruct pspace_page as (s & nodes & root & l & q & Hp & _). exists s, nodes, root, l, [(q, 22)].
  apply (uvmalloc_correct kend0); [exact kend0_pos|apply Hp|lia|rewrite TRAPFRAME_eq; lia|reflexivity|lia].
Defined.

(** ** Cloning *)

(** C8. [uvmcopy] either clones the parent's user pages into the empty child
    address space, byte for byte and with the same permissions, or fails and
    leaves the child empty with every page it took returned, which happens only
    when fewer than three pages per page to copy are free. In both cases the
    parent's page table, pages and contents are untouched. *)
Theorem uvmcopy_clones kend s nodes root onodes oroot l ds sz :
  0 < kend → uspace kend s nodes root l [] → uspace kend s onodes oroot l ds →
  (∀ p, p ∈ node_pages onodes ++ ds.*1 → p ∉ node_pages nodes) →
  0 ≤ sz ≤ TRAPFRAME → length ds = npages sz →
  ∃ r s' nodes' l' new, uvmcopy (E:=unit) kend oroot root sz s = Done r s' [] ∧
    uspace kend s' nodes' root l' new ∧ uspace kend s' onodes oroot l' ds ∧
    l' ++ node_pages nodes' ++ new.*1 ≡ₚ l ++ node_pages nodes ∧
    (∀ d x, d ∈ ds.*1 → in_page d x → rd (pm s') x = rd (pm s) x) ∧
    (r = 0 ∧ length new = length ds ∧ copies (pm s') ds new ∨
     r = -1 ∧ new = [] ∧ (length l < 3 * npages sz)%nat).
Proof.
  intros Hk Hu Ho Hdis Hsz Hlen.
  assert (∀ p, p ∈ node_pages onodes ++ ds.*1 → p ∉ l ++ node_pages nodes) as HW.
  { intros p Hp. rewrite elem_of_app. intros [Hl|Hn]; [|by eapply Hdis].
    apply elem_of_app in Hp as [[k Hp]%elem_of_node_pages|Hp].
    - by eapply (vm_sep _ _ _ _ _ (us_vm _ _ _ _ _ _ Ho)).
    - by destruct (mapped_out _ _ _ _ _ _ _ (us_map _ _ _ _ _ _ Ho) Hp) as (_ & ? & _). }
  destruct (uvmcopy_loop_run (E:=unit) kend Hk (length ds) (Z.to_nat ((sz + PGSIZE - 1) / PGSIZE))
    s nodes root l [] onodes oroot ds sz (l ++ node_pages nodes))
    as (r & s' & nodes' & l' & new & Hr & Hu' & Ho' & Hp & Hx & _ & Hres); try done.
  - by rewrite app_nil_r.
  - rewrite Hlen. unfold npages. apply Z2Nat.inj_le; unfold PGSIZE; mach_lia.
  - exists r, s', nodes', l', new. split_and!; try done.
    + intros d x Hd Hin. destruct (uspace_other kend s onodes oroot l ds s' l' (l ++ node_pages nodes) Ho) as (_ & _ & Hb);
        [apply Ho'| |done| |done|by apply (Hb d)].
      * pose proof (uspace_pages_ok kend s nodes root l [] Hu) as Hf. simpl in Hf. by rewrite app_nil_r in Hf.
      * intros p Hin'. rewrite <-Hp. apply elem_of_app. by left.
    + destruct Hres as [?|(? & ? & ?)]; [by left|right]. by rewrite <-Hlen.
Qed.

Lemma uvmcopy_clones_witness : ∃ s nodes root onodes oroot l ds r s' nodes' l' new,
  uvmcopy (E:=unit) kend0 oroot root 100 s = Done r s' [] ∧
  uspace kend0 s' nodes' root l' new ∧ uspace kend0 s' onodes oroot l' ds ∧
  l' ++ node_pages nodes' ++ new.*1 ≡ₚ l ++ node_pages nodes ∧
  (∀ d x, d ∈ ds.*1 → in_page d x → rd (pm s') x = rd (pm s) x) ∧
  (r = 0 ∧ length new = length ds ∧ copies (pm s') ds new ∨
   r = -1 ∧ new = [] ∧ (length l < 3 * npages 100)%nat).
Proof.
  destruct pspace_page as (s0 & on & oroot & l0 & q & Hp & Hlen0).
  destruct (proc_pagetable_run (E:=unit) kend0 kend0_pos s0 l0 tramp0 tf0)
    as (root & s & l & _ & Hx & [(_ & _ & nodes & Hps & Hperm)|(_ & _ & _ & ?)]);
    [apply Hp|exact tramp0_page|exact tf0_page| |lia].
  pose proof (ps_user _ _ _ _ _ _ _ _ Hp) as Hou.
  assert (∀ p, p ∈ node_pages on ++ [(q, 22)].*1 → p ∉ l0) as Hd.
  { intros p [[k Hk]%elem_of_node_pages|Hin]%elem_of_app.
    - by eapply (vm_sep _ _ _ _ _ (us_vm _ _ _ _ _ _ Hou)).
    - by destruct (mapped_out _ _ _ _ _ _ _ (us_map _ _ _ _ _ _ Hou) Hin) as (_ & ? & _). }
  exists s, nodes, root, on, oroot, l, [(q, 22)].
  apply (uvmcopy_clones kend0 s nodes root on oroot l [(q, 22)] 100).
  - exact kend0_pos.
  - apply Hps.
  - eapply (uspace_other kend0 s0 on oroot l0 _ s l l0); [exact Hou|apply Hps|apply Hou|exact Hd| |exact Hx].
    intros p Hin. rewrite <-Hperm. apply elem_of_app. by left.
  - intros p Hin Hn. apply (Hd p Hin). rewrite <-Hperm. apply elem_of_app. by right.
  - rewrite TRAPFRAME_eq. lia.
  - reflexivity.
Defined.

(** ** Releasing *)

(** What [exec] and [fork] do with a new address space that they give up:
    create it, grow it to [sz] bytes, release it. *)
Definition address_space_cycle (kend trampoline trapframe sz : Z) : M unit kmem unit :=
  let! pagetable := proc_pagetable kend trampoline trapframe in
  if pagetable =? 0 then ret tt else
  let! sz' := uvmalloc kend pagetable 0 sz PTE_W in
  proc_freepagetable kend pagetable sz'.

(** C17. No memory leaks: creating a page table, growing it to any size and
    releasing it ends, whether or not memory runs out on the way, with the same
    pages on the free list as before, each once, and without a panic. *)
Theorem address_space_no_leak kend s l trampoline trapframe sz :
  0 < kend → kinv kend s l → pte_page trampoline → pte_page trapframe → 0 ≤ sz ≤ TRAPFRAME →
  ∃ s' l', address_space_cycle kend trampoline trapframe sz s = Done tt s' [] ∧ kinv kend s' l' ∧ l' ≡ₚ l.
Proof.
  intros Hk Hi Ht Hf Hsz. unfold address_space_cycle.
  destruct (proc_pagetable_run (E:=unit) kend Hk s l trampoline trapframe Hi Ht Hf)
    as (r & s1 & l1 & Hr1 & _ & [(Hr0 & _ & nodes & Hp & Hl1)|(-> & Hi1 & Hl1 & _)]);
    rewrite (bind_done _ _ _ _ _ Hr1); [|by exists s1, l1].
  destruct (Z.eqb_spec r 0); [done|].
  destruct (uvmalloc_loop_run (E:=unit) kend Hk (npages sz) (Z.to_nat ((sz - 0) / PGSIZE + 1)) s1 nodes r l1 [] [] sz PTE_W)
    as (r2 & s2 & nodes2 & l2 & ds & Hr2 & Hu2 & Hpm & _ & Htop & Hres).
  - apply Hp.
  - apply flags_ok_perm. unfold PTE_W. lia.
  - lia.
  - reflexivity.
  - unfold npages, PGSIZE. mach_lia.
  - intros d x Hd. by apply not_elem_of_nil in Hd.
  - constructor.
  - assert (uvmalloc (E:=unit) kend r 0 sz PTE_W s1 = Done r2 s2 []) as Hr2'.
    { unfold uvmalloc. destruct (Z.ltb_spec sz 0); [lia|]. exact Hr2. }
    rewrite (bind_done _ _ _ _ _ Hr2').
    destruct (proc_freepagetable_run (E:=unit) kend Hk s2 nodes2 r l2 ds r2 trampoline trapframe)
      as (s' & l' & Hr & Hk' & Hl' & _).
    + destruct Hp as [_ H2 H3 H4 H5]. pose proof TRAPFRAME_eq. pose proof TRAMPOLINE_eq. pose proof MAXVA_eq.
      split; [done|by rewrite Htop by lia|by rewrite Htop by lia|intros va Hva; rewrite Htop by lia; by apply H4|done].
    + destruct Hres as [[-> _]|[-> _]]; lia.
    + destruct Hres as [(-> & new & -> & Hlen & _)|(-> & -> & _)]; [done|reflexivity].
    + exists s', l'. split_and!; [done|done|]. by rewrite Hl', Hpm, <-Hl1, app_nil_r.
Qed.

Lemma address_space_no_leak_witness : ∃ s l s' l',
  address_space_cycle kend0 tramp0 tf0 10000 s = Done tt s' [] ∧ kinv kend0 s' l' ∧ l' ≡ₚ l.
Proof.
  destruct (kinit_run (E:=unit) kend0 (mkkmem false 0 ∅) kend0_ok eq_refl) as (s & _ & Hk).
  exists s, (reverse (all_pages kend0)).
  apply (address_space_no_leak kend0 s (reverse (all_pages kend0)) tramp0 tf0 10000);
    [exact kend0_pos|exact Hk|exact tramp0_page|exact tf0_page|rewrite TRAPFRAME_eq; lia].
Defined.

(** ** Copies *)

(** C18. [copyout] cannot be misused by a process: for every user address and
    every buffer it terminates without a panic with 0 or -1. It stores the
    longest prefix of the buffer that fits pages the process may write, at the
    addresses asked for; it returns 0 exactly when that is the whole buffer; and
    a byte of memory it changes lies in a user page with both [PTE_U] and
    [PTE_W]. *)
Theorem copyout_isolated kend nodes root l ds s dstva src :
  0 < kend → aspace kend nodes root l ds s → is_u64 dstva →
  ∃ r s' k, copyout (E:=unit) root dstva src s = Done r s' [] ∧
    copied kend nodes root l ds s s' dstva src r k.
Proof. intros Hk Ha Hd. by apply copyout_loop_run. Qed.

Lemma copyout_isolated_witness : ∃ nodes root l ds s r s' k,
  copyout (E:=unit) root 4090 [1; 2; 3; 4; 5; 6; 7; 8] s = Done r s' [] ∧
  copied kend0 nodes root l ds s s' 4090 [1; 2; 3; 4; 5; 6; 7; 8] r k.
Proof.
  destruct pspace_page as (s & nodes & root & l & q & Hp & _). exists nodes, root, l, [(q, 22)], s.
  apply (copyout_isolated kend0); [exact kend0_pos|by eapply pspace_aspace|wrap_unfold; lia].
Defined.

(** C35. What [copyout] stores, [copyin] reads back: on a range of user
    addresses that the process may write, both succeed and the bytes are those
    of the kernel buffer, also when the range crosses page boundaries. *)
Theorem copyout_copyin_roundtrip kend nodes root l ds s dstva src :
  0 < kend → aspace kend nodes root l ds s → is_u64 dstva →
  (∀ va, dstva ≤ va < dstva + Z.of_nat (length src) → uwritable ds va = true) →
  ∃ s', copyout (E:=unit) root dstva src s = Done 0 s' [] ∧
    copyin (E:=unit) root dstva (Z.of_nat (length src)) s' = Done (src, 0) s' [].
Proof.
  intros Hk Ha Hd Hw.
  destruct (copyout_loop_run (E:=unit) kend Hk nodes root l ds (length src) s dstva src Ha Hd) as (r & s' & k & Hr & Hc); [done|].
  destruct Hc as [Ha' Hle Hres _ Hb _].
  destruct Hres as [[-> ->]|(_ & Hlt & Hnw)]; [|rewrite Hw in Hnw by lia; done].
  exists s'. split; [done|]. unfold copyin. rewrite Nat2Z.id.
  destruct (copyin_loop_run (E:=unit) kend Hk nodes root l ds (length src) s' dstva (length src) Ha' Hd) as (r & k & Hr' & _ & Hres); [done|].
  rewrite Hr'. destruct Hres as [[-> ->]|(_ & Hlt & Hnr)].
  - f_equal. f_equal. apply list_eq. intros i. destruct (decide (i < length src)%nat) as [Hi|Hi].
    + rewrite ubs_lookup by done. wrap_unfold. rewrite Hb, decide_True by lia.
      rewrite (list_lookup_lookup_total_lt src i Hi). do 2 f_equal. lia.
    + rewrite !lookup_ge_None_2; [done|lia|rewrite ubs_length; lia].
  - specialize (Hw (dstva + Z.of_nat k) ltac:(lia)). unfold uwritable, ureadable in *.
    destruct (ds !! Z.to_nat ((dstva + Z.of_nat k) / PGSIZE)) as [[d f]|]; [|by rewrite andb_false_r in Hw].
    destruct (0 <=? dstva + Z.of_nat k); [|done]. simpl in *. rewrite Hnr in Hw. done.
Qed.

Lemma copyout_copyin_roundtrip_witness : ∃ root s s',
  copyout (E:=unit) root 100 [7; 8; 9] s = Done 0 s' [] ∧
  copyin (E:=unit) root 100 (Z.of_nat (length [7; 8; 9])) s' = Done ([7; 8; 9], 0) s' [].
Proof.
  destruct pspace_page as (s & nodes & root & l & q & Hp & _). exists root, s.
  apply (copyout_copyin_roundtrip kend0 nodes root l [(q, 22)] s 100 [7; 8; 9]);
    [exact kend0_pos|by eapply pspace_aspace|wrap_unfold; lia|].
  intros va Hva. simpl in Hva. unfold uwritable.
  replace (Z.to_nat (va / PGSIZE)) with 0%nat by (unfold PGSIZE; mach_lia).
  destruct (Z.leb_spec 0 va); [reflexivity|lia].
Defined.

(** C36. [copyinstr] terminates on every user address, changes nothing, reads
    only pages the process may read, and returns 0 exactly when it found the
    terminating NUL within [max] bytes, the bytes stored being then the string
    with its NUL; otherwise no byte it stored is NUL and it stopped at the limit
    or at the first unreadable address. *)
Theorem copyinstr_correct kend nodes root l ds s srcva (max : nat) :
  0 < kend → aspace kend nodes root l ds s → is_u64 srcva →
  ∃ r k, copyinstr (E:=unit) root srcva (Z.of_nat max) s = Done (ubs (pm s) ds srcva k, r) s [] ∧
    readable_to ds srcva k ∧ str_result ds s srcva max k r.
Proof. intros Hk Ha Hd. unfold copyinstr. rewrite Nat2Z.id. by eapply copyinstr_loop_run. Qed.

Lemma copyinstr_correct_witness : ∃ root ds s r k,
  copyinstr (E:=unit) root 4095 (Z.of_nat 128) s = Done (ubs (pm s) ds 4095 k, r) s [] ∧
  readable_to ds 4095 k ∧ str_result ds s 4095 128 k r.
Proof.
  destruct pspace_page as (s & nodes & root & l & q & Hp & _). exists root, [(q, 22)], s.
  apply (copyinstr_correct kend0 nodes root l); [exact kend0_pos|by eapply pspace_aspace|wrap_unfold; lia].
Defined.
