(* ===== verification/KvmThm.v ===== *)
(** The kernel's page table: what [kvmmake] and [proc_mapstacks] build. *)
From Stdlib Require Import ZArith Lia.
From stdpp Require Import base list gmap strings.
From S2P Require Import Prelude Machine Mem Str Kalloc Vm Pagetable Uvm Uvmfree.

(** ** The page-table pages it can need *)

(** The nodes on the paths of the addresses the kernel maps: one of level 2,
    three of level 1 and 98 of level 0. *)
Definition kernel_keys : list (nat * Z) :=
  (2%nat, 0) :: ((λ x, (1%nat, x)) <$> [0; 2; 255]) ++
  ((λ x, (0%nat, x)) <$> (seqZ 96 33 ++ seqZ 1024 64 ++ [131071])).
Definition kernel_va (va : Z) : Prop :=
  PLIC ≤ va < VIRTIO0 + PGSIZE ∨ KERNBASE ≤ va < PHYSTOP ∨ TRAMPOLINE - 2 * 64 * PGSIZE ≤ va < MAXVA.

Lemma kernel_va_key va lv : kernel_va va → (lv < 2)%nat → (lv, pfx lv va) ∈ kernel_keys.
Proof.
  unfold kernel_va, kernel_keys, pfx, PLIC, VIRTIO0, KERNBASE, PHYSTOP, KERNBASE, TRAMPOLINE. rewrite MAXVA_eq. unfold PGSIZE.
  intros Hva Hlv. apply elem_of_cons. right. apply elem_of_app. destruct lv as [|[|?]]; [right|left|lia].
  - change (2 ^ (21 + 9 * Z.of_nat 0)) with 2097152. apply list_elem_of_fmap. eexists; split; [done|].
    rewrite !elem_of_app, !elem_of_seqZ, list_elem_of_singleton.
    destruct Hva as [?|[?|?]]; [left|right; left|right; right]; mach_lia.
  - change (2 ^ (21 + 9 * Z.of_nat 1)) with 1073741824. apply list_elem_of_fmap. eexists; split; [done|].
    rewrite !elem_of_cons. destruct Hva as [?|[?|?]]; [left|right; left|right; right; left]; mach_lia.
Qed.

Definition keys_ok (nodes : nodemap) : Prop := ∀ k, is_Some (nodes !! k) → k ∈ kernel_keys.

Lemma keys_ok_size nodes : keys_ok nodes → (length (node_pages nodes) ≤ 102)%nat.
Proof.
  intros Hk. unfold node_pages. rewrite length_fmap, <- (length_fmap fst).
  change 102%nat with (length kernel_keys). apply submseteq_length, NoDup_submseteq; [apply NoDup_fst_map_to_list|].
  intros k Hin. apply Hk. apply list_elem_of_fmap in Hin as ([k' p] & -> & Hp). apply elem_of_map_to_list in Hp. eauto.
Qed.

(** ** Building the table *)

Section kvm.
Context {E : Type} (kend : Z) (kend_pos : 0 < kend).

(** The tree under construction, and the pages shared between it and the free
    list. *)
Record kst (s : kmem) (nodes : nodemap) (root : Z) (l pool : list Z) : Prop := {
  ks_vm : vmst kend s nodes root l;
  ks_keys : keys_ok nodes;
  ks_pool : l ++ node_pages nodes ≡ₚ pool
}.

Lemma kst_free s nodes root l pool : kst s nodes root l pool → (102 < length pool)%nat → l ≠ [].
Proof. intros [_ Hk Hp] Hl ->. pose proof (keys_ok_size _ Hk). rewrite <- Hp in Hl. simpl in Hl. lia. Qed.

Lemma kvmmap_run n s nodes root l pool va pa perm : kst s nodes root l pool → (102 < length pool)%nat →
  (0 < n)%nat → va mod PGSIZE = 0 → 0 ≤ va → va + Z.of_nat n * PGSIZE ≤ MAXVA →
  pa mod PGSIZE = 0 → 0 ≤ pa → pa + Z.of_nat n * PGSIZE ≤ 2 ^ 50 → 0 ≤ perm < 1024 →
  (∀ i, 0 ≤ i < Z.of_nat n → kernel_va (va + i * PGSIZE) ∧ leaf (pm s) nodes (va + i * PGSIZE) = 0) →
  ∃ s' nodes' l', kvmmap (E:=E) root va pa (Z.of_nat n * PGSIZE) perm s = Done tt s' [] ∧ kst s' nodes' root l' pool ∧
    ∀ va', leaf (pm s') nodes' va' = map_range (leaf (pm s) nodes) va n pa perm va'.
Proof.
  intros [Hv Hk Hp] Hl Hn Hva Hva0 Hmax Hpa Hpa0 Hpm Hperm Hun.
  destruct (mappages_run (E:=E) kend kend_pos n s nodes root l va pa perm) as (r & s' & nodes' & l' & k & Hr & Hv' & Hg & Hlf & Had & Hres); try done.
  { intros i Hi. by rewrite (proj2 (Hun i Hi)). }
  assert (kst s' nodes' root l' pool) as Hs'.
  { split; [done| |by rewrite (gr_pages _ _ _ _ _ _ Hg)]. intros x Hx. destruct (Had x Hx) as [?|(i & lv & Hi & Hlv & ->)]; [by apply Hk|].
    apply kernel_va_key; [by apply Hun|done]. }
  destruct Hres as [[-> ->]|(_ & _ & -> & _)]; [|by destruct (kst_free _ _ _ _ _ Hs' Hl)].
  exists s', nodes', l'. split; [|done]. unfold kvmmap. by rewrite (bind_done _ _ _ _ _ Hr).
Qed.

(** *** The kernel stacks *)

Definition RW : Z := Z.lor PTE_R PTE_W.
Definition RX : Z := Z.lor PTE_R PTE_X.
(** Pages below the trampoline: the [i]-th and following stacks, each below a
    guard page. *)
Definition below (va : Z) : Z := TRAMPOLINE / PGSIZE - va / PGSIZE.
Definition stack_map (as_ : Z → Z) (i : nat) (stacks : list Z) (va : Z) : Z :=
  if decide (below va mod 2 = 0 ∧ 2 * (Z.of_nat i + 1) ≤ below va ≤ 2 * (Z.of_nat i + Z.of_nat (length stacks)))
  then mkpte (stacks !!! Z.to_nat (below va / 2 - 1 - Z.of_nat i)) RW else as_ va.

Lemma TRAMPOLINE_value : TRAMPOLINE = 274877902848.
Proof. reflexivity. Qed.
Lemma stack_map_cons as_ i q stacks va :
  stack_map (map_range as_ (KSTACK (Z.of_nat i)) 1 q RW) (S i) stacks va = stack_map as_ i (q :: stacks) va.
Proof.
  unfold stack_map, map_range, below, KSTACK. rewrite TRAMPOLINE_value. cbn [length].
  set (b := 274877902848 / PGSIZE - va / PGSIZE).
  assert (va / PGSIZE - (274877902848 - (Z.of_nat i + 1) * 2 * PGSIZE) / PGSIZE = 2 * (Z.of_nat i + 1) - b) as ->.
  { unfold b, PGSIZE. mach_lia. }
  destruct (decide (b = 2 * (Z.of_nat i + 1))) as [Hb|Hb].
  - rewrite (decide_False (P := _ ∧ _)) by lia. rewrite !decide_True by (rewrite Hb; split; [mach_lia|lia]).
    replace (Z.to_nat (b / 2 - 1 - Z.of_nat i)) with 0%nat by mach_lia. simpl. f_equal. unfold PGSIZE. lia.
  - rewrite (decide_False (P := 0 ≤ _ < _)) by lia. repeat case_decide; try done; try mach_lia.
    replace (Z.to_nat (b / 2 - 1 - Z.of_nat i)) with (S (Z.to_nat (b / 2 - 1 - Z.of_nat (S i)))) by mach_lia. done.
Qed.

Definition mapstack (kpgtbl : Z) (i : nat) : M E kmem unit :=
  let! pa := kalloc in
  if pa =? 0 then panic "kalloc" else
  kvmmap kpgtbl (KSTACK (Z.of_nat i)) pa PGSIZE (Z.lor PTE_R PTE_W).

Lemma mapstacks_run m i s nodes root l pool : kst s nodes root l pool → (i + m = NPROC)%nat → (102 + m < length pool)%nat →
  (∀ j, (i ≤ j < NPROC)%nat → leaf (pm s) nodes (KSTACK (Z.of_nat j)) = 0) →
  ∃ s' nodes' l' pool' stacks, for_from m i (mapstack root) s = Done tt s' [] ∧ kst s' nodes' root l' pool' ∧
    length stacks = m ∧ pool ≡ₚ pool' ++ stacks ∧ Forall (page_ok kend) stacks ∧
    ∀ va, leaf (pm s') nodes' va = stack_map (leaf (pm s) nodes) i stacks va.
Proof.
  revert i s nodes l pool. induction m as [|m IH]; intros i s nodes l pool Hs Him Hl Hun.
  { exists s, nodes, l, pool, []. split_and!; [done|done|done|by rewrite app_nil_r|done|].
    intros va. unfold stack_map. rewrite decide_False; [done|]. simpl. lia. }
  destruct l as [|q l]; [destruct (kst_free _ _ _ _ _ Hs); [lia|done]|]. destruct Hs as [Hv Hk Hp].
  pose proof (ki_pages _ _ _ (vm_kinv _ _ _ _ _ Hv)) as [Hok _]%Forall_cons.
  destruct (vmst_kalloc (E:=E) kend kend_pos s nodes root q l Hv) as (s1 & Hr1 & Hv1 & _ & Hq & Hl1 & _).
  set (pool1 := l ++ node_pages nodes). assert (pool ≡ₚ q :: pool1) as Hpool by (by rewrite <- Hp).
  assert (length pool = S (length pool1)) as Hlen by (by rewrite Hpool).
  pose proof (page_ok_pte _ _ kend_pos Hok) as [Hq1 Hq2].
  destruct (kvmmap_run 1 s1 nodes root l pool1 (KSTACK (Z.of_nat i)) q RW) as (s2 & nodes2 & l2 & Hr2 & Hs2 & Hl2);
    [by split|lia|lia|unfold KSTACK; rewrite TRAMPOLINE_value; unfold PGSIZE; mach_lia|..].
  1,2: unfold NPROC in *; unfold KSTACK; rewrite TRAMPOLINE_value, ?MAXVA_eq; unfold PGSIZE; lia.
  1,2: done || lia.
  1,2: try done.
  { destruct Hok as [_ Hok]. unfold PHYSTOP, KERNBASE, PGSIZE in *. lia. }
  { intros z Hz. assert (z = 0) as -> by lia. rewrite Z.mul_0_l, Z.add_0_r. rewrite Hl1. split; [|apply Hun; lia].
    right; right. unfold NPROC in *; unfold KSTACK; rewrite TRAMPOLINE_value, ?MAXVA_eq; unfold PGSIZE; lia. }
  destruct (IH (S i) s2 nodes2 l2 pool1 Hs2) as (s' & nodes' & l' & pool' & stacks & Hr & Hs' & Hls & Hpp & Hoks & Hlf); [lia|lia|..].
  { intros j Hj. rewrite Hl2. unfold map_range. rewrite decide_False; [rewrite Hl1; apply Hun; lia|].
    unfold KSTACK. rewrite TRAMPOLINE_value. unfold PGSIZE. mach_lia. }
  exists s', nodes', l', pool', (q :: stacks). split_and!; [|done|by rewrite <- Hls|by rewrite Hpool, Hpp, <- Permutation_middle|by constructor|].
  - cbn [for_from]. unfold mapstack at 1. rewrite bind_assoc, (bind_done _ _ _ _ _ Hr1).
    destruct (Z.eqb_spec q 0); [done|]. rewrite Z.mul_1_l in Hr2. by rewrite (bind_done _ _ _ _ _ Hr2).
  - intros va. rewrite Hlf, <- stack_map_cons. unfold stack_map. case_decide; [done|]. rewrite Hl2. unfold map_range. case_decide; [done|]. by rewrite Hl1.
Qed.

(** *** The whole table *)

(** The translation [as_] with [n] pages from [va] mapped to those from [pa]. *)
Definition span (as_ : Z → Z) (va n pa perm va' : Z) : Z :=
  let i := va' / PGSIZE - va / PGSIZE in
  if decide (0 ≤ i < n) then mkpte (pa + i * PGSIZE) perm else as_ va'.

(** [kvmmap] as a step of the construction. *)
Lemma kvmmap_step n as_ s nodes root l pool va pa perm : kst s nodes root l pool → (102 < length pool)%nat →
  (∀ va', leaf (pm s) nodes va' = as_ va') →
  0 < n → va mod PGSIZE = 0 → 0 ≤ va → va + n * PGSIZE ≤ MAXVA →
  pa mod PGSIZE = 0 → 0 ≤ pa → pa + n * PGSIZE ≤ 2 ^ 50 → 0 ≤ perm < 1024 →
  (∀ va', va ≤ va' < va + n * PGSIZE → kernel_va va' ∧ as_ va' = 0) →
  ∃ s' nodes' l', kvmmap (E:=E) root va pa (n * PGSIZE) perm s = Done tt s' [] ∧ kst s' nodes' root l' pool ∧
    ∀ va', leaf (pm s') nodes' va' = span as_ va n pa perm va'.
Proof.
  intros Hs Hl Has Hn Hva Hva0 Hmax Hpa Hpa0 Hpm Hperm Hun.
  destruct (kvmmap_run (Z.to_nat n) s nodes root l pool va pa perm Hs Hl) as (s' & nodes' & l' & Hr & Hs' & Hlf);
    rewrite ?Z2Nat.id in * by lia; try (done || lia).
  { intros i Hi. rewrite Has. apply Hun. unfold PGSIZE. lia. }
  exists s', nodes', l'. split; [done|]. split; [done|]. intros va'. rewrite Hlf. unfold map_range, span.
  rewrite Z2Nat.id by lia. case_decide; [done|]. apply Has.
Qed.

Context (etext trampoline : Z) (Hetext : etext mod PGSIZE = 0 ∧ KERNBASE < etext < PHYSTOP) (Htr : pte_page trampoline).

Definition device_map : Z → Z :=
  span (span (span (λ _, 0) UART0 1 UART0 RW) VIRTIO0 1 VIRTIO0 RW) PLIC 16384 PLIC RW.
Definition fixed_map : Z → Z :=
  span (span (span device_map KERNBASE ((etext - KERNBASE) / PGSIZE) KERNBASE RX)
    etext ((PHYSTOP - etext) / PGSIZE) etext RW) TRAMPOLINE 1 trampoline RX.

Ltac spans := unfold fixed_map, device_map, span, kernel_va; rewrite ?TRAMPOLINE_value in *; rewrite ?MAXVA_eq in *;
  unfold PLIC, VIRTIO0, UART0, PHYSTOP, KERNBASE, PGSIZE in *.

Ltac solve_span := solve
  [ spans; done || mach_lia
  | let va := fresh "va" in let Hva := fresh "Hva" in intros va Hva; spans; split; [mach_lia|]; by rewrite ?decide_False by mach_lia ].

Lemma device_map_run s nodes root l pool : kst s nodes root l pool → (102 < length pool)%nat →
  (∀ va, leaf (pm s) nodes va = 0) →
  ∃ s' nodes' l',
    (kvmmap (E:=E) root UART0 UART0 PGSIZE (Z.lor PTE_R PTE_W) ;;
     kvmmap root VIRTIO0 VIRTIO0 PGSIZE (Z.lor PTE_R PTE_W) ;;
     kvmmap root PLIC PLIC 67108864 (Z.lor PTE_R PTE_W)) s = Done tt s' [] ∧ kst s' nodes' root l' pool ∧
    ∀ va, leaf (pm s') nodes' va = device_map va.
Proof.
  intros Hs Hl H0.
  destruct (kvmmap_step 1 _ s nodes root l pool UART0 UART0 RW Hs Hl H0) as (s1 & n1 & l1 & Hr1 & Hs1 & H1);
    try solve_span.
  destruct (kvmmap_step 1 _ s1 n1 root l1 pool VIRTIO0 VIRTIO0 RW Hs1 Hl H1) as (s2 & n2 & l2 & Hr2 & Hs2 & H2);
    try solve_span.
  destruct (kvmmap_step 16384 _ s2 n2 root l2 pool PLIC PLIC RW Hs2 Hl H2) as (s3 & n3 & l3 & Hr3 & Hs3 & H3);
    try solve_span.
  exists s3, n3, l3. split; [|done]. change PGSIZE with (1 * PGSIZE) at 1 2. change 67108864 with (16384 * PGSIZE).
  rewrite (bind_done _ _ _ _ _ Hr1), (bind_done _ _ _ _ _ Hr2). exact Hr3.
Qed.

Lemma fixed_map_run s nodes root l pool : kst s nodes root l pool → (102 < length pool)%nat →
  (∀ va, leaf (pm s) nodes va = device_map va) →
  ∃ s' nodes' l',
    (kvmmap (E:=E) root KERNBASE KERNBASE (etext - KERNBASE) (Z.lor PTE_R PTE_X) ;;
     kvmmap root etext etext (PHYSTOP - etext) (Z.lor PTE_R PTE_W) ;;
     kvmmap root TRAMPOLINE trampoline PGSIZE (Z.lor PTE_R PTE_X)) s = Done tt s' [] ∧ kst s' nodes' root l' pool ∧
    ∀ va, leaf (pm s') nodes' va = fixed_map va.
Proof.
  intros Hs Hl H0. destruct Hetext as [He1 He2]. destruct Htr as [Ht1 Ht2].
  change (2 ^ 50) with 1125899906842624 in Ht2.
  destruct (kvmmap_step ((etext - KERNBASE) / PGSIZE) _ s nodes root l pool KERNBASE KERNBASE RX Hs Hl H0) as (s1 & n1 & l1 & Hr1 & Hs1 & H1);
    try solve_span.
  destruct (kvmmap_step ((PHYSTOP - etext) / PGSIZE) _ s1 n1 root l1 pool etext etext RW Hs1 Hl H1) as (s2 & n2 & l2 & Hr2 & Hs2 & H2);
    try solve_span.
  destruct (kvmmap_step 1 _ s2 n2 root l2 pool TRAMPOLINE trampoline RX Hs2 Hl H2) as (s3 & n3 & l3 & Hr3 & Hs3 & H3);
    try solve_span.
  exists s3, n3, l3. split; [|done]. change PGSIZE with (1 * PGSIZE) at 1.
  replace ((etext - KERNBASE) / PGSIZE * PGSIZE) with (etext - KERNBASE) in Hr1 by (spans; mach_lia).
  replace ((PHYSTOP - etext) / PGSIZE * PGSIZE) with (PHYSTOP - etext) in Hr2 by (spans; mach_lia).
  rewrite (bind_done _ _ _ _ _ Hr1), (bind_done _ _ _ _ _ Hr2). exact Hr3.
Qed.

(** The kernel's translation, address by address: the devices and the memory
    are mapped where they are, the code read-only and the rest not executable;
    the trampoline is the highest page, and the stack of the [i]-th process
    lies below it with an unmapped page under it. *)
Definition kernel_map (stacks : list Z) (va : Z) : Z :=
  let here := va / PGSIZE * PGSIZE in
  if decide (PLIC ≤ va < PLIC + 67108864 ∨ UART0 ≤ va < UART0 + PGSIZE ∨ VIRTIO0 ≤ va < VIRTIO0 + PGSIZE) then mkpte here RW
  else if decide (KERNBASE ≤ va < etext) then mkpte here RX
  else if decide (etext ≤ va < PHYSTOP) then mkpte here RW
  else if decide (TRAMPOLINE ≤ va < MAXVA) then mkpte trampoline RX
  else if decide (below va mod 2 = 0 ∧ 0 < below va ≤ 2 * Z.of_nat NPROC) then mkpte (stacks !!! Z.to_nat (below va / 2 - 1)) RW
  else 0.

Lemma device_map_eq va : device_map va =
  if decide (PLIC ≤ va < PLIC + 67108864 ∨ UART0 ≤ va < UART0 + PGSIZE ∨ VIRTIO0 ≤ va < VIRTIO0 + PGSIZE)
  then mkpte (va / PGSIZE * PGSIZE) RW else 0.
Proof. spans. repeat case_decide; try done; try mach_lia; f_equal; mach_lia. Qed.

Lemma kernel_map_eq stacks va : length stacks = NPROC → 0 ≤ va < MAXVA → stack_map fixed_map 0 stacks va = kernel_map stacks va.
Proof.
  intros Hl Hva. destruct Hetext as [He1 He2]. unfold stack_map, kernel_map, fixed_map, span. rewrite device_map_eq, Hl.
  unfold below, NPROC in *. change MAXVA with 274877906944 in *. change TRAMPOLINE with 274877902848.
  unfold PLIC, VIRTIO0, UART0, PHYSTOP, KERNBASE, PGSIZE in *. change (Z.of_nat 0) with 0. change (Z.of_nat 64) with 64.
  assert (∃ e, etext = 4096 * e) as [e He] by (exists (etext / 4096); mach_lia).
  assert ((etext - 2147483648) / 4096 = e - 524288) as -> by mach_lia.
  assert ((2147483648 + 128 * 1024 * 1024 - etext) / 4096 = 557056 - e) as -> by mach_lia.
  replace (etext / 4096) with e by mach_lia. change (274877902848 / 4096) with 67108863. change (2147483648 / 4096) with 524288.
  pose proof (Z.div_mod va 4096 ltac:(lia)) as Hd. pose proof (Z.mod_pos_bound va 4096 ltac:(lia)) as Hm.
  set (p := va / 4096) in *. clearbody p. clear He1.
  set (b := 67108863 - p). assert (b = 67108863 - p) as Hb by done. clearbody b.
  assert (b mod 2 = 0 → b ≠ 1) by (by intros ? ->).
  repeat (case_decide; try (exfalso; lia)); try done; f_equal; try lia. do 2 f_equal. lia.
Qed.

(** The empty table. *)
Lemma kvm_root s q l : kinv kend s (q :: l) →
  ∃ s0 s', kalloc s = Done q s0 ([] : list E) ∧ zero_page q s0 = Done tt s' ([] : list E) ∧
    kst s' {[(2%nat, 0) := q]} q l (q :: l) ∧ ∀ va, leaf (pm s') {[(2%nat, 0) := q]} va = 0.
Proof.
  intros Hk. destruct (uvmcreate_run (E:=E) kend kend_pos s q l Hk) as (s' & Hr & Hq & Hv & Hl & _).
  destruct (kalloc_cons (E:=E) _ _ _ _ Hk) as [Ha _]. unfold uvmcreate in Hr. rewrite (bind_done _ _ _ _ _ Ha) in Hr.
  destruct (Z.eqb_spec q 0); [done|]. injection Hr as <-.
  eexists _, _. split; [exact Ha|]. split; [done|]. split; [split; [done| |]|done].
  - intros k [p Hp]. apply lookup_singleton_Some in Hp as [<- _]. left.
  - unfold node_pages. rewrite map_to_list_singleton. simpl. by rewrite <- Permutation_cons_append.
Qed.

Lemma bind3 {A} (m1 m2 m3 : M E kmem unit) (k : M E kmem A) s s' :
  (m1 ;; m2 ;; m3) s = Done tt s' [] → (m1 ;; m2 ;; m3 ;; k) s = k s'.
Proof.
  unfold bind. destruct (m1 s) as [[] s1 t1| | |]; try done. destruct (m2 s1) as [[] s2 t2| | |]; try done.
  destruct (m3 s2) as [[] s3 t3| | |]; try done. simpl. intros [= -> Ht]. apply app_eq_nil in Ht as [-> Ht]. apply app_eq_nil in Ht as [-> ->].
  by destruct (k s').
Qed.

Lemma kvmmake_run s l : kinv kend s l → (166 < length l)%nat →
  ∃ root s' nodes l' stacks, kvmmake etext trampoline s = Done root s' ([] : list E) ∧
    vmst kend s' nodes root l' ∧ length stacks = NPROC ∧ NoDup stacks ∧
    l ≡ₚ l' ++ node_pages nodes ++ stacks ∧ (length l ≤ length l' + 166)%nat ∧
    ∀ va, 0 ≤ va < MAXVA → leaf (pm s') nodes va = kernel_map stacks va.
Proof.
  intros Hk Hl. destruct l as [|q l]; [simpl in Hl; lia|]. pose proof (ki_nodup _ _ _ Hk) as Hnd.
  destruct (kvm_root s q l Hk) as (sa & s0 & Ha & Hr0 & Hs0 & H0).
  assert (102 < length (q :: l))%nat as Hl' by lia.
  destruct (device_map_run s0 _ q l _ Hs0 Hl' H0) as (s1 & n1 & l1 & Hr1 & Hs1 & H1).
  destruct (fixed_map_run s1 n1 q l1 _ Hs1 Hl' H1) as (s2 & n2 & l2 & Hr2 & Hs2 & H2).
  destruct (mapstacks_run NPROC 0 s2 n2 q l2 _ Hs2) as (s3 & n3 & l3 & pool & stacks & Hr3 & Hs3 & Hls & Hp & _ & H3);
    [done|unfold NPROC; lia| |].
  { intros j Hj. rewrite H2. destruct Hetext as [He1 He2]. unfold NPROC in *. spans. unfold KSTACK. rewrite TRAMPOLINE_value. unfold PGSIZE.
    by rewrite !decide_False by mach_lia. }
  exists q, s3, n3, l3, stacks. split.
  { unfold kvmmake. rewrite (bind_done _ _ _ _ _ Ha), (bind_done _ _ _ _ _ Hr0), (bind3 _ _ _ _ _ _ Hr1), (bind3 _ _ _ _ _ _ Hr2).
    by rewrite (bind_done (proc_mapstacks q) _ _ _ _ Hr3). } split; [apply Hs3|]. split; [done|]. split.
  - rewrite Hp in Hnd. by apply NoDup_app in Hnd as (_ & _ & ?).
  - assert (q :: l ≡ₚ l3 ++ node_pages n3 ++ stacks) as Hall by (by rewrite Hp, <- (ks_pool _ _ _ _ _ Hs3), (assoc_L (++))).
    split; [done|]. split.
    { pose proof (keys_ok_size _ (ks_keys _ _ _ _ _ Hs3)). rewrite Hall, !length_app, Hls. unfold NPROC. lia. }
    intros va Hva. rewrite H3, <- kernel_map_eq by done.
    unfold stack_map. case_decide; [done|apply H2].
Qed.
(** C20. The kernel's page table: given more than 166 free pages, for the
    table and the stacks, and a page-aligned end of the kernel's code inside
    memory, [kvmmake] succeeds, and the tree it builds translates exactly the
    devices, the kernel's code (not writable), the rest of memory (not
    executable), the trampoline and one stack per process, the stacks being
    distinct pages separated by unmapped ones; every page it took from the
    free list is a page of the tree or a stack. *)
Theorem kvmmake_correct s l : kinv kend s l → (166 < length l)%nat →
  ∃ root s' nodes l' stacks, kvmmake etext trampoline s = Done root s' ([] : list E) ∧
    vmst kend s' nodes root l' ∧ length stacks = NPROC ∧ NoDup stacks ∧
    l ≡ₚ l' ++ node_pages nodes ++ stacks ∧
    ∀ va, 0 ≤ va < MAXVA → leaf (pm s') nodes va = kernel_map stacks va.
Proof.
  intros Hk Hl. destruct (kvmmake_run s l Hk Hl) as (root & s' & nodes & l' & stacks & Hr & Hv & Hs & Hn & Hp & _ & Hm).
  by exists root, s', nodes, l', stacks.
Qed.
End kvm.

Lemma kvmmake_correct_witness : ∃ s root s' nodes l' (stacks : list Z),
  let kend := PHYSTOP - 200 * 4096 in
  kinit (E:=unit) kend (mkkmem false 0 ∅) = Done tt s [] ∧
  kvmmake (KERNBASE + 0x8000) (KERNBASE + 0x7000) s = Done root s' ([] : list unit) ∧ vmst kend s' nodes root l' ∧
  leaf (pm s') nodes (KERNBASE + 0x1234) = mkpte (KERNBASE + 0x1000) RX ∧
  leaf (pm s') nodes (TRAMPOLINE - 1) = 0 ∧ leaf (pm s') nodes (TRAMPOLINE - 2 * 4096) = mkpte (stacks !!! 0%nat) RW.
Proof.
  intros. destruct (kinit_run (E:=unit) (PHYSTOP - 200 * 4096) (mkkmem false 0 ∅)) as (s & Hi & Hk);
    [unfold PHYSTOP, KERNBASE; lia|done|].
  destruct (kvmmake_correct (E:=unit) (PHYSTOP - 200 * 4096) ltac:(unfold PHYSTOP, KERNBASE; lia) (KERNBASE + 0x8000) (KERNBASE + 0x7000)
    ltac:(unfold PHYSTOP, KERNBASE, PGSIZE; split; [done|lia]) ltac:(unfold pte_page, KERNBASE, PGSIZE; split; [done|lia]) s _ Hk)
    as (root & s' & nodes & l' & stacks & Hr & Hv & _ & _ & _ & Hl); [rewrite length_reverse; vm_compute; lia|].
  exists s, root, s', nodes, l', stacks. split_and!; [done|done|done|..]; (rewrite Hl; [|vm_compute; split; congruence]); reflexivity.
Defined.
