(* ===== verification/Sleeplock.v ===== *)
(** Sleeping locks ([sleeplock.c]): the operations on one lock, and the
    processes that compete for it. *)
From Stdlib Require Import ZArith Lia.
From stdpp Require Import base list gmap strings.
From S2P Require Import Prelude.

(** ** State *)

(** [struct sleeplock]; [sl_lk] says whether the running CPU holds the inner
    spin lock. *)
Record sleeplock := mksleeplock {
  sl_locked : Z;
  sl_lk : bool;
  sl_name : string;
  sl_pid : Z
}.
Definition set_sl_locked (v : Z) (s : sleeplock) : sleeplock := mksleeplock v (sl_lk s) (sl_name s) (sl_pid s).
Definition set_sl_pid (v : Z) (s : sleeplock) : sleeplock := mksleeplock (sl_locked s) (sl_lk s) (sl_name s) v.

#[export, refine] Instance sleeplock_locked : Locked sleeplock :=
  {| held := sl_lk; set_held b s := mksleeplock (sl_locked s) b (sl_name s) (sl_pid s) |}.
Proof. all: by try intros ? ? []; try intros ? []; try intros []. Defined.

Definition initsleeplock (name : string) : sleeplock := mksleeplock 0 false name 0.

(** ** Operations *)

Section ops.
(** The lock's address, and [myproc()->pid]. *)
Context (lk : addr) (pid : Z).

(** [while (lk->locked) sleep(lk, &lk->lk);] and what follows. A process woken
    in [sleep] holds the inner lock again and re-tests: it continues as a new
    call does. *)
Definition acquiresleep : M event sleeplock unit :=
  acquire ;;
  let! locked := gets sl_locked in
  if negb (locked =? 0) then sleep_on lk else
  modify (set_sl_locked 1) ;;
  modify (set_sl_pid pid) ;;
  release.

Definition releasesleep : M event sleeplock unit :=
  acquire ;;
  modify (set_sl_locked 0) ;;
  modify (set_sl_pid 0) ;;
  emit (Wakeup lk) ;;
  release.

Definition holdingsleep : M event sleeplock bool :=
  acquire ;;
  let! s := gets id in
  release ;;
  ret (negb (sl_locked s =? 0) && (sl_pid s =? pid)).
End ops.

Lemma acquiresleep_free lk pid s : sl_locked s = 0 → sl_lk s = false →
  acquiresleep lk pid s = Done tt (mksleeplock 1 false (sl_name s) pid) [].
Proof. destruct s; simpl; intros -> ->. reflexivity. Qed.
Lemma acquiresleep_taken lk pid s : sl_locked s ≠ 0 → sl_lk s = false →
  acquiresleep lk pid s = Asleep lk s [].
Proof.
  destruct s as [v b n p]; simpl; intros Hv ->. unfold acquiresleep, acquire, sleep_on. mstep.
  destruct (Z.eqb_spec v 0); [done|]. done.
Qed.
Lemma releasesleep_run lk s : sl_lk s = false →
  releasesleep lk s = Done tt (mksleeplock 0 false (sl_name s) 0) [Wakeup lk].
Proof. destruct s; simpl; intros ->. reflexivity. Qed.
Lemma holdingsleep_run pid s : sl_lk s = false →
  holdingsleep pid s = Done (negb (sl_locked s =? 0) && (sl_pid s =? pid)) s [].
Proof. destruct s; simpl; intros ->. reflexivity. Qed.

(** ** Competing processes

    The lock and what each process is doing: not interested ([Away]), about to
    call [acquiresleep] or to re-test after a wakeup ([Trying]), asleep in it
    on a channel ([Sleeping]), or past it ([Owner]). A step runs one call as a
    whole: the inner spin lock serialises the calls, and [sleep] gives it up
    atomically. *)
Inductive spc : Type := Away | Trying | Sleeping (chan : addr) | Owner.

#[export] Instance spc_eq_dec : EqDecision spc.
Proof. solve_decision. Defined.

Definition spcs : Type := Z → spc.
Definition set_spc (f : spcs) (p : Z) (v : spc) : spcs := λ q, if decide (q = p) then v else f q.

(** The calls of [wakeup] a trace records make the processes asleep on their
    channels runnable. *)
Definition wakes (t : list event) (c : addr) : bool :=
  existsb (λ e, match e with Wakeup c' => bool_decide (c' = c) | _ => false end) t.
Definition wake (t : list event) (f : spcs) : spcs :=
  λ q, match f q with Sleeping c => if wakes t c then Trying else Sleeping c | v => v end.

(** The processes' calls, with the wakeups the calls make; [s_kill] is [kill],
    which makes a sleeping process runnable whatever it waits for. *)
Inductive sstep (lk : addr) : sleeplock * spcs → sleeplock * spcs → Prop :=
| s_want p s f : f p = Away → sstep lk (s, f) (s, set_spc f p Trying)
| s_acquire p s f s' t : f p = Trying → acquiresleep lk p s = Done tt s' t →
    sstep lk (s, f) (s', wake t (set_spc f p Owner))
| s_sleep p s f c s' t : f p = Trying → acquiresleep lk p s = Asleep c s' t →
    sstep lk (s, f) (s', set_spc (wake t f) p (Sleeping c))
| s_kill p s f c : f p = Sleeping c → sstep lk (s, f) (s, set_spc f p Trying)
| s_release p s f s' t : f p = Owner → releasesleep lk s = Done tt s' t →
    sstep lk (s, f) (s', wake t (set_spc f p Away)).

Record s_inv (lk : addr) (c : sleeplock * spcs) : Prop := {
  si_lk : sl_lk c.1 = false;
  si_owner : ∀ p, c.2 p = Owner → sl_locked c.1 ≠ 0 ∧ sl_pid c.1 = p;
  si_some : sl_locked c.1 ≠ 0 → c.2 (sl_pid c.1) = Owner;
  si_chan : ∀ p ch, c.2 p = Sleeping ch → ch = lk ∧ sl_locked c.1 ≠ 0
}.

Lemma wake_nil f q : wake [] f q = f q.
Proof. unfold wake; simpl. by destruct (f q). Qed.
Lemma wakes_self c : wakes [Wakeup c] c = true.
Proof. simpl. by rewrite bool_decide_true. Qed.
Lemma wake_owner t f q : wake t f q = Owner ↔ f q = Owner.
Proof. unfold wake. destruct (f q); try done. by destruct (wakes t chan). Qed.
Lemma wake_sleeping t f q c : wake t f q = Sleeping c → f q = Sleeping c ∧ wakes t c = false.
Proof. unfold wake. destruct (f q) as [| |c'|] eqn:?; try done. destruct (wakes t c') eqn:?; naive_solver. Qed.

Ltac s_cases := unfold set_spc; intros; repeat case_decide; subst; naive_solver congruence.

Lemma s_inv_acquire lk p s f : s_inv lk (s, f) → sl_locked s = 0 → f p = Trying →
  s_inv lk (mksleeplock 1 false (sl_name s) p, wake [] (set_spc f p Owner)).
Proof.
  intros [Hl Ho Hs Hc] H0 Hp. split; simpl in *; [done| | |].
  - intros q. rewrite wake_nil. unfold set_spc. case_decide; [naive_solver|]. intros Hq. by destruct (Ho q Hq).
  - intros _. rewrite wake_nil. unfold set_spc. by rewrite decide_True.
  - intros q c. rewrite wake_nil. unfold set_spc. case_decide; [done|]. intros Hq. by destruct (Hc q c Hq).
Qed.

Lemma s_inv_sleep lk p s f : s_inv lk (s, f) → sl_locked s ≠ 0 → f p = Trying →
  s_inv lk (s, set_spc (wake [] f) p (Sleeping lk)).
Proof.
  intros [Hl Ho Hs Hc] H0 Hp. split; simpl in *; [done| | |].
  - intros q. unfold set_spc. case_decide; [done|]. rewrite wake_nil. apply Ho.
  - intros _. unfold set_spc. rewrite wake_nil. case_decide as Hd; [|auto]. specialize (Hs H0). congruence.
  - intros q c. unfold set_spc. case_decide; [naive_solver|]. rewrite wake_nil. apply Hc.
Qed.

Lemma s_inv_release lk p s f : s_inv lk (s, f) → f p = Owner →
  s_inv lk (mksleeplock 0 false (sl_name s) 0, wake [Wakeup lk] (set_spc f p Away)).
Proof.
  intros [Hl Ho Hs Hc] Hp. destruct (Ho p Hp) as [H1 H2]. split; simpl in *; [done| |done|].
  - intros q Hq%wake_owner. unfold set_spc in Hq. case_decide; [done|]. destruct (Ho q Hq) as [_ ?]. congruence.
  - intros q c [Hq Hw]%wake_sleeping. exfalso. unfold set_spc in Hq. case_decide; [done|].
    destruct (Hc q c Hq) as [-> _]. by rewrite wakes_self in Hw.
Qed.

Lemma s_inv_step lk c c' : s_inv lk c → sstep lk c c' → s_inv lk c'.
Proof.
  intros Hi Hst. pose proof Hi as [Hl Ho Hs Hc].
  destruct Hst as [p s f Hp|p s f s' t Hp Hr|p s f c s' t Hp Hr|p s f c Hp|p s f s' t Hp Hr]; simpl in *.
  - split; simpl; [done|s_cases..].
  - destruct (decide (sl_locked s = 0)) as [H0|H0]; [|by rewrite acquiresleep_taken in Hr].
    rewrite acquiresleep_free in Hr by done. simplify_eq. by apply s_inv_acquire.
  - destruct (decide (sl_locked s = 0)) as [H0|H0]; [by rewrite acquiresleep_free in Hr|].
    rewrite acquiresleep_taken in Hr by done. simplify_eq. by apply s_inv_sleep.
  - split; simpl; [done|s_cases..].
  - rewrite releasesleep_run in Hr by done. simplify_eq. by apply s_inv_release.
Qed.

(** C28. A sleep lock excludes and does not strand its waiters. However the
    calls of competing processes (and kills of sleeping ones) interleave, at
    most one process is past [acquiresleep]; [holdingsleep] answers for each
    process whether it is the one; no process is asleep on a lock that is
    free; a process that calls [acquiresleep] gets the lock when it is free
    and sleeps only when another process is past the lock; and the
    [releasesleep] of that process frees the lock and calls [wakeup] on the
    channel of every process that sleeps. *)
Theorem sleeplock_correct lk name s f p :
  rtc (sstep lk) (initsleeplock name, λ _, Away) (s, f) →
  (∀ q, f p = Owner → f q = Owner → p = q) ∧
  holdingsleep p s = Done (bool_decide (f p = Owner)) s [] ∧
  (sl_locked s = 0 → ∀ c, f p ≠ Sleeping c) ∧
  (f p = Trying →
     (sl_locked s = 0 ∧ ∃ s', acquiresleep lk p s = Done tt s' []) ∨
     ((∃ q, f q = Owner) ∧ ∃ c s', acquiresleep lk p s = Asleep c s' [])) ∧
  (f p = Owner → ∃ s' t, releasesleep lk s = Done tt s' t ∧ sl_locked s' = 0 ∧
     ∀ q c, f q = Sleeping c → wake t f q = Trying).
Proof.
  intros Hr. apply (rtc_invariant (s_inv lk)) in Hr as [Hl Ho Hs Hc]; [|by intros; eapply s_inv_step|by split].
  simpl in *. split_and!.
  - intros q Hp Hq. destruct (Ho p Hp), (Ho q Hq). congruence.
  - rewrite holdingsleep_run by done. f_equal. case_bool_decide as Hp.
    + destruct (Ho p Hp) as [H1 H2]. destruct (Z.eqb_spec (sl_locked s) 0); [done|]. by rewrite H2, Z.eqb_refl.
    + destruct (Z.eqb_spec (sl_locked s) 0) as [|H0]; [done|]. simpl. apply Z.eqb_neq. intros <-. auto.
  - intros H0 c Hp. by destruct (Hc p c Hp).
  - intros Hp. destruct (decide (sl_locked s = 0)) as [H0|H0]; [left|right].
    + split; [done|]. rewrite acquiresleep_free by done. eauto.
    + split; [eauto|]. rewrite acquiresleep_taken by done. eauto.
  - intros Hp. rewrite releasesleep_run by done. eexists _, _. split; [done|]. split; [done|].
    intros q c Hq. destruct (Hc q c Hq) as [-> _]. unfold wake. by rewrite Hq, wakes_self.
Qed.

(** Process 1 takes the lock, 2 and 3 fall asleep, 3 is killed and sleeps
    again; then process 1 holds the lock and its release wakes both. *)
Lemma sleeplock_correct_witness : ∃ s f, f 1 = Owner ∧ f 2 = Sleeping (A_buf 0) ∧ f 3 = Sleeping (A_buf 0) ∧
  ((∀ q, f 1 = Owner → f q = Owner → 1 = q) ∧
   holdingsleep 1 s = Done (bool_decide (f 1 = Owner)) s [] ∧
   (sl_locked s = 0 → ∀ c, f 1 ≠ Sleeping c) ∧
   (f 1 = Trying →
     (sl_locked s = 0 ∧ ∃ s', acquiresleep (A_buf 0) 1 s = Done tt s' []) ∨
     ((∃ q, f q = Owner) ∧ ∃ c s', acquiresleep (A_buf 0) 1 s = Asleep c s' [])) ∧
   (f 1 = Owner → ∃ s' t, releasesleep (A_buf 0) s = Done tt s' t ∧ sl_locked s' = 0 ∧
     ∀ q c, f q = Sleeping c → wake t f q = Trying)).
Proof.
  eexists _, _. split; [|split; [|split]]; cycle 3.
  - apply (sleeplock_correct (A_buf 0) "buffer").
    eapply rtc_l; [by apply (s_want _ 1)|]. eapply rtc_l; [eapply (s_acquire _ 1); reflexivity|].
    eapply rtc_l; [by apply (s_want _ 2)|]. eapply rtc_l; [eapply (s_sleep _ 2); reflexivity|].
    eapply rtc_l; [by apply (s_want _ 3)|]. eapply rtc_l; [eapply (s_sleep _ 3); reflexivity|].
    eapply rtc_l; [eapply (s_kill _ 3); reflexivity|]. eapply rtc_l; [eapply (s_sleep _ 3); reflexivity|].
    apply rtc_refl.
  - reflexivity.
  - reflexivity.
  - reflexivity.
Defined.
