(* ===== verification/Bio.v ===== *)
(** The buffer cache ([bio.c]): a circular doubly-linked list of buffers in
    order of use, threaded through array indices. *)
From Stdlib Require Import ZArith Lia.
From stdpp Require Import functions base list gmap strings.
From S2P Require Import Prelude Machine Sleeplock.

(** ** State *)

Definition BSIZE : Z := 1024.

(** [struct buf]; [prev] and [next] are indices into the array, [NBUF] being
    [bcache.head]. *)
Record buf := mkbuf {
  valid : Z;
  b_disk : Z;
  b_dev : Z;
  blockno : Z;
  b_lock : sleeplock;
  refcnt : Z;
  prev : nat;
  next : nat;
  data : list Z
}.

Definition set_valid (v : Z) (r : buf) : buf :=
  mkbuf v (b_disk r) (b_dev r) (blockno r) (b_lock r) (refcnt r) (prev r) (next r) (data r).
Definition set_dev (v : Z) (r : buf) : buf :=
  mkbuf (valid r) (b_disk r) v (blockno r) (b_lock r) (refcnt r) (prev r) (next r) (data r).
Definition set_blockno (v : Z) (r : buf) : buf :=
  mkbuf (valid r) (b_disk r) (b_dev r) v (b_lock r) (refcnt r) (prev r) (next r) (data r).
Definition set_b_lock (v : sleeplock) (r : buf) : buf :=
  mkbuf (valid r) (b_disk r) (b_dev r) (blockno r) v (refcnt r) (prev r) (next r) (data r).
Definition set_refcnt (v : Z) (r : buf) : buf :=
  mkbuf (valid r) (b_disk r) (b_dev r) (blockno r) (b_lock r) v (prev r) (next r) (data r).
Definition set_prev (v : nat) (r : buf) : buf :=
  mkbuf (valid r) (b_disk r) (b_dev r) (blockno r) (b_lock r) (refcnt r) v (next r) (data r).
Definition set_next (v : nat) (r : buf) : buf :=
  mkbuf (valid r) (b_disk r) (b_dev r) (blockno r) (b_lock r) (refcnt r) (prev r) v (data r).
Definition set_data (v : list Z) (r : buf) : buf :=
  mkbuf (valid r) (b_disk r) (b_dev r) (blockno r) (b_lock r) (refcnt r) (prev r) (next r) v.

Definition zero_block : list Z := replicate 1024 0.
Definition buf0 : buf := mkbuf 0 0 0 0 (initsleeplock "") 0 0 0 zero_block.
#[export] Instance buf_inhabited : Inhabited buf := populate buf0.

(** [bcache], with the disk behind it: [bufs] holds the [NBUF] buffers and
    then [head]. *)
Record bcache := mkbcache {
  bc_lock : bool;
  bufs : list buf;
  disk : gmap Z (list Z)
}.
Definition set_bufs (v : list buf) (s : bcache) : bcache := mkbcache (bc_lock s) v (disk s).
Definition set_disk (v : gmap Z (list Z)) (s : bcache) : bcache := mkbcache (bc_lock s) (bufs s) v.

#[export, refine] Instance bcache_locked : Locked bcache :=
  {| held := bc_lock; set_held b s := mkbcache b (bufs s) (disk s) |}.
Proof. all: by try intros ? ? []; try intros ? []; try intros []. Defined.

Definition head : nat := NBUF.
Definition bf (i : nat) (s : bcache) : buf := bufs s !!! i.
Definition upd_buf (i : nat) (f : buf → buf) (s : bcache) : bcache := set_bufs (alter f i (bufs s)) s.
Definition disk_block (d : gmap Z (list Z)) (b : Z) : list Z := default zero_block (d !! b).

(** ** Operations *)

Abbreviation B := (M event bcache).

Definition binit : B unit :=
  modify (set_held false) ;;
  modify (upd_buf head (set_prev head)) ;;
  modify (upd_buf head (set_next head)) ;;
  for_upto NBUF (λ b,
    let! hn := gets (λ s, next (bf head s)) in
    modify (upd_buf b (set_next hn)) ;;
    modify (upd_buf b (set_prev head)) ;;
    modify (upd_buf b (set_b_lock (initsleeplock "buffer"))) ;;
    let! hn := gets (λ s, next (bf head s)) in
    modify (upd_buf hn (set_prev b)) ;;
    modify (upd_buf head (set_next b))).

(** The sleep lock of buffer [b]. *)
Definition with_lock {A} (b : nat) (m : addr → M event sleeplock A) : B A :=
  lift (λ s, b_lock (bf b s)) (λ l, upd_buf b (set_b_lock l)) (m (A_bufsleeplock b)).

Section ops.
(** [myproc()->pid]. *)
Context (pid : Z).

(** [for(b = head.next; b != &head; b = b->next)], first loop of [bget]. *)
Fixpoint bget_cached (fuel : nat) (dev bno : Z) (b : nat) : B (option nat) :=
  if (b =? head)%nat then ret None else
  match fuel with
  | O => λ s, Spin s []
  | S f =>
      let! x := gets (bf b) in
      if (b_dev x =? dev) && (blockno x =? bno) then ret (Some b)
      else bget_cached f dev bno (next x)
  end.

(** [for(b = head.prev; b != &head; b = b->prev)], second loop. *)
Fixpoint bget_unused (fuel : nat) (b : nat) : B (option nat) :=
  if (b =? head)%nat then ret None else
  match fuel with
  | O => λ s, Spin s []
  | S f =>
      let! x := gets (bf b) in
      if refcnt x =? 0 then ret (Some b) else bget_unused f (prev x)
  end.

Definition bget (dev bno : Z) : B nat :=
  acquire ;;
  let! b := gets (λ s, next (bf head s)) in
  let! r := bget_cached NBUF dev bno b in
  match r with
  | Some b =>
      modify (upd_buf b (λ x, set_refcnt (u32 (refcnt x + 1)) x)) ;;
      release ;;
      with_lock b (λ a, acquiresleep a pid) ;;
      ret b
  | None =>
      let! b := gets (λ s, prev (bf head s)) in
      let! r := bget_unused NBUF b in
      match r with
      | Some b =>
          modify (upd_buf b (set_dev dev)) ;;
          modify (upd_buf b (set_blockno bno)) ;;
          modify (upd_buf b (set_valid 0)) ;;
          modify (upd_buf b (set_refcnt 1)) ;;
          release ;;
          with_lock b (λ a, acquiresleep a pid) ;;
          ret b
      | None => panic "bget: no buffers"
      end
  end.

(** The disk transfer of buffer [b], as [virtio_disk_rw] performs it: a read
    fills [b->data] with the block, a write replaces the block. *)
Definition virtio_disk_rw (b : nat) (write : bool) : B unit :=
  let! x := gets (bf b) in
  if write then
    modify (λ s, set_disk (<[blockno x := data x]> (disk s)) s) ;;
    emit (DiskWrite (blockno x) (data x))
  else modify (λ s, upd_buf b (set_data (disk_block (disk s) (blockno x))) s).

Definition bread (dev bno : Z) : B nat :=
  let! b := bget dev bno in
  let! x := gets (bf b) in
  (if valid x =? 0 then
     virtio_disk_rw b false ;;
     modify (upd_buf b (set_valid 1))
   else ret tt) ;;
  ret b.

Definition bwrite (b : nat) : B unit :=
  let! h := with_lock b (λ _, holdingsleep pid) in
  if negb h then panic "bwrite" else
  virtio_disk_rw b true.

Definition brelse (b : nat) : B unit :=
  let! h := with_lock b (λ _, holdingsleep pid) in
  if negb h then panic "brelse" else
  with_lock b releasesleep ;;
  acquire ;;
  modify (upd_buf b (λ x, set_refcnt (u32 (refcnt x - 1)) x)) ;;
  let! x := gets (bf b) in
  (if refcnt x =? 0 then
     let! x := gets (bf b) in
     modify (upd_buf (next x) (set_prev (prev x))) ;;
     let! x := gets (bf b) in
     modify (upd_buf (prev x) (set_next (next x))) ;;
     let! hn := gets (λ s, next (bf head s)) in
     modify (upd_buf b (set_next hn)) ;;
     modify (upd_buf b (set_prev head)) ;;
     let! hn := gets (λ s, next (bf head s)) in
     modify (upd_buf hn (set_prev b)) ;;
     modify (upd_buf head (set_next b))
   else ret tt) ;;
  release.

Definition bpin (b : nat) : B unit :=
  acquire ;;
  modify (upd_buf b (λ x, set_refcnt (u32 (refcnt x + 1)) x)) ;;
  release.

Definition bunpin (b : nat) : B unit :=
  acquire ;;
  modify (upd_buf b (λ x, set_refcnt (u32 (refcnt x - 1)) x)) ;;
  release.
End ops.

(** ** The list of buffers *)

(** [nx] and [pv] link [a], the nodes of [l] and [z] in this order. *)
Fixpoint path (nx pv : nat → nat) (a : nat) (l : list nat) (z : nat) : Prop :=
  match l with
  | [] => nx a = z ∧ pv z = a
  | b :: l' => nx a = b ∧ pv b = a ∧ path nx pv b l' z
  end.

Lemma path_app nx pv a l b l' z :
  path nx pv a (l ++ b :: l') z ↔ path nx pv a l b ∧ path nx pv b l' z.
Proof.
  revert a. induction l as [|c l IH]; intros a; simpl; [tauto|]. rewrite IH. tauto.
Qed.

Lemma path_rev nx pv a l z : path nx pv a l z → path pv nx z (reverse l) a.
Proof.
  revert a. induction l as [|b l IH]; intros a; simpl; [tauto|].
  intros (H1 & H2 & H3). rewrite reverse_cons. apply path_app. split; [by apply IH|]. simpl. tauto.
Qed.

(** A path depends on [nx] of its nodes but the last and on [pv] of its nodes
    but the first. *)
Lemma path_ext nx pv nx' pv' a l z : path nx pv a l z →
  (∀ i, i = a ∨ i ∈ l → nx' i = nx i) → (∀ i, i = z ∨ i ∈ l → pv' i = pv i) → path nx' pv' a l z.
Proof.
  revert a. induction l as [|b l IH]; intros a Hp Hn Hv; simpl in *.
  - destruct Hp as [<- H]. rewrite Hn, Hv by auto. done.
  - destruct Hp as (<- & H & Hp). rewrite Hn by auto. rewrite Hv by (right; left). split_and!; [done|done|].
    apply IH; [done|intros i [->|Hi]; apply Hn; right; [left|by right]|intros i [->|Hi]; apply Hv; [by left|right; by right]].
Qed.

Definition nxt (s : bcache) (i : nat) : nat := next (bf i s).
Definition prv (s : bcache) (i : nat) : nat := prev (bf i s).

(** The buffers in order of use, most recent first. *)
Definition ring (s : bcache) (order : list nat) : Prop :=
  path (nxt s) (prv s) head order head ∧ order ≡ₚ seq 0 NBUF.

Lemma ring_head s order : ring s order → head ∉ order.
Proof. intros [_ Hp]. rewrite Hp. rewrite list_elem_of_In, in_seq. unfold head. lia. Qed.
Lemma ring_elem s order i : ring s order → i ∈ order ↔ (i < NBUF)%nat.
Proof. intros [_ Hp]. rewrite Hp, list_elem_of_In, in_seq. lia. Qed.
Lemma ring_nodup s order : ring s order → NoDup order.
Proof. intros [_ Hp]. rewrite Hp. apply NoDup_seq. Qed.
Lemma lru_length s order : ring s order → length order = NBUF.
Proof. intros [_ Hp]. apply Permutation_length in Hp. by rewrite length_seq in Hp. Qed.

(** ** Updates *)

Lemma bf_upd i j f s : (i < length (bufs s))%nat → bf j (upd_buf i f s) = if decide (i = j) then f (bf i s) else bf j s.
Proof.
  intros Hi. unfold bf, upd_buf; simpl. rewrite !list_lookup_total_alt, list_lookup_alter.
  case_decide as Hij; [subst j|done]. destruct (lookup_lt_is_Some_2 _ _ Hi) as [x Hx]. by rewrite Hx.
Qed.
Lemma bf_upd_eq i f s : (i < length (bufs s))%nat → bf i (upd_buf i f s) = f (bf i s).
Proof. intros. by rewrite bf_upd, decide_True. Qed.
Lemma bf_upd_ne i j f s : i ≠ j → bf j (upd_buf i f s) = bf j s.
Proof. intros. unfold bf, upd_buf; simpl. by rewrite list_lookup_total_alter_ne. Qed.
Lemma upd_buf_len i f s : length (bufs (upd_buf i f s)) = length (bufs s).
Proof. unfold upd_buf; simpl. by rewrite length_alter. Qed.
Lemma upd_buf_upd i f g s : upd_buf i f (upd_buf i g s) = upd_buf i (λ x, f (g x)) s.
Proof.
  unfold upd_buf, set_bufs; simpl. f_equal. apply list_eq. intros j.
  rewrite !list_lookup_alter. repeat case_decide; try done. by destruct (bufs s !! i).
Qed.
Lemma upd_buf_ext i f g s : f (bf i s) = g (bf i s) → upd_buf i f s = upd_buf i g s.
Proof.
  intros H. unfold upd_buf. f_equal. apply list_eq. intros j.
  rewrite !list_lookup_alter. case_decide; [subst j|done].
  unfold bf in H. destruct (bufs s !! i) as [x|] eqn:Hx; simpl; [|done].
  by rewrite (list_lookup_total_correct _ _ _ Hx) in H; rewrite H.
Qed.

(** ** Moving a node to the front *)

Lemma path_pv_in nx pv a l z : path nx pv a l z → pv z ∈ a :: l.
Proof.
  revert a. induction l as [|b l IH]; intros a; simpl.
  - intros [_ ->]. left.
  - intros (_ & _ & Hp). apply IH in Hp. set_solver.
Qed.
Lemma path_nx_in nx pv a l z : path nx pv a l z → nx a = z ∨ nx a ∈ l.
Proof. destruct l as [|b l]; simpl; [tauto|]. intros (-> & _). right. left. Qed.

Lemma path_unlink nx pv a l1 i l2 z : path nx pv a (l1 ++ i :: l2) z →
  NoDup (a :: l1 ++ i :: l2) → z ∉ l1 ++ i :: l2 →
  path (<[pv i := nx i]> nx) (<[nx i := pv i]> pv) a (l1 ++ l2) z.
Proof.
  revert a. induction l1 as [|c l1 IH]; intros a Hp Hnd Hz; simpl in *.
  - destruct Hp as (Hna & Hpi & Hp). rewrite Hpi. destruct l2 as [|n l2]; simpl in *.
    + destruct Hp as [Hni Hpz]. rewrite Hni. by rewrite !fn_lookup_insert.
    + destruct Hp as (Hni & Hpn & Hp). rewrite Hni. rewrite !fn_lookup_insert. split_and!; [done|done|].
      eapply path_ext; [done| |]; intros j Hj; apply fn_lookup_insert_ne.
      * apply NoDup_cons in Hnd as [Hnd _]. set_solver.
      * apply NoDup_cons in Hnd as [_ Hnd]. apply NoDup_cons in Hnd as [_ Hnd]. apply NoDup_cons in Hnd as [Hnd _]. set_solver.
  - destruct Hp as (Hna & Hpc & Hp). apply NoDup_cons in Hnd as [Hna' Hnd].
    pose proof Hp as [Hp1 Hp2]%path_app. pose proof (path_pv_in _ _ _ _ _ Hp1) as Hpv. pose proof (path_nx_in _ _ _ _ _ Hp2) as Hnx.
    pose proof Hnd as [Hc _]%NoDup_cons.
    apply not_elem_of_cons in Hz as [Hzc Hz].
    assert (pv i ≠ a) as Hpa by (intros <-; apply Hna'; apply elem_of_cons in Hpv as [->|?]; [left|right; apply elem_of_app; by left]).
    assert (nx i ≠ c) as Hnc by (intros <-; destruct Hnx as [|Hnx]; [auto|apply Hc, elem_of_app; right; by right]).
    rewrite !fn_lookup_insert_ne by done. split_and!; [done|done|]. by apply IH.
Qed.

Lemma path_push nx pv a l i : path nx pv a l a → i ∉ a :: l → NoDup (a :: l) →
  path (<[a := i]> (<[i := nx a]> nx)) (<[nx a := i]> (<[i := a]> pv)) a (i :: l) a.
Proof.
  intros Hp Hi Hnd. apply not_elem_of_cons in Hi as [Hia Hil]. apply NoDup_cons in Hnd as [Hal Hnd]. simpl.
  rewrite fn_lookup_insert. split; [done|].
  pose proof (path_nx_in _ _ _ _ _ Hp) as Hnx.
  assert (nx a ≠ i) as Hni by set_solver.
  split; [by rewrite fn_lookup_insert_ne, fn_lookup_insert|].
  destruct l as [|b l]; simpl in *.
  - destruct Hp as [Hna Hpa]. rewrite Hna. rewrite fn_lookup_insert_ne, !fn_lookup_insert by done. done.
  - destruct Hp as (Hna & Hpb & Hp). rewrite Hna. rewrite fn_lookup_insert_ne, !fn_lookup_insert by done.
    split_and!; [done|done|]. eapply path_ext; [done| |]; intros j Hj.
    + rewrite !fn_lookup_insert_ne; [done| |]; set_solver.
    + apply NoDup_cons in Hnd as [Hb _]. rewrite !fn_lookup_insert_ne; [done| |]; set_solver.
Qed.

(** ** Searching *)

Definition caches (s : bcache) (dev bno : Z) (i : nat) : bool :=
  (b_dev (bf i s) =? dev) && (blockno (bf i s) =? bno).
Definition unused (s : bcache) (i : nat) : bool := refcnt (bf i s) =? 0.

Lemma bget_cached_run dev bno s a l fuel : path (nxt s) (prv s) a l head → head ∉ l → (length l ≤ fuel)%nat →
  bget_cached fuel dev bno (nxt s a) s = Done (find (caches s dev bno) l) s [].
Proof.
  revert a fuel. induction l as [|b l IH]; intros a fuel Hp Hh Hf; simpl in Hp.
  - destruct Hp as [-> _]. by destruct fuel.
  - destruct Hp as (-> & _ & Hp). destruct fuel as [|fuel]; [simpl in Hf; lia|]. cbn [bget_cached find].
    destruct (Nat.eqb_spec b head) as [->|]; [destruct Hh; left|]. mrun. unfold caches at 1.
    destruct ((b_dev (bf b s) =? dev) && (blockno (bf b s) =? bno)) eqn:Hm; [done|].
    apply (IH b fuel); [done|by intros ?; apply Hh; right|simpl in Hf; lia].
Qed.

Lemma bget_unused_run s z l fuel : path (prv s) (nxt s) z l head → head ∉ l → (length l ≤ fuel)%nat →
  bget_unused fuel (prv s z) s = Done (find (unused s) l) s [].
Proof.
  revert z fuel. induction l as [|b l IH]; intros z fuel Hp Hh Hf; simpl in Hp.
  - destruct Hp as [-> _]. by destruct fuel.
  - destruct Hp as (-> & _ & Hp). destruct fuel as [|fuel]; [simpl in Hf; lia|]. cbn [bget_unused find].
    destruct (Nat.eqb_spec b head) as [->|]; [destruct Hh; left|]. mrun. unfold unused at 1.
    destruct (refcnt (bf b s) =? 0) eqn:Hm; [done|].
    apply (IH b fuel); [done|by intros ?; apply Hh; right|simpl in Hf; lia].
Qed.

(** ** Invariant and abstract view

    The cache of one device [dev]: a buffer has never been used ([b_dev] 0) or
    holds a block of [dev]. *)

(** The contents a buffer stands for. *)
Definition bcont (d : gmap Z (list Z)) (x : buf) : list Z :=
  if valid x =? 0 then disk_block d (blockno x) else data x.

Section view.
Context (dev : Z).

(** Block [b] is cached in buffer [i]. *)
Definition cached (s : bcache) (b : Z) (i : nat) : Prop :=
  (i < NBUF)%nat ∧ b_dev (bf i s) = dev ∧ blockno (bf i s) = b.

Record binv (s : bcache) (order : list nat) : Prop := {
  bi_len : length (bufs s) = S NBUF;
  bi_lock : bc_lock s = false;
  bi_ring : ring s order;
  bi_dev : ∀ i, (i < NBUF)%nat → b_dev (bf i s) = 0 ∨ b_dev (bf i s) = dev;
  bi_ref : ∀ i, (i < NBUF)%nat → is_u32 (refcnt (bf i s));
  bi_lk : ∀ i, (i < NBUF)%nat → sl_lk (b_lock (bf i s)) = false;
  bi_idle : ∀ i, (i < NBUF)%nat → refcnt (bf i s) = 0 → sl_locked (b_lock (bf i s)) = 0;
  bi_uniq : ∀ b i j, cached s b i → cached s b j → i = j;
  bi_clean : ∀ b i, cached s b i → refcnt (bf i s) = 0 → bcont (disk s) (bf i s) = disk_block (disk s) b;
  bi_size : ∀ i, (i < NBUF)%nat → length (data (bf i s)) = Z.to_nat BSIZE;
  bi_dsize : ∀ b, length (disk_block (disk s) b) = Z.to_nat BSIZE
}.

(** What the cache promises: the contents and the number of references of each
    block, and how many buffers nobody refers to. *)
Definition cache_of (s : bcache) (b : Z) : option nat := find (caches s dev b) (seq 0 NBUF).
Definition content (s : bcache) (b : Z) : list Z :=
  match cache_of s b with Some i => bcont (disk s) (bf i s) | None => disk_block (disk s) b end.
Definition refs (s : bcache) (b : Z) : Z :=
  match cache_of s b with Some i => refcnt (bf i s) | None => 0 end.
Definition nfree (s : bcache) : nat := length (filter (λ i, refcnt (bf i s) = 0) (seq 0 NBUF)).

Lemma caches_spec s b i : caches s dev b i = true ↔ b_dev (bf i s) = dev ∧ blockno (bf i s) = b.
Proof. unfold caches. by rewrite andb_true_iff, !Z.eqb_eq. Qed.

Lemma find_cached s order l b i : binv s order → l ≡ₚ seq 0 NBUF → cached s b i → find (caches s dev b) l = Some i.
Proof.
  intros Hi Hl Hc. destruct (find (caches s dev b) l) as [j|] eqn:Hf.
  - apply find_some in Hf as [Hj Hc']. rewrite caches_spec in Hc'. f_equal. symmetry. apply (bi_uniq _ _ Hi b); [done|].
    split; [|done]. apply list_elem_of_In in Hj. rewrite Hl, list_elem_of_In, in_seq in Hj. lia.
  - exfalso. destruct Hc as [Hlt Hc]. rewrite <- caches_spec in Hc. rewrite (find_none _ _ Hf i) in Hc; [done|].
    apply list_elem_of_In. rewrite Hl, list_elem_of_In, in_seq. lia.
Qed.
Lemma find_uncached s l b : l ≡ₚ seq 0 NBUF → (∀ i, ¬ cached s b i) → find (caches s dev b) l = None.
Proof.
  intros Hl Hn. destruct (find (caches s dev b) l) as [j|] eqn:Hf; [|done].
  apply find_some in Hf as [Hj Hc']. rewrite caches_spec in Hc'. destruct (Hn j).
  split; [|done]. apply list_elem_of_In in Hj. rewrite Hl, list_elem_of_In, in_seq in Hj. lia.
Qed.

Lemma content_cached s order b i : binv s order → cached s b i → content s b = bcont (disk s) (bf i s).
Proof. intros Hi Hc. unfold content, cache_of. by rewrite (find_cached _ _ _ _ _ Hi (reflexivity _) Hc). Qed.
Lemma content_uncached s b : (∀ i, ¬ cached s b i) → content s b = disk_block (disk s) b.
Proof. intros Hn. unfold content, cache_of. by rewrite (find_uncached _ _ _ (reflexivity _) Hn). Qed.
Lemma refs_cached s order b i : binv s order → cached s b i → refs s b = refcnt (bf i s).
Proof. intros Hi Hc. unfold refs, cache_of. by rewrite (find_cached _ _ _ _ _ Hi (reflexivity _) Hc). Qed.
Lemma refs_uncached s b : (∀ i, ¬ cached s b i) → refs s b = 0.
Proof. intros Hn. unfold refs, cache_of. by rewrite (find_uncached _ _ _ (reflexivity _) Hn). Qed.
Lemma cached_dec s b : (∃ i, cached s b i) ∨ (∀ i, ¬ cached s b i).
Proof.
  destruct (find (caches s dev b) (seq 0 NBUF)) as [j|] eqn:Hf.
  - apply find_some in Hf as [Hj Hc']. rewrite caches_spec in Hc'. apply in_seq in Hj. left. exists j. split; [lia|done].
  - right. intros i [Hlt Hc]. rewrite <- caches_spec in Hc. rewrite (find_none _ _ Hf i) in Hc; [done|]. apply in_seq. lia.
Qed.
End view.

(** ** Replacing one buffer *)

(** Buffer [i] becomes [x]. *)
Abbreviation put_buf i x := (upd_buf i (λ _ : buf, x)).

Definition zero_ref (x : buf) : nat := if decide (refcnt x = 0) then 1 else 0.

Lemma nfree_upd i x s : length (bufs s) = S NBUF → (i < NBUF)%nat →
  (nfree (put_buf i x s) + zero_ref (bf i s) = nfree s + zero_ref x)%nat.
Proof.
  intros Hl Hi. unfold nfree. assert (NoDup (seq 0 NBUF)) as Hnd by apply NoDup_seq.
  assert (i ∈ seq 0 NBUF) as (l1 & l2 & Hs)%list_elem_of_split by (rewrite list_elem_of_In, in_seq; lia).
  rewrite Hs in *. rewrite !filter_app, !length_app, !filter_cons. apply NoDup_app in Hnd as (_ & H1 & H2).
  apply NoDup_cons in H2 as [H2 _].
  assert (∀ l : list nat, i ∉ l → filter (λ j, refcnt (bf j (put_buf i x s)) = 0) l = filter (λ j, refcnt (bf j s) = 0) l) as He.
  { intros l Hn. induction l as [|j l IH]; [done|]. apply not_elem_of_cons in Hn as [Hj Hn].
    rewrite !filter_cons, IH by done. by rewrite bf_upd_ne by done. }
  rewrite !He; [|done|intros ?; apply (H1 i); [done|left]]. rewrite bf_upd_eq by lia. unfold zero_ref.
  repeat case_decide; simpl; lia.
Qed.

Section set.
Context (dev : Z) (s : bcache) (order : list nat) (i : nat) (x : buf).
Hypothesis (Hdev : dev ≠ 0) (Hinv : binv dev s order) (Hi : (i < NBUF)%nat).
Hypothesis (Hprev : prev x = prev (bf i s)) (Hnext : next x = next (bf i s)) (Hxdev : b_dev x = dev).
Hypothesis (Hnew : ∀ j, cached dev s (blockno x) j → j = i).
Hypothesis (Hold : b_dev (bf i s) = dev ∧ blockno (bf i s) = blockno x ∨ refcnt (bf i s) = 0).
Hypothesis (Href : is_u32 (refcnt x)) (Hlk : sl_lk (b_lock x) = false).
Hypothesis (Hzero : refcnt x = 0 → sl_locked (b_lock x) = 0 ∧ bcont (disk s) x = disk_block (disk s) (blockno x)).
Hypothesis (Hsize : length (data x) = Z.to_nat BSIZE).

Let s' := put_buf i x s.

Lemma set_bf j : bf j s' = if decide (i = j) then x else bf j s.
Proof. apply bf_upd. rewrite (bi_len _ _ _ Hinv). lia. Qed.

Lemma set_cached b j : cached dev s' b j ↔ if decide (i = j) then blockno x = b else cached dev s b j.
Proof. unfold cached. rewrite set_bf. case_decide as H; [subst j|done]. naive_solver. Qed.

Lemma set_other b j : b ≠ blockno x → cached dev s b j → j ≠ i ∨ refcnt (bf i s) = 0.
Proof. intros Hb (_ & _ & Hj). destruct (decide (j = i)) as [->|]; [|by left]. right. destruct Hold as [(_ & He)|]; congruence. Qed.

Lemma set_binv : binv dev s' order.
Proof.
  split.
  - unfold s'. rewrite upd_buf_len. apply (bi_len _ _ _ Hinv).
  - apply (bi_lock _ _ _ Hinv).
  - destruct (bi_ring _ _ _ Hinv) as [Hp Ho]. split; [|done]. eapply path_ext; [done| |]; intros j _; unfold nxt, prv; rewrite set_bf; case_decide as Hj; by rewrite <-?Hj.
  - intros j Hj. rewrite set_bf. case_decide; [by right|by apply (bi_dev _ _ _ Hinv)].
  - intros j Hj. rewrite set_bf. case_decide; [done|by apply (bi_ref _ _ _ Hinv)].
  - intros j Hj. rewrite set_bf. case_decide; [done|by apply (bi_lk _ _ _ Hinv)].
  - intros j Hj. rewrite set_bf. case_decide; [by intros ?; apply Hzero|by apply (bi_idle _ _ _ Hinv)].
  - intros b j k. rewrite !set_cached. intros H1 H2. repeat case_decide; subst; [done|symmetry| |by apply (bi_uniq _ _ _ Hinv b)]; by first [apply Hnew|symmetry; apply Hnew].
  - intros b j Hc. apply set_cached in Hc. rewrite set_bf. case_decide; [subst b; by intros ?; apply Hzero|by apply (bi_clean _ _ _ Hinv)].
  - intros j Hj. rewrite set_bf. case_decide; [done|by apply (bi_size _ _ _ Hinv)].
  - apply (bi_dsize _ _ _ Hinv).
Qed.

Lemma set_cached_new : cached dev s' (blockno x) i.
Proof. apply set_cached. by rewrite decide_True. Qed.

(** A block other than the new one is cached where it was, or no longer, and
    then it was in a clean unreferenced buffer. *)
Lemma set_elsewhere b : b ≠ blockno x →
  (∃ j, cached dev s b j ∧ cached dev s' b j ∧ bf j s' = bf j s) ∨
  (∀ j, ¬ cached dev s' b j) ∧ ((∀ j, ¬ cached dev s b j) ∨ cached dev s b i ∧ refcnt (bf i s) = 0).
Proof.
  intros Hb. destruct (cached_dec dev s b) as [[j Hj]|Hn].
  - destruct (decide (i = j)) as [<-|Hne].
    + destruct (set_other b i Hb Hj) as [|H0]; [done|]. right. split; [|by right].
      intros k Hk. apply set_cached in Hk. case_decide; [congruence|]. by destruct (bi_uniq _ _ _ Hinv b i k).
    + left. exists j. rewrite set_cached, set_bf, !decide_False by done. done.
  - right. split; [|by left]. intros k Hk. apply set_cached in Hk. case_decide; [congruence|]. by destruct (Hn k).
Qed.

Lemma set_content b : content dev s' b = if decide (b = blockno x) then bcont (disk s) x else content dev s b.
Proof.
  case_decide as Hb.
  - subst b. rewrite (content_cached _ _ _ _ _ set_binv set_cached_new), set_bf, decide_True by done. done.
  - destruct (set_elsewhere b Hb) as [(j & H1 & H2 & He)|[H2 [H1|[H1 H0]]]].
    + by rewrite (content_cached _ _ _ _ _ set_binv H2), (content_cached _ _ _ _ _ Hinv H1), He.
    + by rewrite !content_uncached.
    + rewrite content_uncached by done. rewrite (content_cached _ _ _ _ _ Hinv H1). symmetry. by apply (bi_clean _ _ _ Hinv).
Qed.

Lemma set_refs b : refs dev s' b = if decide (b = blockno x) then refcnt x else refs dev s b.
Proof.
  case_decide as Hb.
  - subst b. rewrite (refs_cached _ _ _ _ _ set_binv set_cached_new), set_bf, decide_True by done. done.
  - destruct (set_elsewhere b Hb) as [(j & H1 & H2 & He)|[H2 [H1|[H1 H0]]]].
    + by rewrite (refs_cached _ _ _ _ _ set_binv H2), (refs_cached _ _ _ _ _ Hinv H1), He.
    + by rewrite !refs_uncached.
    + rewrite refs_uncached by done. by rewrite (refs_cached _ _ _ _ _ Hinv H1).
Qed.
End set.

(** ** What the operations do *)

Definition take_lock (pid : Z) (x : buf) : buf := set_b_lock (mksleeplock 1 false (sl_name (b_lock x)) pid) x.
Definition drop_lock (x : buf) : buf := set_b_lock (mksleeplock 0 false (sl_name (b_lock x)) 0) x.
Definition more_refs (x : buf) : buf := set_refcnt (u32 (refcnt x + 1)) x.
Definition less_refs (x : buf) : buf := set_refcnt (u32 (refcnt x - 1)) x.
Definition recycle (dev bno : Z) (x : buf) : buf := set_refcnt 1 (set_valid 0 (set_blockno bno (set_dev dev x))).
Definition fill (d : gmap Z (list Z)) (x : buf) : buf :=
  if valid x =? 0 then set_valid 1 (set_data (disk_block d (blockno x)) x) else x.

Lemma upd_buf_put i f s : upd_buf i f s = put_buf i (f (bf i s)) s.
Proof. by apply upd_buf_ext. Qed.

Lemma acquire_free (s : bcache) : bc_lock s = false → acquire (E := event) s = Done tt (set_held true s) [].
Proof. intros H. unfold acquire; simpl. by rewrite H. Qed.

Lemma with_acquiresleep pid i s : (i < length (bufs s))%nat →
  sl_locked (b_lock (bf i s)) = 0 → sl_lk (b_lock (bf i s)) = false →
  with_lock i (λ a, acquiresleep a pid) s = Done tt (upd_buf i (take_lock pid) s) [].
Proof.
  intros Hi H0 H1. unfold with_lock. erewrite lift_done; [|by apply acquiresleep_free].
  f_equal. by apply upd_buf_ext.
Qed.
Lemma with_acquiresleep_taken pid i s :
  sl_locked (b_lock (bf i s)) ≠ 0 → sl_lk (b_lock (bf i s)) = false →
  with_lock i (λ a, acquiresleep a pid) s = Asleep (A_bufsleeplock i) s [].
Proof.
  intros H0 H1. unfold with_lock, lift. rewrite acquiresleep_taken by done. f_equal.
  rewrite upd_buf_put. destruct s as [l bs d]. unfold upd_buf, set_bufs, bf; simpl. f_equal.
  apply list_eq. intros j. rewrite list_lookup_alter. case_decide as Hj; [subst j|done].
  destruct (bs !! i) as [x|] eqn:Hx; simpl; [|done]. rewrite (list_lookup_total_correct _ _ _ Hx). by destruct x.
Qed.

Section run.
Context (pid dev : Z) (s : bcache) (order : list nat).
Hypothesis (Hdev : dev ≠ 0) (Hinv : binv dev s order).

Let Hlock : bc_lock s = false := bi_lock _ _ _ Hinv.

Lemma bget_search b : bget_cached NBUF dev b (next (bf head (set_held true s))) (set_held true s) =
  Done (find (caches s dev b) order) (set_held true s) [].
Proof.
  pose proof (bi_ring _ _ _ Hinv) as Hr. 
  change (caches s dev b) with (caches (set_held true s) dev b).
  apply (bget_cached_run dev b (set_held true s) head order NBUF).
  - exact (proj1 Hr).
  - by eapply ring_head.
  - by erewrite lru_length.
Qed.

Lemma release_upd i f : release (E := event) (upd_buf i f (set_held true s)) = Done tt (upd_buf i f s) [].
Proof. unfold release; simpl. unfold upd_buf, set_bufs; simpl. by rewrite Hlock. Qed.

Lemma bget_hit b i : cached dev s b i →
  bget pid dev b s = bind (with_lock i (λ a, acquiresleep a pid)) (λ _, ret i) (upd_buf i more_refs s).
Proof.
  intros Hc. unfold bget. rewrite (bind_done _ _ _ _ _ (acquire_free s Hlock)). mrun.
  rewrite (bind_done _ _ _ _ _ (bget_search b)).
  rewrite (find_cached _ _ _ _ _ _ Hinv (proj2 (bi_ring _ _ _ Hinv)) Hc). mrun.
  by rewrite (bind_done _ _ _ _ _ (release_upd i _)).
Qed.

Lemma bget_lru b : (∀ i, ¬ cached dev s b i) →
  bget pid dev b s =
  match find (unused s) (reverse order) with
  | Some i => bind (with_lock i (λ a, acquiresleep a pid)) (λ _, ret i) (upd_buf i (recycle dev b) s)
  | None => Panic "bget: no buffers" (set_held true s) []
  end.
Proof.
  intros Hc. unfold bget. rewrite (bind_done _ _ _ _ _ (acquire_free s Hlock)). mrun.
  rewrite (bind_done _ _ _ _ _ (bget_search b)).
  rewrite (find_uncached _ _ _ _ (proj2 (bi_ring _ _ _ Hinv)) Hc). mrun.
  pose proof (bi_ring _ _ _ Hinv) as Hr. pose proof (path_rev _ _ _ _ _ (proj1 Hr)) as Hp.
  assert (bget_unused NBUF (prev (bf head (set_held true s))) (set_held true s) =
    Done (find (unused s) (reverse order)) (set_held true s) []) as Hu.
  { change (unused s) with (unused (set_held true s)). apply (bget_unused_run (set_held true s) head (reverse order) NBUF); [exact Hp| |].
    - rewrite elem_of_reverse. by eapply ring_head.
    - rewrite length_reverse. by erewrite lru_length. }
  rewrite (bind_done _ _ _ _ _ Hu). destruct (find (unused s) (reverse order)) as [i|]; [|done]. mrun.
  rewrite !upd_buf_upd. by rewrite (bind_done _ _ _ _ _ (release_upd i _)).
Qed.

Definition fill_buf (b : nat) : B nat :=
  let! x := gets (bf b) in
  (if valid x =? 0 then virtio_disk_rw b false ;; modify (upd_buf b (set_valid 1)) else ret tt) ;; ret b.

Lemma fill_buf_run i f (s0 : bcache) : (i < length (bufs s0))%nat →
  sl_locked (b_lock (f (bf i s0))) = 0 → sl_lk (b_lock (f (bf i s0))) = false →
  bind (bind (with_lock i (λ a, acquiresleep a pid)) (λ _, ret i)) fill_buf (upd_buf i f s0) =
  Done i (put_buf i (fill (disk s0) (take_lock pid (f (bf i s0)))) s0) [].
Proof.
  intros Hi H0 H1. rewrite bind_assoc.
  rewrite (bind_done _ _ _ _ _ (with_acquiresleep pid i (upd_buf i f s0) ltac:(by rewrite upd_buf_len)
    ltac:(by rewrite bf_upd_eq) ltac:(by rewrite bf_upd_eq))).
  mrun. unfold fill_buf, fill. mrun. rewrite upd_buf_upd, bf_upd_eq by done.
  destruct (valid (take_lock pid (f (bf i s0))) =? 0).
  - unfold virtio_disk_rw. mrun. rewrite bf_upd_eq by done. rewrite !upd_buf_upd.
    unfold ret. f_equal. by apply upd_buf_ext.
  - mrun. unfold ret. f_equal. by apply upd_buf_ext.
Qed.

Lemma bread_hit b i : cached dev s b i → sl_locked (b_lock (bf i s)) = 0 →
  bread pid dev b s = Done i (put_buf i (fill (disk s) (take_lock pid (more_refs (bf i s)))) s) [].
Proof.
  intros Hc H0. unfold bread. fold fill_buf. rewrite <- fill_buf_run with (f := more_refs).
  - unfold bind at 1. rewrite (bget_hit _ _ Hc). done.
  - rewrite (bi_len _ _ _ Hinv). destruct Hc. lia.
  - done.
  - apply (bi_lk _ _ _ Hinv), Hc.
Qed.

Lemma find_unused i : find (unused s) (reverse order) = Some i → (i < NBUF)%nat ∧ refcnt (bf i s) = 0.
Proof.
  intros Hf. apply find_some in Hf as [Hin Hu]. unfold unused in Hu. apply Z.eqb_eq in Hu. split; [|done].
  apply list_elem_of_In in Hin. rewrite elem_of_reverse in Hin. by eapply ring_elem, Hin; apply (bi_ring _ _ _ Hinv).
Qed.

Lemma bread_miss b i : (∀ i, ¬ cached dev s b i) → find (unused s) (reverse order) = Some i →
  bread pid dev b s = Done i (put_buf i (fill (disk s) (take_lock pid (recycle dev b (bf i s)))) s) [].
Proof.
  intros Hc Hf. destruct (find_unused _ Hf) as [Hi H0].
  unfold bread. fold fill_buf. rewrite <- fill_buf_run with (f := recycle dev b).
  - unfold bind at 1. rewrite (bget_lru _ Hc), Hf. done.
  - rewrite (bi_len _ _ _ Hinv). lia.
  - simpl. by apply (bi_idle _ _ _ Hinv).
  - by apply (bi_lk _ _ _ Hinv).
Qed.

Lemma nfree_find : (0 < nfree s)%nat → ∃ i, find (unused s) (reverse order) = Some i.
Proof.
  intros Hn. destruct (find (unused s) (reverse order)) as [i|] eqn:Hf; [eauto|]. exfalso.
  unfold nfree in Hn. rewrite filter_none in Hn; [simpl in Hn; lia|].
  intros i Hi H0. pose proof (find_none _ _ Hf i) as Hu. unfold unused in Hu. rewrite H0 in Hu.
  enough (0 =? 0 = false) by done. apply Hu. apply list_elem_of_In. rewrite elem_of_reverse.
  by rewrite (proj2 (bi_ring _ _ _ Hinv)).
Qed.
End run.

(** ** Specifications *)

(** The process [pid] holds the lock of buffer [i]. *)
Definition owned (pid : Z) (s : bcache) (i : nat) : Prop :=
  sl_locked (b_lock (bf i s)) ≠ 0 ∧ sl_pid (b_lock (bf i s)) = pid.

(** [bread] of block [b] returned buffer [i]: it is locked by the caller and
    holds the contents of the block, which has one more reference; every other
    buffer, the contents of every block and the disk are unchanged. *)
Record bread_post (pid dev : Z) (s : bcache) (order : list nat) (b : Z) (i : nat) (s' : bcache) : Prop := {
  bp_inv : binv dev s' order;
  bp_cached : cached dev s' b i;
  bp_valid : valid (bf i s') ≠ 0;
  bp_data : data (bf i s') = content dev s b;
  bp_owned : owned pid s' i;
  bp_content : ∀ c, content dev s' c = content dev s c;
  bp_refs : ∀ c, refs dev s' c = if decide (c = b) then refs dev s b + 1 else refs dev s c;
  bp_free : (nfree s' + (if decide (refs dev s b = 0%Z) then 1 else 0) = nfree s)%nat;
  bp_other : ∀ j, j ≠ i → bf j s' = bf j s;
  bp_disk : disk s' = disk s
}.

Lemma fill_fields d x : prev (fill d x) = prev x ∧ next (fill d x) = next x ∧ b_dev (fill d x) = b_dev x ∧
  blockno (fill d x) = blockno x ∧ refcnt (fill d x) = refcnt x ∧ b_lock (fill d x) = b_lock x ∧
  valid (fill d x) ≠ 0 ∧ data (fill d x) = bcont d x ∧ bcont d (fill d x) = bcont d x.
Proof.
  unfold fill, bcont. destruct (Z.eqb_spec (valid x) 0) as [|Hv]; simpl; [done|].
  rewrite (proj2 (Z.eqb_neq _ _) Hv). done.
Qed.

Lemma bcont_len dev s order i d x : binv dev s order → (i < NBUF)%nat → d = disk s → data x = data (bf i s) →
  length (bcont d x) = Z.to_nat BSIZE.
Proof.
  intros Hinv Hi -> Hd. unfold bcont. case_match; [apply (bi_dsize _ _ _ Hinv)|]. rewrite Hd. by apply (bi_size _ _ _ Hinv).
Qed.

Lemma bread_put pid dev s order i b x r : dev ≠ 0 → binv dev s order → (i < NBUF)%nat →
  prev x = prev (bf i s) → next x = next (bf i s) → b_dev x = dev → blockno x = b → data x = data (bf i s) →
  b_lock x = mksleeplock 1 false (sl_name (b_lock (bf i s))) pid → refcnt x = r + 1 → is_u32 (r + 1) → 0 ≤ r →
  bcont (disk s) x = content dev s b → refs dev s b = r → refcnt (bf i s) = r →
  (∀ j, cached dev s b j → j = i) →
  b_dev (bf i s) = dev ∧ blockno (bf i s) = b ∨ refcnt (bf i s) = 0 →
  bread_post pid dev s order b i (put_buf i (fill (disk s) x) s).
Proof.
  intros Hdev Hinv Hi Hp Hn Hd Hb Hdt Hl Hr Hu Hr0 Hc Hrs Hri Hnew Hold. subst b.
  destruct (fill_fields (disk s) x) as (Fp & Fn & Fd & Fb & Fr & Fl & Fv & Fdt & Fc).
  assert (length (data (fill (disk s) x)) = Z.to_nat BSIZE) as Hsz by (rewrite Fdt; by eapply bcont_len).
  assert (refcnt (fill (disk s) x) ≠ 0) as Hnz by (rewrite Fr, Hr; lia).
  pose proof (bi_len _ _ _ Hinv) as Hlen.
  rewrite <- Fb in Hnew, Hold. rewrite Hd in Fd.
  assert (binv dev (put_buf i (fill (disk s) x) s) order) as Hinv'.
  { apply set_binv; try done; try congruence; by rewrite ?Fp, ?Fn, ?Fr, ?Fl, ?Hr, ?Hl. }
  split.
  - done.
  - rewrite <- Fb. apply set_cached_new with order; try done; congruence.
  - by rewrite bf_upd_eq by lia.
  - rewrite bf_upd_eq by lia. by rewrite Fdt.
  - unfold owned. rewrite bf_upd_eq by lia. rewrite Fl, Hl. done.
  - intros c. rewrite set_content with (order := order); try done; try congruence; try (by rewrite ?Fp, ?Fn, ?Fr, ?Fl, ?Hr, ?Hl).
    rewrite Fb, Fc. case_decide; congruence.
  - intros c. rewrite set_refs with (order := order); try done; try congruence; try (by rewrite ?Fp, ?Fn, ?Fr, ?Fl, ?Hr, ?Hl).
    rewrite Fb, Fr, Hr, Hrs. done.
  - pose proof (nfree_upd i (fill (disk s) x) s Hlen Hi) as Hf. unfold zero_ref in Hf. rewrite Hri in Hf. rewrite Hrs.
    rewrite (decide_False (P := refcnt _ = 0)) in Hf by done. lia.
  - intros j Hj. by apply bf_upd_ne.
  - done.
Qed.

(** [bread] returns when a buffer is available and the block is not locked. *)
Lemma bread_run pid dev s order b : dev ≠ 0 → binv dev s order →
  (∀ i, cached dev s b i → sl_locked (b_lock (bf i s)) = 0) → refs dev s b + 1 < 2 ^ 32 →
  (0 < nfree s)%nat ∨ refs dev s b ≠ 0 →
  ∃ i s', bread pid dev b s = Done i s' [] ∧ bread_post pid dev s order b i s'.
Proof.
  intros Hdev Hinv Hul Hu Hfree. destruct (cached_dec dev s b) as [[i Hi]|Hn].
  - eexists i, _. split; [apply (bread_hit pid dev s order Hinv b i Hi); auto|].
    pose proof (refs_cached _ _ _ _ _ Hinv Hi) as Hr. pose proof (bi_ref _ _ _ Hinv i (proj1 Hi)) as Hrr.
    unfold is_u32 in Hrr. destruct Hi as (Hlt & Hd & Hb) eqn:HH.
    eapply bread_put with (r := refcnt (bf i s)); try done; simpl.
    + apply u32_small. unfold is_u32. lia.
    + unfold is_u32. lia.
    + lia.
    + rewrite (content_cached _ _ _ _ _ Hinv Hi). done.
    + intros j Hj. by eapply bi_uniq.
    + by left.
  - destruct Hfree as [Hfree|Hf]; [|by rewrite refs_uncached in Hf].
    destruct (nfree_find dev s order Hinv Hfree) as [i Hf]. destruct (find_unused dev s order Hinv i Hf) as [Hlt H0].
    eexists i, _. split; [by apply (bread_miss pid dev s order Hinv)|].
    eapply bread_put with (r := 0); try done; simpl.
    + by rewrite content_uncached.
    + by apply refs_uncached.
    + intros j Hj. by destruct (Hn j).
    + by right.
Qed.

(** ** Relinking *)

(** The states differ in the links only. *)
Record relinked (s s' : bcache) : Prop := {
  rl_lock : bc_lock s' = bc_lock s;
  rl_len : length (bufs s') = length (bufs s);
  rl_disk : disk s' = disk s;
  rl_buf : ∀ j, bf j s' = set_prev (prv s' j) (set_next (nxt s' j) (bf j s))
}.

#[export] Instance relinked_preorder : PreOrder relinked.
Proof.
  split.
  - intros s. split; try done. intros j. unfold prv, nxt. by destruct (bf j s).
  - intros s1 s2 s3 [A1 A2 A3 A4] [B1 B2 B3 B4]. split; [congruence..|]. intros j. rewrite B4, A4. done.
Qed.

Lemma relink_prev j v s : (j < length (bufs s))%nat →
  relinked s (upd_buf j (set_prev v) s) ∧ (∀ k, nxt (upd_buf j (set_prev v) s) k = nxt s k) ∧
  (∀ k, prv (upd_buf j (set_prev v) s) k = (<[j := v]> (prv s)) k).
Proof.
  intros Hj. split_and!; [split; [done|apply upd_buf_len|done|]|..]; intros k; unfold nxt, prv; rewrite bf_upd by done.
  - case_decide as H; [subst k|]; by destruct (bf _ s).
  - case_decide as H; [by subst k|done].
  - case_decide as H; [subst k; by rewrite fn_lookup_insert|by rewrite fn_lookup_insert_ne].
Qed.
Lemma relink_next j v s : (j < length (bufs s))%nat →
  relinked s (upd_buf j (set_next v) s) ∧ (∀ k, prv (upd_buf j (set_next v) s) k = prv s k) ∧
  (∀ k, nxt (upd_buf j (set_next v) s) k = (<[j := v]> (nxt s)) k).
Proof.
  intros Hj. split_and!; [split; [done|apply upd_buf_len|done|]|..]; intros k; unfold nxt, prv; rewrite bf_upd by done.
  - case_decide as H; [subst k|]; by destruct (bf _ s).
  - case_decide as H; [by subst k|done].
  - case_decide as H; [subst k; by rewrite fn_lookup_insert|by rewrite fn_lookup_insert_ne].
Qed.

(** What depends on fields other than the links. *)
Lemma relinked_fields s s' j : relinked s s' →
  valid (bf j s') = valid (bf j s) ∧ b_dev (bf j s') = b_dev (bf j s) ∧ blockno (bf j s') = blockno (bf j s) ∧
  b_lock (bf j s') = b_lock (bf j s) ∧ refcnt (bf j s') = refcnt (bf j s) ∧ data (bf j s') = data (bf j s).
Proof. intros H. rewrite (rl_buf _ _ H). done. Qed.

Section relinked.
Context (dev : Z) (s s' : bcache) (order order' : list nat).
Hypothesis (Hrl : relinked s s').

Lemma relinked_cached b i : cached dev s' b i ↔ cached dev s b i.
Proof. unfold cached. destruct (relinked_fields s s' i Hrl) as (_ & -> & -> & _). done. Qed.
Lemma relinked_bcont i : bcont (disk s') (bf i s') = bcont (disk s) (bf i s).
Proof. unfold bcont. destruct (relinked_fields s s' i Hrl) as (-> & _ & -> & _ & _ & ->). by rewrite (rl_disk _ _ Hrl). Qed.
Lemma relinked_binv : binv dev s order → ring s' order' → binv dev s' order'.
Proof.
  intros Hinv Hr. pose proof (relinked_fields s s') as F. split; try done.
  - rewrite (rl_len _ _ Hrl). apply (bi_len _ _ _ Hinv).
  - rewrite (rl_lock _ _ Hrl). apply (bi_lock _ _ _ Hinv).
  - intros i Hi. destruct (F i Hrl) as (_ & -> & _). by apply (bi_dev _ _ _ Hinv).
  - intros i Hi. destruct (F i Hrl) as (_ & _ & _ & _ & -> & _). by apply (bi_ref _ _ _ Hinv).
  - intros i Hi. destruct (F i Hrl) as (_ & _ & _ & -> & _). by apply (bi_lk _ _ _ Hinv).
  - intros i Hi. destruct (F i Hrl) as (_ & _ & _ & -> & -> & _). by apply (bi_idle _ _ _ Hinv).
  - intros b i j. rewrite !relinked_cached. apply (bi_uniq _ _ _ Hinv).
  - intros b i. rewrite relinked_cached, relinked_bcont, (rl_disk _ _ Hrl). destruct (F i Hrl) as (_ & _ & _ & _ & -> & _). apply (bi_clean _ _ _ Hinv).
  - intros i Hi. destruct (F i Hrl) as (_ & _ & _ & _ & _ & ->). by apply (bi_size _ _ _ Hinv).
  - rewrite (rl_disk _ _ Hrl). apply (bi_dsize _ _ _ Hinv).
Qed.
Lemma relinked_caches b i : caches s' dev b i = caches s dev b i.
Proof. unfold caches. by destruct (relinked_fields s s' i Hrl) as (_ & -> & -> & _). Qed.
Lemma relinked_cache_of b : cache_of dev s' b = cache_of dev s b.
Proof.
  unfold cache_of. induction (seq 0 NBUF) as [|i l IH]; [done|]. cbn [find]. by rewrite relinked_caches, IH.
Qed.
Lemma relinked_content b : content dev s' b = content dev s b.
Proof. unfold content. rewrite relinked_cache_of. case_match; [apply relinked_bcont|by rewrite (rl_disk _ _ Hrl)]. Qed.
Lemma relinked_refs b : refs dev s' b = refs dev s b.
Proof. unfold refs. rewrite relinked_cache_of. case_match; [|done]. by apply relinked_fields. Qed.
Lemma relinked_nfree : nfree s' = nfree s.
Proof.
  unfold nfree. f_equal. induction (seq 0 NBUF) as [|i l IH]; [done|]. rewrite !filter_cons, IH.
  by destruct (relinked_fields s s' i Hrl) as (_ & _ & _ & _ & -> & _).
Qed.
End relinked.

(** [brelse]'s move of buffer [b] to the front of the list. *)
Definition to_front (b : nat) : B unit :=
  let! x := gets (bf b) in
  modify (upd_buf (next x) (set_prev (prev x))) ;;
  let! x := gets (bf b) in
  modify (upd_buf (prev x) (set_next (next x))) ;;
  let! hn := gets (λ s, next (bf head s)) in
  modify (upd_buf b (set_next hn)) ;;
  modify (upd_buf b (set_prev head)) ;;
  let! hn := gets (λ s, next (bf head s)) in
  modify (upd_buf hn (set_prev b)) ;;
  modify (upd_buf head (set_next b)).

Definition move_front (i : nat) (order : list nat) : list nat := i :: filter (λ j, j ≠ i) order.

Lemma path_fun nx pv nx' pv' a l z : (∀ i, nx' i = nx i) → (∀ i, pv' i = pv i) →
  path nx pv a l z → path nx' pv' a l z.
Proof. intros Hn Hp H. eapply path_ext; [done|auto|auto]. Qed.

Lemma fn_insert_fun (f g : nat → nat) i v : (∀ j, f j = g j) → ∀ j, (<[i := v]> f) j = (<[i := v]> g) j.
Proof.
  intros H j. destruct (decide (i = j)) as [->|]; [by rewrite !fn_lookup_insert|by rewrite !fn_lookup_insert_ne].
Qed.

(** The links after the first two assignments. *)
Lemma unlink_run s i : length (bufs s) = S NBUF → i ≠ nxt s i → (nxt s i ≤ NBUF)%nat → (prv s i ≤ NBUF)%nat →
  let s1 := upd_buf (nxt s i) (set_prev (prv s i)) s in
  let s2 := upd_buf (prv s1 i) (set_next (nxt s1 i)) s1 in
  relinked s s2 ∧ (∀ k, nxt s2 k = (<[prv s i := nxt s i]> (nxt s)) k) ∧ (∀ k, prv s2 k = (<[nxt s i := prv s i]> (prv s)) k).
Proof.
  intros Hl Hne Hn Hp s1 s2.
  destruct (relink_prev (nxt s i) (prv s i) s) as (R1 & N1 & P1); [lia|]. fold s1 in R1, N1, P1.
  assert (prv s1 i = prv s i) as Ep by (rewrite P1; by apply fn_lookup_insert_ne).
  destruct (relink_next (prv s1 i) (nxt s1 i) s1) as (R2 & P2 & N2); [rewrite Ep; unfold s1; rewrite upd_buf_len; lia|].
  fold s2 in R2, N2, P2. split_and!.
  - by etrans.
  - intros k. rewrite N2, Ep, N1. by apply fn_insert_fun.
  - intros k. by rewrite P2, P1.
Qed.

Lemma push_run s i : length (bufs s) = S NBUF → i ≠ head → (i < NBUF)%nat → (nxt s head ≤ NBUF)%nat →
  let s1 := upd_buf i (set_next (nxt s head)) s in
  let s2 := upd_buf i (set_prev head) s1 in
  let s3 := upd_buf (nxt s2 head) (set_prev i) s2 in
  let s4 := upd_buf head (set_next i) s3 in
  relinked s s4 ∧ (∀ k, nxt s4 k = (<[head := i]> (<[i := nxt s head]> (nxt s))) k) ∧
  (∀ k, prv s4 k = (<[nxt s head := i]> (<[i := head]> (prv s))) k).
Proof.
  intros Hl Hne Hi Hn s1 s2 s3 s4.
  destruct (relink_next i (nxt s head) s) as (R1 & P1 & N1); [lia|]. fold s1 in R1, N1, P1.
  destruct (relink_prev i head s1) as (R2 & N2 & P2); [unfold s1; rewrite upd_buf_len; lia|]. fold s2 in R2, N2, P2.
  assert (nxt s2 head = nxt s head) as En by (rewrite N2, N1; by apply fn_lookup_insert_ne).
  destruct (relink_prev (nxt s2 head) i s2) as (R3 & N3 & P3); [rewrite En; unfold s2, s1; rewrite !upd_buf_len; lia|]. fold s3 in R3, N3, P3.
  destruct (relink_next head i s3) as (R4 & P4 & N4); [unfold s3, s2, s1, head; rewrite !upd_buf_len; lia|]. fold s4 in R4, N4, P4.
  split_and!.
  - by do 3 (etrans; [eassumption|]).
  - intros k. rewrite N4. apply fn_insert_fun. intros j. by rewrite N3, N2, N1.
  - intros k. rewrite P4, P3, En. apply fn_insert_fun. intros j. rewrite P2. by apply fn_insert_fun.
Qed.

Lemma filter_ne_app (i : nat) l1 l2 : NoDup (l1 ++ i :: l2) → filter (λ j, j ≠ i) (l1 ++ i :: l2) = l1 ++ l2.
Proof.
  intros (_ & H1 & [H2 _]%NoDup_cons)%NoDup_app. rewrite filter_app, filter_cons_False by auto. f_equal; apply filter_all.
  - intros j Hj ->. apply (H1 i Hj). left.
  - by intros j Hj ->.
Qed.

Lemma to_front_run s order i : length (bufs s) = S NBUF → ring s order → (i < NBUF)%nat →
  ∃ s', to_front i s = Done tt s' [] ∧ relinked s s' ∧ ring s' (move_front i order).
Proof.
  intros Hl Hr Hi. pose proof (ring_head _ _ Hr) as Hh. pose proof (ring_nodup _ _ Hr) as Hnd.
  assert (∀ j, j ∈ order → (j ≤ NBUF)%nat) as Hle by (intros j Hj%(ring_elem _ _ _ Hr); lia).
  pose proof Hi as (l1 & l2 & Ho)%(ring_elem _ _ _ Hr)%list_elem_of_split. destruct Hr as [Hp Hperm]. rewrite Ho in Hp, Hh, Hnd.
  assert (i ≠ head) as Hih by (unfold head; lia).
  pose proof Hp as [Hp1 Hp2]%path_app.
  pose proof (path_nx_in _ _ _ _ _ Hp2) as Hnx. pose proof (path_pv_in _ _ _ _ _ Hp1) as Hpv.
  assert (i ≠ nxt s i) as Hne.
  { intros He. destruct Hnx as [Hnx|Hnx]; [congruence|]. rewrite <- He in Hnx.
    apply NoDup_app in Hnd as (_ & _ & [Hn _]%NoDup_cons). done. }
  destruct (unlink_run s i Hl Hne) as (R1 & N1 & P1).
  { destruct Hnx as [->|Hnx]; [done|]. apply Hle. rewrite Ho. apply elem_of_app. right. by right. }
  { apply elem_of_cons in Hpv as [->|Hpv]; [done|]. apply Hle. rewrite Ho. apply elem_of_app. by left. }
  set (s1 := upd_buf (nxt s i) (set_prev (prv s i)) s) in *. set (s2 := upd_buf (prv s1 i) (set_next (nxt s1 i)) s1) in *.
  assert (path (nxt s2) (prv s2) head (l1 ++ l2) head) as Hp3.
  { eapply path_fun; [exact N1|exact P1|]. by apply path_unlink; [|constructor|]. }
  assert (i ∉ head :: l1 ++ l2) as Hi2.
  { intros [?|Hin]%elem_of_cons; [done|].
    rewrite <- (filter_ne_app i) in Hin by done. by apply list_elem_of_filter in Hin as [? _]. }
  assert (NoDup (head :: l1 ++ l2)) as Hnd2.
  { constructor; [|rewrite <- (filter_ne_app i) by done; by apply NoDup_filter].
    rewrite <- (filter_ne_app i) by done. by intros [_ ?]%list_elem_of_filter. }
  destruct (push_run s2 i) as (R2 & N2 & P2); [unfold s2, s1; by rewrite !upd_buf_len|done|done| |].
  { destruct (path_nx_in _ _ _ _ _ Hp3) as [->|Hin]; [done|]. apply Hle. rewrite Ho.
    rewrite <- (filter_ne_app i) in Hin by done. by apply list_elem_of_filter in Hin as [_ ?]. }
  eexists. split; [reflexivity|]. split; [by etrans|]. split.
  - unfold move_front. rewrite Ho, filter_ne_app by done.
    eapply path_fun; [exact N2|exact P2|]. by apply path_push.
  - unfold move_front. rewrite Ho, filter_ne_app by done. rewrite <- Hperm, Ho. solve_Permutation.
Qed.

(** ** Releasing and writing *)

Lemma upd_buf_id i f s : f (bf i s) = bf i s → upd_buf i f s = s.
Proof.
  intros H. rewrite upd_buf_put, H. destruct s as [l bs d]. unfold upd_buf, set_bufs, bf; simpl. f_equal.
  apply list_eq. intros j. rewrite list_lookup_alter. case_decide as Hj; [subst j|done].
  destruct (bs !! i) as [x|] eqn:Hx; simpl; [|done]. by rewrite (list_lookup_total_correct _ _ _ Hx).
Qed.

Lemma with_holdingsleep pid i s : sl_lk (b_lock (bf i s)) = false →
  with_lock i (λ _, holdingsleep pid) s = Done (bool_decide (owned pid s i)) s [].
Proof.
  intros Hl. unfold with_lock. erewrite lift_done; [|by apply holdingsleep_run].
  rewrite upd_buf_id by (by destruct (bf i s)). f_equal. unfold owned.
  destruct (Z.eqb_spec (sl_locked (b_lock (bf i s))) 0), (Z.eqb_spec (sl_pid (b_lock (bf i s))) pid); case_bool_decide; naive_solver.
Qed.

Lemma with_releasesleep i s : sl_lk (b_lock (bf i s)) = false →
  with_lock i releasesleep s = Done tt (upd_buf i drop_lock s) [Wakeup (A_bufsleeplock i)].
Proof.
  intros Hl. unfold with_lock. erewrite lift_done; [|by apply releasesleep_run]. f_equal. by apply upd_buf_ext.
Qed.

(** The state after [brelse] dropped the lock and the reference. *)
Definition dropped (i : nat) (s : bcache) : bcache := put_buf i (less_refs (drop_lock (bf i s))) s.

Lemma brelse_unfold pid i s : bc_lock s = false → (i < length (bufs s))%nat → sl_lk (b_lock (bf i s)) = false → owned pid s i →
  brelse pid i s = pre [Wakeup (A_bufsleeplock i)]
    (bind (if refcnt (bf i (dropped i s)) =? 0 then to_front i else ret tt) (λ _, release) (set_held true (dropped i s))).
Proof.
  intros Hb Hi Hl Ho. unfold brelse. rewrite (bind_done _ _ _ _ _ (with_holdingsleep pid i s Hl)).
  rewrite bool_decide_true by done. cbn [negb].
  rewrite (bind_run _ _ _ _ _ _ (with_releasesleep i s Hl)). f_equal.
  rewrite (bind_done _ _ _ _ _ (acquire_free (upd_buf i drop_lock s) Hb)). mrun.
  change (upd_buf i _ (set_held true (upd_buf i drop_lock s))) with
    (set_held true (upd_buf i (λ x, set_refcnt (u32 (refcnt x - 1)) x) (upd_buf i drop_lock s))).
  rewrite upd_buf_upd. unfold dropped. rewrite <- (upd_buf_put i (λ x, less_refs (drop_lock x)) s). done.
Qed.

Record brelse_post (dev : Z) (s : bcache) (order : list nat) (b : Z) (i : nat) (s' : bcache) : Prop := {
  br_inv : binv dev s' (if decide (refs dev s b = 1) then move_front i order else order);
  br_content : ∀ c, content dev s' c = content dev s c;
  br_refs : ∀ c, refs dev s' c = if decide (c = b) then refs dev s b - 1 else refs dev s c;
  br_free : (nfree s' = nfree s + (if decide (refs dev s b = 1%Z) then 1 else 0))%nat;
  br_unlocked : sl_locked (b_lock (bf i s')) = 0;
  br_locks : ∀ j, j ≠ i → b_lock (bf j s') = b_lock (bf j s);
  br_data : ∀ j, valid (bf j s') = valid (bf j s) ∧ data (bf j s') = data (bf j s);
  br_cached : ∀ c j, cached dev s' c j ↔ cached dev s c j;
  br_disk : disk s' = disk s
}.

Section brelse.
Context (pid dev : Z) (s : bcache) (order : list nat) (b : Z) (i : nat).
Hypothesis (Hdev : dev ≠ 0) (Hinv : binv dev s order) (Hc : cached dev s b i) (Hown : owned pid s i).
Hypothesis (Hclean : refs dev s b = 1 → content dev s b = disk_block (disk s) b).

Let x := less_refs (drop_lock (bf i s)).

Lemma brelse_ref : 1 ≤ refs dev s b ∧ refcnt x = refs dev s b - 1.
Proof.
  rewrite (refs_cached _ _ _ _ _ Hinv Hc). destruct Hc as [Hi _]. pose proof (bi_ref _ _ _ Hinv i Hi) as Hr.
  assert (refcnt (bf i s) ≠ 0) by (intros H0; destruct Hown as [Ho _]; apply Ho; by apply (bi_idle _ _ _ Hinv)).
  unfold is_u32 in Hr. split; [lia|]. apply u32_small. unfold is_u32; simpl. lia.
Qed.

Lemma dropped_post : binv dev (dropped i s) order ∧ (∀ c, content dev (dropped i s) c = content dev s c) ∧
  (∀ c, refs dev (dropped i s) c = if decide (c = b) then refs dev s b - 1 else refs dev s c) ∧
  (nfree (dropped i s) = nfree s + (if decide (refs dev s b = 1%Z) then 1 else 0))%nat.
Proof.
  destruct brelse_ref as [H1 Hx]. destruct Hc as (Hi & Hd & Hb). pose proof (bi_len _ _ _ Hinv) as Hlen.
  pose proof (bi_ref _ _ _ Hinv i Hi) as Hu. pose proof (refs_cached _ _ _ _ _ Hinv Hc) as Hr.
  pose proof (content_cached _ _ _ _ _ Hinv Hc) as Hct. unfold is_u32 in Hu.
  assert (∀ j, cached dev s (blockno x) j → j = i) as Hnew by (intros j Hj; eapply (bi_uniq _ _ _ Hinv b); [rewrite <- Hb; exact Hj|done]).
  assert (b_dev (bf i s) = dev ∧ blockno (bf i s) = blockno x ∨ refcnt (bf i s) = 0) as Hold by (by left).
  assert (is_u32 (refcnt x)) as Hux by (rewrite Hx; unfold is_u32; lia).
  assert (refcnt x = 0 → sl_locked (b_lock x) = 0 ∧ bcont (disk s) x = disk_block (disk s) (blockno x)) as Hz.
  { intros H0. split; [done|]. change (bcont (disk s) x) with (bcont (disk s) (bf i s)). rewrite <- Hct.
    change (blockno x) with (blockno (bf i s)). rewrite Hb. apply Hclean. lia. }
  pose proof (bi_size _ _ _ Hinv i Hi) as Hsz.
  split_and!.
  - apply set_binv; done.
  - intros c. unfold dropped. rewrite set_content with (order := order) by done. case_decide as Hcb; [|done].
    rewrite Hcb. change (blockno _) with (blockno (bf i s)). by rewrite Hb, Hct.
  - intros c. unfold dropped. rewrite set_refs with (order := order) by done. change (blockno _) with (blockno (bf i s)). by rewrite Hb, <- Hx.
  - pose proof (nfree_upd i x s Hlen Hi) as Hn. unfold zero_ref in Hn. rewrite Hx in Hn. unfold dropped. fold x.
    rewrite (decide_False (P := refcnt (bf i s) = 0)) in Hn by lia. repeat case_decide; lia.
Qed.

Lemma brelse_run : ∃ s', brelse pid i s = Done tt s' [Wakeup (A_bufsleeplock i)] ∧ brelse_post dev s order b i s'.
Proof.
  destruct dropped_post as (Dinv & Dc & Dr & Df). destruct brelse_ref as [H1 Hx]. pose proof Hc as (Hi & _).
  pose proof (bi_len _ _ _ Hinv) as Hlen.
  rewrite brelse_unfold; [|apply (bi_lock _ _ _ Hinv)|lia|by apply (bi_lk _ _ _ Hinv)|done].
  assert (bf i (dropped i s) = x) as Hbx by (unfold dropped; rewrite bf_upd_eq by lia; done).
  assert (∀ j, j ≠ i → bf j (dropped i s) = bf j s) as Hne by (intros j Hj; by apply bf_upd_ne).
  assert (∀ s' o, relinked (dropped i s) s' → binv dev s' o →
    o = (if decide (refs dev s b = 1) then move_front i order else order) → brelse_post dev s order b i s') as Hpost.
  { intros s' o Hrl Hb ->. split; [done|..].
    - intros c. rewrite relinked_content with (s := dropped i s) by done. done.
    - intros c. rewrite relinked_refs with (s := dropped i s) by done. done.
    - rewrite relinked_nfree with (s := dropped i s) by done. done.
    - destruct (relinked_fields _ _ i Hrl) as (_ & _ & _ & -> & _). by rewrite Hbx.
    - intros j Hj. destruct (relinked_fields _ _ j Hrl) as (_ & _ & _ & -> & _). by rewrite Hne.
    - intros j. destruct (relinked_fields _ _ j Hrl) as (-> & _ & _ & _ & _ & ->).
      destruct (decide (j = i)) as [->|]; [by rewrite Hbx|by rewrite Hne].
    - intros c j. rewrite (relinked_cached dev _ _ Hrl). unfold cached. destruct (decide (j = i)) as [->|]; [by rewrite Hbx|by rewrite Hne].
    - by rewrite (rl_disk _ _ Hrl). }
  rewrite Hbx, Hx. destruct (Z.eqb_spec (refs dev s b - 1) 0) as [H0|H0].
  - destruct (to_front_run (set_held true (dropped i s)) order i) as (s' & Hrun & Hrl & Hring).
    { apply (bi_len _ _ _ Dinv). } { apply (bi_ring _ _ _ Dinv). } { done. }
    rewrite (bind_done _ _ _ _ _ Hrun). unfold release. change (held s') with (bc_lock s'). rewrite (rl_lock _ _ Hrl). simpl.
    eexists. split; [reflexivity|].
    assert (relinked (dropped i s) (set_held false s')) as Hrl'.
    { destruct Hrl as [A1 A2 A3 A4]. split; [symmetry; apply (bi_lock _ _ _ Dinv)|exact A2|exact A3|exact A4]. }
    eapply Hpost; [done| |].
    + eapply relinked_binv; [done|exact Dinv|exact Hring].
    + rewrite decide_True by lia. done.
  - mrun. unfold release; simpl. eexists. split; [reflexivity|].
    replace (mkbcache false _ _) with (dropped i s) by (unfold dropped, upd_buf, set_bufs; simpl; by rewrite (bi_lock _ _ _ Hinv)).
    eapply Hpost; [reflexivity|done|]. rewrite decide_False by lia. done.
Qed.
End brelse.

(** ** Writing, pinning *)

Section touch.
Context (dev : Z) (s : bcache) (order : list nat) (b : Z) (i : nat).
Hypothesis (Hdev : dev ≠ 0) (Hinv : binv dev s order) (Hc : cached dev s b i).

(** Changing the data or the reference count of a cached block's buffer. *)
Lemma touch_post x : prev x = prev (bf i s) → next x = next (bf i s) → b_dev x = dev → blockno x = b →
  b_lock x = b_lock (bf i s) → is_u32 (refcnt x) → length (data x) = Z.to_nat BSIZE →
  (refcnt x = 0 → sl_locked (b_lock x) = 0 ∧ bcont (disk s) x = disk_block (disk s) b) →
  binv dev (put_buf i x s) order ∧ cached dev (put_buf i x s) b i ∧
  (∀ c, content dev (put_buf i x s) c = if decide (c = b) then bcont (disk s) x else content dev s c) ∧
  (∀ c, refs dev (put_buf i x s) c = if decide (c = b) then refcnt x else refs dev s c).
Proof.
  intros Hp Hn Hd Hb Hl Hu Hs Hz. destruct Hc as (Hi & Hd' & Hb').
  assert (∀ j, cached dev s (blockno x) j → j = i) as Hnew by (intros j Hj; rewrite Hb in Hj; by eapply bi_uniq).
  assert (b_dev (bf i s) = dev ∧ blockno (bf i s) = blockno x ∨ refcnt (bf i s) = 0) as Hold by (left; split; [done|congruence]).
  assert (sl_lk (b_lock x) = false) as Hlk by (rewrite Hl; by apply (bi_lk _ _ _ Hinv)).
  rewrite <- Hb in Hz |- *. split_and!.
  - by apply set_binv.
  - by eapply set_cached_new.
  - intros c. by apply (set_content dev s order).
  - intros c. by apply (set_refs dev s order).
Qed.

Lemma bpin_run : bpin i s = Done tt (put_buf i (more_refs (bf i s)) s) [].
Proof.
  pose proof (bi_lock _ _ _ Hinv) as Hl. unfold bpin. rewrite (bind_done _ _ _ _ _ (acquire_free s Hl)). mrun.
  rewrite (release_upd dev s order Hinv). by rewrite upd_buf_put.
Qed.
Lemma bunpin_run : bunpin i s = Done tt (put_buf i (less_refs (bf i s)) s) [].
Proof.
  pose proof (bi_lock _ _ _ Hinv) as Hl. unfold bunpin. rewrite (bind_done _ _ _ _ _ (acquire_free s Hl)). mrun.
  rewrite (release_upd dev s order Hinv). by rewrite upd_buf_put.
Qed.

Lemma bwrite_run pid : owned pid s i →
  bwrite pid i s = Done tt (set_disk (<[b := data (bf i s)]> (disk s)) s) [DiskWrite b (data (bf i s))].
Proof.
  intros Ho. destruct Hc as (Hi & Hd & Hb). unfold bwrite.
  rewrite (bind_done _ _ _ _ _ (with_holdingsleep pid i s (bi_lk _ _ _ Hinv i Hi))).
  rewrite bool_decide_true by done. unfold virtio_disk_rw. cbn [negb]. mrun. unfold emit. by rewrite Hb.
Qed.

Lemma disk_block_insert d (c c' : Z) v : disk_block (<[c := v]> d) c' = if decide (c' = c) then v else disk_block d c'.
Proof. unfold disk_block. case_decide as H; [subst; by rewrite lookup_insert_eq|by rewrite lookup_insert_ne by congruence]. Qed.

Lemma bwrite_post : valid (bf i s) ≠ 0 → refcnt (bf i s) ≠ 0 →
  let s' := set_disk (<[b := data (bf i s)]> (disk s)) s in
  binv dev s' order ∧ (∀ c, content dev s' c = content dev s c).
Proof.
  intros Hv Hr s'. assert (∀ c j, cached dev s' c j → c ≠ b → cached dev s c j) as Hcc by done.
  assert (∀ c j, cached dev s c j → bcont (disk s') (bf j s) = bcont (disk s) (bf j s)) as Hbc.
  { intros c j Hj. unfold bcont. destruct (Z.eqb_spec (valid (bf j s)) 0) as [H0|]; [|done].
    simpl. rewrite disk_block_insert. case_decide as He; [|done]. exfalso. apply Hv.
    rewrite (bi_uniq _ _ _ Hinv b i j); [done|done|]. destruct Hj as (? & ? & ?). repeat split; congruence. }
  assert (binv dev s' order) as Hinv'.
  { split; try apply Hinv.
    - intros c j Hj H0. change (bf j s') with (bf j s) in H0 |- *. change (cached dev s c j) in Hj. rewrite (Hbc c j Hj). rewrite (bi_clean _ _ _ Hinv c j Hj H0).
      simpl. rewrite disk_block_insert. case_decide as He; [|done]. subst c.
      by rewrite (bi_uniq _ _ _ Hinv b j i Hj Hc) in H0.
    - intros c. simpl. rewrite disk_block_insert. case_decide; [apply (bi_size _ _ _ Hinv), Hc|apply (bi_dsize _ _ _ Hinv)]. }
  split; [done|]. intros c. destruct (cached_dec dev s c) as [[j Hj]|Hn].
  - rewrite (content_cached _ _ _ _ _ Hinv' Hj), (content_cached _ _ _ _ _ Hinv Hj). apply (Hbc c j Hj).
  - rewrite !content_uncached by done. simpl. rewrite disk_block_insert. case_decide as He; [|done]. subst c. by destruct (Hn i).
Qed.
End touch.

(** ** Initialisation *)

Definition boot_cache (d : gmap Z (list Z)) : bcache := mkbcache false (replicate (S NBUF) buf0) d.

(** [binit] threads the buffers, the last one in front. *)
Lemma binit_links z (d : gmap Z (list Z)) :
  ∃ s, binit (mkbcache false (replicate (S NBUF) (mkbuf 0 0 0 0 (initsleeplock "") 0 0 0 z)) d) = Done tt s [] ∧
  ring s (reverse (seq 0 NBUF)) ∧ bc_lock s = false ∧ disk s = d ∧ length (bufs s) = S NBUF ∧
  Forall (λ x, valid x = 0 ∧ b_dev x = 0 ∧ refcnt x = 0 ∧ data x = z ∧ sl_lk (b_lock x) = false ∧ sl_locked (b_lock x) = 0) (bufs s).
Proof.
  eexists. split; [vm_compute; reflexivity|]. split_and!.
  - split; [|apply reverse_Permutation]. vm_compute. repeat split.
  - reflexivity.
  - reflexivity.
  - reflexivity.
  - repeat (constructor; [by repeat split|]). constructor.
Qed.

Lemma binit_run dev d : dev ≠ 0 → (∀ b, length (disk_block d b) = Z.to_nat BSIZE) →
  ∃ s, binit (boot_cache d) = Done tt s [] ∧ binv dev s (reverse (seq 0 NBUF)) ∧ disk s = d ∧
  (∀ b, content dev s b = disk_block d b) ∧ (∀ b, refs dev s b = 0) ∧ nfree s = NBUF ∧ (∀ b i, ¬ cached dev s b i) ∧
  (∀ i, (i < NBUF)%nat → refcnt (bf i s) = 0).
Proof.
  intros Hdev Hd. destruct (binit_links zero_block d) as (s & Hrun & Hr & Hl & Hdk & Hlen & Hall).
  assert (∀ i, (i < NBUF)%nat → valid (bf i s) = 0 ∧ b_dev (bf i s) = 0 ∧ refcnt (bf i s) = 0 ∧ data (bf i s) = zero_block ∧
    sl_lk (b_lock (bf i s)) = false ∧ sl_locked (b_lock (bf i s)) = 0) as Hb.
  { intros i Hi. rewrite Forall_forall in Hall. apply Hall. unfold bf. destruct (lookup_lt_is_Some_2 (bufs s) i) as [x Hx]; [lia|].
    rewrite (list_lookup_total_correct _ _ _ Hx). by eapply list_elem_of_lookup_2. }
  assert (∀ b i, ¬ cached dev s b i) as Hn by (intros b i (Hi & H0 & _); destruct (Hb i Hi) as (_ & H1 & _); congruence).
  exists s. split; [exact Hrun|]. split_and!; [|done|..|done|intros i Hi; by apply Hb].
  - split; try done.
    + intros i Hi. left. by apply Hb.
    + intros i Hi. destruct (Hb i Hi) as (_ & _ & -> & _). done.
    + intros i Hi. by apply Hb.
    + intros i Hi _. by apply Hb.
    + intros b i j Hi. by destruct (Hn b i).
    + intros b i Hi. by destruct (Hn b i).
    + intros i Hi. destruct (Hb i Hi) as (_ & _ & _ & -> & _). apply length_replicate.
    + intros b. by rewrite Hdk.
  - intros b. rewrite content_uncached by done. by rewrite Hdk.
  - intros b. by apply refs_uncached.
  - unfold nfree. rewrite filter_all; [apply length_seq|]. intros i Hi. apply Hb. rewrite list_elem_of_In, in_seq in Hi. lia.
Qed.
