(* ===== verification/BioThm.v ===== *)
(** The buffer cache refines an atomic specification: block contents, disk,
    reference counts and owners; and it evicts in least-recently-used order. *)
From Stdlib Require Import ZArith Lia.
From stdpp Require Import base list gmap strings.
From S2P Require Import Prelude Machine Sleeplock Bio.

(** ** Specification *)

(** What clients see: the contents of each block, the contents of the disk, how
    many references each block has, who holds its lock, and how many buffers
    are unreferenced. *)
Record cspec := mkcspec {
  sp_block : Z → list Z;
  sp_disk : Z → list Z;
  sp_refs : Z → Z;
  sp_owner : Z → option Z;
  sp_free : nat
}.

Definition fupd {A} (f : Z → A) (b : Z) (v : A) : Z → A := λ c, if decide (c = b) then v else f c.

(** What a client does with a block: read and lock it, store into its buffer,
    write the buffer to disk, release it, pin and unpin it. *)
Inductive cop : Type :=
| Read (b : Z)
| Store (b : Z) (v : list Z)
| Write (b : Z)
| Release (b : Z)
| Pin (b : Z)
| Unpin (b : Z).

(** The effect of each operation by process [p]. *)
Definition after_read (p b : Z) (σ : cspec) : cspec :=
  mkcspec (sp_block σ) (sp_disk σ) (fupd (sp_refs σ) b (sp_refs σ b + 1)) (fupd (sp_owner σ) b (Some p))
    (if decide (sp_refs σ b = 0%Z) then sp_free σ - 1 else sp_free σ)%nat.
Definition after_store (b : Z) (v : list Z) (σ : cspec) : cspec :=
  mkcspec (fupd (sp_block σ) b v) (sp_disk σ) (sp_refs σ) (sp_owner σ) (sp_free σ).
Definition after_write (b : Z) (σ : cspec) : cspec :=
  mkcspec (sp_block σ) (fupd (sp_disk σ) b (sp_block σ b)) (sp_refs σ) (sp_owner σ) (sp_free σ).
Definition after_release (b : Z) (σ : cspec) : cspec :=
  mkcspec (sp_block σ) (sp_disk σ) (fupd (sp_refs σ) b (sp_refs σ b - 1)) (fupd (sp_owner σ) b None)
    (if decide (sp_refs σ b = 1%Z) then sp_free σ + 1 else sp_free σ)%nat.
Definition after_refs (b n : Z) (σ : cspec) : cspec :=
  mkcspec (sp_block σ) (sp_disk σ) (fupd (sp_refs σ) b (sp_refs σ b + n)) (sp_owner σ) (sp_free σ).

(** [sp_step p op r σ σ']: process [p] may do [op], which yields [r]. A client
    releases the last reference to a block only when the disk has its contents. *)
Inductive sp_step (p : Z) : cop → list Z → cspec → cspec → Prop :=
| sp_read b σ : sp_owner σ b = None → sp_refs σ b + 1 < 2 ^ 32 → (0 < sp_free σ)%nat ∨ sp_refs σ b ≠ 0 →
    sp_step p (Read b) (sp_block σ b) σ (after_read p b σ)
| sp_store b v σ : sp_owner σ b = Some p → length v = Z.to_nat BSIZE →
    sp_step p (Store b v) v σ (after_store b v σ)
| sp_write b σ : sp_owner σ b = Some p → sp_step p (Write b) (sp_block σ b) σ (after_write b σ)
| sp_release b σ : sp_owner σ b = Some p → (sp_refs σ b = 1 → sp_block σ b = sp_disk σ b) →
    sp_step p (Release b) [] σ (after_release b σ)
| sp_pin b σ : sp_owner σ b = Some p → sp_refs σ b + 1 < 2 ^ 32 → sp_step p (Pin b) [] σ (after_refs b 1 σ)
| sp_unpin b σ : sp_owner σ b = Some p → 2 ≤ sp_refs σ b → sp_step p (Unpin b) [] σ (after_refs b (-1) σ).

Inductive sp_run : cspec → list (Z * cop) → list (list Z) → cspec → Prop :=
| sp_run_nil σ : sp_run σ [] [] σ
| sp_run_cons σ p op r σ1 ops rs σ2 : sp_step p op r σ σ1 → sp_run σ1 ops rs σ2 →
    sp_run σ ((p, op) :: ops) (r :: rs) σ2.

(** A machine that just booted. *)
Definition sp_init (d : gmap Z (list Z)) : cspec :=
  mkcspec (disk_block d) (disk_block d) (λ _, 0) (λ _, None) NBUF.

(** The writes in a trace. *)
Fixpoint dwrites (t : list event) : list (Z * list Z) :=
  match t with
  | [] => []
  | DiskWrite b v :: t' => (b, v) :: dwrites t'
  | _ :: t' => dwrites t'
  end.

Lemma dwrites_app t t' : dwrites (t ++ t') = dwrites t ++ dwrites t'.
Proof. induction t as [|[]]; simpl; f_equal; done. Qed.

(** ** The operations on the cache *)

(** The client runs [m] on the buffer it got for block [b]. *)
Definition with_block {A} (dev b : Z) (m : nat → B A) : B A :=
  let! i := gets (λ s, cache_of dev s b) in
  match i with Some i => m i | None => panic "no buffer" end.

Definition run_op (dev p : Z) (op : cop) : B (list Z) :=
  match op with
  | Read b => let! i := bread p dev b in gets (λ s, data (bf i s))
  | Store b v => with_block dev b (λ i, modify (upd_buf i (set_data v)) ;; ret v)
  | Write b => with_block dev b (λ i, bwrite p i ;; gets (λ s, data (bf i s)))
  | Release b => with_block dev b (λ i, brelse p i ;; ret [])
  | Pin b => with_block dev b (λ i, bpin i ;; ret [])
  | Unpin b => with_block dev b (λ i, bunpin i ;; ret [])
  end.

Fixpoint run_ops (dev : Z) (ops : list (Z * cop)) : B (list (list Z)) :=
  match ops with
  | [] => ret []
  | (p, op) :: ops' => let! r := run_op dev p op in let! rs := run_ops dev ops' in ret (r :: rs)
  end.

(** ** Simulation *)

Record brel (dev : Z) (s : bcache) (σ : cspec) : Prop := {
  br_order : ∃ order, binv dev s order;
  br_blocks : ∀ b, content dev s b = sp_block σ b;
  br_dsk : ∀ b, disk_block (disk s) b = sp_disk σ b;
  br_rf : ∀ b, refs dev s b = sp_refs σ b;
  br_fr : nfree s = sp_free σ;
  br_own : ∀ b p, sp_owner σ b = Some p ↔ ∃ i, cached dev s b i ∧ owned p s i;
  br_val : ∀ b i, cached dev s b i → sl_locked (b_lock (bf i s)) ≠ 0 → valid (bf i s) ≠ 0
}.

(** A block somebody holds: its buffer, and what is known of it. *)
Lemma brel_owner dev s σ b p : brel dev s σ → sp_owner σ b = Some p →
  ∃ order i, binv dev s order ∧ cached dev s b i ∧ owned p s i ∧ valid (bf i s) ≠ 0 ∧
    cache_of dev s b = Some i ∧ refcnt (bf i s) = sp_refs σ b ∧ 1 ≤ sp_refs σ b ∧ data (bf i s) = sp_block σ b.
Proof.
  intros HR Ho. destruct (br_order _ _ _ HR) as [order Hinv]. apply (br_own _ _ _ HR) in Ho as (i & Hc & Hown).
  pose proof (br_val _ _ _ HR b i Hc (proj1 Hown)) as Hv.
  pose proof (br_rf _ _ _ HR b) as Hr. rewrite (refs_cached _ _ _ _ _ Hinv Hc) in Hr.
  pose proof (br_blocks _ _ _ HR b) as Hb. rewrite (content_cached _ _ _ _ _ Hinv Hc) in Hb.
  unfold bcont in Hb. rewrite (proj2 (Z.eqb_neq _ _) Hv) in Hb.
  exists order, i. split_and!; try done.
  - unfold cache_of. by eapply find_cached.
  - rewrite <- Hr. pose proof (bi_ref _ _ _ Hinv i (proj1 Hc)) as Hu. unfold is_u32 in Hu.
    assert (refcnt (bf i s) ≠ 0); [|lia]. intros H0. destruct Hown as [Hl _]. apply Hl. by apply (bi_idle _ _ _ Hinv); [apply Hc|].
Qed.

Lemma with_block_run {A} dev b (m : nat → B A) s i : cache_of dev s b = Some i → with_block dev b m s = m i s.
Proof. intros H. unfold with_block. mrun. by rewrite H. Qed.

(** What one operation establishes. *)
Definition simulates (dev p : Z) (op : cop) (r : list Z) (s : bcache) (σ σ' : cspec) : Prop :=
  ∃ s' t, run_op dev p op s = Done r s' t ∧ brel dev s' σ' ∧
    dwrites t = match op with Write b => [(b, sp_block σ b)] | _ => [] end.

Lemma fupd_eq {A} (f : Z → A) b v : fupd f b v b = v.
Proof. unfold fupd. by rewrite decide_True. Qed.
Lemma fupd_ne {A} (f : Z → A) b v c : c ≠ b → fupd f b v c = f c.
Proof. intros. unfold fupd. by rewrite decide_False. Qed.

Section sim.
Context (dev : Z) (Hdev : dev ≠ 0) (s : bcache) (σ : cspec) (HR : brel dev s σ).

(** After a change of buffer [i], which holds block [b]. *)
Lemma sim_touch i x b order p' : binv dev s order → cached dev s b i → owned p' s i → valid (bf i s) ≠ 0 →
  prev x = prev (bf i s) → next x = next (bf i s) → b_dev x = b_dev (bf i s) → blockno x = blockno (bf i s) →
  b_lock x = b_lock (bf i s) → valid x = valid (bf i s) → is_u32 (refcnt x) → refcnt x ≠ 0 → length (data x) = Z.to_nat BSIZE →
  brel dev (put_buf i x s) (mkcspec (fupd (sp_block σ) b (data x)) (sp_disk σ) (fupd (sp_refs σ) b (refcnt x)) (sp_owner σ) (sp_free σ)).
Proof.
  intros Hinv Hc Hown Hv Hp Hn Hd Hb Hl Hvx Hu Hnz Hsz. pose proof Hc as (Hi & Hcd & Hcb).
  destruct (touch_post dev s order b i Hdev Hinv Hc x) as (Hinv' & Hc' & Hct & Hrf); try done; [congruence..|].
  pose proof (bi_len _ _ _ Hinv) as Hlen.
  assert (∀ c j, cached dev (put_buf i x s) c j ↔ cached dev s c j) as Hcc.
  { intros c j. unfold cached. rewrite bf_upd by lia. case_decide as He; [subst j|done]. by rewrite Hd, Hb. }
  split; simpl.
  - by exists order.
  - intros c. rewrite Hct. unfold fupd. case_decide; [|apply (br_blocks _ _ _ HR)]. unfold bcont. by rewrite Hvx, (proj2 (Z.eqb_neq _ _) Hv).
  - apply (br_dsk _ _ _ HR).
  - intros c. rewrite Hrf. unfold fupd. case_decide; [done|apply (br_rf _ _ _ HR)].
  - rewrite <- (br_fr _ _ _ HR). pose proof (nfree_upd i x s Hlen Hi) as Hf. unfold zero_ref in Hf.
    rewrite !decide_False in Hf; [lia|done|]. intros H0. destruct Hown as [Hlk _]. apply Hlk. by apply (bi_idle _ _ _ Hinv).
  - intros c p. rewrite (br_own _ _ _ HR). apply exist_proper. intros j. rewrite Hcc. unfold owned. rewrite bf_upd by lia.
    case_decide as He; [subst j; by rewrite Hl|done].
  - intros c j Hj. apply Hcc in Hj. rewrite bf_upd by lia. case_decide as He; [subst j; by rewrite Hvx|].
    by apply (br_val _ _ _ HR c).
Qed.

Lemma brel_ext σ1 σ2 s1 : brel dev s1 σ1 → (∀ b, sp_block σ1 b = sp_block σ2 b) → (∀ b, sp_disk σ1 b = sp_disk σ2 b) →
  (∀ b, sp_refs σ1 b = sp_refs σ2 b) → (∀ b, sp_owner σ1 b = sp_owner σ2 b) → sp_free σ1 = sp_free σ2 → brel dev s1 σ2.
Proof.
  intros [] H1 H2 H3 H4 H5. split; try done.
  - intros. by rewrite <- H1.
  - intros. by rewrite <- H2.
  - intros. by rewrite <- H3.
  - by rewrite <- H5.
  - intros. by rewrite <- H4.
Qed.

(** Blocks with references stay in their buffers. *)
Definition keeps (s' : bcache) : Prop := ∀ c j, cached dev s c j → sp_refs σ c ≠ 0 → cached dev s' c j.

Lemma h_read p b : sp_owner σ b = None → sp_refs σ b + 1 < 2 ^ 32 → (0 < sp_free σ)%nat ∨ sp_refs σ b ≠ 0 →
  ∃ i s', bread p dev b s = Done i s' [] ∧ brel dev s' (after_read p b σ) ∧ cached dev s' b i ∧
    data (bf i s') = sp_block σ b ∧ keeps s'.
Proof.
  intros Ho Hu Hf. destruct (br_order _ _ _ HR) as [order Hinv].
  assert (∀ i, cached dev s b i → sl_locked (b_lock (bf i s)) = 0) as Hul.
  { intros i Hi. destruct (decide (sl_locked (b_lock (bf i s)) = 0)) as [|Hl]; [done|]. exfalso.
    assert (sp_owner σ b = Some (sl_pid (b_lock (bf i s)))) as Ho' by (apply (br_own _ _ _ HR); by exists i). congruence. }
  destruct (bread_run p dev s order b Hdev Hinv Hul) as (i & s' & Hrun & Hp).
  { by rewrite (br_rf _ _ _ HR). } { by rewrite (br_fr _ _ _ HR), (br_rf _ _ _ HR). }
  pose proof (bp_cached _ _ _ _ _ _ _ Hp) as Hc. pose proof (bp_inv _ _ _ _ _ _ _ Hp) as Hinv'.
  pose proof (bp_owned _ _ _ _ _ _ _ Hp) as Hown.
  assert (∀ c j, c ≠ b → cached dev s' c j → cached dev s c j ∧ bf j s' = bf j s) as Hkeep.
  { intros c j Hne Hj. assert (j ≠ i) as Hji by (intros ->; destruct Hc as (_ & _ & H1), Hj as (_ & _ & H2); congruence).
    pose proof (bp_other _ _ _ _ _ _ _ Hp j Hji) as He. split; [|done]. unfold cached in *. by rewrite <- He. }
  assert (∀ c j, c ≠ b → cached dev s c j → refs dev s c ≠ 0 → j ≠ i) as Hstay.
  { intros c j Hcb Hj Hr ->. rewrite <- (decide_False (P := c = b) (refs dev s b + 1) (refs dev s c)) in Hr by done.
    rewrite <- (bp_refs _ _ _ _ _ _ _ Hp) in Hr. destruct (cached_dec dev s' c) as [[k Hk]|Hn].
    - destruct (Hkeep c k Hcb Hk) as [Hk' _]. rewrite (bi_uniq _ _ _ Hinv c k i Hk' Hj) in Hk.
      apply Hcb. destruct Hc as (_ & _ & <-), Hk as (_ & _ & <-). done.
    - by rewrite refs_uncached in Hr. }
  exists i, s'. split; [done|]. split; [|split; [done|split]].
  - split; simpl.
    + by exists order.
    + intros c. rewrite (bp_content _ _ _ _ _ _ _ Hp). apply (br_blocks _ _ _ HR).
    + rewrite (bp_disk _ _ _ _ _ _ _ Hp). apply (br_dsk _ _ _ HR).
    + intros c. rewrite (bp_refs _ _ _ _ _ _ _ Hp). unfold fupd. by rewrite !(br_rf _ _ _ HR).
    + pose proof (bp_free _ _ _ _ _ _ _ Hp) as Hfr. rewrite (br_rf _ _ _ HR), (br_fr _ _ _ HR) in Hfr. case_decide; lia.
    + intros c q. unfold fupd. case_decide as Hcb.
      * subst c. split; [intros [= <-]; by exists i|]. intros (j & Hj & [_ Hq]). rewrite (bi_uniq _ _ _ Hinv' b j i Hj Hc) in Hq.
        destruct Hown as [_ Hp']. congruence.
      * rewrite (br_own _ _ _ HR). split; intros (j & Hj & Hq).
        -- assert (j ≠ i) as Hji.
           { apply (Hstay c); [done|done|]. rewrite (refs_cached _ _ _ _ _ Hinv Hj). intros H0. destruct Hq as [Hq _]. apply Hq.
             by apply (bi_idle _ _ _ Hinv); [apply Hj|]. }
           exists j. pose proof (bp_other _ _ _ _ _ _ _ Hp j Hji) as He. unfold cached, owned in *. by rewrite He.
        -- destruct (Hkeep c j Hcb Hj) as [Hj' He]. exists j. unfold owned in *. by rewrite <- He.
    + intros c j Hj. destruct (decide (c = b)) as [->|Hcb].
      * intros _. rewrite (bi_uniq _ _ _ Hinv' b j i Hj Hc). apply (bp_valid _ _ _ _ _ _ _ Hp).
      * destruct (Hkeep c j Hcb Hj) as [Hj' He]. rewrite He. by apply (br_val _ _ _ HR c).
  - by rewrite (bp_data _ _ _ _ _ _ _ Hp), (br_blocks _ _ _ HR).
  - intros c j Hj Hr. rewrite <- (br_rf _ _ _ HR) in Hr. destruct (decide (c = b)) as [->|Hcb].
    + destruct (decide (j = i)) as [->|Hji]; [done|]. pose proof (bp_other _ _ _ _ _ _ _ Hp j Hji) as He. unfold cached in *. by rewrite He.
    + pose proof (bp_other _ _ _ _ _ _ _ Hp j (Hstay c j Hcb Hj Hr)) as He. unfold cached in *. by rewrite He.
Qed.

Lemma keeps_touch i x b : cached dev s b i → b_dev x = b_dev (bf i s) → blockno x = blockno (bf i s) → keeps (put_buf i x s).
Proof.
  intros Hc Hd Hb c j Hj _. destruct (br_order _ _ _ HR) as [order Hinv]. pose proof (bi_len _ _ _ Hinv). destruct Hc as [Hi _].
  unfold cached in *. rewrite bf_upd by lia. case_decide as He; [subst j; by rewrite Hd, Hb|done].
Qed.

(** The buffer of a block the process holds. *)
Lemma held_buf p b i : sp_owner σ b = Some p → cached dev s b i →
  ∃ order, binv dev s order ∧ owned p s i ∧ valid (bf i s) ≠ 0 ∧ refcnt (bf i s) = sp_refs σ b ∧ 1 ≤ sp_refs σ b < 2 ^ 32 ∧
    data (bf i s) = sp_block σ b ∧ length (data (bf i s)) = Z.to_nat BSIZE.
Proof.
  intros Ho Hc. destruct (brel_owner _ _ _ _ _ HR Ho) as (order & j & Hinv & Hc' & Hown & Hv & Hco & Hr & H1 & Hd).
  rewrite <- (bi_uniq _ _ _ Hinv b i j Hc Hc') in *. exists order. pose proof (bi_ref _ _ _ Hinv i (proj1 Hc)) as Hu. unfold is_u32 in Hu.
  pose proof (bi_size _ _ _ Hinv i (proj1 Hc)). split_and!; (done || lia).
Qed.

Lemma h_store p b i v : sp_owner σ b = Some p → cached dev s b i → length v = Z.to_nat BSIZE →
  brel dev (upd_buf i (set_data v) s) (after_store b v σ) ∧ keeps (upd_buf i (set_data v) s).
Proof.
  intros Ho Hc Hl. destruct (held_buf p b i Ho Hc) as (order & Hinv & Hown & Hv & Hr & H1 & Hd & _).
  rewrite upd_buf_put. split; [|by eapply keeps_touch].
  pose proof (bi_ref _ _ _ Hinv i (proj1 Hc)) as Hu. eapply brel_ext; [eapply sim_touch; try done; simpl; lia|..]; simpl; try done.
  intros c. unfold fupd. case_decide; [subst; lia|done].
Qed.

Lemma h_write p b i : sp_owner σ b = Some p → cached dev s b i →
  ∃ s', bwrite p i s = Done tt s' [DiskWrite b (sp_block σ b)] ∧ brel dev s' (after_write b σ) ∧ keeps s' ∧ bufs s' = bufs s.
Proof.
  intros Ho Hc. destruct (held_buf p b i Ho Hc) as (order & Hinv & Hown & Hv & Hr & H1 & Hd & _).
  destruct (bwrite_post dev s order b i Hinv Hc Hv) as [Hinv' Hct]; [lia|].
  exists (set_disk (<[b := data (bf i s)]> (disk s)) s). split_and!; [|split; simpl|by intros c j ? ?|done].
  - rewrite (bwrite_run dev s order b i Hinv Hc p Hown). by rewrite Hd.
  - by exists order.
  - intros c. rewrite Hct. apply (br_blocks _ _ _ HR).
  - intros c. rewrite disk_block_insert. unfold fupd. case_decide; [done|apply (br_dsk _ _ _ HR)].
  - apply (br_rf _ _ _ HR).
  - apply (br_fr _ _ _ HR).
  - apply (br_own _ _ _ HR).
  - apply (br_val _ _ _ HR).
Qed.

Lemma h_release p b i : sp_owner σ b = Some p → cached dev s b i → (sp_refs σ b = 1 → sp_block σ b = sp_disk σ b) →
  ∃ s', brelse p i s = Done tt s' [Wakeup (A_bufsleeplock i)] ∧ brel dev s' (after_release b σ) ∧ keeps s'.
Proof.
  intros Ho Hc Hcl. destruct (held_buf p b i Ho Hc) as (order & Hinv & Hown & Hv & Hr & H1 & Hd & _).
  destruct (brelse_run p dev s order b i Hdev Hinv Hc Hown) as (s' & Hrun & Hp).
  { by rewrite (br_rf _ _ _ HR), (br_blocks _ _ _ HR), (br_dsk _ _ _ HR). }
  exists s'. split; [done|]. split; [|intros c j Hj _; by apply (br_cached _ _ _ _ _ _ Hp)]. split; simpl.
  - eexists. apply (br_inv _ _ _ _ _ _ Hp).
  - intros c. rewrite (br_content _ _ _ _ _ _ Hp). apply (br_blocks _ _ _ HR).
  - rewrite (br_disk _ _ _ _ _ _ Hp). apply (br_dsk _ _ _ HR).
  - intros c. rewrite (br_refs _ _ _ _ _ _ Hp). unfold fupd. by rewrite !(br_rf _ _ _ HR).
  - rewrite (br_free _ _ _ _ _ _ Hp), (br_rf _ _ _ HR), (br_fr _ _ _ HR). case_decide; lia.
  - intros c q. assert (∀ j, owned q s' j ↔ j ≠ i ∧ owned q s j) as Hoq.
    { intros j. unfold owned. destruct (decide (j = i)) as [->|Hj].
      - rewrite (br_unlocked _ _ _ _ _ _ Hp). naive_solver.
      - rewrite (br_locks _ _ _ _ _ _ Hp j Hj). naive_solver. }
    setoid_rewrite (br_cached _ _ _ _ _ _ Hp). setoid_rewrite Hoq. unfold fupd. case_decide as Hcb.
    + subst c. split; [done|]. intros (j & Hj & Hji & _). by destruct Hji; apply (bi_uniq _ _ _ Hinv b).
    + rewrite (br_own _ _ _ HR). split; intros (j & Hj & Hq); exists j; [|naive_solver].
      split; [done|split; [|done]]. intros ->. apply Hcb. destruct Hc as (_ & _ & <-), Hj as (_ & _ & <-). done.
  - intros c j Hj. apply (br_cached _ _ _ _ _ _ Hp) in Hj. destruct (br_data _ _ _ _ _ _ Hp j) as [-> _].
    destruct (decide (j = i)) as [->|Hji]; [done|]. rewrite (br_locks _ _ _ _ _ _ Hp j Hji). by apply (br_val _ _ _ HR c).
Qed.

(** Changing the reference count of a block the process holds. *)
Lemma h_refs p b i n : sp_owner σ b = Some p → cached dev s b i → 1 ≤ sp_refs σ b + n < 2 ^ 32 →
  let s' := put_buf i (set_refcnt (u32 (refcnt (bf i s) + n)) (bf i s)) s in
  brel dev s' (after_refs b n σ) ∧ keeps s'.
Proof.
  intros Ho Hc Hn. destruct (held_buf p b i Ho Hc) as (order & Hinv & Hown & Hv & Hr & H1 & Hd & Hsz). simpl.
  assert (u32 (refcnt (bf i s) + n) = sp_refs σ b + n) as He by (rewrite u32_small; unfold is_u32; lia).
  split; [|by eapply keeps_touch].
  eapply brel_ext; [eapply sim_touch; try done; simpl; rewrite ?He; [unfold is_u32|]; lia|..]; simpl; try done.
  - intros c. unfold fupd. case_decide; [by subst|done].
  - intros c. by rewrite He.
Qed.
Lemma h_pin p b i : sp_owner σ b = Some p → cached dev s b i → sp_refs σ b + 1 < 2 ^ 32 →
  ∃ s', bpin i s = Done tt s' [] ∧ brel dev s' (after_refs b 1 σ) ∧ keeps s'.
Proof.
  intros Ho Hc Hu. destruct (held_buf p b i Ho Hc) as (order & Hinv & _ & _ & _ & H1 & _).
  eexists. split; [apply (bpin_run dev s order i Hinv)|]. apply (h_refs p b i 1 Ho Hc). lia.
Qed.
Lemma h_unpin p b i : sp_owner σ b = Some p → cached dev s b i → 2 ≤ sp_refs σ b →
  ∃ s', bunpin i s = Done tt s' [] ∧ brel dev s' (after_refs b (-1) σ) ∧ keeps s'.
Proof.
  intros Ho Hc Hu. destruct (held_buf p b i Ho Hc) as (order & Hinv & _ & _ & _ & H1 & _).
  eexists. split; [apply (bunpin_run dev s order i Hinv)|]. apply (h_refs p b i (-1) Ho Hc). lia.
Qed.

End sim.

Lemma sim_step dev s σ p op r σ' : dev ≠ 0 → brel dev s σ → sp_step p op r σ σ' → simulates dev p op r s σ σ'.
Proof.
  intros Hdev HR Hst. unfold simulates, run_op.
  destruct Hst as [b σ Ho Hu Hf|b v σ Ho Hl|b σ Ho|b σ Ho Hcl|b σ Ho Hu|b σ Ho H2].
  1:{ destruct (h_read dev Hdev s σ HR p b Ho Hu Hf) as (i & s' & Hrun & HR' & _ & Hd & _). exists s', [].
      rewrite (bind_done _ _ _ _ _ Hrun). unfold gets. by rewrite Hd. }
  all: destruct (brel_owner _ _ _ _ _ HR Ho) as (_ & i & _ & Hc & _ & _ & Hco & _ & _ & Hd); rewrite (with_block_run _ _ _ _ _ Hco).
  - destruct (h_store dev Hdev s σ HR p b i v Ho Hc Hl) as [HR' _]. eexists _, []. mrun. split; [reflexivity|done].
  - destruct (h_write dev s σ HR p b i Ho Hc) as (s' & Hrun & HR' & _ & Hb). exists s', [DiskWrite b (sp_block σ b)].
    rewrite (bind_run _ _ _ _ _ _ Hrun). split; [|done]. unfold gets. simpl. unfold bf in *. by rewrite Hb, Hd.
  - destruct (h_release dev Hdev s σ HR p b i Ho Hc Hcl) as (s' & Hrun & HR' & _). eexists s', _. rewrite (bind_run _ _ _ _ _ _ Hrun). split; [reflexivity|done].
  - destruct (h_pin dev Hdev s σ HR p b i Ho Hc Hu) as (s' & Hrun & HR' & _). eexists s', _. rewrite (bind_run _ _ _ _ _ _ Hrun). split; [reflexivity|done].
  - destruct (h_unpin dev Hdev s σ HR p b i Ho Hc H2) as (s' & Hrun & HR' & _). eexists s', _. rewrite (bind_run _ _ _ _ _ _ Hrun). split; [reflexivity|done].
Qed.

(** The blank disk. *)
Lemma blank_disk_size b : length (disk_block ∅ b) = Z.to_nat BSIZE.
Proof. unfold disk_block. rewrite lookup_empty. apply length_replicate. Qed.

Lemma brel_init dev d : dev ≠ 0 → (∀ b, length (disk_block d b) = Z.to_nat BSIZE) →
  ∃ s, binit (boot_cache d) = Done tt s [] ∧ brel dev s (sp_init d).
Proof.
  intros Hdev Hd. destruct (binit_run dev d Hdev Hd) as (s & Hrun & Hinv & Hdk & Hc & Hr & Hf & Hn & _).
  exists s. split; [done|]. split; simpl; try done.
  - eauto.
  - by rewrite Hdk.
  - intros b p. split; [done|]. intros (i & Hi & _). by destruct (Hn b i).
  - intros b i Hi. by destruct (Hn b i).
Qed.

Lemma run_ops_sim dev ops rs s σ σ' : dev ≠ 0 → brel dev s σ → sp_run σ ops rs σ' →
  ∃ s' t, run_ops dev ops s = Done rs s' t ∧ brel dev s' σ'.
Proof.
  intros Hdev HR Hs. revert s HR. induction Hs as [σ|σ p op r σ1 ops rs σ2 Hst _ IH]; intros s HR.
  - by exists s, [].
  - destruct (sim_step dev s σ p op r σ1 Hdev HR Hst) as (s1 & t1 & H1 & HR1 & _).
    destruct (IH s1 HR1) as (s2 & t2 & H2 & HR2). exists s2, (t1 ++ (t2 ++ [])). split; [|done].
    simpl. rewrite (bind_run _ _ _ _ _ _ H1), (bind_run _ _ _ _ _ _ H2). done.
Qed.

(** C10. The buffer cache is transparent. For every history of reads, stores,
    writes, releases, pins and unpins by any processes that the atomic
    specification allows, the code starting with [binit] runs it without
    panicking, blocking or looping, returns what the specification returns
    (a read sees the latest store to the block, whichever buffer was recycled
    in between), and leaves the disk the specification says. *)
Theorem bcache_refines dev d ops rs σ : dev ≠ 0 → (∀ b, length (disk_block d b) = Z.to_nat BSIZE) →
  sp_run (sp_init d) ops rs σ →
  ∃ s t, (binit ;; run_ops dev ops) (boot_cache d) = Done rs s t ∧
    (∀ b, disk_block (disk s) b = sp_disk σ b) ∧ (∀ b, content dev s b = sp_block σ b) ∧
    (∀ b i j, cached dev s b i → cached dev s b j → i = j).
Proof.
  intros Hdev Hd Hs. destruct (brel_init dev d Hdev Hd) as (s0 & Hi & HR).
  destruct (run_ops_sim dev ops rs s0 _ _ Hdev HR Hs) as (s & t & Hrun & HR').
  exists s, t. split; [rewrite (bind_done _ _ _ _ _ Hi); exact Hrun|]. split_and!.
  - apply (br_dsk _ _ _ HR').
  - apply (br_blocks _ _ _ HR').
  - destruct (br_order _ _ _ HR') as [order Hinv]. apply (bi_uniq _ _ _ Hinv).
Qed.

Definition sevens : list Z := replicate 1024 7.
Lemma sevens_size : length sevens = Z.to_nat BSIZE.
Proof. apply length_replicate. Qed.

Lemma bcache_refines_witness : ∃ ops rs σ, ops = [(1, Read 5); (1, Store 5 sevens); (1, Write 5); (1, Release 5); (2, Read 5)] ∧
  nth 4 rs [] = sevens ∧
  ∃ s t, (binit ;; run_ops ROOTDEV ops) (boot_cache ∅) = Done rs s t ∧
    (∀ b, disk_block (disk s) b = sp_disk σ b) ∧ (∀ b, content ROOTDEV s b = sp_block σ b) ∧
    (∀ b i j, cached ROOTDEV s b i → cached ROOTDEV s b j → i = j).
Proof.
  eexists _, _, _. split; [reflexivity|]. split; cycle 1.
  - eapply (bcache_refines ROOTDEV).
    + unfold ROOTDEV. lia.
    + exact blank_disk_size.
    + eapply sp_run_cons; [apply sp_read; [reflexivity|reflexivity|left; simpl; unfold NBUF; lia]|].
      eapply sp_run_cons; [apply sp_store; [reflexivity|exact sevens_size]|].
      eapply sp_run_cons; [apply sp_write; reflexivity|].
      eapply sp_run_cons; [apply sp_release; [reflexivity|intros _; simpl; by rewrite !fupd_eq]|].
      eapply sp_run_cons; [apply sp_read; [reflexivity|reflexivity|left; simpl; unfold NBUF; lia]|].
      apply sp_run_nil.
  - cbn [nth]. simpl. by rewrite fupd_eq.
Defined.

Lemma nfree_pos dev s order i : binv dev s order → find (unused s) (reverse order) = Some i → (0 < nfree s)%nat.
Proof.
  intros Hinv Hf. destruct (find_unused dev s order Hinv i Hf) as [Hi H0]. unfold nfree.
  assert (i ∈ filter (λ i, refcnt (bf i s) = 0) (seq 0 NBUF)) as Hin.
  { apply list_elem_of_filter. split; [done|]. rewrite list_elem_of_In, in_seq. lia. }
  destruct (filter _ _); [by apply elem_of_nil in Hin|simpl; lia].
Qed.

(** C34. Replacement is least-recently-used. A read of a block that is not
    cached recycles the last buffer of the list that nobody refers to (every
    buffer behind it is in use) and panics exactly when all are in use; no read
    reorders the list, and releasing the last reference moves the buffer to
    the front. *)
Theorem bcache_lru p dev b s order : dev ≠ 0 → binv dev s order →
  ((∀ i, ¬ cached dev s b i) →
    (∀ l1 i l2, order = l1 ++ i :: l2 → refcnt (bf i s) = 0 → Forall (λ j, refcnt (bf j s) ≠ 0) l2 →
      ∃ s', bread p dev b s = Done i s' [] ∧ bread_post p dev s order b i s') ∧
    (nfree s = 0%nat → bread p dev b s = Panic "bget: no buffers" (set_held true s) [])) ∧
  (∀ i, cached dev s b i → owned p s i → refs dev s b = 1 → content dev s b = disk_block (disk s) b →
    ∃ s' t, brelse p i s = Done tt s' t ∧ binv dev s' (i :: filter (λ j, j ≠ i) order)).
Proof.
  intros Hdev Hinv. split.
  - intros Hn. split.
    + intros l1 i l2 Ho H0 Hl2.
      assert (find (unused s) (reverse order) = Some i) as Hf.
      { rewrite Ho, reverse_app, reverse_cons. rewrite <- app_assoc. apply Forall_reverse in Hl2.
        induction Hl2 as [|j l Hj _ IH]; simpl; unfold unused at 1; [by rewrite H0|].
        by rewrite (proj2 (Z.eqb_neq _ _) Hj). }
      pose proof (nfree_pos dev s order i Hinv Hf) as Hfr.
      destruct (bread_run p dev s order b Hdev Hinv) as (i' & s' & Hrun & Hp).
      { intros j Hj. by destruct (Hn j). } { rewrite refs_uncached by done. lia. } { by left. }
      pose proof (bread_miss p dev s order Hinv b i Hn Hf) as Hm. rewrite Hm in Hrun. injection Hrun as -> <-. eauto.
    + intros Hz. unfold bread, bind at 1. rewrite (bget_lru p dev s order Hinv b Hn).
      destruct (find (unused s) (reverse order)) as [i|] eqn:Hf; [|done]. exfalso.
      pose proof (nfree_pos dev s order i Hinv Hf). lia.
  - intros i Hc Ho H1 Hcl. destruct (brelse_run p dev s order b i Hdev Hinv Hc Ho) as (s' & Hrun & Hp); [done|].
    exists s'. eexists. split; [exact Hrun|]. pose proof (br_inv _ _ _ _ _ _ Hp) as Hi. by rewrite decide_True in Hi.
Qed.

Lemma bcache_lru_witness : ∃ s s', bread 1 ROOTDEV 5 s = Done 0%nat s' [] ∧ bread_post 1 ROOTDEV s (reverse (seq 0 NBUF)) 5 0 s'.
Proof.
  destruct (binit_run ROOTDEV ∅) as (s & _ & Hinv & _ & _ & _ & _ & Hn & H0); [done|exact blank_disk_size|]. exists s.
  apply (proj1 (proj1 (bcache_lru 1 ROOTDEV 5 s (reverse (seq 0 NBUF)) ltac:(done) Hinv) (Hn 5)) (reverse (seq 1 29)) 0%nat []).
  - reflexivity.
  - apply H0. unfold NBUF. lia.
  - constructor.
Defined.
