(* ===== verification/Blk.v ===== *)
(** Integers inside a block of bytes: how the C structures overlaid on
    [b->data] are read and written. *)
From Stdlib Require Import ZArith Lia.
From stdpp Require Import base list gmap strings.
From S2P Require Import Prelude Mem.

(** The [n] bytes of [l] from offset [off], and [l] with [bs] stored there. *)
Definition slice (off n : nat) (l : list Z) : list Z := take n (drop off l).
Definition put (off : nat) (bs : list Z) (l : list Z) : list Z := list_inserts off bs l.

(** Unsigned little-endian fields. *)
Definition get16 (off : nat) (l : list Z) : Z := le_value (slice off 2 l).
Definition get32 (off : nat) (l : list Z) : Z := le_value (slice off 4 l).
Definition put16 (off : nat) (v : Z) (l : list Z) : list Z := put off (le_bytes 2 v) l.
Definition put32 (off : nat) (v : Z) (l : list Z) : list Z := put off (le_bytes 4 v) l.

Lemma length_slice off n l : (off + n ≤ length l)%nat → length (slice off n l) = n.
Proof. intros. unfold slice. rewrite length_take, length_drop. lia. Qed.
Lemma slice_lookup off n l k : (k < n)%nat → slice off n l !! k = l !! (off + k)%nat.
Proof. intros. unfold slice. rewrite lookup_take_lt by done. apply lookup_drop. Qed.
Lemma slice_lookup_ge off n l k : (n ≤ k)%nat → slice off n l !! k = None.
Proof. intros. unfold slice. by apply lookup_take_ge. Qed.
Lemma slice_ext off n l l' : (∀ k, (k < n)%nat → l !! (off + k)%nat = l' !! (off + k)%nat) → slice off n l = slice off n l'.
Proof.
  intros H. apply list_eq. intros k. destruct (decide (k < n)%nat); [rewrite !slice_lookup by done; by apply H|].
  by rewrite !slice_lookup_ge by lia.
Qed.

Lemma length_put off bs l : length (put off bs l) = length l.
Proof. apply length_inserts. Qed.
Lemma put_lookup off bs l k : (off + length bs ≤ length l)%nat → (k < length bs)%nat → put off bs l !! (off + k)%nat = bs !! k.
Proof. intros. unfold put. rewrite list_lookup_inserts by lia. f_equal. lia. Qed.
Lemma put_lookup_out off bs l k : (k < off ∨ off + length bs ≤ k)%nat → put off bs l !! k = l !! k.
Proof. intros [|]; [by apply list_lookup_inserts_lt|by apply list_lookup_inserts_ge]. Qed.

Lemma slice_put off bs l : (off + length bs ≤ length l)%nat → slice off (length bs) (put off bs l) = bs.
Proof.
  intros H. apply list_eq. intros k. destruct (decide (k < length bs)%nat).
  - rewrite slice_lookup by done. by apply put_lookup.
  - rewrite slice_lookup_ge by lia. symmetry. apply lookup_ge_None_2. lia.
Qed.
Lemma slice_put_ne off n off' bs l : (off + n ≤ off' ∨ off' + length bs ≤ off)%nat → slice off n (put off' bs l) = slice off n l.
Proof. intros H. apply slice_ext. intros k Hk. apply put_lookup_out. lia. Qed.
Lemma put_put off bs bs' l : length bs = length bs' → put off bs (put off bs' l) = put off bs l.
Proof.
  intros Hl. apply list_eq. intros k. destruct (decide (off ≤ k < off + length bs)%nat) as [Hk|].
  - unfold put. destruct (decide (k < length l)%nat) as [Hkl|].
    + destruct (lookup_lt_is_Some_2 l k Hkl) as [x Hx].
      rewrite !list_lookup_inserts by (rewrite ?length_inserts; lia). done.
    + rewrite !lookup_ge_None_2; rewrite ?length_inserts; [done|lia|lia].
  - rewrite !put_lookup_out by lia. done.
Qed.

Lemma get16_put16 off v l : (off + 2 ≤ length l)%nat → get16 off (put16 off v l) = u16 v.
Proof. intros H. unfold get16, put16. pose proof (slice_put off (le_bytes 2 v) l) as E. rewrite le_bytes_length in E. rewrite E by done. by rewrite le_value_bytes. Qed.
Lemma get32_put32 off v l : (off + 4 ≤ length l)%nat → get32 off (put32 off v l) = u32 v.
Proof. intros H. unfold get32, put32. pose proof (slice_put off (le_bytes 4 v) l) as E. rewrite le_bytes_length in E. rewrite E by done. by rewrite le_value_bytes. Qed.
Lemma get16_put_ne off off' bs l : (off + 2 ≤ off' ∨ off' + length bs ≤ off)%nat → get16 off (put off' bs l) = get16 off l.
Proof. intros. unfold get16. by rewrite slice_put_ne. Qed.
Lemma get32_put_ne off off' bs l : (off + 4 ≤ off' ∨ off' + length bs ≤ off)%nat → get32 off (put off' bs l) = get32 off l.
Proof. intros. unfold get32. by rewrite slice_put_ne. Qed.

(** An array of 32-bit integers. *)
Fixpoint put_array32 (off : nat) (vs : list Z) (l : list Z) : list Z :=
  match vs with
  | [] => l
  | v :: vs' => put_array32 (off + 4) vs' (put32 off v l)
  end.
Definition get_array32 (off : nat) (n : nat) (l : list Z) : list Z :=
  (λ i, get32 (off + 4 * i) l) <$> seq 0 n.

Lemma length_put_array32 off vs l : length (put_array32 off vs l) = length l.
Proof. revert off l. induction vs as [|v vs IH]; intros; [done|]. simpl. rewrite IH. apply length_put. Qed.
Lemma get32_array_before off vs l k : (k + 4 ≤ off)%nat → get32 k (put_array32 off vs l) = get32 k l.
Proof.
  revert off l. induction vs as [|v vs IH]; intros off l H; [done|]. simpl. rewrite IH by lia.
  unfold put32. apply get32_put_ne. by left.
Qed.
Lemma get_put_array32 off vs l : (off + 4 * length vs ≤ length l)%nat → Forall is_u32 vs →
  get_array32 off (length vs) (put_array32 off vs l) = vs.
Proof.
  revert off l. induction vs as [|v vs IH]; intros off l H Hv; [done|]. apply Forall_cons in Hv as [Hv Hvs].
  simpl in H. cbn [put_array32 length]. unfold get_array32. rewrite <- cons_seq, fmap_cons. f_equal.
  - rewrite Nat.mul_0_r, Nat.add_0_r, get32_array_before by lia. rewrite get32_put32 by lia. by apply u32_small.
  - rewrite <- fmap_S_seq, <- list_fmap_compose. rewrite <- (IH (off + 4)%nat (put32 off v l)) at 2 by (try done; unfold put32; rewrite length_put; lia).
    unfold get_array32. apply list_fmap_ext. intros i k Hk. simpl. f_equal. lia.
Qed.

Lemma put_array32_snoc off vs v l : put_array32 off (vs ++ [v]) l = put32 (off + 4 * length vs) v (put_array32 off vs l).
Proof.
  revert off l. induction vs as [|w vs IH]; intros off l; cbn [put_array32 app length].
  - f_equal. lia.
  - rewrite IH. f_equal. lia.
Qed.

(** Storing the elements of an array one by one. *)
Lemma insert_take_drop {A} (j : nat) (v : A) (vs bl : list A) : vs !! j = Some v → (j < length bl)%nat →
  <[j := v]> (take j vs ++ drop j bl) = take (S j) vs ++ drop (S j) bl.
Proof.
  intros Hv Hj. pose proof (lookup_lt_Some _ _ _ Hv) as Hl.
  assert (length (take j vs) = j) as Ht by (rewrite length_take; lia).
  rewrite insert_app_r_alt by lia. rewrite Ht, Nat.sub_diag. rewrite (take_S_r _ _ _ Hv), <- app_assoc. f_equal.
  destruct (lookup_lt_is_Some_2 bl j Hj) as [x Hx]. by rewrite (drop_S _ _ _ Hx).
Qed.
