(* ===== verification/Log.v ===== *)
(** The write-ahead log ([log.c]). *)
From Stdlib Require Import ZArith Lia.
From stdpp Require Import base list gmap strings.
From S2P Require Import Prelude Machine Sleeplock Bio BioThm Mem Blk.

(** ** State *)

(** [struct log], its header [lh] inlined; [lg_lock] says whether the running
    CPU holds [log.lock]. *)
Record log := mklog {
  lg_lock : bool;
  start : Z;
  size : Z;
  outstanding : Z;
  committing : Z;
  lg_dev : Z;
  lh_n : Z;
  lh_block : list Z
}.
Definition set_outstanding (v : Z) (l : log) : log :=
  mklog (lg_lock l) (start l) (size l) v (committing l) (lg_dev l) (lh_n l) (lh_block l).
Definition set_committing (v : Z) (l : log) : log :=
  mklog (lg_lock l) (start l) (size l) (outstanding l) v (lg_dev l) (lh_n l) (lh_block l).
Definition set_lh_n (v : Z) (l : log) : log :=
  mklog (lg_lock l) (start l) (size l) (outstanding l) (committing l) (lg_dev l) v (lh_block l).
Definition set_lh_block (v : list Z) (l : log) : log :=
  mklog (lg_lock l) (start l) (size l) (outstanding l) (committing l) (lg_dev l) (lh_n l) v.

(** The log above the buffer cache. *)
Record logsys := mklogsys { lg : log; bc : bcache }.
Definition upd_lg (f : log → log) (s : logsys) : logsys := mklogsys (f (lg s)) (bc s).
Definition set_bc (c : bcache) (s : logsys) : logsys := mklogsys (lg s) c.

Definition set_lg_lock (b : bool) (l : log) : log :=
  mklog b (start l) (size l) (outstanding l) (committing l) (lg_dev l) (lh_n l) (lh_block l).
#[export, refine] Instance logsys_locked : Locked logsys :=
  {| held s := lg_lock (lg s); set_held b s := upd_lg (set_lg_lock b) s |}.
Proof. all: by try intros ? ? [[] ?]; try intros ? [[] ?]; try intros [[] ?]. Defined.

(** The log before [initlog] ([.bss]). *)
Definition log0 : log := mklog false 0 0 0 0 0 0 (replicate (Z.to_nat LOGSIZE) 0).

Abbreviation L := (M event logsys).

(** Run a buffer cache routine. *)
Definition bio {A} (m : B A) : L A := lift bc set_bc m.

(** ** Operations *)

(** [log.lh.block[i] = v]; past the end of the array the C program is
    undefined, and the model stops. *)
Definition set_block (i : nat) (v : Z) : L unit :=
  let! l := gets lg in
  if (i <? length (lh_block l))%nat then modify (upd_lg (set_lh_block (<[i := v]> (lh_block l))))
  else panic "undefined: log.lh.block index".

(** [log.start+tail+1] as [bread] takes it. *)
Definition log_bno (l : log) (tail : nat) : Z := u32 (i32 (i32 (start l + Z.of_nat tail) + 1)).
(** [log.lh.block[tail]] as [bread] takes it. *)
Definition home_bno (l : log) (tail : nat) : Z := u32 (lh_block l !!! tail).

Section ops.
(** [myproc()->pid]. *)
Context (pid : Z).

(** The body of [install_trans]'s loop. *)
Definition install_block (recovering : bool) (l : log) (tail : nat) : L unit :=
  let! lbuf := bio (bread pid (lg_dev l) (log_bno l tail)) in
  let! dbuf := bio (bread pid (lg_dev l) (home_bno l tail)) in
  let! src := gets (λ s, data (bf lbuf (bc s))) in
  bio (modify (upd_buf dbuf (set_data src))) ;;
  bio (bwrite pid dbuf) ;;
  (if recovering then ret tt else bio (bunpin dbuf)) ;;
  bio (brelse pid lbuf) ;;
  bio (brelse pid dbuf).

Definition install_trans (recovering : bool) : L unit :=
  let! l := gets lg in
  for_upto (Z.to_nat (lh_n l)) (install_block recovering l).

(** [struct logheader] in a block: [n] at offset 0, [block] from offset 4. *)
Definition read_head : L unit :=
  let! l := gets lg in
  let! b := bio (bread pid (lg_dev l) (u32 (start l))) in
  let! d := gets (λ s, data (bf b (bc s))) in
  modify (upd_lg (set_lh_n (i32 (get32 0 d)))) ;;
  for_upto (Z.to_nat (i32 (get32 0 d))) (λ i, set_block i (i32 (get32 (4 + 4 * i) d))) ;;
  bio (brelse pid b).

Definition write_head : L unit :=
  let! l := gets lg in
  let! b := bio (bread pid (lg_dev l) (u32 (start l))) in
  bio (modify (upd_buf b (λ x, set_data (put32 0 (lh_n l) (data x)) x))) ;;
  for_upto (Z.to_nat (lh_n l)) (λ i,
    bio (modify (upd_buf b (λ x, set_data (put32 (4 + 4 * i) (lh_block l !!! i) (data x)) x)))) ;;
  bio (bwrite pid b) ;;
  bio (brelse pid b).

Definition recover_from_log : L unit :=
  read_head ;;
  install_trans true ;;
  modify (upd_lg (set_lh_n 0)) ;;
  write_head.

(** The header fits a block: [4 + 4*LOGSIZE < BSIZE]. *)
Definition initlog (dev logstart nlog : Z) : L unit :=
  if BSIZE <=? 4 + 4 * LOGSIZE then panic "initlog: too big logheader" else
  modify (upd_lg (λ l, mklog false (i32 logstart) (i32 nlog) (outstanding l) (committing l) dev (lh_n l) (lh_block l))) ;;
  recover_from_log.

(** A process woken in [sleep] re-tests from the top of the loop, holding the
    lock: it continues as a new call does. *)
Definition begin_op : L unit :=
  acquire ;;
  let! l := gets lg in
  if negb (committing l =? 0) then sleep_on A_log
  else if LOGSIZE <? i32 (lh_n l + i32 (i32 (outstanding l + 1) * MAXOPBLOCKS)) then sleep_on A_log
  else
    modify (upd_lg (set_outstanding (i32 (outstanding l + 1)))) ;;
    release.

(** The body of [write_log]'s loop. *)
Definition write_block (l : log) (tail : nat) : L unit :=
  let! to := bio (bread pid (lg_dev l) (log_bno l tail)) in
  let! from := bio (bread pid (lg_dev l) (home_bno l tail)) in
  let! src := gets (λ s, data (bf from (bc s))) in
  bio (modify (upd_buf to (set_data src))) ;;
  bio (bwrite pid to) ;;
  bio (brelse pid from) ;;
  bio (brelse pid to).

Definition write_log : L unit :=
  let! l := gets lg in
  for_upto (Z.to_nat (lh_n l)) (write_block l).

Definition commit : L unit :=
  let! n := gets (λ s, lh_n (lg s)) in
  if 0 <? n then
    write_log ;;
    write_head ;;
    install_trans false ;;
    modify (upd_lg (set_lh_n 0)) ;;
    write_head
  else ret tt.

Definition end_op : L unit :=
  acquire ;;
  modify (upd_lg (λ l, set_outstanding (i32 (outstanding l - 1)) l)) ;;
  let! l := gets lg in
  if negb (committing l =? 0) then panic "log.committing" else
  let do_commit := outstanding l =? 0 in
  (if do_commit then modify (upd_lg (set_committing 1)) else emit (Wakeup A_log)) ;;
  release ;;
  if do_commit then
    commit ;;
    acquire ;;
    modify (upd_lg (set_committing 0)) ;;
    emit (Wakeup A_log) ;;
    release
  else ret tt.

(** [for (i = 0; i < log.lh.n; i++) if (log.lh.block[i] == b->blockno) break;] *)
Fixpoint find_block (n i : nat) (bno : Z) (l : log) : nat :=
  match n with
  | O => i
  | S n' => if home_bno l i =? bno then i else find_block n' (S i) bno l
  end.

Definition log_write (b : nat) : L unit :=
  acquire ;;
  let! l := gets lg in
  if (LOGSIZE <=? lh_n l) || (size l - 1 <=? lh_n l) then panic "too big a transaction" else
  if outstanding l <? 1 then panic "log_write outside of trans" else
  let! bno := gets (λ s, blockno (bf b (bc s))) in
  let i := find_block (Z.to_nat (lh_n l)) 0 bno l in
  set_block i (i32 bno) ;;
  (if (i =? Z.to_nat (lh_n l))%nat then
     bio (bpin b) ;;
     modify (upd_lg (set_lh_n (i32 (lh_n l + 1))))
   else ret tt) ;;
  release.
End ops.
