(* ===== verification/LogRun.v ===== *)
(** What the routines of [log.c] do to block contents, the disk and the log,
    stated over the buffer cache's specification. *)
From Stdlib Require Import ZArith Lia.
From stdpp Require Import base list gmap strings.
From S2P Require Import Prelude Machine Sleeplock Bio BioThm Mem Blk Log.

(** ** Runs *)

(** [m] returns from [s], and [Q] holds of the result, the state and the disk
    writes made. *)
Definition runs {A} (m : L A) (s : logsys) (Q : A → logsys → list (Z * list Z) → Prop) : Prop :=
  ∃ a s' t, m s = Done a s' t ∧ Q a s' (dwrites t).

Lemma runs_ret {A} (a : A) s (Q : A → _ → _ → Prop) : Q a s [] → runs (ret a) s Q.
Proof. intros. by exists a, s, []. Qed.
Lemma runs_mono {A} (m : L A) s (Q Q' : A → _ → _ → Prop) : runs m s Q → (∀ a s' w, Q a s' w → Q' a s' w) → runs m s Q'.
Proof. intros (a & s' & t & H & HQ) Hm. exists a, s', t. auto. Qed.
Lemma runs_bind {A B} (m : L A) (k : A → L B) s (Q : B → _ → _ → Prop) :
  runs m s (λ a s' w, runs (k a) s' (λ b s'' w', Q b s'' (w ++ w'))) → runs (bind m k) s Q.
Proof.
  intros (a & s' & t & H & b & s'' & t' & H' & HQ). exists b, s'', (t ++ t').
  rewrite (bind_run _ _ _ _ _ _ H), H'. by rewrite dwrites_app.
Qed.
Lemma runs_gets {A B} (f : logsys → A) (k : A → L B) s Q : runs (k (f s)) s Q → runs (bind (gets f) k) s Q.
Proof. unfold runs. by rewrite bind_gets. Qed.
Lemma runs_modify {B} f (k : unit → L B) s Q : runs (k tt) (f s) Q → runs (bind (modify f) k) s Q.
Proof. unfold runs. by rewrite bind_modify. Qed.
Lemma runs_assoc {A B C} (m : L A) (k : A → L B) (k' : B → L C) s Q :
  runs (bind m (λ a, bind (k a) k')) s Q → runs (bind (bind m k) k') s Q.
Proof. unfold runs. by rewrite bind_assoc. Qed.
Lemma runs_assoc' {A B C} (m : L A) (m' : L B) (k : L C) s Q :
  runs (bind (bind m (λ _, m')) (λ _, k)) s Q → runs (bind m (λ _, bind m' (λ _, k))) s Q.
Proof. unfold runs. by rewrite bind_assoc. Qed.
Lemma runs_tt (m : L unit) s Q : runs (bind m (λ _, ret tt)) s Q → runs m s Q.
Proof.
  unfold runs, bind. intros (a & s' & t & H & HQ). destruct (m s) as [[] s1 t1| | |] eqn:E; try done.
  injection H as <- <- <-. rewrite app_nil_r in HQ. by exists tt, s1, t1.
Qed.

(** A loop with an invariant on the states and the writes so far. *)
Lemma runs_for n i (body : nat → L unit) (Inv : nat → logsys → list (Z * list Z) → Prop) s ws :
  (∀ j s ws, (i ≤ j < i + n)%nat → Inv j s ws → runs (body j) s (λ _ s' w, Inv (S j) s' (ws ++ w))) →
  Inv i s ws → runs (for_from n i body) s (λ _ s' w, Inv (i + n)%nat s' (ws ++ w)).
Proof.
  revert i s ws. induction n as [|n IH]; intros i s ws Hb Hi; simpl.
  - apply runs_ret. by rewrite app_nil_r, Nat.add_0_r.
  - apply runs_bind. eapply runs_mono; [apply Hb; [lia|exact Hi]|]. intros [] s' w Hs'. cbv beta in Hs'.
    eapply runs_mono; [apply (IH (S i) s' (ws ++ w)); [|exact Hs']|].
    + intros j s1 ws1 Hj. apply Hb. lia.
    + intros [] s2 w2. by rewrite app_assoc, Nat.add_succ_r.
Qed.

(** ** Cache operations on the whole state *)

Section rules.
Context (pid dev : Z) (Hdev : dev ≠ 0).

(** The log is [l] and the cache implements [σ]. *)
Definition lst (l : log) (σ : cspec) (s : logsys) : Prop := lg s = l ∧ brel dev (bc s) σ.
Definition hdl (s : logsys) (b : Z) (i : nat) : Prop := cached dev (bc s) b i.

Context {A : Type} (l : log) (σ : cspec) (s : logsys) (Hs : lst l σ s).

Lemma bio_run {C} (m : B C) (k : C → L A) Q a c t : m (bc s) = Done a c t →
  runs (k a) (set_bc c s) (λ x s' w, Q x s' (dwrites t ++ w)) → runs (bind (bio m) k) s Q.
Proof.
  intros H Hk. apply runs_bind. exists a, (set_bc c s), t. split; [|done]. unfold bio. by apply lift_done.
Qed.

Lemma w_read b (k : nat → L A) Q : sp_owner σ b = None → sp_refs σ b + 1 < 2 ^ 32 →
  (0 < sp_free σ)%nat ∨ sp_refs σ b ≠ 0 →
  (∀ i s', lst l (after_read pid b σ) s' → hdl s' b i → data (bf i (bc s')) = sp_block σ b →
    (∀ c j, hdl s c j → sp_refs σ c ≠ 0 → hdl s' c j) → runs (k i) s' Q) →
  runs (bind (bio (bread pid dev b)) k) s Q.
Proof.
  intros Ho Hu Hf Hk. destruct Hs as [Hl HR]. destruct (h_read dev Hdev (bc s) σ HR pid b Ho Hu Hf) as (i & c & Hrun & HR' & Hc & Hd & Hkeep).
  eapply bio_run; [exact Hrun|]. by apply Hk.
Qed.

Lemma w_store b i f (k : unit → L A) Q : sp_owner σ b = Some pid → hdl s b i →
  length (data (f (bf i (bc s)))) = Z.to_nat BSIZE → f (bf i (bc s)) = set_data (data (f (bf i (bc s)))) (bf i (bc s)) →
  (∀ s', lst l (after_store b (data (f (bf i (bc s)))) σ) s' → (∀ c j, hdl s c j → sp_refs σ c ≠ 0 → hdl s' c j) → runs (k tt) s' Q) →
  runs (bind (bio (modify (upd_buf i f))) k) s Q.
Proof.
  intros Ho Hc Hlen He Hk. destruct Hs as [Hl HR].
  destruct (h_store dev Hdev (bc s) σ HR pid b i (data (f (bf i (bc s)))) Ho Hc Hlen) as [HR' Hkeep].
  eapply bio_run; [reflexivity|]. rewrite (upd_buf_ext i f (set_data (data (f (bf i (bc s)))))) by done. by apply Hk.
Qed.

Lemma w_write b i (k : unit → L A) Q : sp_owner σ b = Some pid → hdl s b i →
  (∀ s', lst l (after_write b σ) s' → (∀ c j, hdl s c j → sp_refs σ c ≠ 0 → hdl s' c j) →
    runs (k tt) s' (λ a s'' w, Q a s'' ((b, sp_block σ b) :: w))) →
  runs (bind (bio (bwrite pid i)) k) s Q.
Proof.
  intros Ho Hc Hk. destruct Hs as [Hl HR]. destruct (h_write dev (bc s) σ HR pid b i Ho Hc) as (c & Hrun & HR' & Hkeep & _).
  eapply bio_run; [exact Hrun|]. by apply Hk.
Qed.

Lemma w_release b i (k : unit → L A) Q : sp_owner σ b = Some pid → hdl s b i → (sp_refs σ b = 1 → sp_block σ b = sp_disk σ b) →
  (∀ s', lst l (after_release b σ) s' → (∀ c j, hdl s c j → sp_refs σ c ≠ 0 → hdl s' c j) → runs (k tt) s' Q) →
  runs (bind (bio (brelse pid i)) k) s Q.
Proof.
  intros Ho Hc Hcl Hk. destruct Hs as [Hl HR]. destruct (h_release dev Hdev (bc s) σ HR pid b i Ho Hc Hcl) as (c & Hrun & HR' & Hkeep).
  eapply bio_run; [exact Hrun|]. by apply Hk.
Qed.

Lemma w_pin b i (k : unit → L A) Q : sp_owner σ b = Some pid → hdl s b i → sp_refs σ b + 1 < 2 ^ 32 →
  (∀ s', lst l (after_refs b 1 σ) s' → (∀ c j, hdl s c j → sp_refs σ c ≠ 0 → hdl s' c j) → runs (k tt) s' Q) →
  runs (bind (bio (bpin i)) k) s Q.
Proof.
  intros Ho Hc Hu Hk. destruct Hs as [Hl HR]. destruct (h_pin dev Hdev (bc s) σ HR pid b i Ho Hc Hu) as (c & Hrun & HR' & Hkeep).
  eapply bio_run; [exact Hrun|]. by apply Hk.
Qed.

Lemma w_unpin b i (k : unit → L A) Q : sp_owner σ b = Some pid → hdl s b i → 2 ≤ sp_refs σ b →
  (∀ s', lst l (after_refs b (-1) σ) s' → (∀ c j, hdl s c j → sp_refs σ c ≠ 0 → hdl s' c j) → runs (k tt) s' Q) →
  runs (bind (bio (bunpin i)) k) s Q.
Proof.
  intros Ho Hc Hu Hk. destruct Hs as [Hl HR]. destruct (h_unpin dev Hdev (bc s) σ HR pid b i Ho Hc Hu) as (c & Hrun & HR' & Hkeep).
  eapply bio_run; [exact Hrun|]. by apply Hk.
Qed.
End rules.

(** ** Copying a block *)

Lemma brel_size dev s σ b : brel dev s σ → length (sp_block σ b) = Z.to_nat BSIZE.
Proof.
  intros HR. destruct (br_order _ _ _ HR) as [order Hinv]. rewrite <- (br_blocks _ _ _ HR). destruct (cached_dec dev s b) as [[i Hi]|Hn].
  - rewrite (content_cached _ _ _ _ _ Hinv Hi). eapply bcont_len; [done|apply Hi|done|done].
  - rewrite content_uncached by done. apply (bi_dsize _ _ _ Hinv).
Qed.

(** Decide which block an updated function is applied to. *)
Ltac fupd_simpl := simpl; unfold fupd; repeat (case_decide; subst; try done; try lia); try done; try lia.

(** A handle [H] stays good across a step that keeps referenced blocks. *)
Ltac keep K H := apply K in H; [|fupd_simpl].

Section copy.
Context (pid dev : Z) (Hdev : dev ≠ 0).

(** Nobody holds a lock; [blk], [dsk] and [rf] are the contents, the disk and
    the references of each block, [fr] the number of free buffers. *)
Definition qst (l : log) (blk dsk : Z → list Z) (rf : Z → Z) (fr : nat) (s : logsys) : Prop :=
  lst dev l (mkcspec blk dsk rf (λ _, None) fr) s.

Lemma qst_ext l blk dsk rf fr s blk' dsk' rf' fr' : qst l blk dsk rf fr s → (∀ c, blk c = blk' c) → (∀ c, dsk c = dsk' c) →
  (∀ c, rf c = rf' c) → fr = fr' → qst l blk' dsk' rf' fr' s.
Proof. intros [Hl HR] H1 H2 H3 H4. split; [done|]. eapply brel_ext; [exact HR|done..]. Qed.

Lemma lst_qst l σ s blk dsk rf fr : lst dev l σ s → (∀ c, sp_block σ c = blk c) → (∀ c, sp_disk σ c = dsk c) →
  (∀ c, sp_refs σ c = rf c) → (∀ c, sp_owner σ c = None) → sp_free σ = fr → qst l blk dsk rf fr s.
Proof. intros [Hl HR] H1 H2 H3 H4 H5. split; [done|]. eapply brel_ext; [exact HR|done..]. Qed.

(** [write_log]'s copy of the block [hb], which is pinned, to the log block [lb]. *)
Lemma write_block_run l tail lb hb blk dsk rf fr s : lg_dev l = dev → log_bno l tail = lb → home_bno l tail = hb → lb ≠ hb →
  0 ≤ rf lb → rf lb + 1 < 2 ^ 32 → 1 ≤ rf hb → rf hb + 1 < 2 ^ 32 → (0 < fr)%nat →
  qst l blk dsk rf fr s →
  runs (write_block pid l tail) s (λ _ s' w, w = [(lb, blk hb)] ∧ qst l (fupd blk lb (blk hb)) (fupd dsk lb (blk hb)) rf fr s').
Proof.
  intros Hd Hlb Hhb Hne Hl0 Hl1 Hh0 Hh1 Hf Hs. unfold write_block. rewrite Hd, Hlb, Hhb.
  pose proof (brel_size _ _ _ hb (proj2 Hs)) as Hsz. simpl in Hsz.
  eapply w_read; [done|exact Hs|done|done|by left|]. intros i s1 H1 Hi _ _.
  eapply w_read; [done|exact H1| | | |].
  { fupd_simpl. } { fupd_simpl. } { fupd_simpl. }
  intros j s2 H2 Hj Hdj K2. apply runs_gets. cbv beta. rewrite Hdj.
  keep K2 Hi.
  eapply w_store with (b := lb); [done|exact H2|fupd_simpl|done|simpl; exact Hsz|done|]. cbn [data set_data]. intros s3 H3 K3.
  keep K3 Hi. keep K3 Hj.
  eapply w_write with (b := lb); [exact H3|fupd_simpl|done|]. intros s4 H4 K4.
  keep K4 Hi. keep K4 Hj.
  eapply w_release with (b := hb); [done|exact H4|fupd_simpl|done|fupd_simpl|]. intros s5 H5 K5.
  keep K5 Hi.
  apply runs_tt. eapply w_release with (b := lb); [done|exact H5|fupd_simpl|done|fupd_simpl|]. intros s6 H6 _.
  apply runs_ret. split; [f_equal; f_equal; fupd_simpl|].
  eapply lst_qst; [exact H6|..]; [intros c; fupd_simpl..|fupd_simpl].
Qed.

(** [install_trans]'s copy of the log block [lb] to its home [hb]. After a
    commit the home block is pinned, and is unpinned; in recovery it is not. *)
Lemma install_block_run l tail lb hb blk dsk rf fr s : lg_dev l = dev → log_bno l tail = lb → home_bno l tail = hb → lb ≠ hb →
  rf lb = 0 → blk lb = dsk lb → rf hb = 1 → (0 < fr)%nat → qst l blk dsk rf fr s →
  runs (install_block pid false l tail) s (λ _ s' w, w = [(hb, blk lb)] ∧
    qst l (fupd blk hb (blk lb)) (fupd dsk hb (blk lb)) (fupd rf hb 0) (S fr) s').
Proof.
  intros Hd Hlb Hhb Hne Hl0 Hcl Hh0 Hf Hs. unfold install_block. rewrite Hd, Hlb, Hhb.
  pose proof (brel_size _ _ _ lb (proj2 Hs)) as Hsz. simpl in Hsz.
  eapply w_read; [done|exact Hs|done|simpl; lia|by left|]. intros i s1 H1 Hi Hdi _.
  eapply w_read; [done|exact H1| | | |].
  { fupd_simpl. } { fupd_simpl. } { fupd_simpl. }
  intros j s2 H2 Hj _ K2. apply runs_gets. cbv beta.
  keep K2 Hi.
  assert (data (bf i (bc s2)) = blk lb) as Hdi2.
  { destruct (held_buf dev (bc s2) _ (proj2 H2) pid lb i) as (_ & _ & _ & _ & _ & _ & -> & _); [fupd_simpl|done|done]. }
  rewrite Hdi2.
  eapply w_store with (b := hb); [done|exact H2|fupd_simpl|done|simpl; exact Hsz|done|]. cbn [data set_data]. intros s3 H3 K3.
  keep K3 Hi. keep K3 Hj.
  eapply w_write with (b := hb); [exact H3|fupd_simpl|done|]. intros s4 H4 K4.
  keep K4 Hi. keep K4 Hj.
  eapply w_unpin with (b := hb); [done|exact H4|fupd_simpl|done|fupd_simpl|]. intros s5 H5 K5.
  keep K5 Hi. keep K5 Hj.
  eapply w_release with (b := lb); [done|exact H5|fupd_simpl|done|fupd_simpl|]. intros s6 H6 K6.
  keep K6 Hj.
  apply runs_tt. eapply w_release with (b := hb); [done|exact H6|fupd_simpl|done|fupd_simpl|]. intros s7 H7 _.
  apply runs_ret. split; [f_equal; f_equal; fupd_simpl|].
  eapply lst_qst; [exact H7|..]; [intros c; fupd_simpl..|fupd_simpl].
Qed.

Lemma recover_block_run l tail lb hb blk dsk rf fr s : lg_dev l = dev → log_bno l tail = lb → home_bno l tail = hb → lb ≠ hb →
  rf lb = 0 → blk lb = dsk lb → rf hb = 0 → (1 < fr)%nat → qst l blk dsk rf fr s →
  runs (install_block pid true l tail) s (λ _ s' w, w = [(hb, blk lb)] ∧
    qst l (fupd blk hb (blk lb)) (fupd dsk hb (blk lb)) rf fr s').
Proof.
  intros Hd Hlb Hhb Hne Hl0 Hcl Hh0 Hf Hs. unfold install_block. rewrite Hd, Hlb, Hhb.
  pose proof (brel_size _ _ _ lb (proj2 Hs)) as Hsz. simpl in Hsz.
  eapply w_read; [done|exact Hs|done|simpl; lia|left; simpl; lia|]. intros i s1 H1 Hi Hdi _.
  eapply w_read; [done|exact H1| | | |].
  { fupd_simpl. } { fupd_simpl. } { fupd_simpl. }
  intros j s2 H2 Hj _ K2. apply runs_gets. cbv beta.
  keep K2 Hi.
  assert (data (bf i (bc s2)) = blk lb) as Hdi2.
  { destruct (held_buf dev (bc s2) _ (proj2 H2) pid lb i) as (_ & _ & _ & _ & _ & _ & -> & _); [fupd_simpl|done|done]. }
  rewrite Hdi2.
  eapply w_store with (b := hb); [done|exact H2|fupd_simpl|done|simpl; exact Hsz|done|]. cbn [data set_data]. intros s3 H3 K3.
  keep K3 Hi. keep K3 Hj.
  eapply w_write with (b := hb); [exact H3|fupd_simpl|done|]. intros s4 H4 K4.
  keep K4 Hi. keep K4 Hj.
  apply runs_bind, runs_ret. cbn [app].
  eapply w_release with (b := lb); [done|exact H4|fupd_simpl|done|fupd_simpl|]. intros s6 H6 K6.
  keep K6 Hj.
  apply runs_tt. eapply w_release with (b := hb); [done|exact H6|fupd_simpl|done|fupd_simpl|]. intros s7 H7 _.
  apply runs_ret. split; [f_equal; f_equal; fupd_simpl|].
  eapply lst_qst; [exact H7|..]; [intros c; fupd_simpl..|fupd_simpl].
Qed.

(** ** The header *)

(** The header block after [write_head] stored [n] and the first [n] blocks. *)
Definition hdr_of (n : Z) (blocks : list Z) (old : list Z) : list Z :=
  put_array32 4 (take (Z.to_nat n) blocks) (put32 0 n old).

Lemma length_hdr_of n blocks old : length (hdr_of n blocks old) = length old.
Proof. unfold hdr_of. rewrite length_put_array32. apply length_put. Qed.

Lemma write_head_run l st blk dsk rf fr s : lg_dev l = dev → u32 (start l) = st → rf st = 0 → (0 < fr)%nat →
  (Z.to_nat (lh_n l) ≤ length (lh_block l))%nat → qst l blk dsk rf fr s →
  runs (write_head pid) s (λ _ s' w, ∃ h, h = hdr_of (lh_n l) (lh_block l) (blk st) ∧ w = [(st, h)] ∧
    qst l (fupd blk st h) (fupd dsk st h) rf fr s').
Proof.
  intros Hd Hst H0 Hf Hn Hs. unfold write_head. apply runs_gets. rewrite (proj1 Hs). rewrite Hd, Hst.
  pose proof (brel_size _ _ _ st (proj2 Hs)) as Hsz. simpl in Hsz.
  eapply w_read; [done|exact Hs|done|simpl; lia|by left|]. intros i s1 H1 Hi Hdi _.
  eapply w_store with (b := st); [done|exact H1|fupd_simpl|done| |done|].
  { cbn [data set_data]. rewrite Hdi. unfold put32. by rewrite length_put. }
  cbn [data set_data]. rewrite Hdi. intros s2 H2 K2. keep K2 Hi.
  set (X j := put_array32 4 (take j (lh_block l)) (put32 0 (lh_n l) (blk st))).
  set (σ j := mkcspec (fupd blk st (X j)) dsk (fupd rf st 1) (fupd (λ _, None) st (Some pid)) (fr - 1)%nat).
  apply runs_bind. eapply runs_mono.
  { apply (runs_for _ 0 _ (λ j s ws, ws = [] ∧ lst dev l (σ j) s ∧ hdl dev s st i) s2 []).
    - intros j s3 ws Hj (-> & H3 & Hi3). apply runs_tt.
      assert (data (bf i (bc s3)) = X j) as HX.
      { destruct (held_buf dev (bc s3) _ (proj2 H3) pid st i) as (_ & _ & _ & _ & _ & _ & -> & _); [fupd_simpl|done|]. fupd_simpl. }
      assert (length (X j) = Z.to_nat BSIZE) as HXl by (unfold X; rewrite length_put_array32; unfold put32; by rewrite length_put).
      eapply w_store with (b := st); [done|exact H3|fupd_simpl|done| |done|].
      { cbn [data set_data]. rewrite HX. unfold put32. by rewrite length_put. }
      cbn [data set_data]. rewrite HX. intros s4 H4 K4. keep K4 Hi3. apply runs_ret. split_and!; [done| |done].
      destruct H4 as [Hl4 HR4]. split; [done|]. eapply brel_ext; [exact HR4|..]; try done.
      intros c. simpl. unfold fupd. case_decide; [|done].
      destruct (lookup_lt_is_Some_2 (lh_block l) j) as [v Hv]; [lia|]. rewrite (list_lookup_total_correct _ _ _ Hv).
      unfold X. rewrite (take_S_r _ _ _ Hv), put_array32_snoc. f_equal. rewrite length_take. lia.
    - split_and!; [done| |done]. destruct H2 as [Hl2 HR2]. split; [done|].
      eapply brel_ext; [exact HR2|..]; [intros c; fupd_simpl..|fupd_simpl]. }
  intros [] s3 w (Hw & H3 & Hi3). simpl in H3, Hw. subst w. cbn [app].
  eapply w_write with (b := st); [exact H3|fupd_simpl|done|]. intros s4 H4 K4. keep K4 Hi3.
  apply runs_tt. eapply w_release with (b := st); [done|exact H4|fupd_simpl|done|fupd_simpl|]. intros s5 H5 _.
  apply runs_ret. eexists. split; [reflexivity|]. split; [f_equal; f_equal; fupd_simpl|].
  eapply lst_qst; [exact H5|..]; [intros c; fupd_simpl..|fupd_simpl].
Qed.

Definition hdr_n (h : list Z) : Z := i32 (get32 0 h).
Definition hdr_blocks (h : list Z) : list Z := get_array32 4 (Z.to_nat (hdr_n h)) h.

Lemma read_head_run l st blk dsk rf fr s : lg_dev l = dev → u32 (start l) = st → rf st = 0 → (0 < fr)%nat → blk st = dsk st →
  (Z.to_nat (hdr_n (blk st)) ≤ length (lh_block l))%nat → qst l blk dsk rf fr s →
  runs (read_head pid) s (λ _ s' w, w = [] ∧
    qst (set_lh_block ((i32 <$> hdr_blocks (blk st)) ++ drop (Z.to_nat (hdr_n (blk st))) (lh_block l)) (set_lh_n (hdr_n (blk st)) l))
      blk dsk rf fr s').
Proof.
  intros Hd Hst H0 Hf Hcl Hn Hs. unfold read_head. apply runs_gets. rewrite (proj1 Hs), Hd, Hst.
  eapply w_read; [done|exact Hs|done|simpl; lia|by left|]. intros i s1 H1 Hi Hdi _.
  apply runs_gets. cbv beta. rewrite Hdi. cbn [sp_block]. fold (hdr_n (blk st)). set (h := blk st) in *.
  apply runs_modify. set (s2 := upd_lg (set_lh_n (hdr_n h)) s1). set (vs := i32 <$> hdr_blocks h).
  assert (length vs = Z.to_nat (hdr_n h)) as Hvl by (unfold vs, hdr_blocks, get_array32; by rewrite !length_fmap, length_seq).
  set (st' j := upd_lg (set_lh_block (take j vs ++ drop j (lh_block l))) s2).
  apply runs_bind. eapply runs_mono.
  { apply (runs_for _ 0 _ (λ j s ws, ws = [] ∧ s = st' j) s2 []).
    - intros j s3 ws Hj (-> & ->). unfold set_block. apply runs_gets.
      assert (length (take j vs ++ drop j (lh_block l)) = length (lh_block l)) as Hlen by (rewrite length_app, length_take, length_drop; lia).
      cbn [st' upd_lg lg set_lh_block lh_block]. rewrite Hlen. destruct (Nat.ltb_spec j (length (lh_block l))); [|lia].
      assert (vs !! j = Some (i32 (get32 (4 + 4 * j) h))) as Hv.
      { unfold vs, hdr_blocks, get_array32. rewrite !list_lookup_fmap, lookup_seq_lt by lia. done. }
      apply runs_tt, runs_modify, runs_ret. split; [done|]. unfold st', upd_lg; simpl. f_equal.
      unfold set_lh_block. simpl. f_equal.
      by apply insert_take_drop.
    - split; [done|]. unfold st', s2, upd_lg. simpl. unfold set_lh_block; simpl. destruct H1 as [-> _]. by destruct l. }
  intros [] s3 w (Hw & ->). simpl in Hw. subst w. cbn [app Nat.add].
  assert (lst dev (set_lh_block (vs ++ drop (Z.to_nat (hdr_n h)) (lh_block l)) (set_lh_n (hdr_n h) l)) (after_read pid st (mkcspec blk dsk rf (λ _, None) fr)) (st' (Z.to_nat (hdr_n h)))) as H3.
  { destruct H1 as [Hl1 HR1]. split; [|exact HR1]. unfold st', s2; simpl. rewrite Hl1. rewrite take_ge by lia. done. }
  apply runs_tt. eapply w_release with (b := st); [done|exact H3|fupd_simpl|exact Hi|fupd_simpl|]. intros s5 H5 _.
  apply runs_ret. split; [done|]. eapply lst_qst; [exact H5|..]; [intros c; fupd_simpl..|fupd_simpl].
Qed.
End copy.
