(* ===== verification/LogThm.v ===== *)
(** Crash atomicity of the log: whatever prefix of a transaction's disk writes
    happens before a crash, and however often recovery itself crashes, recovery
    ends with all of the transaction or none of it. *)
From Stdlib Require Import ZArith Lia.
From stdpp Require Import base list gmap strings.
From S2P Require Import Prelude Machine Sleeplock Bio BioThm Mem Blk Log LogRun.

(** ** Sequences of disk writes *)

Definition app_writes (ws : list (Z * list Z)) (f : Z → list Z) : Z → list Z :=
  foldl (λ f w, fupd f w.1 w.2) f ws.
Definition apply_writes (ws : list (Z * list Z)) (d : gmap Z (list Z)) : gmap Z (list Z) :=
  foldl (λ d w, <[w.1 := w.2]> d) d ws.

Lemma app_writes_app ws ws' f : app_writes (ws ++ ws') f = app_writes ws' (app_writes ws f).
Proof. apply foldl_app. Qed.
Lemma app_writes_snoc ws b v f : app_writes (ws ++ [(b, v)]) f = fupd (app_writes ws f) b v.
Proof. by rewrite app_writes_app. Qed.
Lemma app_writes_ext ws f g c : (∀ c, f c = g c) → app_writes ws f c = app_writes ws g c.
Proof.
  revert f g. induction ws as [|[b v] ws IH]; intros f g H; [apply H|]. simpl. apply IH.
  intros c'. unfold fupd. by case_decide.
Qed.
Lemma app_writes_notin ws f c : c ∉ ws.*1 → app_writes ws f c = f c.
Proof.
  revert f. induction ws as [|[b v] ws IH]; intros f H; [done|]. simpl in *. apply not_elem_of_cons in H as [H1 H2].
  rewrite IH by done. by apply fupd_ne.
Qed.
Lemma app_writes_in ws f c v : NoDup ws.*1 → (c, v) ∈ ws → app_writes ws f c = v.
Proof.
  revert f. induction ws as [|[b u] ws IH]; intros f Hnd Hin; [by apply elem_of_nil in Hin|]. simpl in *.
  apply NoDup_cons in Hnd as [Hb Hnd]. apply elem_of_cons in Hin as [[= -> ->]|Hin]; [|by apply IH].
  rewrite app_writes_notin by done. apply fupd_eq.
Qed.
(** Replaying all the writes after some of them changes nothing. *)
Lemma app_writes_replay ws j f c : NoDup ws.*1 → app_writes ws (app_writes (take j ws) f) c = app_writes ws f c.
Proof.
  intros Hnd. destruct (decide (c ∈ ws.*1)) as [Hc|Hc].
  - apply list_elem_of_fmap in Hc as ([b v] & -> & Hin). simpl. by rewrite !(app_writes_in _ _ _ v).
  - rewrite !app_writes_notin; [done|done| |done]. intros Hin. apply Hc. rewrite <- (take_drop j ws), fmap_app. apply elem_of_app. by left.
Qed.

Lemma disk_apply_writes ws d c : disk_block (apply_writes ws d) c = app_writes ws (disk_block d) c.
Proof.
  revert d. induction ws as [|[b v] ws IH]; intros d; [done|]. simpl. rewrite IH. apply app_writes_ext.
  intros c'. apply disk_block_insert.
Qed.

(** ** The layout of the log *)

Section layout.
Context (dev st sz : Z) (Hdev : dev ≠ 0).
Hypothesis (Hgeo : 0 ≤ st ∧ 1 < sz ∧ st + sz < 2 ^ 31).

(** Blocks outside the log. *)
Definition home (b : Z) : Prop := 0 ≤ b < 2 ^ 31 ∧ ¬ (st ≤ b < st + sz).

(** A list of blocks that fits the log. *)
Record hsok (hs : list Z) : Prop := {
  hs_home : Forall home hs;
  hs_nodup : NoDup hs;
  hs_max : (length hs ≤ Z.to_nat LOGSIZE)%nat;
  hs_size : Z.of_nat (length hs) < sz
}.

(** The in-memory header lists [hs]. *)
Record lgi (l : log) (hs : list Z) : Prop := {
  li_lock : lg_lock l = false;
  li_start : start l = st;
  li_size : size l = sz;
  li_dev : lg_dev l = dev;
  li_n : lh_n l = Z.of_nat (length hs);
  li_blocks : take (length hs) (lh_block l) = hs;
  li_len : length (lh_block l) = Z.to_nat LOGSIZE
}.

(** The writes that copy [hs] to the log, and the log to [hs]. *)
Definition log_writes (hs : list Z) (f : Z → list Z) : list (Z * list Z) :=
  imap (λ t h, (st + 1 + Z.of_nat t, f h)) hs.
Definition install_writes (hs : list Z) (f : Z → list Z) : list (Z * list Z) :=
  imap (λ t h, (h, f (st + 1 + Z.of_nat t))) hs.

Lemma log_writes_lookup hs f t h : hs !! t = Some h → log_writes hs f !! t = Some (st + 1 + Z.of_nat t, f h).
Proof. intros H. unfold log_writes. by rewrite list_lookup_imap, H. Qed.
Lemma install_writes_lookup hs f t h : hs !! t = Some h → install_writes hs f !! t = Some (h, f (st + 1 + Z.of_nat t)).
Proof. intros H. unfold install_writes. by rewrite list_lookup_imap, H. Qed.
Lemma log_writes_keys hs f c : c ∈ (log_writes hs f).*1 → st < c < st + 1 + Z.of_nat (length hs).
Proof.
  intros ([b v] & -> & Hin)%list_elem_of_fmap. apply list_elem_of_lookup_1 in Hin as [t Ht]. unfold log_writes in Ht.
  rewrite list_lookup_imap in Ht. destruct (hs !! t) as [h|] eqn:Hh; [|done]. injection Ht as <- <-.
  apply lookup_lt_Some in Hh. simpl. lia.
Qed.
Lemma install_writes_keys hs f : (install_writes hs f).*1 = hs.
Proof. unfold install_writes. apply list_eq. intros i. rewrite list_lookup_fmap, list_lookup_imap. by destruct (hs !! i). Qed.
Lemma length_log_writes hs f : length (log_writes hs f) = length hs.
Proof. apply length_imap. Qed.
Lemma length_install_writes hs f : length (install_writes hs f) = length hs.
Proof. apply length_imap. Qed.

Lemma log_writes_nodup hs f : NoDup (log_writes hs f).*1.
Proof.
  apply NoDup_alt. intros i j c Hi Hj. unfold log_writes in *. rewrite list_lookup_fmap, list_lookup_imap in Hi, Hj.
  destruct (hs !! i), (hs !! j); simplify_eq/=. lia.
Qed.
Lemma log_writes_value hs f g t h : hs !! t = Some h → app_writes (log_writes hs f) g (st + 1 + Z.of_nat t) = f h.
Proof. intros H. apply app_writes_in; [apply log_writes_nodup|]. apply (list_elem_of_lookup_2 _ t). by apply log_writes_lookup. Qed.
Lemma log_writes_out hs f g c : ¬ (st < c < st + 1 + Z.of_nat (length hs)) → app_writes (log_writes hs f) g c = g c.
Proof. intros Hc. apply app_writes_notin. by intros ?%log_writes_keys. Qed.

Lemma lgi_log_bno l hs t : lgi l hs → hsok hs → (t < length hs)%nat → log_bno l t = st + 1 + Z.of_nat t.
Proof.
  intros Hl Hh Ht. unfold log_bno. rewrite (li_start _ _ Hl). pose proof (hs_size _ Hh).
  rewrite (i32_small (st + Z.of_nat t)) by (wrap_unfold; lia). rewrite i32_small by (wrap_unfold; lia).
  rewrite u32_small by (wrap_unfold; lia). lia.
Qed.
Lemma lgi_home_bno l hs t h : lgi l hs → hsok hs → hs !! t = Some h → home_bno l t = h.
Proof.
  intros Hl Hh Ht. pose proof (lookup_lt_Some _ _ _ Ht) as Hlt. unfold home_bno.
  assert (lh_block l !! t = Some h) as Hb.
  { rewrite <- (li_blocks _ _ Hl), lookup_take_lt in Ht by done. done. }
  rewrite (list_lookup_total_correct _ _ _ Hb). apply u32_small.
  pose proof (hs_home _ Hh) as Hf. rewrite Forall_lookup in Hf. destruct (Hf t h Ht). wrap_unfold. lia.
Qed.
Lemma hsok_lookup hs t h : hsok hs → hs !! t = Some h → home h.
Proof. intros Hh Ht. pose proof (hs_home _ Hh) as Hf. rewrite Forall_lookup in Hf. eauto. Qed.

(** ** The loops *)

(** The references while [hs] is pinned. *)
Definition pins (hs : list Z) (c : Z) : Z := if decide (c ∈ hs) then 1 else 0.
Lemma pins_in hs c : c ∈ hs → pins hs c = 1.
Proof. intros. unfold pins. by rewrite decide_True. Qed.
Lemma pins_notin hs c : c ∉ hs → pins hs c = 0.
Proof. intros. unfold pins. by rewrite decide_False. Qed.
Lemma pins_log hs c : hsok hs → st ≤ c < st + sz → pins hs c = 0.
Proof.
  intros Hh Hc. apply pins_notin. intros Hin. pose proof (hs_home _ Hh) as Hf. rewrite Forall_forall in Hf.
  by destruct (Hf c Hin) as [_ ?].
Qed.

Lemma log_writes_take_notin hs f j c : ¬ (st < c < st + 1 + Z.of_nat (length hs)) → c ∉ (take j (log_writes hs f)).*1.
Proof.
  intros Hc Hin. apply Hc, (log_writes_keys _ f). rewrite <- (take_drop j (log_writes hs f)), fmap_app. apply elem_of_app. by left.
Qed.
Lemma install_writes_take_notin hs f j c : c ∉ hs → c ∉ (take j (install_writes hs f)).*1.
Proof.
  intros Hc Hin. apply Hc. rewrite <- (install_writes_keys hs f), <- (take_drop j (install_writes hs f)), fmap_app. apply elem_of_app. by left.
Qed.

Section loops.
Context (pid : Z) (l : log) (hs : list Z) (Hl : lgi l hs) (Hh : hsok hs).

Lemma loop_entry j : (j < length hs)%nat → ∃ h, hs !! j = Some h ∧ h ∈ hs ∧ home h ∧ home_bno l j = h ∧ log_bno l j = st + 1 + Z.of_nat j ∧
  st ≤ st + 1 + Z.of_nat j < st + sz.
Proof.
  intros Hj. destruct (lookup_lt_is_Some_2 hs j Hj) as [h Hlk]. exists h. pose proof (hs_size _ Hh).
  split_and!; [done|by eapply list_elem_of_lookup_2|by eapply hsok_lookup|by eapply lgi_home_bno|by eapply lgi_log_bno|lia|lia].
Qed.

Lemma write_log_run blk dsk fr s : (0 < fr)%nat → qst dev l blk dsk (pins hs) fr s →
  runs (write_log pid) s (λ _ s' w, w = log_writes hs blk ∧
    qst dev l (app_writes (log_writes hs blk) blk) (app_writes (log_writes hs blk) dsk) (pins hs) fr s').
Proof.
  intros Hf Hs. unfold write_log. apply runs_gets. rewrite (proj1 Hs), (li_n _ _ Hl), Nat2Z.id.
  set (ws := log_writes hs blk). eapply runs_mono.
  { apply (runs_for _ 0 _ (λ j s w, w = take j ws ∧ qst dev l (app_writes (take j ws) blk) (app_writes (take j ws) dsk) (pins hs) fr s) s []); [|done].
    intros j s1 w Hj (-> & H1). destruct (loop_entry j) as (h & Hlk & Hin & Hhm & Hhb & Hlb & Hrg); [lia|].
    assert (ws !! j = Some (st + 1 + Z.of_nat j, blk h)) as Hw by (by apply log_writes_lookup).
    rewrite (take_S_r _ _ _ Hw).
    assert (app_writes (take j ws) blk h = blk h) as Hv.
    { apply app_writes_notin, log_writes_take_notin. destruct Hhm as [_ Hhm]. pose proof (hs_size _ Hh). lia. }
    eapply runs_mono; [eapply write_block_run; [done|by apply li_dev with hs|exact Hlb|exact Hhb| | | | | |exact Hf|exact H1]|].
    - intros He. destruct Hhm as [_ Hhm]. lia.
    - rewrite pins_log by done. lia.
    - rewrite pins_log by done. lia.
    - rewrite pins_in by done. lia.
    - rewrite pins_in by done. lia.
    - intros [] s2 w (-> & H2). rewrite Hv in *. split; [done|]. by rewrite !app_writes_snoc. }
  intros [] s1 w (Hw & H1). cbn [app Nat.add] in *. rewrite take_ge in Hw, H1 by (unfold ws; rewrite length_log_writes; lia). done.
Qed.

Lemma install_trans_run blk dsk fr s : (0 < fr)%nat → (∀ t, (t < length hs)%nat → blk (st + 1 + Z.of_nat t) = dsk (st + 1 + Z.of_nat t)) →
  qst dev l blk dsk (pins hs) fr s →
  runs (install_trans pid false) s (λ _ s' w, w = install_writes hs blk ∧
    qst dev l (app_writes (install_writes hs blk) blk) (app_writes (install_writes hs blk) dsk) (λ _, 0) (fr + length hs) s').
Proof.
  intros Hf Hcl Hs. unfold install_trans. apply runs_gets. rewrite (proj1 Hs), (li_n _ _ Hl), Nat2Z.id.
  set (ws := install_writes hs blk). eapply runs_mono.
  { apply (runs_for _ 0 _ (λ j s w, w = take j ws ∧ qst dev l (app_writes (take j ws) blk) (app_writes (take j ws) dsk) (pins (drop j hs)) (fr + j) s) s []);
      [|split; [done|by rewrite Nat.add_0_r]].
    intros j s1 w Hj (-> & H1). destruct (loop_entry j) as (h & Hlk & Hin & Hhm & Hhb & Hlb & Hrg); [lia|].
    assert (ws !! j = Some (h, blk (st + 1 + Z.of_nat j))) as Hw by (by apply install_writes_lookup).
    rewrite (take_S_r _ _ _ Hw).
    assert (∀ f, app_writes (take j ws) f (st + 1 + Z.of_nat j) = f (st + 1 + Z.of_nat j)) as Hv.
    { intros f. apply app_writes_notin, install_writes_take_notin. intros Hin'. pose proof (hs_home _ Hh) as Hfo. rewrite Forall_forall in Hfo.
      by destruct (Hfo _ Hin') as [_ ?]. }
    rewrite (drop_S _ _ _ Hlk) in H1. pose proof (hs_nodup _ Hh) as Hnd. rewrite <- (take_drop j hs), (drop_S _ _ _ Hlk) in Hnd.
    apply NoDup_app in Hnd as (_ & _ & [Hnd _]%NoDup_cons).
    eapply runs_mono; [eapply install_block_run; [done|by apply li_dev with hs|exact Hlb|exact Hhb| | | | | |exact H1]|].
    - intros He. destruct Hhm as [_ Hhm]. lia.
    - rewrite <- (drop_S _ _ _ Hlk). apply pins_notin. intros Hin'. pose proof (hs_home _ Hh) as Hfo. rewrite Forall_forall in Hfo.
      assert (st + 1 + Z.of_nat j ∈ hs) as Hin2 by (rewrite <- (take_drop j hs); apply elem_of_app; by right). by destruct (Hfo _ Hin2) as [_ ?].
    - rewrite !Hv. apply Hcl. lia.
    - apply pins_in. left.
    - lia.
    - intros [] s2 w (-> & H2). rewrite Hv in *. split; [done|]. rewrite !app_writes_snoc. eapply qst_ext; [exact H2|done|done| |lia].
      intros c. unfold fupd, pins. destruct (decide (c = h)) as [->|Hne]; [by rewrite decide_False|].
      repeat case_decide; set_solver. }
  intros [] s1 w (Hw & H1). cbn [app Nat.add] in *. rewrite take_ge in Hw, H1 by (unfold ws; rewrite length_install_writes; lia).
  split; [done|]. eapply qst_ext; [exact H1|done|done| |done]. intros c. rewrite drop_ge by lia. by apply pins_notin, not_elem_of_nil.
Qed.

Lemma recover_trans_run blk dsk fr s : (1 < fr)%nat → (∀ c, blk c = dsk c) → qst dev l blk dsk (λ _, 0) fr s →
  runs (install_trans pid true) s (λ _ s' w, w = install_writes hs dsk ∧
    qst dev l (app_writes (install_writes hs dsk) dsk) (app_writes (install_writes hs dsk) dsk) (λ _, 0) fr s').
Proof.
  intros Hf Hcl Hs0. assert (qst dev l dsk dsk (λ _, 0) fr s) as Hs by (eapply qst_ext; [exact Hs0|done..]).
  unfold install_trans. apply runs_gets. rewrite (proj1 Hs), (li_n _ _ Hl), Nat2Z.id.
  set (ws := install_writes hs dsk). eapply runs_mono.
  { apply (runs_for _ 0 _ (λ j s w, w = take j ws ∧ qst dev l (app_writes (take j ws) dsk) (app_writes (take j ws) dsk) (λ _, 0) fr s) s []); [|done].
    intros j s1 w Hj (-> & H1). destruct (loop_entry j) as (h & Hlk & Hin & Hhm & Hhb & Hlb & Hrg); [lia|].
    assert (ws !! j = Some (h, dsk (st + 1 + Z.of_nat j))) as Hw by (by apply install_writes_lookup).
    rewrite (take_S_r _ _ _ Hw).
    assert (app_writes (take j ws) dsk (st + 1 + Z.of_nat j) = dsk (st + 1 + Z.of_nat j)) as Hv.
    { apply app_writes_notin, install_writes_take_notin. intros Hin'. pose proof (hs_home _ Hh) as Hfo. rewrite Forall_forall in Hfo.
      by destruct (Hfo _ Hin') as [_ ?]. }
    eapply runs_mono; [eapply recover_block_run; [done|by apply li_dev with hs|exact Hlb|exact Hhb| | | | |exact Hf|exact H1]|]; [|done..|].
    - intros He. destruct Hhm as [_ Hhm]. lia.
    - intros [] s2 w (-> & H2). rewrite Hv in *. split; [done|]. by rewrite !app_writes_snoc. }
  intros [] s1 w (Hw & H1). cbn [app Nat.add] in *. rewrite take_ge in Hw, H1 by (unfold ws; rewrite length_install_writes; lia). done.
Qed.
End loops.

(** ** The header on disk *)

Lemma hdr_n_of n blocks old : is_i32 n → (4 ≤ length old)%nat → hdr_n (hdr_of n blocks old) = n.
Proof.
  intros Hn Ho. unfold hdr_n, hdr_of. rewrite get32_array_before by lia. rewrite get32_put32 by lia.
  rewrite i32_u32. by apply i32_small.
Qed.
Lemma hdr_blocks_of n blocks old : is_i32 n → 0 ≤ n → (Z.to_nat n ≤ length blocks)%nat → (4 + 4 * Z.to_nat n ≤ length old)%nat →
  Forall is_u32 (take (Z.to_nat n) blocks) → hdr_blocks (hdr_of n blocks old) = take (Z.to_nat n) blocks.
Proof.
  intros Hi Hn Hb Ho Hu. unfold hdr_blocks. rewrite hdr_n_of by (done || lia). unfold hdr_of.
  rewrite <- (length_take_le blocks (Z.to_nat n)) at 1 by lia. apply get_put_array32; [|done].
  unfold put32. rewrite length_put, length_take. lia.
Qed.
Lemma hdr_blocks_nil h : hdr_n h = 0 → hdr_blocks h = [].
Proof. intros H. unfold hdr_blocks. by rewrite H. Qed.

(** A log header that recovery can follow. *)
Definition wf_log (d : Z → list Z) : Prop := 0 ≤ hdr_n (d st) ∧ hsok (hdr_blocks (d st)).
(** The disk as it will be once the log is installed. *)
Definition logical (d : Z → list Z) : Z → list Z := app_writes (install_writes (hdr_blocks (d st)) d) d.
(** The writes recovery makes: install the log, clear the header. *)
Definition recovery_writes (d : Z → list Z) : list (Z * list Z) :=
  install_writes (hdr_blocks (d st)) d ++ [(st, put32 0 0 (d st))].

Lemma clear_hdr h : (4 ≤ length h)%nat → hdr_n (put32 0 0 h) = 0.
Proof. intros H. unfold hdr_n. by rewrite get32_put32 by lia. Qed.

Lemma hsok_nil : hsok [].
Proof. split; [constructor|constructor|simpl; lia|simpl; lia]. Qed.

Lemma home_notin_log hs t : hsok hs → (t < length hs)%nat → st + 1 + Z.of_nat t ∉ hs.
Proof.
  intros Hh Ht Hin. pose proof (hs_home _ Hh) as Hf. rewrite Forall_forall in Hf. pose proof (hs_size _ Hh).
  destruct (Hf _ Hin) as [_ Hn]. lia.
Qed.
Lemma st_notin hs : hsok hs → st ∉ hs.
Proof. intros Hh Hin. pose proof (hs_home _ Hh) as Hf. rewrite Forall_forall in Hf. destruct (Hf _ Hin) as [_ Hn]. lia. Qed.

(** Installing part of the log, or all of it and clearing the header, leaves
    the logical disk as it was. *)
Lemma logical_prefix d k : wf_log d → length (d st) = Z.to_nat BSIZE →
  let d' := app_writes (take k (recovery_writes d)) d in
  wf_log d' ∧ (∀ c, home c → logical d' c = logical d c).
Proof.
  intros [Hn Hh] Hsz d'. set (hs := hdr_blocks (d st)) in *. set (ws := install_writes hs d) in *.
  pose proof (st_notin hs Hh) as Hst. unfold recovery_writes in d'. fold hs in d'. fold ws in d'.
  assert (NoDup ws.*1) as Hnd by (unfold ws; rewrite install_writes_keys; apply Hh).
  destruct (decide (k ≤ length ws)%nat) as [Hk|Hk].
  - assert (d' = app_writes (take k ws) d) as Hd' by (unfold d'; by rewrite take_app_le).
    assert (∀ c, c ∉ hs → d' c = d c) as Hout by (intros c Hc; rewrite Hd'; by apply app_writes_notin, install_writes_take_notin).
    assert (d' st = d st) as Hds by auto. unfold wf_log, logical. rewrite Hds. fold hs. split; [done|]. intros c _.
    assert (install_writes hs d' = ws) as ->.
    { apply list_eq. intros t. unfold ws, install_writes. rewrite !list_lookup_imap. destruct (hs !! t) as [h|] eqn:Ht; [|done].
      simpl. by rewrite Hout by (apply home_notin_log; [done|by eapply lookup_lt_Some]). }
    rewrite Hd'. by apply app_writes_replay.
  - assert (d' = fupd (app_writes ws d) st (put32 0 0 (d st))) as Hd'.
    { unfold d'. rewrite take_ge by (rewrite length_app; simpl; lia). by rewrite app_writes_app. }
    assert (hdr_n (d' st) = 0) as H0 by (rewrite Hd', fupd_eq; apply clear_hdr; rewrite Hsz; unfold BSIZE; lia).
    unfold wf_log, logical. rewrite (hdr_blocks_nil _ H0), H0. split; [split; [done|apply hsok_nil]|].
    intros c [_ Hc]. simpl. rewrite Hd'. apply fupd_ne. lia.
Qed.

(** The writes of a commit: copy the blocks to the log, write the header, then
    do what recovery would do. *)
Definition hdr_disk (hs : list Z) (blocks : list Z) (f d : Z → list Z) : Z → list Z :=
  fupd (app_writes (log_writes hs f) d) st (hdr_of (Z.of_nat (length hs)) blocks (d st)).
Definition commit_writes (hs blocks : list Z) (f d : Z → list Z) : list (Z * list Z) :=
  log_writes hs f ++ (st, hdr_of (Z.of_nat (length hs)) blocks (d st)) :: recovery_writes (hdr_disk hs blocks f d).

(** The disk with the blocks [hs] replaced by their new contents. *)
Definition committed (hs : list Z) (f d : Z → list Z) (c : Z) : list Z := if decide (c ∈ hs) then f c else d c.

Lemma hsok_u32 hs : hsok hs → Forall is_u32 hs.
Proof. intros Hh. eapply Forall_impl; [apply Hh|]. intros c [Hc _]. wrap_unfold. lia. Qed.

Lemma hdr_disk_blocks hs blocks f d : hsok hs → take (length hs) blocks = hs → (length hs ≤ length blocks)%nat → length (d st) = Z.to_nat BSIZE →
  wf_log (hdr_disk hs blocks f d) ∧ (∀ c, home c → logical (hdr_disk hs blocks f d) c = committed hs f d c).
Proof.
  intros Hh Ht Hbl Hsz. pose proof (hs_max _ Hh) as Hmx. unfold LOGSIZE, MAXOPBLOCKS in Hmx.
  assert (hdr_n (hdr_disk hs blocks f d st) = Z.of_nat (length hs)) as Hn.
  { unfold hdr_disk. rewrite fupd_eq. apply hdr_n_of; [wrap_unfold; lia|rewrite Hsz; unfold BSIZE; lia]. }
  assert (hdr_blocks (hdr_disk hs blocks f d st) = hs) as Hb.
  { unfold hdr_disk. rewrite fupd_eq, hdr_blocks_of; rewrite ?Nat2Z.id; [done|wrap_unfold; lia|lia|lia|rewrite Hsz; unfold BSIZE; lia|].
    rewrite Ht. by apply hsok_u32. }
  split; [split; [lia|by rewrite Hb]|]. intros c Hc. unfold logical. rewrite Hb. unfold committed. case_decide as Hin.
  - apply list_elem_of_lookup_1 in Hin as [t Hlk]. pose proof (lookup_lt_Some _ _ _ Hlk) as Hlt.
    apply app_writes_in; [rewrite install_writes_keys; apply Hh|].
    apply (list_elem_of_lookup_2 _ t). rewrite (install_writes_lookup _ _ _ _ Hlk). f_equal. f_equal.
    unfold hdr_disk. rewrite fupd_ne by lia. by rewrite (log_writes_value _ _ _ _ _ Hlk).
  - rewrite app_writes_notin by (by rewrite install_writes_keys). destruct Hc as [_ Hc]. unfold hdr_disk. rewrite fupd_ne by lia.
    apply app_writes_notin. intros Hk%log_writes_keys. pose proof (hs_size _ Hh). lia.
Qed.

(** Every prefix of a commit's writes leaves a log that leads to the old disk
    or to the new one. *)
Lemma commit_prefix hs blocks f d k : hsok hs → take (length hs) blocks = hs → (length hs ≤ length blocks)%nat →
  length (d st) = Z.to_nat BSIZE → hdr_n (d st) = 0 →
  let d' := app_writes (take k (commit_writes hs blocks f d)) d in
  wf_log d' ∧ ((∀ c, home c → logical d' c = d c) ∨ (∀ c, home c → logical d' c = committed hs f d c)).
Proof.
  intros Hh Ht Hbl Hsz H0 d'. unfold commit_writes in d'. destruct (decide (k ≤ length (log_writes hs f))%nat) as [Hk|Hk].
  - assert (∀ c, ¬ (st < c < st + sz) → d' c = d c) as Hout.
    { intros c Hc. unfold d'. rewrite take_app_le by done. apply app_writes_notin, log_writes_take_notin. pose proof (hs_size _ Hh). lia. }
    assert (d' st = d st) as Hds by (apply Hout; lia). unfold wf_log, logical. rewrite Hds, (hdr_blocks_nil _ H0), H0.
    split; [split; [done|apply hsok_nil]|]. left. intros c [_ Hc]. simpl. apply Hout. lia.
  - destruct (hdr_disk_blocks hs blocks f d Hh Ht Hbl Hsz) as [Hwf Hlg].
    assert (∃ j, d' = app_writes (take j (recovery_writes (hdr_disk hs blocks f d))) (hdr_disk hs blocks f d)) as [j Hd'].
    { exists (k - length (log_writes hs f) - 1)%nat. unfold d'. rewrite take_app_ge by lia.
      destruct (k - length (log_writes hs f))%nat as [|m] eqn:Hm; [lia|]. cbn [take]. rewrite app_writes_app. simpl.
      by rewrite Nat.sub_0_r. }
    rewrite Hd'. destruct (logical_prefix (hdr_disk hs blocks f d) j Hwf) as [Hwf' Hlg'].
    { unfold hdr_disk. rewrite fupd_eq. by rewrite length_hdr_of. }
    split; [done|]. right. intros c Hc. rewrite Hlg', Hlg; done.
Qed.

(** ** Commit and recovery *)

Lemma qst_clean l blk dsk rf fr s c : qst dev l blk dsk rf fr s → rf c = 0 → blk c = dsk c.
Proof.
  intros [_ HR] H0. destruct (br_order _ _ _ HR) as [order Hinv]. pose proof (br_blocks _ _ _ HR c) as Hb. pose proof (br_dsk _ _ _ HR c) as Hd.
  pose proof (br_rf _ _ _ HR c) as Hr. simpl in *. rewrite <- Hb, <- Hd. destruct (cached_dec dev (bc s) c) as [[i Hi]|Hn].
  - rewrite (content_cached _ _ _ _ _ Hinv Hi). apply (bi_clean _ _ _ Hinv); [done|]. rewrite <- (refs_cached _ _ _ _ _ Hinv Hi). congruence.
  - by apply content_uncached.
Qed.
Lemma qst_dsize l blk dsk rf fr s c : qst dev l blk dsk rf fr s → length (dsk c) = Z.to_nat BSIZE.
Proof. intros [_ HR]. destruct (br_order _ _ _ HR) as [order Hinv]. pose proof (br_dsk _ _ _ HR c) as Hd. simpl in Hd. rewrite <- Hd. apply (bi_dsize _ _ _ Hinv). Qed.

Lemma u32_start l hs : lgi l hs → u32 (start l) = st.
Proof. intros Hl. rewrite (li_start _ _ Hl). apply u32_small. wrap_unfold. lia. Qed.

Lemma lgi_clear l hs : lgi l hs → lgi (set_lh_n 0 l) [].
Proof. intros []. by split. Qed.

Lemma upd_lg_qst f l blk dsk rf fr s : qst dev l blk dsk rf fr s → qst dev (f l) blk dsk rf fr (upd_lg f s).
Proof. intros [Hl HR]. split; [simpl; by rewrite Hl|exact HR]. Qed.

(** The first half of [commit] makes the disk [hdr_disk]. *)
Lemma commit_log_run pid l hs blk dsk fr s : lgi l hs → hsok hs → (0 < fr)%nat → qst dev l blk dsk (pins hs) fr s →
  runs (write_log pid ;; write_head pid) s (λ _ s' w,
    w = log_writes hs blk ++ [(st, hdr_of (Z.of_nat (length hs)) (lh_block l) (dsk st))] ∧
    ∃ blk', qst dev l blk' (hdr_disk hs (lh_block l) blk dsk) (pins hs) fr s' ∧
      ∀ t, (t < length hs)%nat → blk' (st + 1 + Z.of_nat t) = hdr_disk hs (lh_block l) blk dsk (st + 1 + Z.of_nat t)).
Proof.
  intros Hl Hh Hf Hs. pose proof (hs_size _ Hh) as Hsize. pose proof (hs_max _ Hh) as Hmax.
  assert (blk st = dsk st) as Hst by (eapply qst_clean; [exact Hs|apply pins_log; [done|lia]]).
  apply runs_bind. eapply runs_mono; [apply (write_log_run pid l hs Hl Hh _ _ _ _ Hf Hs)|]. intros [] s1 w1 (-> & H1).
  eapply runs_mono.
  { eapply write_head_run; [done|by apply li_dev with hs|by apply (u32_start l hs)| |exact Hf| |exact H1].
    - apply pins_log; [done|lia].
    - rewrite (li_n _ _ Hl), (li_len _ _ Hl). lia. }
  assert (app_writes (log_writes hs blk) blk st = dsk st) as E by (rewrite log_writes_out by lia; done).
  intros [] s2 w2 (h & -> & -> & H2). rewrite E, (li_n _ _ Hl) in H2 |- *. split; [done|].
  eexists. split; [exact H2|]. intros t Ht. destruct (lookup_lt_is_Some_2 hs t Ht) as [x Hx].
  unfold hdr_disk. rewrite !fupd_ne by lia. by rewrite !(log_writes_value _ _ _ _ _ Hx).
Qed.

(** The second half does what recovery does. *)
Lemma commit_install_run pid l hs blk d1 fr s : lgi l hs → hsok hs → (0 < fr)%nat → qst dev l blk d1 (pins hs) fr s →
  hdr_blocks (d1 st) = hs → (∀ t, (t < length hs)%nat → blk (st + 1 + Z.of_nat t) = d1 (st + 1 + Z.of_nat t)) →
  runs (install_trans pid false ;; modify (upd_lg (set_lh_n 0)) ;; write_head pid) s (λ _ s' w,
    w = recovery_writes d1 ∧ ∃ blk', qst dev (set_lh_n 0 l) blk' (app_writes w d1) (λ _, 0) (fr + length hs) s').
Proof.
  intros Hl Hh Hf Hs Hb Hlog. assert (blk st = d1 st) as Hst by (eapply qst_clean; [exact Hs|apply pins_log; [done|lia]]).
  apply runs_bind. eapply runs_mono; [by eapply (install_trans_run pid l hs Hl Hh)|]. intros [] s3 w3 (-> & H3).
  assert (install_writes hs blk = install_writes hs d1) as Hiw.
  { apply list_eq. intros t. unfold install_writes. rewrite !list_lookup_imap. destruct (hs !! t) as [x|] eqn:Hx; [|done].
    simpl. by rewrite Hlog by (by eapply lookup_lt_Some). }
  rewrite Hiw in *. apply runs_modify. apply (upd_lg_qst (set_lh_n 0)) in H3. eapply runs_mono.
  { eapply write_head_run; [done|by apply (li_dev _ _ (lgi_clear _ _ Hl))|by apply (u32_start _ [] (lgi_clear _ _ Hl))|done| | |exact H3]; [lia|simpl; lia]. }
  intros [] s4 w4 (h & -> & -> & H4). unfold recovery_writes. rewrite Hb.
  assert (∀ f, app_writes (install_writes hs d1) f st = f st) as Hkeep.
  { intros f. apply app_writes_notin. rewrite install_writes_keys. by apply st_notin. }
  rewrite Hkeep, Hst in *. split; [done|]. eexists. rewrite app_writes_snoc. exact H4.
Qed.

Lemma commit_run pid l hs blk dsk fr s : lgi l hs → hsok hs → hs ≠ [] → (0 < fr)%nat → qst dev l blk dsk (pins hs) fr s →
  runs (commit pid) s (λ _ s' w, w = commit_writes hs (lh_block l) blk dsk ∧
    ∃ blk', qst dev (set_lh_n 0 l) blk' (app_writes w dsk) (λ _, 0) (fr + length hs) s').
Proof.
  intros Hl Hh Hne Hf Hs. pose proof (hs_max _ Hh) as Hmx. unfold LOGSIZE, MAXOPBLOCKS in Hmx. pose proof (qst_dsize _ _ _ _ _ _ st Hs) as Hds.
  unfold commit. apply runs_gets. rewrite (proj1 Hs), (li_n _ _ Hl).
  destruct (Z.ltb_spec 0 (Z.of_nat (length hs))) as [_|Hz]; [|destruct hs; [done|simpl in Hz; lia]].
  apply (runs_assoc' (write_log pid)). apply runs_bind. eapply runs_mono; [by eapply commit_log_run|].
  intros [] s1 w1 (-> & blk1 & H1 & Hlog). eapply runs_mono; [eapply commit_install_run; [exact Hl|exact Hh|exact Hf|exact H1| |exact Hlog]|].
  - unfold hdr_disk. rewrite fupd_eq, hdr_blocks_of; rewrite ?Nat2Z.id, ?(li_blocks _ _ Hl), ?Hds;
      [done|wrap_unfold; lia|lia|rewrite (li_len _ _ Hl); unfold LOGSIZE, MAXOPBLOCKS; lia|unfold BSIZE; lia|by apply hsok_u32].
  - intros [] s2 w2 (-> & blk2 & H2). unfold commit_writes. rewrite <- app_assoc. split; [done|]. exists blk2.
    rewrite app_assoc, app_writes_app, app_writes_snoc. exact H2.
Qed.

(** Nothing is in progress: the log is empty in memory and on disk, and no
    buffer is in use. *)
Definition quiet (d : Z → list Z) (s : logsys) : Prop :=
  ∃ l blk, lgi l [] ∧ outstanding l = 0 ∧ committing l = 0 ∧ qst dev l blk d (λ _, 0) NBUF s ∧ hdr_n (d st) = 0.

Lemma quiet_ext d d' s : quiet d s → (∀ c, d c = d' c) → quiet d' s.
Proof.
  intros (l & blk & Hl & Ho & Hc & Hs & H0) He. exists l, blk. split_and!; try done; [|by rewrite <- He].
  eapply qst_ext; [exact Hs|done..].
Qed.
Lemma quiet_disk d s c : quiet d s → disk_block (disk (bc s)) c = d c.
Proof. intros (l & blk & _ & _ & _ & [_ HR] & _). apply (br_dsk _ _ _ HR). Qed.

(** Booting: the buffer cache is initialised, then the log. *)
Definition boot_log (pid : Z) : L unit := bio binit ;; initlog pid dev st sz.
Definition powered_on (d : gmap Z (list Z)) : logsys := mklogsys log0 (boot_cache d).

Lemma fmap_i32_home hs : hsok hs → i32 <$> hs = hs.
Proof.
  intros Hh. rewrite <- (list_fmap_id hs) at 2. apply list_fmap_ext. intros i c Hc. destruct (hsok_lookup _ _ _ Hh Hc) as [Hr _].
  apply i32_small. unfold id. wrap_unfold. lia.
Qed.

Lemma lgi_read_head l hs h : lgi l [] → hsok hs → hdr_n h = Z.of_nat (length hs) → hdr_blocks h = hs →
  lgi (set_lh_block ((i32 <$> hs) ++ drop (Z.to_nat (hdr_n h)) (lh_block l)) (set_lh_n (hdr_n h) l)) hs.
Proof.
  intros [] Hh Hn Hb. pose proof (hs_max _ Hh). rewrite Hn, Nat2Z.id, fmap_i32_home by done. split; simpl; try done.
  - by rewrite take_app_length.
  - rewrite length_app, length_drop. lia.
Qed.

Lemma recover_run pid l d s : lgi l [] → wf_log d → qst dev l d d (λ _, 0) NBUF s →
  runs (recover_from_log pid) s (λ _ s' w, w = recovery_writes d ∧
    ∃ l' blk', lgi l' [] ∧ outstanding l' = outstanding l ∧ committing l' = committing l ∧ qst dev l' blk' (app_writes w d) (λ _, 0) NBUF s').
Proof.
  intros Hl [Hn Hh] Hs. set (hs := hdr_blocks (d st)) in *.
  assert (hdr_n (d st) = Z.of_nat (length hs)) as Hlen by (unfold hs, hdr_blocks, get_array32; rewrite length_fmap, length_seq; lia).
  pose proof (hs_max _ Hh) as Hmax. unfold recover_from_log. apply runs_bind. eapply runs_mono.
  { eapply read_head_run; [done|by apply li_dev with []|by apply (u32_start l [])|done| |done| |exact Hs]; [unfold NBUF; lia|].
    rewrite (li_len _ _ Hl), Hlen. lia. }
  intros [] s1 w1 (-> & H1). fold hs in H1. pose proof (lgi_read_head l hs (d st) Hl Hh Hlen eq_refl) as Hl1.
  set (l1 := set_lh_block _ _) in *. apply runs_bind. eapply runs_mono; [eapply (recover_trans_run pid l1 hs Hl1 Hh); [|done|exact H1]; unfold NBUF; lia|].
  intros [] s2 w2 (-> & H2). apply runs_modify. apply (upd_lg_qst (set_lh_n 0)) in H2. eapply runs_mono.
  { eapply write_head_run; [done|by apply (li_dev _ _ (lgi_clear _ _ Hl1))|by apply (u32_start _ [] (lgi_clear _ _ Hl1))|done| | |exact H2]; [unfold NBUF; lia|simpl; lia]. }
  intros [] s3 w3 (h & -> & -> & H3). unfold recovery_writes. fold hs.
  assert (∀ f, app_writes (install_writes hs d) f st = f st) as Hkeep.
  { intros f. apply app_writes_notin. rewrite install_writes_keys. by apply st_notin. }
  rewrite Hkeep in H3 |- *. split; [done|]. eexists _, _. split_and!; [by eapply lgi_clear|done|done|]. simpl. rewrite app_writes_snoc. exact H3.
Qed.

(** Booting from a disk with a well-formed log runs recovery. *)
Lemma boot_run pid d : wf_log (disk_block d) → (∀ b, length (disk_block d b) = Z.to_nat BSIZE) →
  runs (boot_log pid) (powered_on d) (λ _ s' w, w = recovery_writes (disk_block d) ∧
    quiet (app_writes w (disk_block d)) s').
Proof.
  intros Hwf Hsz. destruct (brel_init dev d Hdev Hsz) as (c & Hrun & HR). unfold boot_log.
  eapply bio_run; [exact Hrun|]. unfold initlog. destruct (Z.leb_spec BSIZE (4 + 4 * LOGSIZE)) as [Hb|_]; [unfold BSIZE, LOGSIZE, MAXOPBLOCKS in Hb; lia|].
  apply runs_modify. assert (i32 st = st ∧ i32 sz = sz) as [Hst Hsz'] by (split; apply i32_small; wrap_unfold; lia).
  set (l := mklog false st sz 0 0 dev 0 (lh_block log0)). eapply runs_mono.
  { apply (recover_run pid l (disk_block d)); [by split|done|]. split; [simpl; by rewrite Hst, Hsz'|exact HR]. }
  intros [] s w (-> & l' & blk' & Hl' & Ho & Hc & H'). split; [done|]. exists l', blk'. split_and!; try done.
  cbn [app dwrites]. unfold recovery_writes. rewrite app_writes_snoc, fupd_eq. apply clear_hdr. rewrite Hsz. unfold BSIZE. lia.
Qed.
End layout.
