(* ===== verification/LogTxn.v ===== *)
(** Transactions: [begin_op], any number of logged block updates, [end_op]. *)
From Stdlib Require Import ZArith Lia.
From stdpp Require Import base list gmap strings.
From S2P Require Import Prelude Machine Sleeplock Bio BioThm Mem Blk Log LogRun LogThm.

(** The way [fs.c] changes a block inside a transaction:
    [bp = bread(dev, b); modify bp->data; log_write(bp); brelse(bp)]. *)
Definition log_update (pid dev : Z) (u : Z * list Z) : L unit :=
  let! bp := bio (bread pid dev u.1) in
  bio (modify (upd_buf bp (set_data u.2))) ;;
  log_write bp ;;
  bio (brelse pid bp).

Fixpoint log_updates (pid dev : Z) (us : list (Z * list Z)) : L unit :=
  match us with
  | [] => ret tt
  | u :: us' => log_update pid dev u ;; log_updates pid dev us'
  end.

Definition transaction (pid dev : Z) (us : list (Z * list Z)) : L unit :=
  begin_op ;; log_updates pid dev us ;; end_op pid.

(** The blocks logged after logging [b]. *)
Definition add_block (b : Z) (hs : list Z) : list Z := if decide (b ∈ hs) then hs else hs ++ [b].

Lemma pins_add b hs c : pins (add_block b hs) c = if decide (c = b) then 1 else pins hs c.
Proof. unfold pins, add_block. repeat case_decide; try done; set_solver. Qed.

Lemma length_add_block b hs : length (add_block b hs) = (length hs + (if decide (b ∈ hs) then 0 else 1))%nat.
Proof. unfold add_block. case_decide; [lia|]. rewrite length_app. simpl. lia. Qed.

(** The blocks a list of updates adds to the log. *)
Definition logged (us : list (Z * list Z)) (hs : list Z) : list Z := foldl (λ hs u, add_block u.1 hs) hs us.

Lemma length_logged us hs : (length hs ≤ length (logged us hs))%nat.
Proof.
  revert hs. induction us as [|u us IH]; intros hs; simpl; [done|]. etrans; [|apply IH]. rewrite length_add_block. lia.
Qed.

Lemma elem_of_logged us hs c : c ∈ logged us hs ↔ c ∈ hs ∨ c ∈ us.*1.
Proof.
  revert hs. induction us as [|u us IH]; intros hs; simpl; [set_solver|]. rewrite IH. unfold add_block. case_decide; set_solver.
Qed.

Lemma NoDup_logged us hs : NoDup hs → NoDup (logged us hs).
Proof.
  revert hs. induction us as [|u us IH]; intros hs Hnd; [done|]. simpl. apply IH. unfold add_block. case_decide; [done|].
  apply NoDup_app. split_and!; [done| |apply NoDup_singleton]. intros x Hx ->%list_elem_of_singleton. done.
Qed.

Lemma length_logged_size us : length (logged us []) = base.size (list_to_set us.*1 : gset Z).
Proof.
  rewrite <- (size_list_to_set (C := gset Z)) by (by apply NoDup_logged, NoDup_nil_2). f_equal. apply leibniz_equiv. intros c.
  rewrite !elem_of_list_to_set, elem_of_logged. set_solver.
Qed.

Lemma logged_fresh us hs : NoDup (hs ++ us.*1) → logged us hs = hs ++ us.*1.
Proof.
  revert hs. induction us as [|[b v] us IH]; intros hs Hnd; simpl in *; [by rewrite app_nil_r|].
  assert (add_block b hs = hs ++ [b]) as ->.
  { unfold add_block. rewrite decide_False; [done|]. intros Hin. apply NoDup_app in Hnd as (_ & H & _). apply (H b Hin). left. }
  rewrite IH; rewrite <- app_assoc; done.
Qed.

Section txn.
Context (pid dev st sz : Z) (Hdev : dev ≠ 0).
Hypothesis (Hgeo : 0 ≤ st ∧ 1 < sz ∧ st + sz < 2 ^ 31).

Local Abbreviation lgi := (lgi dev st sz).
Local Abbreviation hsok := (hsok st sz).
Local Abbreviation home := (home st sz).

(** ** [log_write] *)

Lemma find_block_from l hs b n i : lgi l hs → hsok hs → (i + n = length hs)%nat →
  (∀ j, hs !! j = Some b → (i ≤ j)%nat → find_block n i b l = j ∨ ∃ k, (i ≤ k < j)%nat ∧ hs !! k = Some b ∧ find_block n i b l = k) ∧
  (b ∉ hs → find_block n i b l = length hs).
Proof.
  intros Hl Hh. revert i. induction n as [|n IH]; intros i Hn; simpl.
  - split; [|intros _; lia]. intros j Hj Hij. apply lookup_lt_Some in Hj. lia.
  - destruct (lookup_lt_is_Some_2 hs i) as [h Hi]; [lia|]. rewrite (lgi_home_bno _ _ _ _ _ _ _ Hl Hh Hi).
    destruct (Z.eqb_spec h b) as [->|Hne].
    + split; [|intros Hb; destruct Hb; by eapply list_elem_of_lookup_2]. intros j Hj Hij.
      destruct (decide (i = j)) as [->|]; [by left|]. right. exists i. split_and!; [lia|lia|done|done].
    + destruct (IH (S i)) as [H1 H2]; [lia|]. split; [|done]. intros j Hj Hij.
      assert (i ≠ j) by congruence. destruct (H1 j Hj) as [|(k & Hk & ?)]; [lia|by left|]. right. exists k. split; [lia|done].
Qed.
Lemma find_block_in l hs b j : lgi l hs → hsok hs → hs !! j = Some b → find_block (length hs) 0 b l = j.
Proof.
  intros Hl Hh Hj. destruct (find_block_from l hs b (length hs) 0 Hl Hh eq_refl) as [H _].
  destruct (H j Hj) as [|(k & Hk & Hlk & _)]; [lia|done|]. pose proof (NoDup_lookup _ _ _ _ (hs_nodup _ _ _ Hh) Hj Hlk). lia.
Qed.
Lemma find_block_notin l hs b : lgi l hs → hsok hs → b ∉ hs → find_block (length hs) 0 b l = length hs.
Proof. intros Hl Hh Hb. by apply (find_block_from l hs b (length hs) 0). Qed.

Lemma add_block_ok b hs : hsok hs → home b → Z.of_nat (length hs) < LOGSIZE → Z.of_nat (length hs) < sz - 1 → hsok (add_block b hs).
Proof.
  intros Hh Hb H1 H2. unfold add_block. case_decide as Hin; [done|]. destruct Hh. split.
  - apply Forall_app. split; [done|]. by constructor.
  - apply NoDup_app. split_and!; [done| |apply NoDup_singleton]. intros x Hx ->%list_elem_of_singleton. done.
  - rewrite length_app. simpl. lia.
  - rewrite length_app. simpl. lia.
Qed.

(** [l] with [hs] in its header, [log.lock] aside. *)
Lemma lgi_add l hs b : lgi l hs → Z.of_nat (length hs) < LOGSIZE →
  lgi (set_lh_n (Z.of_nat (length hs) + 1) (set_lh_block (<[length hs := b]> (lh_block l)) l)) (hs ++ [b]).
Proof.
  intros [] Hn. split; simpl; try done.
  - rewrite length_app. simpl. lia.
  - rewrite length_app. simpl. rewrite Nat.add_1_r.
    rewrite (take_S_r _ _ b) by (apply list_lookup_insert_eq; lia). rewrite take_insert_ge by lia. by f_equal.
  - by rewrite length_insert.
Qed.

Lemma find_block_lock n i b x l : find_block n i b (set_lg_lock x l) = find_block n i b l.
Proof. revert i. induction n as [|n IH]; intros i; simpl; [done|]. by rewrite IH. Qed.

Lemma runs_acquire {A} (k : unit → L A) s Q : lg_lock (lg s) = false → runs (k tt) (upd_lg (set_lg_lock true) s) Q → runs (bind acquire k) s Q.
Proof. intros Hl Hk. unfold runs, bind, acquire. simpl. rewrite Hl. unfold runs in Hk. by rewrite pre_nil. Qed.
Lemma runs_release {A} (k : unit → L A) s Q : lg_lock (lg s) = true → runs (k tt) (upd_lg (set_lg_lock false) s) Q → runs (bind release k) s Q.
Proof. intros Hl Hk. unfold runs, bind, release. simpl. rewrite Hl. unfold runs in Hk. by rewrite pre_nil. Qed.

Lemma log_write_run {A} l hs σ s b i (k : unit → L A) Q : lgi l hs → hsok hs → home b → 1 ≤ outstanding l →
  Z.of_nat (length hs) < LOGSIZE → Z.of_nat (length hs) < sz - 1 →
  lst dev l σ s → hdl dev s b i → sp_owner σ b = Some pid → sp_refs σ b + 1 < 2 ^ 32 →
  (∀ l' s', lgi l' (add_block b hs) → outstanding l' = outstanding l → committing l' = committing l →
    lst dev l' (if decide (b ∈ hs) then σ else after_refs b 1 σ) s' → hdl dev s' b i → runs (k tt) s' Q) →
  runs (bind (log_write i) k) s Q.
Proof.
  intros Hl Hh Hb Ho H1 H2 Hs Hi Hown Hu Hk. pose proof (proj1 Hs) as Hlg. unfold log_write. apply runs_assoc.
  apply runs_acquire; [rewrite Hlg; apply Hl|]. apply runs_assoc, runs_gets. cbn [upd_lg lg]. rewrite Hlg.
  change (lh_n (set_lg_lock true l)) with (lh_n l). change (size (set_lg_lock true l)) with (size l). change (outstanding (set_lg_lock true l)) with (outstanding l).
  rewrite (li_n _ _ _ _ _ Hl), (li_size _ _ _ _ _ Hl).
  destruct (Z.leb_spec LOGSIZE (Z.of_nat (length hs))); [lia|]. destruct (Z.leb_spec (sz - 1) (Z.of_nat (length hs))); [lia|]. cbn [orb].
  destruct (Z.ltb_spec (outstanding l) 1); [lia|]. apply runs_assoc, runs_gets. cbn [upd_lg bc].
  replace (blockno (bf i (bc s))) with b by (symmetry; apply Hi). rewrite Nat2Z.id, find_block_lock.
  assert (i32 b = b) as Hib by (apply i32_small; destruct Hb; wrap_unfold; lia). rewrite Hib.
  pose proof (li_len _ _ _ _ _ Hl) as Hlen. unfold set_block. apply runs_assoc, runs_assoc, runs_gets. cbn [upd_lg lg]. rewrite Hlg.
  change (lh_block (set_lg_lock true l)) with (lh_block l). unfold add_block in Hk. case_decide as Hin.
  - apply list_elem_of_lookup_1 in Hin as [j Hj]. pose proof (lookup_lt_Some _ _ _ Hj) as Hjl.
    rewrite (find_block_in l hs b j Hl Hh Hj). destruct (Nat.ltb_spec j (length (lh_block l))); [|lia].
    apply runs_modify. destruct (Nat.eqb_spec j (length hs)); [lia|]. apply runs_assoc, runs_bind, runs_ret. cbn [app].
    apply runs_release; [done|]. apply (Hk l); [done|done|done| |done].
    rewrite list_insert_id by (rewrite <- (li_blocks _ _ _ _ _ Hl), lookup_take_lt in Hj by done; done).
    destruct Hs as [_ HR]. split; [simpl; rewrite Hlg; destruct Hl as [E1 _ _ _ _ _ _]; clear -E1; destruct l; simpl in *; by rewrite E1|exact HR].
  - rewrite (find_block_notin l hs b Hl Hh Hin). destruct (Nat.ltb_spec (length hs) (length (lh_block l))); [|lia].
    apply runs_modify. rewrite Nat.eqb_refl. apply runs_assoc, runs_assoc.
    match goal with |- runs _ ?s1 _ => assert (lst dev (lg s1) σ s1) as Hs1 by (split; [done|exact (proj2 Hs)]) end.
    eapply (w_pin pid dev Hdev _ σ _ Hs1); [exact Hown|exact Hi|exact Hu|]. intros s' H' K'.
    assert (hdl dev s' b i) as Hi' by (apply K'; [exact Hi|]; destruct (held_buf dev (bc s) σ (proj2 Hs) pid b i Hown Hi) as (_ & _ & _ & _ & _ & ? & _); lia).
    apply runs_modify, runs_release; [simpl; by rewrite (proj1 H')|].
    pose proof (lgi_add l hs b Hl H1) as Hl'.
    apply (Hk (set_lh_n (Z.of_nat (length hs) + 1) (set_lh_block (<[length hs := b]> (lh_block l)) l))); [done|done|done| |exact Hi'].
    split; [|exact (proj2 H')]. simpl. rewrite (proj1 H'). simpl. rewrite Hlg.
    unfold LOGSIZE, MAXOPBLOCKS in H1. rewrite i32_small by (wrap_unfold; lia).
    destruct Hl as [E1 _ _ _ _ _ _]. clear -E1. destruct l; simpl in *. by rewrite E1.
Qed.

(** ** Updates *)

Lemma log_update_run l hs blk dsk b v s : lgi l hs → hsok hs → home b → length v = Z.to_nat BSIZE → 1 ≤ outstanding l →
  Z.of_nat (length hs) < LOGSIZE → Z.of_nat (length hs) < sz - 1 → qst dev l blk dsk (pins hs) (NBUF - length hs) s →
  runs (log_update pid dev (b, v)) s (λ _ s' w, w = [] ∧ ∃ l', lgi l' (add_block b hs) ∧ outstanding l' = outstanding l ∧
    committing l' = committing l ∧ qst dev l' (fupd blk b v) dsk (pins (add_block b hs)) (NBUF - length (add_block b hs)) s').
Proof.
  intros Hl Hh Hb Hv Ho H1 H2 Hs. unfold log_update. cbn [fst snd].
  assert (0 ≤ pins hs b ≤ 1) as Hp by (unfold pins; case_decide; lia).
  assert (Z.to_nat LOGSIZE = NBUF) as HLB by reflexivity.
  eapply w_read; [done|exact Hs|done|simpl; lia|left; simpl; lia|]. intros i s1 H3 Hi _ _.
  eapply w_store with (b := b); [done|exact H3|fupd_simpl|done|done|done|]. cbn [data set_data]. intros s2 H4 K4. keep K4 Hi.
  eapply (log_write_run l hs _ s2 b i); [done|done|done|done|done|done|exact H4|done|fupd_simpl|fupd_simpl|].
  intros l' s3 Hl' Ho' Hc' H5 Hi3. apply runs_tt.
  assert (∀ c, sp_owner (if decide (b ∈ hs) then after_store b v (after_read pid b (mkcspec blk dsk (pins hs) (λ _, None) (NBUF - length hs)))
    else after_refs b 1 (after_store b v (after_read pid b (mkcspec blk dsk (pins hs) (λ _, None) (NBUF - length hs))))) c =
      if decide (c = b) then Some pid else None) as Hown by (intros c; destruct (decide (b ∈ hs)); fupd_simpl).
  eapply w_release with (b := b); [done|exact H5|by rewrite Hown, decide_True|done| |].
  { unfold pins in *. case_decide; fupd_simpl. }
  intros s4 H6 _. apply runs_ret. split; [done|]. exists l'. split_and!; [done..|].
  eapply lst_qst; [exact H6|..].
  - intros c. case_decide; fupd_simpl.
  - intros c. case_decide; fupd_simpl.
  - intros c. rewrite pins_add. unfold pins in *. destruct (decide (b ∈ hs)); fupd_simpl.
  - intros c. destruct (decide (b ∈ hs)); fupd_simpl.
  - rewrite length_add_block. unfold pins in *. destruct (decide (b ∈ hs)); fupd_simpl.
Qed.

Definition update_ok (u : Z * list Z) : Prop := home u.1 ∧ length u.2 = Z.to_nat BSIZE.

Lemma log_updates_run us l hs blk dsk s : lgi l hs → hsok hs → Forall update_ok us → 1 ≤ outstanding l →
  Z.of_nat (length (logged us hs)) < LOGSIZE → Z.of_nat (length (logged us hs)) < sz - 1 →
  qst dev l blk dsk (pins hs) (NBUF - length hs) s →
  runs (log_updates pid dev us) s (λ _ s' w, w = [] ∧ ∃ l', lgi l' (logged us hs) ∧ hsok (logged us hs) ∧ outstanding l' = outstanding l ∧
    committing l' = committing l ∧ qst dev l' (app_writes us blk) dsk (pins (logged us hs)) (NBUF - length (logged us hs)) s').
Proof.
  revert l hs blk s. induction us as [|[b v] us IH]; intros l hs blk s Hl Hh Hu Ho H1 H2 Hs; simpl.
  - apply runs_ret. split; [done|]. by exists l.
  - apply Forall_cons in Hu as [[Hb Hv] Hu]. pose proof (length_logged ((b, v) :: us) hs) as Hm. simpl in Hm, H1, H2.
    apply runs_bind. eapply runs_mono; [eapply log_update_run; [exact Hl|exact Hh|exact Hb|exact Hv|done|lia|lia|exact Hs]|].
    intros [] s1 w (-> & l1 & Hl1 & Ho1 & Hc1 & H3).
    eapply runs_mono; [eapply (IH l1); [exact Hl1| |done|lia|done|done|exact H3]|].
    + apply add_block_ok; [done|done|lia|lia].
    + intros [] s2 w (-> & l2 & ? & ? & ? & ? & ?). split; [done|]. exists l2. split_and!; (done || congruence).
Qed.

(** ** [begin_op] and [end_op] *)

Lemma begin_op_run l blk dsk rf fr s : lg_lock l = false → committing l = 0 → 0 ≤ outstanding l → 0 ≤ lh_n l →
  lh_n l + (outstanding l + 1) * MAXOPBLOCKS ≤ LOGSIZE → qst dev l blk dsk rf fr s →
  runs begin_op s (λ _ s' w, w = [] ∧ qst dev (set_outstanding (outstanding l + 1) l) blk dsk rf fr s').
Proof.
  intros Hk Hc Ho Hn Hsp Hs. pose proof (proj1 Hs) as Hlg. unfold LOGSIZE, MAXOPBLOCKS in *.
  unfold begin_op. apply runs_acquire; [by rewrite Hlg|]. apply runs_gets. cbn [upd_lg lg]. rewrite Hlg. simpl. rewrite Hc. simpl.
  assert (i32 (outstanding l + 1) = outstanding l + 1) as -> by (apply i32_small; wrap_unfold; lia).
  unfold LOGSIZE, MAXOPBLOCKS. rewrite (i32_small ((outstanding l + 1) * 10)) by (wrap_unfold; lia). rewrite i32_small by (wrap_unfold; lia).
  destruct (Z.ltb_spec (10 * 3) (lh_n l + (outstanding l + 1) * 10)); [lia|].
  apply runs_modify, runs_tt, runs_release; [done|]. apply runs_ret. split; [done|]. destruct Hs as [_ HR]. split; [|exact HR].
  simpl. rewrite Hlg. clear -Hk. destruct l; simpl in *. by rewrite Hk.
Qed.

Lemma runs_emit {A} c (k : unit → L A) s Q : runs (k tt) s Q → runs (bind (emit (Wakeup c)) k) s Q.
Proof. intros (a & s' & t & H & HQ). exists a, s', (Wakeup c :: t). unfold bind, emit. rewrite H. done. Qed.

(** The last [end_op] commits. *)
Lemma end_op_run l hs blk dsk s : lgi l hs → hsok hs → outstanding l = 1 → committing l = 0 → (length hs < NBUF)%nat →
  qst dev l blk dsk (pins hs) (NBUF - length hs) s →
  runs (end_op pid) s (λ _ s' w, w = (match hs with [] => [] | _ => commit_writes st hs (lh_block l) blk dsk end) ∧
    ∃ l' blk', lgi l' [] ∧ outstanding l' = 0 ∧ committing l' = 0 ∧ qst dev l' blk' (app_writes w dsk) (λ _, 0) NBUF s').
Proof.
  intros Hl Hh Ho Hc Hn Hs. pose proof (proj1 Hs) as Hlg. pose proof (li_lock _ _ _ _ _ Hl) as Hk.
  unfold end_op. apply runs_acquire; [by rewrite Hlg|]. apply runs_modify, runs_gets. cbn [upd_lg lg]. rewrite Hlg. simpl. rewrite Hc, Ho.
  change (i32 (1 - 1)) with 0. cbn [Z.eqb negb]. apply runs_modify, runs_release; [done|].
  set (l1 := set_committing 1 (set_outstanding 0 l)).
  assert (lgi l1 hs) as Hl1 by (destruct Hl; by split).
  match goal with |- runs _ ?s1 _ => assert (qst dev l1 blk dsk (pins hs) (NBUF - length hs) s1) as Hs1 end.
  { destruct Hs as [_ HR]. split; [|exact HR]. simpl. rewrite Hlg. unfold l1. rewrite Ho. change (i32 (1 - 1)) with 0. clear -Hk. destruct l; simpl in *. by rewrite Hk. }
  assert (∀ l2 blk' d' s', lgi l2 [] → outstanding l2 = 0 → qst dev l2 blk' d' (λ _, 0) NBUF s' →
    runs (acquire ;; modify (upd_lg (set_committing 0)) ;; emit (Wakeup A_log) ;; release) s' (λ _ s'' w, w = [] ∧
      ∃ l', lgi l' [] ∧ outstanding l' = 0 ∧ committing l' = 0 ∧ qst dev l' blk' d' (λ _, 0) NBUF s'')) as Hend.
  { intros l2 blk' d' s' Hl2 Ho2 H2. pose proof (proj1 H2) as Hlg2. pose proof (li_lock _ _ _ _ _ Hl2) as Hk2.
    apply runs_acquire; [by rewrite Hlg2|]. apply runs_modify, runs_emit, runs_tt, runs_release; [done|]. apply runs_ret. split; [done|].
    exists (set_committing 0 l2). split_and!; [destruct Hl2; by split|done|done|]. destruct H2 as [_ HR2]. split; [|exact HR2].
    simpl. rewrite Hlg2. clear -Hk2. destruct l2; simpl in *. by rewrite Hk2. }
  apply runs_bind. destruct hs as [|h hs].
  - unfold commit. apply runs_gets. rewrite (proj1 Hs1), (li_n _ _ _ _ _ Hl1). cbn [length Z.of_nat Z.ltb Z.compare]. apply runs_ret.
    eapply runs_mono; [eapply (Hend l1); [done|done|]|].
    + eapply qst_ext; [exact Hs1|done|done|done|done].
    + intros [] s2 w (-> & l' & ? & ? & ? & ?). split; [done|]. exists l', blk. done.
  - eapply runs_mono; [eapply (commit_run dev st sz Hdev Hgeo pid l1 (h :: hs)); [done|done|done| |exact Hs1]; lia|].
    intros [] s2 w (-> & blk2 & H2). replace (NBUF - length (h :: hs) + length (h :: hs))%nat with NBUF in H2 by lia.
    eapply runs_mono; [eapply (Hend (set_lh_n 0 l1)); [by eapply lgi_clear|done|exact H2]|].
    intros [] s3 w (-> & l' & ? & ? & ? & ?). rewrite app_nil_r. split; [done|]. exists l', blk2. done.
Qed.

(** ** Sizes *)

Definition sized (f : Z → list Z) : Prop := ∀ c, length (f c) = Z.to_nat BSIZE.
Lemma sized_app_writes ws f : sized f → Forall (λ w, length w.2 = Z.to_nat BSIZE) ws → sized (app_writes ws f).
Proof.
  revert f. induction ws as [|[b v] ws IH]; intros f Hf Hws; [done|]. apply Forall_cons in Hws as [Hv Hws]. simpl.
  apply IH; [|done]. intros c. unfold fupd. by case_decide.
Qed.
Lemma sized_take k ws : Forall (λ w : Z * list Z, length w.2 = Z.to_nat BSIZE) ws → Forall (λ w : Z * list Z, length w.2 = Z.to_nat BSIZE) (take k ws).
Proof. apply Forall_take. Qed.
Lemma sized_recovery d : sized d → Forall (λ w, length w.2 = Z.to_nat BSIZE) (recovery_writes st d).
Proof.
  intros Hd. unfold recovery_writes. apply Forall_app. split.
  - apply Forall_lookup. intros t w Hw. unfold install_writes in Hw. rewrite list_lookup_imap in Hw.
    destruct (hdr_blocks (d st) !! t); simplify_eq/=. apply Hd.
  - constructor; [|done]. simpl. unfold put32. rewrite length_put. apply Hd.
Qed.
Lemma sized_commit hs blocks f d : sized f → sized d → Forall (λ w, length w.2 = Z.to_nat BSIZE) (commit_writes st hs blocks f d).
Proof.
  intros Hf Hd. assert (Forall (λ w, length w.2 = Z.to_nat BSIZE) (log_writes st hs f)) as Hlw.
  { apply Forall_lookup. intros t w Hw. unfold log_writes in Hw. rewrite list_lookup_imap in Hw.
    destruct (hs !! t); simplify_eq/=. apply Hf. }
  assert (length (hdr_of (Z.of_nat (length hs)) blocks (d st)) = Z.to_nat BSIZE) as Hhd by (rewrite length_hdr_of; apply Hd).
  unfold commit_writes. apply Forall_app. split; [done|]. constructor; [done|]. apply sized_recovery.
  unfold hdr_disk. intros c. unfold fupd. case_decide; [done|]. by apply sized_app_writes.
Qed.

(** ** Crashes *)

(** The machine is powered on with disk [d], starts to recover, and loses power
    after some of recovery's writes. *)
Definition crash_reboot (d d' : gmap Z (list Z)) : Prop :=
  ∃ s t k, boot_log dev st sz pid (powered_on d) = Done tt s t ∧ d' = apply_writes (take k (dwrites t)) d.

(** Recovery from [d] leads to the contents [X]. *)
Definition recoverable (X : Z → list Z) (d : gmap Z (list Z)) : Prop :=
  wf_log st sz (disk_block d) ∧ sized (disk_block d) ∧ ∀ c, home c → logical st (disk_block d) c = X c.

Lemma logical_ext d d' c : (∀ b, d b = d' b) → logical st d c = logical st d' c.
Proof.
  intros He. unfold logical. rewrite <- He. etrans; [by apply app_writes_ext, He|]. f_equal.
  apply list_eq. intros t. unfold install_writes. rewrite !list_lookup_imap. destruct (hdr_blocks (d st) !! t); [|done]. simpl. by rewrite He.
Qed.

Lemma recoverable_writes X g ws d' : (∀ c, disk_block d' c = app_writes ws g c) → sized g →
  Forall (λ w, length w.2 = Z.to_nat BSIZE) ws → wf_log st sz (app_writes ws g) →
  (∀ c, home c → logical st (app_writes ws g) c = X c) → recoverable X d'.
Proof.
  intros He Hsz Hws Hwf Hlg. split_and!.
  - unfold wf_log. by rewrite He.
  - intros c. rewrite He. by apply sized_app_writes.
  - intros c Hc. rewrite <- Hlg by done. by apply logical_ext.
Qed.

Lemma recoverable_crash X d d' : recoverable X d → crash_reboot d d' → recoverable X d'.
Proof.
  intros (Hwf & Hsz & HX) (s & t & k & Hrun & ->).
  destruct (boot_run dev st sz Hdev Hgeo pid d Hwf Hsz) as (a & s1 & t1 & Hrun1 & Hw & _).
  assert (dwrites t = recovery_writes st (disk_block d)) as Ht by congruence. rewrite Ht.
  destruct (logical_prefix st sz Hgeo (disk_block d) k Hwf (Hsz st)) as [Hwf' Hlg].
  eapply recoverable_writes; [intros c; apply disk_apply_writes|done| |done|].
  - apply Forall_take. by apply sized_recovery.
  - intros c Hc. rewrite Hlg by done. by apply HX.
Qed.

Lemma recoverable_boot X d : recoverable X d →
  ∃ s t, boot_log dev st sz pid (powered_on d) = Done tt s t ∧ ∃ d', quiet dev st sz d' s ∧ ∀ c, home c → d' c = X c.
Proof.
  intros (Hwf & Hsz & HX). destruct (boot_run dev st sz Hdev Hgeo pid d Hwf Hsz) as ([] & s & t & Hrun & Hw & Hq).
  exists s, t. split; [done|]. eexists. split; [exact Hq|]. intros c Hc. rewrite Hw in *.
  destruct (logical_prefix st sz Hgeo (disk_block d) (length (recovery_writes st (disk_block d))) Hwf (Hsz st)) as [_ Hlg].
  rewrite firstn_all in Hlg. rewrite <- HX, <- Hlg by done. unfold logical. destruct Hq as (l & blk & _ & _ & _ & _ & H0).
  by rewrite (hdr_blocks_nil _ H0).
Qed.

(** ** Transactions *)

Lemma logged_ok us hs : hsok hs → Forall update_ok us → Z.of_nat (length (logged us hs)) < LOGSIZE → Z.of_nat (length (logged us hs)) < sz - 1 → hsok (logged us hs).
Proof.
  revert hs. induction us as [|[b v] us IH]; intros hs Hh Hu H1 H2; [done|]. apply Forall_cons in Hu as [[Hb _] Hu].
  pose proof (length_logged us (add_block b hs)) as Hl. rewrite length_add_block in Hl. simpl in *.
  apply IH; [|done|done|done]. apply add_block_ok; [done|done|lia|lia].
Qed.

(** The disk writes of a transaction that logged [hs]. *)
Definition txn_writes (hs blocks : list Z) (f d : Z → list Z) : list (Z * list Z) :=
  match hs with [] => [] | _ => commit_writes st hs blocks f d end.

Lemma transaction_run us d s : quiet dev st sz d s → Forall update_ok us →
  Z.of_nat (length (logged us [])) < LOGSIZE → Z.of_nat (length (logged us [])) < sz - 1 →
  ∃ blocks f, take (length (logged us [])) blocks = logged us [] ∧ (length (logged us []) ≤ length blocks)%nat ∧ sized f ∧ sized d ∧
    (∀ c, f c = app_writes us d c) ∧
    runs (transaction pid dev us) s (λ _ s' w, w = txn_writes (logged us []) blocks f d ∧
      ∃ l' blk', lgi l' [] ∧ outstanding l' = 0 ∧ committing l' = 0 ∧ qst dev l' blk' (app_writes w d) (λ _, 0) NBUF s').
Proof.
  intros (l & blk & Hl & Ho & Hc & Hs & H0) Hu H1 H2.
  assert (∀ c, blk c = d c) as Hcl by (intros c; by eapply qst_clean).
  destruct (begin_op_run l blk d (λ _, 0) NBUF s) as ([] & s1 & t1 & Hr1 & Hw1 & Hs1); try done.
  { apply Hl. } { by rewrite Ho. } { by rewrite (li_n _ _ _ _ _ Hl). } { by rewrite (li_n _ _ _ _ _ Hl), Ho. }
  set (l1 := set_outstanding (outstanding l + 1) l) in *. assert (lgi l1 []) as Hl1 by (destruct Hl; by split).
  destruct (log_updates_run us l1 [] blk d s1) as ([] & s2 & t2 & Hr2 & Hw2 & l2 & Hl2 & Hh2 & Ho2 & Hc2 & Hs2); try done.
  { apply hsok_nil. lia. } { unfold l1; simpl. lia. }
  assert (outstanding l2 = 1) as Ho2' by (rewrite Ho2; unfold l1; simpl; lia).
  exists (lh_block l2), (app_writes us blk).
  assert (Z.to_nat LOGSIZE = NBUF) as HLB by reflexivity. split_and!.
  - apply Hl2.
  - rewrite (li_len _ _ _ _ _ Hl2). lia.
  - intros c. apply (brel_size _ _ _ c (proj2 Hs2)).
  - intros c. by eapply qst_dsize.
  - intros c. by apply app_writes_ext.
  - unfold transaction. apply runs_bind. exists tt, s1, t1. split; [done|]. rewrite Hw1. apply runs_bind. exists tt, s2, t2. split; [done|]. rewrite Hw2.
    eapply runs_mono; [eapply (end_op_run l2 (logged us [])); [done|done|done| | |exact Hs2]|].
    + by rewrite Hc2.
    + lia.
    + intros [] s3 w (Hw & Hrest). split; [done|]. exact Hrest.
Qed.

Lemma txn_prefix hs blocks f d k : hsok hs → take (length hs) blocks = hs → (length hs ≤ length blocks)%nat → sized d → hdr_n (d st) = 0 →
  let d' := app_writes (take k (txn_writes hs blocks f d)) d in
  wf_log st sz d' ∧ ((∀ c, home c → logical st d' c = d c) ∨ (∀ c, home c → logical st d' c = committed hs f d c)).
Proof.
  intros Hh Ht Hb Hsz H0. unfold txn_writes. destruct hs as [|h hs]; [|by apply (commit_prefix dev st sz Hdev Hgeo)].
  rewrite take_nil. simpl. unfold wf_log, logical. rewrite (hdr_blocks_nil _ H0), H0. split; [split; [done|apply hsok_nil; lia]|]. by left.
Qed.

Lemma txn_final hs blocks f d : hsok hs → take (length hs) blocks = hs → (length hs ≤ length blocks)%nat → sized d → hdr_n (d st) = 0 →
  let d' := app_writes (txn_writes hs blocks f d) d in
  hdr_n (d' st) = 0 ∧ ∀ c, home c → d' c = committed hs f d c.
Proof.
  intros Hh Ht Hb Hsz H0. unfold txn_writes. destruct hs as [|h hs]; [done|].
  destruct (hdr_disk_blocks dev st sz Hdev Hgeo _ _ f d Hh Ht Hb (Hsz st)) as [Hwf Hlg]. set (d1 := hdr_disk _ _ _ _ _) in *.
  assert (app_writes (commit_writes st (h :: hs) blocks f d) d = app_writes (recovery_writes st d1) d1) as He.
  { unfold commit_writes. rewrite app_writes_app. done. }
  assert (length (d1 st) = Z.to_nat BSIZE) as Hs1 by (unfold d1, hdr_disk; rewrite fupd_eq, length_hdr_of; apply Hsz).
  destruct (logical_prefix st sz Hgeo d1 (length (recovery_writes st d1)) Hwf Hs1) as [_ Hlg']. rewrite firstn_all in Hlg'.
  rewrite He. assert (hdr_n (app_writes (recovery_writes st d1) d1 st) = 0) as Hn.
  { unfold recovery_writes. rewrite app_writes_snoc, fupd_eq. apply clear_hdr. rewrite Hs1. unfold BSIZE. lia. }
  split; [done|]. intros c Hc. rewrite <- Hlg, <- Hlg' by done. unfold logical. by rewrite (hdr_blocks_nil _ Hn).
Qed.

End txn.

Lemma committed_logged us f d c : (∀ c, f c = app_writes us d c) → committed (logged us []) f d c = app_writes us d c.
Proof.
  intros Hf. unfold committed. case_decide as Hc; [done|]. rewrite elem_of_logged in Hc. symmetry. apply app_writes_notin. intros ?; apply Hc; by right.
Qed.

(** C3. File-system transactions are atomic and durable. From a quiet state
    with disk contents [d], a transaction of block updates that touches at most
    [MAXOPBLOCKS] blocks runs to the end and leaves a quiet state in which
    exactly its updates are on disk. If power is lost after any prefix of its
    disk writes, and again any number of times during recovery, booting still
    succeeds and finds either all of the updates or none of them. *)
Theorem transaction_atomic pid pid' dev st sz us d s :
  dev ≠ 0 → 0 ≤ st ∧ 1 < sz ∧ st + sz < 2 ^ 31 → MAXOPBLOCKS < sz - 1 →
  quiet dev st sz d s → Forall (update_ok st sz) us → (base.size (list_to_set us.*1 : gset Z) ≤ Z.to_nat MAXOPBLOCKS)%nat →
  ∃ s' t, transaction pid dev us s = Done tt s' t ∧
    (∃ d', quiet dev st sz d' s' ∧ ∀ c, home st sz c → d' c = app_writes us d c) ∧
    ∀ k d1, rtc (crash_reboot pid' dev st sz) (apply_writes (take k (dwrites t)) (disk (bc s))) d1 →
      ∃ s2 t2 d2, boot_log dev st sz pid' (powered_on d1) = Done tt s2 t2 ∧ quiet dev st sz d2 s2 ∧
        ((∀ c, home st sz c → d2 c = d c) ∨ (∀ c, home st sz c → d2 c = app_writes us d c)).
Proof.
  intros Hdev Hgeo Hsz Hq Hu Hn. rewrite <- length_logged_size in Hn. unfold MAXOPBLOCKS in *.
  assert (Z.of_nat (length (logged us [])) < LOGSIZE) as H1 by (unfold LOGSIZE, MAXOPBLOCKS; lia).
  assert (Z.of_nat (length (logged us [])) < sz - 1) as H2 by lia.
  destruct (transaction_run pid dev st sz Hdev Hgeo us d s Hq Hu H1 H2) as (blocks & f & Ht & Hb & Hf & Hd & Hfe & [] & s' & t & Hrun & Hw & l' & blk' & Hl' & Ho' & Hc' & Hs').
  pose proof (logged_ok st sz us [] (hsok_nil st sz Hgeo) Hu H1 H2) as Hh. pose proof Hq as (_ & _ & _ & _ & _ & _ & H0).
  exists s', t. split; [done|]. split.
  - destruct (txn_final dev st sz Hdev Hgeo (logged us []) blocks f d Hh Ht Hb Hd H0) as [Hn' Hc]. exists (app_writes (dwrites t) d). rewrite Hw in *. split.
    + exists l', blk'. done.
    + intros c Hhc. rewrite Hc by done. by apply committed_logged.
  - intros k d1 Hcr. rewrite Hw in Hcr.
    destruct (txn_prefix dev st sz Hdev Hgeo (logged us []) blocks f d k Hh Ht Hb Hd H0) as [Hwf Hor].
    set (ws := take k (txn_writes st (logged us []) blocks f d)) in *.
    assert (∀ X, (∀ c, home st sz c → logical st (app_writes ws d) c = X c) → recoverable st sz X d1) as Hrec.
    { intros X HX. eapply rtc_invariant; [intros a b; apply (recoverable_crash pid' dev st sz Hdev Hgeo)| |exact Hcr].
      eapply recoverable_writes; [|exact Hd| |exact Hwf|exact HX].
      - intros c. rewrite disk_apply_writes. apply app_writes_ext. intros b. by apply (quiet_disk dev st sz d).
      - apply Forall_take. unfold txn_writes. destruct (logged us []); [done|]. by apply (sized_commit dev st Hdev). }
    assert (∀ X, recoverable st sz X d1 → ∃ s2 t2 d2, boot_log dev st sz pid' (powered_on d1) = Done tt s2 t2 ∧ quiet dev st sz d2 s2 ∧
      ∀ c, home st sz c → d2 c = X c) as Hboot.
    { intros X HX. destruct (recoverable_boot pid' dev st sz Hdev Hgeo X d1 HX) as (s2 & t2 & Hr2 & d2 & Hq2 & Hd2). eauto 10. }
    destruct Hor as [Hor|Hor]; destruct (Hboot _ (Hrec _ Hor)) as (s2 & t2 & d2 & Hr2 & Hq2 & Hd2);
      exists s2, t2, d2; (split; [exact Hr2|split; [exact Hq2|]]).
    + by left.
    + right. intros c Hhc. rewrite Hd2 by exact Hhc. by apply committed_logged.
Qed.

Lemma blank_quiet dev st sz (pid : Z) : dev ≠ 0 → 0 ≤ st ∧ 1 < sz ∧ st + sz < 2 ^ 31 → ∃ d s, quiet dev st sz d s.
Proof.
  intros Hdev Hgeo. destruct (boot_run dev st sz Hdev Hgeo pid ∅) as (_ & s & t & _ & _ & Hq); [|apply blank_disk_size|eauto].
  split; [done|]. by apply hsok_nil.
Qed.

Lemma transaction_atomic_witness : ∃ d s, quiet ROOTDEV 2 LOGSIZE d s ∧
  ∃ s' t, transaction 1 ROOTDEV [(50, sevens)] s = Done tt s' t ∧
    (∃ d', quiet ROOTDEV 2 LOGSIZE d' s' ∧ ∀ c, home 2 LOGSIZE c → d' c = app_writes [(50, sevens)] d c) ∧
    ∀ k d1, rtc (crash_reboot 1 ROOTDEV 2 LOGSIZE) (apply_writes (take k (dwrites t)) (disk (bc s))) d1 →
      ∃ s2 t2 d2, boot_log ROOTDEV 2 LOGSIZE 1 (powered_on d1) = Done tt s2 t2 ∧ quiet ROOTDEV 2 LOGSIZE d2 s2 ∧
        ((∀ c, home 2 LOGSIZE c → d2 c = d c) ∨ (∀ c, home 2 LOGSIZE c → d2 c = app_writes [(50, sevens)] d c)).
Proof.
  destruct (blank_quiet ROOTDEV 2 LOGSIZE 1) as (d & s & Hq); [unfold ROOTDEV; lia|unfold LOGSIZE, MAXOPBLOCKS; lia|].
  exists d, s. split; [exact Hq|]. apply transaction_atomic.
  - unfold ROOTDEV. lia.
  - unfold LOGSIZE, MAXOPBLOCKS. lia.
  - unfold LOGSIZE, MAXOPBLOCKS. lia.
  - exact Hq.
  - constructor; [|constructor]. split; [split; [simpl; lia|simpl; unfold LOGSIZE, MAXOPBLOCKS; lia]|apply sevens_size].
  - vm_compute. lia.
Defined.

(** ** The reservation in [begin_op] is one block too large *)

Lemma bind_panicked {E S A C} (m : M E S A) (k : A → M E S C) msg s s' t : m s = Panic msg s' t → bind m k s = Panic msg s' t.
Proof. intros H. unfold bind. by rewrite H. Qed.

Section full.
Context (pid dev st sz : Z) (Hdev : dev ≠ 0).
Hypothesis (Hgeo : 0 ≤ st ∧ 1 < sz ∧ st + sz < 2 ^ 31).

(** A full log makes the next update panic. *)
Lemma log_update_full l hs blk dsk b v s : lgi dev st sz l hs → home st sz b → length v = Z.to_nat BSIZE →
  Z.of_nat (length hs) = sz - 1 → (length hs < NBUF)%nat → qst dev l blk dsk (pins hs) (NBUF - length hs) s →
  ∃ s' t, log_update pid dev (b, v) s = Panic "too big a transaction" s' t.
Proof.
  intros Hl Hb Hv Hn Hf Hs. pose proof (proj1 Hs) as Hlg.
  destruct (h_read dev Hdev (bc s) _ (proj2 Hs) pid b) as (i & c & Hrun & _); [done|simpl; unfold pins; case_decide; lia|left; simpl; lia|].
  unfold log_update. cbn [fst snd].
  rewrite (bind_done _ _ i s (set_bc c s)) by (unfold bio; by apply lift_done).
  rewrite (bind_done (bio (modify (upd_buf i (set_data v)))) _ tt (set_bc c s) (set_bc (upd_buf i (set_data v) c) s)) by done.
  unfold log_write. unfold bind at 1. unfold bind at 1. unfold acquire. cbn [held logsys_locked set_bc lg]. rewrite Hlg, (li_lock _ _ _ _ _ Hl).
  rewrite pre_nil, bind_gets. cbn [set_held logsys_locked upd_lg lg set_bc]. rewrite Hlg.
  change (lh_n (set_lg_lock true l)) with (lh_n l). change (size (set_lg_lock true l)) with (size l).
  rewrite (li_n _ _ _ _ _ Hl), (li_size _ _ _ _ _ Hl), Hn. rewrite (proj2 (Z.leb_le (sz - 1) (sz - 1))) by lia. rewrite orb_true_r.
  eexists _, _. reflexivity.
Qed.

Lemma log_updates_full us l hs blk dsk s : lgi dev st sz l hs → hsok st sz hs → Forall (update_ok st sz) us → 1 ≤ outstanding l →
  sz ≤ LOGSIZE → Z.of_nat (length hs + length us) = sz → NoDup (hs ++ us.*1) → qst dev l blk dsk (pins hs) (NBUF - length hs) s →
  ∃ s' t, log_updates pid dev us s = Panic "too big a transaction" s' t.
Proof.
  intros Hl Hh Hu Ho Hmax Hlen Hnd Hs. assert (Z.to_nat LOGSIZE = NBUF) as HLB by reflexivity.
  revert l hs blk s Hl Hh Ho Hlen Hnd Hs. induction us as [|[b v] us IH]; intros l hs blk s Hl Hh Ho Hlen Hnd Hs.
  - pose proof (hs_size _ _ _ Hh). simpl in Hlen. lia.
  - apply Forall_cons in Hu as [[Hb Hv] Hu]. cbn [log_updates length] in *. destruct (decide (Z.of_nat (length hs) = sz - 1)) as [Hf|Hf].
    + destruct (log_update_full l hs blk dsk b v s Hl Hb Hv Hf) as (s' & t & He); [lia|exact Hs|].
      exists s', t. by apply bind_panicked.
    + destruct (log_update_run pid dev st sz Hdev l hs blk dsk b v s Hl Hh Hb Hv Ho) as ([] & s1 & t1 & E1 & Hw & l1 & Hl1 & Ho1 & Hc1 & H1); [lia|lia|exact Hs|].
      assert (add_block b hs = hs ++ [b]) as Ha.
      { unfold add_block. rewrite decide_False; [done|]. intros Hin. apply NoDup_app in Hnd as (_ & H & _). apply (H b Hin). left. }
      destruct (IH Hu l1 (add_block b hs) (fupd blk b v) s1) as (s' & t & He); [done| |lia| | |done|].
      * apply add_block_ok; [done|done|lia|lia].
      * rewrite Ha, length_app. simpl. lia.
      * by rewrite Ha, <- app_assoc.
      * rewrite (bind_run _ _ _ _ _ _ E1), He. by eexists _, _.
Qed.
End full.

(** C32. [begin_op] admits operations while [log.lh.n + (outstanding+1)*MAXOPBLOCKS]
    is at most [LOGSIZE], but [log_write] panics when [log.lh.n] is
    [log.size - 1]. With the log of [LOGSIZE] blocks that mkfs makes, three
    system calls are admitted together, each logs [MAXOPBLOCKS] blocks as it
    may, and the kernel panics. *)
Theorem log_reservation_overflow p1 p2 p3 dev st us1 us2 us3 d s :
  dev ≠ 0 → 0 ≤ st ∧ st + LOGSIZE < 2 ^ 31 → quiet dev st LOGSIZE d s →
  Forall (update_ok st LOGSIZE) (us1 ++ us2 ++ us3) → NoDup (us1 ++ us2 ++ us3).*1 →
  length us1 = Z.to_nat MAXOPBLOCKS → length us2 = Z.to_nat MAXOPBLOCKS → length us3 = Z.to_nat MAXOPBLOCKS →
  ∃ s' t, (begin_op ;; begin_op ;; begin_op ;;
    log_updates p1 dev us1 ;; log_updates p2 dev us2 ;; log_updates p3 dev us3) s = Panic "too big a transaction" s' t.
Proof.
  intros Hdev Hgeo0 (l & blk & Hl & Ho & Hc & Hs & _) Hu Hnd L1 L2 L3. unfold MAXOPBLOCKS in L1, L2, L3. simpl in L1, L2, L3.
  assert (0 ≤ st ∧ 1 < LOGSIZE ∧ st + LOGSIZE < 2 ^ 31) as Hgeo by (unfold LOGSIZE, MAXOPBLOCKS in *; lia).
  assert (∀ o, lgi dev st LOGSIZE (set_outstanding o l) []) as Hlo by (intros o; destruct Hl; by split).
  pose proof (li_n _ _ _ _ _ Hl) as Hn. simpl in Hn.
  destruct (begin_op_run dev l blk d (λ _, 0) NBUF s) as ([] & s1 & t1 & E1 & _ & H1); try (done || apply Hl || lia); [rewrite Hn, Ho; done|].
  destruct (begin_op_run dev (set_outstanding (outstanding l + 1) l) blk d (λ _, 0) NBUF s1) as ([] & s2 & t2 & E2 & _ & H2);
    try (done || apply Hl || (simpl; lia)); [simpl; rewrite Hn, Ho; done|].
  destruct (begin_op_run dev (set_outstanding (outstanding l + 1 + 1) l) blk d (λ _, 0) NBUF s2) as ([] & s3 & t3 & E3 & _ & H3);
    try (done || apply Hl || (simpl; lia)); [simpl; rewrite Hn, Ho; done|].
  set (l3 := set_outstanding _ _) in H3. assert (lgi dev st LOGSIZE l3 []) as Hl3 by apply Hlo. clear H1 H2.
  rewrite !Forall_app in Hu. destruct Hu as (U1 & U2 & U3). rewrite !fmap_app in Hnd.
  assert (logged us1 [] = us1.*1) as G1 by (apply (logged_fresh us1 []); by apply NoDup_app in Hnd as (? & _)).
  assert (logged us2 us1.*1 = us1.*1 ++ us2.*1) as G2 by (apply logged_fresh; rewrite app_assoc in Hnd; by apply NoDup_app in Hnd as (? & _)).
  destruct (log_updates_run p1 dev st LOGSIZE Hdev us1 l3 [] blk d s3) as ([] & s4 & t4 & E4 & _ & l4 & Hl4 & Hh4 & Ho4 & _ & H4);
    [done|by apply hsok_nil|done|simpl; lia|rewrite G1, length_fmap, L1; done..|exact H3|]. rewrite G1 in *.
  destruct (log_updates_run p2 dev st LOGSIZE Hdev us2 l4 us1.*1 (app_writes us1 blk) d s4) as ([] & s5 & t5 & E5 & _ & l5 & Hl5 & Hh5 & Ho5 & _ & H5);
    [done|done|done|rewrite Ho4; simpl; lia|rewrite G2, length_app, !length_fmap, L1, L2; done..|exact H4|]. rewrite G2 in *.
  destruct (log_updates_full p3 dev st LOGSIZE Hdev Hgeo us3 l5 (us1.*1 ++ us2.*1) (app_writes us2 (app_writes us1 blk)) d s5) as (s6 & t6 & E6);
    [done|done|done|rewrite Ho5, Ho4; simpl; lia|done|rewrite length_app, !length_fmap, L1, L2, L3; done|by rewrite <- app_assoc|exact H5|].
  rewrite (bind_run _ _ _ _ _ _ E1), (bind_run _ _ _ _ _ _ E2), (bind_run _ _ _ _ _ _ E3), (bind_run _ _ _ _ _ _ E4), (bind_run _ _ _ _ _ _ E5), E6.
  by eexists _, _.
Qed.

Lemma log_reservation_overflow_witness : ∃ s us1 us2 us3 s' t, (begin_op ;; begin_op ;; begin_op ;;
    log_updates 1 ROOTDEV us1 ;; log_updates 2 ROOTDEV us2 ;; log_updates 3 ROOTDEV us3) s = Panic "too big a transaction" s' t.
Proof.
  destruct (blank_quiet ROOTDEV 2 LOGSIZE 1) as (d & s & Hq); [unfold ROOTDEV; lia|unfold LOGSIZE, MAXOPBLOCKS; lia|].
  set (us a := (λ i, (a + Z.of_nat i, sevens)) <$> seq 0 10).
  exists s, (us 100), (us 200), (us 300). apply (log_reservation_overflow 1 2 3 ROOTDEV 2 (us 100) (us 200) (us 300) d s).
  - unfold ROOTDEV. lia.
  - unfold LOGSIZE, MAXOPBLOCKS. lia.
  - exact Hq.
  - unfold us, update_ok, home, LOGSIZE, MAXOPBLOCKS. simpl. repeat constructor; simpl; (lia || apply sevens_size).
  - unfold us. simpl. repeat (apply NoDup_cons; split; [rewrite list_elem_of_In; simpl; lia|]). apply NoDup_nil_2.
  - reflexivity.
  - reflexivity.
  - reflexivity.
Defined.
