(* ===== verification/UserMem.v ===== *)
(** The interface between the file, pipe and console code and the memory of the
    calling process, and its implementation by [vm.c]. *)
From Stdlib Require Import ZArith Lia.
From stdpp Require Import base list gmap strings.
From S2P Require Import Prelude Machine Mem Kalloc Vm Pagetable Uvm Copy.

(** What these components use of [vm.c]: [copyout], [copyin] and [copyinstr] on
    the page table of the calling process. A copy into the kernel yields the
    bytes stored and the return value. *)
Class UserMem (U : Type) := {
  u_copyout : Z → list Z → M event U Z;
  u_copyin : Z → Z → M event U (list Z * Z);
  u_copyinstr : Z → Z → M event U (list Z * Z)
}.

#[export] Instance vm_user (pagetable : Z) : UserMem kmem := {|
  u_copyout dst src := copyout pagetable dst src;
  u_copyin src len := copyin pagetable src len;
  u_copyinstr src max := copyinstr pagetable src max
|}.

(** Where data goes to and comes from: a kernel object, whose bytes the model
    passes by value, or a user address. *)
Inductive dest : Type := KDst | UDst (a : Z).
Inductive source : Type := KSrc (bs : list Z) | USrc (a : Z).

Definition dest_add (d : dest) (n : Z) : dest := match d with KDst => KDst | UDst a => UDst (u64 (a + n)) end.
Definition source_add (s : source) (n : Z) : source :=
  match s with KSrc bs => KSrc (drop (Z.to_nat n) bs) | USrc a => USrc (u64 (a + n)) end.

Section either.
Context {U : Type} `{UserMem U}.

(** The return value, and the bytes that reached a kernel destination. *)
Definition either_copyout (d : dest) (src : list Z) : M event U (Z * list Z) :=
  match d with
  | UDst a => let! r := u_copyout a src in ret (r, [])
  | KDst => ret (0, src)
  end.

(** The bytes stored, and the return value. *)
Definition either_copyin (s : source) (len : Z) : M event U (list Z * Z) :=
  match s with
  | USrc a => u_copyin a len
  | KSrc bs => ret (take (Z.to_nat len) bs, 0)
  end.
End either.

(** What the clients rely on when they copy one byte at a time: [u_rd] is the
    readable memory of the process, [u_wr] says which addresses it can write. *)
Class UserBytes (U : Type) `{UserMem U} := {
  u_ok : U → Prop;
  u_rd : U → Z → option Z;
  u_wr : U → Z → bool;
  u_copyin1 u a : u_ok u → is_u64 a → u_copyin a 1 u = Done (match u_rd u a with Some b => ([b], 0) | None => ([], -1) end) u [];
  u_copyout1 u a b : u_ok u → is_u64 a → ∃ u', u_copyout a [b] u = Done (if u_wr u a then 0 else -1) u' [] ∧ u_ok u' ∧
    (∀ x, u_wr u' x = u_wr u x) ∧ (∀ x, u_rd u' x = if u_wr u a && (x =? a) then Some b else u_rd u x)
}.

(** An address space of [vm.c] is such a memory: the readable addresses are
    those of user pages with [PTE_U], the writable ones have [PTE_W] too. *)
#[export, refine] Instance vm_bytes (kend : Z) (Hk : 0 < kend) (nodes : nodemap) (root : Z) (l : list Z) (ds : list upage) :
    @UserBytes kmem (vm_user root) :=
  {| u_ok := aspace kend nodes root l ds;
     u_rd s a := if ureadable ds a then Some (ub (pm s) ds a) else None;
     u_wr _ a := uwritable ds a |}.
Proof.
  - intros s a Ha Hu. change (u_copyin a 1) with (copyin_loop (E:=event) 1 root a (Z.of_nat 1)).
    destruct (copyin_loop_run (E:=event) kend Hk nodes root l ds 1 s a 1 Ha Hu) as (r & k & -> & Hread & [[-> ->]|(-> & Hlt & Hn)]); [lia|..].
    + by rewrite (Hread a) by lia.
    + assert (k = 0%nat) as -> by lia. rewrite Z.add_0_r in Hn. by rewrite Hn.
  - intros s a b Ha Hu. change (u_copyout a [b]) with (copyout_loop (E:=event) 1 root a [b]).
    destruct (copyout_loop_run (E:=event) kend Hk nodes root l ds 1 s a [b] Ha Hu) as (r & s' & k & Hrun & Hc); [done|].
    destruct Hc as [Ha' Hle Hres Hwr Hb _]. simpl in Hle, Hres. rewrite Hrun.
    assert (r = (if uwritable ds a then 0 else -1) ∧ k = (if uwritable ds a then 1 else 0)%nat) as [-> ->].
    { destruct Hres as [[-> ->]|(-> & Hlt & Hn)]; [by rewrite (Hwr a) by lia|].
      assert (k = 0%nat) as -> by lia. rewrite Z.add_0_r in Hn. by rewrite Hn. }
    exists s'. split_and!; [done|done|done|]. intros x.
    destruct (ureadable ds x) eqn:Hx.
    + assert (0 ≤ x) by (unfold ureadable in Hx; destruct (Z.leb_spec 0 x); [done|by rewrite andb_false_l in Hx]).
      rewrite Hb by done. destruct (uwritable ds a); simpl.
      * destruct (Z.eqb_spec x a) as [->|]; [|by rewrite decide_False by lia].
        rewrite decide_True by lia. by rewrite Z.sub_diag.
      * by rewrite decide_False by lia.
    + destruct (uwritable ds a) eqn:Hw; [|done]. destruct (Z.eqb_spec x a) as [->|]; [|done]. exfalso.
      unfold uwritable in Hw. unfold ureadable in Hx.
      destruct (0 <=? a); [|done]. destruct (ds !! _) as [[d f]|]; [|done]. simpl in *. by rewrite Hx in Hw.
Defined.
