(* ===== verification/Ring.v ===== *)
(** Ring buffers indexed by free-running counters, as in [pipe.c], [uart.c] and
    [console.c]: element [i] is at [i mod N], and the counters wrap at a
    multiple of [N]. *)
From Stdlib Require Import ZArith Lia.
From stdpp Require Import base list.
From S2P Require Import Prelude.

Section ring.
Context (N : Z) (N_pos : 0 < N).

(** The [k] elements from counter [r] on. *)
Definition ring_queue (data : list Z) (r : Z) (k : nat) : list Z :=
  (λ j, data !!! Z.to_nat ((r + Z.of_nat j) mod N)) <$> seq 0 k.

Lemma ring_length data r k : length (ring_queue data r k) = k.
Proof. unfold ring_queue. by rewrite length_fmap, length_seq. Qed.

Lemma ring_lookup data r k j : (j < k)%nat → ring_queue data r k !! j = Some (data !!! Z.to_nat ((r + Z.of_nat j) mod N)).
Proof. intros Hj. unfold ring_queue. rewrite list_lookup_fmap, lookup_seq_lt by done. done. Qed.

(** Counters matter modulo [N] only. *)
Lemma ring_mod data r r' k : r mod N = r' mod N → ring_queue data r k = ring_queue data r' k.
Proof.
  intros Hr. unfold ring_queue. apply list_fmap_ext. intros j x _. do 2 f_equal.
  rewrite (Z.add_mod r), (Z.add_mod r'), Hr by lia. done.
Qed.

Lemma ring_pop data r k : ring_queue data r (S k) = data !!! Z.to_nat (r mod N) :: ring_queue data (r + 1) k.
Proof.
  unfold ring_queue. rewrite <- cons_seq, fmap_cons, Z.add_0_r. f_equal.
  rewrite <- fmap_S_seq, <- list_fmap_compose. apply list_fmap_ext. intros j x _. simpl. do 3 f_equal. lia.
Qed.

Lemma ring_snoc data r k : ring_queue data r (S k) = ring_queue data r k ++ [data !!! Z.to_nat ((r + Z.of_nat k) mod N)].
Proof. unfold ring_queue. by rewrite seq_S, fmap_app. Qed.

Lemma ring_app data r k k' : ring_queue data r (k + k') = ring_queue data r k ++ ring_queue data (r + Z.of_nat k) k'.
Proof.
  unfold ring_queue. rewrite seq_app, fmap_app. f_equal. simpl. rewrite <- (Nat.add_0_r k) at 1. rewrite <- fmap_add_seq, <- list_fmap_compose.
  apply list_fmap_ext. intros j x _. simpl. do 3 f_equal. lia.
Qed.

(** Two places of a window of [N] counters are different. *)
Lemma ring_ne r i j : (i < j)%nat → Z.of_nat j < N + Z.of_nat i → Z.to_nat ((r + Z.of_nat i) mod N) ≠ Z.to_nat ((r + Z.of_nat j) mod N).
Proof.
  intros Hij Hj He. apply Z2Nat.inj in He; [|apply Z.mod_pos_bound; lia..].
  pose proof (Z.div_mod (r + Z.of_nat i) N ltac:(lia)). pose proof (Z.div_mod (r + Z.of_nat j) N ltac:(lia)).
  assert (Z.of_nat j - Z.of_nat i = N * ((r + Z.of_nat j) / N - (r + Z.of_nat i) / N)) as Hd by (rewrite Z.mul_sub_distr_l; lia).
  generalize dependent ((r + Z.of_nat j) / N - (r + Z.of_nat i) / N). intros q Hd. clear -Hd Hij Hj N_pos. destruct (Z_le_gt_dec q 0); nia.
Qed.

(** Writing behind the window leaves it. *)
Lemma ring_put_out data r k b : Z.of_nat k < N →
  ring_queue (<[Z.to_nat ((r + Z.of_nat k) mod N) := b]> data) r k = ring_queue data r k.
Proof.
  intros Hk. unfold ring_queue. apply list_fmap_ext. intros j x Hx. apply lookup_seq in Hx as [-> Hj]. simpl.
  rewrite list_lookup_total_insert_ne; [done|]. intros He. symmetry in He. revert He. apply ring_ne; lia.
Qed.
Lemma ring_push data r k b : Z.of_nat (length data) = N → Z.of_nat k < N →
  ring_queue (<[Z.to_nat ((r + Z.of_nat k) mod N) := b]> data) r (S k) = ring_queue data r k ++ [b].
Proof.
  intros Hd Hk. rewrite ring_snoc, ring_put_out by done. do 2 f_equal. apply list_lookup_total_insert_eq.
  pose proof (Z.mod_pos_bound (r + Z.of_nat k) N ltac:(lia)). lia.
Qed.
End ring.
