(* ===== verification/Fs.v ===== *)
(** The file system ([fs.c], [fs.h]): block allocation, inodes, file contents,
    directories and path names, above the log and the buffer cache. *)
From Stdlib Require Import ZArith Lia.
From stdpp Require Import base list gmap strings.
From S2P Require Import Prelude Machine Sleeplock Bio Mem Blk Log UserMem.

(** ** On-disk format *)

Definition ROOTINO : Z := 1.
Definition FSMAGIC : Z := 270544960.
Definition NDIRECT : Z := 12.
Definition NINDIRECT : Z := BSIZE / 4.
Definition MAXFILE : Z := NDIRECT + NINDIRECT.
Definition DINODE_SIZE : Z := 64.
Definition IPB : Z := BSIZE / DINODE_SIZE.
Definition BPB : Z := BSIZE * 8.
Definition DIRSIZ : nat := 14.
Definition DIRENT_SIZE : Z := 16.

Definition T_DIR : Z := 1.
Definition T_FILE : Z := 2.
Definition T_DEVICE : Z := 3.

Record superblock := mksuperblock {
  sb_magic : Z;
  sb_size : Z;
  sb_nblocks : Z;
  sb_ninodes : Z;
  sb_nlog : Z;
  sb_logstart : Z;
  sb_inodestart : Z;
  sb_bmapstart : Z
}.

Definition IBLOCK (i : Z) (sb : superblock) : Z := u32 (i / IPB + sb_inodestart sb).
Definition BBLOCK (b : Z) (sb : superblock) : Z := u32 (b / BPB + sb_bmapstart sb).

(** [short] values. *)
Definition i16 (x : Z) : Z := (x + 32768) mod 65536 - 32768.

(** [struct dinode] at offset [off] of a block: four shorts, [size], [addrs]. *)
Record dinode := mkdinode {
  d_type : Z;
  d_major : Z;
  d_minor : Z;
  d_nlink : Z;
  d_size : Z;
  d_addrs : list Z
}.
Definition get_dinode (off : nat) (l : list Z) : dinode :=
  mkdinode (i16 (get16 off l)) (i16 (get16 (off + 2) l)) (i16 (get16 (off + 4) l)) (i16 (get16 (off + 6) l))
    (get32 (off + 8) l) (get_array32 (off + 12) 13 l).
Definition put_dinode (off : nat) (d : dinode) (l : list Z) : list Z :=
  put_array32 (off + 12) (d_addrs d) (put32 (off + 8) (d_size d) (put16 (off + 6) (d_nlink d)
    (put16 (off + 4) (d_minor d) (put16 (off + 2) (d_major d) (put16 off (d_type d) l))))).

(** ** State *)

(** [struct inode]. *)
Record inode := mkinode {
  i_dev : Z;
  i_inum : Z;
  i_ref : Z;
  i_lock : sleeplock;
  i_valid : Z;
  i_type : Z;
  i_major : Z;
  i_minor : Z;
  i_nlink : Z;
  i_size : Z;
  i_addrs : list Z
}.
Definition set_i_key (dev inum ref valid : Z) (r : inode) : inode :=
  mkinode dev inum ref (i_lock r) valid (i_type r) (i_major r) (i_minor r) (i_nlink r) (i_size r) (i_addrs r).
Definition set_i_ref (v : Z) (r : inode) : inode :=
  mkinode (i_dev r) (i_inum r) v (i_lock r) (i_valid r) (i_type r) (i_major r) (i_minor r) (i_nlink r) (i_size r) (i_addrs r).
Definition set_i_lock (v : sleeplock) (r : inode) : inode :=
  mkinode (i_dev r) (i_inum r) (i_ref r) v (i_valid r) (i_type r) (i_major r) (i_minor r) (i_nlink r) (i_size r) (i_addrs r).
Definition set_i_valid (v : Z) (r : inode) : inode :=
  mkinode (i_dev r) (i_inum r) (i_ref r) (i_lock r) v (i_type r) (i_major r) (i_minor r) (i_nlink r) (i_size r) (i_addrs r).
Definition set_i_type (v : Z) (r : inode) : inode :=
  mkinode (i_dev r) (i_inum r) (i_ref r) (i_lock r) (i_valid r) v (i_major r) (i_minor r) (i_nlink r) (i_size r) (i_addrs r).
Definition set_i_size (v : Z) (r : inode) : inode :=
  mkinode (i_dev r) (i_inum r) (i_ref r) (i_lock r) (i_valid r) (i_type r) (i_major r) (i_minor r) (i_nlink r) v (i_addrs r).
Definition set_i_nlink (v : Z) (r : inode) : inode :=
  mkinode (i_dev r) (i_inum r) (i_ref r) (i_lock r) (i_valid r) (i_type r) (i_major r) (i_minor r) v (i_size r) (i_addrs r).
Definition set_i_major_minor (v w : Z) (r : inode) : inode :=
  mkinode (i_dev r) (i_inum r) (i_ref r) (i_lock r) (i_valid r) (i_type r) v w (i_nlink r) (i_size r) (i_addrs r).
Definition set_i_addrs (v : list Z) (r : inode) : inode :=
  mkinode (i_dev r) (i_inum r) (i_ref r) (i_lock r) (i_valid r) (i_type r) (i_major r) (i_minor r) (i_nlink r) (i_size r) v.
(** The fields that have a copy on disk. *)
Definition i_dinode (r : inode) : dinode := mkdinode (i_type r) (i_major r) (i_minor r) (i_nlink r) (i_size r) (i_addrs r).
Definition set_i_dinode (d : dinode) (r : inode) : inode :=
  mkinode (i_dev r) (i_inum r) (i_ref r) (i_lock r) (i_valid r) (d_type d) (d_major d) (d_minor d) (d_nlink d) (d_size d) (d_addrs d).

Definition inode0 : inode := mkinode 0 0 0 (initsleeplock "") 0 0 0 0 0 0 (replicate 13 0).
#[export] Instance inode_inhabited : Inhabited inode := populate inode0.

(** [itable], [sb], the log below them, and the caller's memory. *)
Record fsst (U : Type) := mkfsst {
  fl : logsys;
  it_lock : bool;
  inodes : list inode;
  fsb : superblock;
  um : U
}.
Arguments mkfsst {U}.
Arguments fl {U}.
Arguments it_lock {U}.
Arguments inodes {U}.
Arguments fsb {U}.
Arguments um {U}.

Section fs.
Context {U : Type} `{UserMem U}.
(** [myproc()->pid]. *)
Context (pid : Z).

Local Abbreviation F := (M event (fsst U)).

Definition set_fl (v : logsys) (s : fsst U) : fsst U := mkfsst v (it_lock s) (inodes s) (fsb s) (um s).
Definition set_inodes (v : list inode) (s : fsst U) : fsst U := mkfsst (fl s) (it_lock s) v (fsb s) (um s).
Definition set_fsb (v : superblock) (s : fsst U) : fsst U := mkfsst (fl s) (it_lock s) (inodes s) v (um s).
Definition set_um (v : U) (s : fsst U) : fsst U := mkfsst (fl s) (it_lock s) (inodes s) (fsb s) v.

#[export, refine] Instance fsst_locked : Locked (fsst U) :=
  {| held := it_lock; set_held b s := mkfsst (fl s) b (inodes s) (fsb s) (um s) |}.
Proof. all: by try intros ? ? []; try intros ? []; try intros []. Defined.

Definition ino (i : nat) (s : fsst U) : inode := inodes s !!! i.
Definition upd_ino (i : nat) (f : inode → inode) (s : fsst U) : fsst U := set_inodes (alter f i (inodes s)) s.

(** Run a routine of the log, of the buffer cache, on user memory, on an
    inode's sleep lock. *)
Definition flog {A} (m : L A) : F A := lift fl set_fl m.
Definition fbio {A} (m : B A) : F A := flog (bio m).
Definition fum {A} (m : M event U A) : F A := lift um set_um m.
Definition with_ilock {A} (i : nat) (m : addr → M event sleeplock A) : F A :=
  lift (λ s, i_lock (ino i s)) (λ l, upd_ino i (set_i_lock l)) (m (A_inodesleeplock i)).

(** [bp->data], and a store to it. *)
Definition bdata (bp : nat) : F (list Z) := gets (λ s, data (bf bp (bc (fl s)))).
Definition bstore (bp : nat) (f : list Z → list Z) : F unit :=
  fbio (modify (upd_buf bp (λ x, set_data (f (data x)) x))).

(** ** Super block *)

Definition get_superblock (l : list Z) : superblock :=
  mksuperblock (get32 0 l) (get32 4 l) (get32 8 l) (get32 12 l) (get32 16 l) (get32 20 l) (get32 24 l) (get32 28 l).

Definition readsb (dev : Z) : F unit :=
  let! bp := fbio (bread pid dev 1) in
  let! d := bdata bp in
  modify (set_fsb (get_superblock d)) ;;
  fbio (brelse pid bp).

Definition fsinit (dev : Z) : F unit :=
  readsb dev ;;
  let! sb := gets fsb in
  if negb (sb_magic sb =? FSMAGIC) then panic "invalid file system" else
  flog (initlog pid dev (sb_logstart sb) (sb_nlog sb)).

(** ** Blocks *)

Definition bzero (dev bno : Z) : F unit :=
  let! bp := fbio (bread pid dev (u32 bno)) in
  bstore bp (λ _, zero_block) ;;
  flog (log_write bp) ;;
  fbio (brelse pid bp).

(** Bit [bi] of a bitmap block: [bp->data[bi/8] & (1 << (bi % 8))]. *)
Definition get_bit (bi : Z) (d : list Z) : bool :=
  negb (Z.land (d !!! Z.to_nat (bi / 8)) (Z.shiftl 1 (bi mod 8)) =? 0).
Definition set_bit (bi : Z) (d : list Z) : list Z :=
  alter (λ x, u8 (Z.lor x (Z.shiftl 1 (bi mod 8)))) (Z.to_nat (bi / 8)) d.
Definition clear_bit (bi : Z) (d : list Z) : list Z :=
  alter (λ x, u8 (Z.land x (Z.lnot (Z.shiftl 1 (bi mod 8))))) (Z.to_nat (bi / 8)) d.

(** [for(bi = 0; bi < BPB && b + bi < sb.size; bi++)]: the first clear bit. *)
Fixpoint find_clear (n : nat) (bi b size : Z) (d : list Z) : option Z :=
  match n with
  | O => None
  | S n' =>
      if negb (b + bi <? size) then None
      else if negb (get_bit bi d) then Some bi
      else find_clear n' (bi + 1) b size d
  end.

Fixpoint balloc_loop (fuel : nat) (dev b : Z) : F Z :=
  let! sb := gets fsb in
  if negb (b <? sb_size sb) then emit (Printf "balloc: out of blocks\n") ;; ret 0 else
  match fuel with
  | O => λ s, Spin s []
  | S f =>
      let! bp := fbio (bread pid dev (BBLOCK b sb)) in
      let! d := bdata bp in
      match find_clear (Z.to_nat BPB) 0 b (sb_size sb) d with
      | Some bi =>
          bstore bp (set_bit bi) ;;
          flog (log_write bp) ;;
          fbio (brelse pid bp) ;;
          bzero dev (b + bi) ;;
          ret (b + bi)
      | None => fbio (brelse pid bp) ;; balloc_loop f dev (b + BPB)
      end
  end.
Definition balloc (dev : Z) : F Z :=
  let! sb := gets fsb in balloc_loop (S (Z.to_nat (sb_size sb / BPB))) dev 0.

Definition bfree (dev b : Z) : F unit :=
  let! sb := gets fsb in
  let! bp := fbio (bread pid dev (BBLOCK b sb)) in
  let bi := b mod BPB in
  let! d := bdata bp in
  if negb (get_bit bi d) then panic "freeing free block" else
  bstore bp (clear_bit bi) ;;
  flog (log_write bp) ;;
  fbio (brelse pid bp).

(** ** Inodes *)

Definition iinit : F unit :=
  modify (set_held false) ;;
  for_upto NINODE (λ i, modify (upd_ino i (set_i_lock (initsleeplock "inode")))).

(** The loop of [iget]: the slot that holds the inode, and the first free slot. *)
Fixpoint iget_scan (l : list inode) (i : nat) (dev inum : Z) (empty : option nat) : option nat * option nat :=
  match l with
  | [] => (None, empty)
  | ip :: l' =>
      if (0 <? i_ref ip) && (i_dev ip =? dev) && (i_inum ip =? inum) then (Some i, empty)
      else iget_scan l' (S i) dev inum
             (match empty with None => if i_ref ip =? 0 then Some i else None | Some _ => empty end)
  end.

Definition iget (dev inum : Z) : F nat :=
  acquire ;;
  let! l := gets inodes in
  match iget_scan l 0 dev inum None with
  | (Some ip, _) =>
      modify (upd_ino ip (λ x, set_i_ref (i32 (i_ref x + 1)) x)) ;;
      release ;;
      ret ip
  | (None, None) => panic "iget: no inodes"
  | (None, Some ip) =>
      modify (upd_ino ip (set_i_key dev inum 1 0)) ;;
      release ;;
      ret ip
  end.

(** The offset of inode [inum] in its block. *)
Definition dinode_off (inum : Z) : nat := Z.to_nat (inum mod IPB * DINODE_SIZE).

(** [for(inum = 1; inum < sb.ninodes; inum++)]; [None] is a null pointer. *)
Fixpoint ialloc_loop (fuel : nat) (dev type inum : Z) : F (option nat) :=
  let! sb := gets fsb in
  if negb (inum <? sb_ninodes sb) then emit (Printf "ialloc: no inodes\n") ;; ret None else
  match fuel with
  | O => λ s, Spin s []
  | S f =>
      let! bp := fbio (bread pid dev (IBLOCK inum sb)) in
      let! d := bdata bp in
      if d_type (get_dinode (dinode_off inum) d) =? 0 then
        bstore bp (λ d, put_dinode (dinode_off inum) (mkdinode type 0 0 0 0 (replicate 13 0)) d) ;;
        flog (log_write bp) ;;
        fbio (brelse pid bp) ;;
        let! ip := iget dev inum in
        ret (Some ip)
      else fbio (brelse pid bp) ;; ialloc_loop f dev type (inum + 1)
  end.
Definition ialloc (dev type : Z) : F (option nat) :=
  let! sb := gets fsb in ialloc_loop (Z.to_nat (sb_ninodes sb)) dev type 1.

Definition iupdate (ip : nat) : F unit :=
  let! sb := gets fsb in
  let! x := gets (ino ip) in
  let! bp := fbio (bread pid (i_dev x) (IBLOCK (i_inum x) sb)) in
  bstore bp (put_dinode (dinode_off (i_inum x)) (i_dinode x)) ;;
  flog (log_write bp) ;;
  fbio (brelse pid bp).

Definition idup (ip : nat) : F nat :=
  acquire ;;
  modify (upd_ino ip (λ x, set_i_ref (i32 (i_ref x + 1)) x)) ;;
  release ;;
  ret ip.

Definition ilock (ip : nat) : F unit :=
  let! x := gets (ino ip) in
  if i_ref x <? 1 then panic "ilock" else
  with_ilock ip (λ a, acquiresleep a pid) ;;
  let! x := gets (ino ip) in
  if i_valid x =? 0 then
    let! sb := gets fsb in
    let! bp := fbio (bread pid (i_dev x) (IBLOCK (i_inum x) sb)) in
    let! d := bdata bp in
    modify (upd_ino ip (set_i_dinode (get_dinode (dinode_off (i_inum x)) d))) ;;
    fbio (brelse pid bp) ;;
    modify (upd_ino ip (set_i_valid 1)) ;;
    let! x := gets (ino ip) in
    if i_type x =? 0 then panic "ilock: no type" else ret tt
  else ret tt.

Definition iunlock (ip : nat) : F unit :=
  let! h := with_ilock ip (λ _, holdingsleep pid) in
  let! x := gets (ino ip) in
  if negb h || (i_ref x <? 1) then panic "iunlock" else
  with_ilock ip releasesleep.

(** ** Inode content *)

(** [ip->addrs[i] = v]. *)
Definition set_addr (ip : nat) (i v : Z) : F unit :=
  modify (upd_ino ip (λ x, set_i_addrs (<[Z.to_nat i := v]> (i_addrs x)) x)).

Definition bmap (ip : nat) (bn : Z) : F Z :=
  let! x := gets (ino ip) in
  if bn <? NDIRECT then
    let addr := i_addrs x !!! Z.to_nat bn in
    if addr =? 0 then
      let! addr := balloc (i_dev x) in
      if addr =? 0 then ret 0 else
      set_addr ip bn addr ;;
      ret addr
    else ret addr
  else
    let bn := bn - NDIRECT in
    if bn <? NINDIRECT then
      let addr := i_addrs x !!! Z.to_nat NDIRECT in
      let indirect (addr : Z) : F Z :=
        let! bp := fbio (bread pid (i_dev x) addr) in
        let! d := bdata bp in
        let addr := get32 (Z.to_nat (4 * bn)) d in
        if addr =? 0 then
          let! addr := balloc (i_dev x) in
          (if negb (addr =? 0) then
             bstore bp (put32 (Z.to_nat (4 * bn)) addr) ;;
             flog (log_write bp)
           else ret tt) ;;
          fbio (brelse pid bp) ;;
          ret addr
        else
          fbio (brelse pid bp) ;;
          ret addr in
      if addr =? 0 then
        let! addr := balloc (i_dev x) in
        if addr =? 0 then ret 0 else
        set_addr ip NDIRECT addr ;;
        indirect addr
      else indirect addr
    else panic "bmap: out of range".

Definition itrunc (ip : nat) : F unit :=
  for_upto (Z.to_nat NDIRECT) (λ i,
    let! x := gets (ino ip) in
    let a := i_addrs x !!! i in
    if a =? 0 then ret tt else
    bfree (i_dev x) a ;;
    set_addr ip (Z.of_nat i) 0) ;;
  let! x := gets (ino ip) in
  let a := i_addrs x !!! Z.to_nat NDIRECT in
  (if a =? 0 then ret tt else
   let! bp := fbio (bread pid (i_dev x) a) in
   for_upto (Z.to_nat NINDIRECT) (λ j,
     let! d := bdata bp in
     let b := get32 (4 * j) d in
     if b =? 0 then ret tt else bfree (i_dev x) b) ;;
   fbio (brelse pid bp) ;;
   bfree (i_dev x) a ;;
   set_addr ip NDIRECT 0) ;;
  modify (upd_ino ip (set_i_size 0)) ;;
  iupdate ip.

Definition iput (ip : nat) : F unit :=
  acquire ;;
  let! x := gets (ino ip) in
  (if (i_ref x =? 1) && negb (i_valid x =? 0) && (i_nlink x =? 0) then
     with_ilock ip (λ a, acquiresleep a pid) ;;
     release ;;
     itrunc ip ;;
     modify (upd_ino ip (set_i_type 0)) ;;
     iupdate ip ;;
     modify (upd_ino ip (set_i_valid 0)) ;;
     with_ilock ip releasesleep ;;
     acquire
   else ret tt) ;;
  modify (upd_ino ip (λ x, set_i_ref (i32 (i_ref x - 1)) x)) ;;
  release.

Definition iunlockput (ip : nat) : F unit := iunlock ip ;; iput ip.

(** [struct stat]. *)
Record stat := mkstat { st_dev : Z; st_ino : Z; st_type : Z; st_nlink : Z; st_size : Z }.
Definition stati (ip : nat) : F stat :=
  gets (λ s, let x := ino ip s in mkstat (i32 (i_dev x)) (i_inum x) (i_type x) (i_nlink x) (i_size x)).

(** The loop of [readi]: the value of [tot] and the bytes copied to a kernel
    destination. *)
Fixpoint readi_loop (fuel : nat) (ip : nat) (dst : dest) (off n tot : Z) : F (Z * list Z) :=
  if negb (tot <? n) then ret (tot, []) else
  match fuel with
  | O => λ s, Spin s []
  | S f =>
      let! addr := bmap ip (off / BSIZE) in
      if addr =? 0 then ret (tot, []) else
      let! x := gets (ino ip) in
      let! bp := fbio (bread pid (i_dev x) addr) in
      let m := Z.min (n - tot) (BSIZE - off mod BSIZE) in
      let! d := bdata bp in
      let! (r, bs) := fum (either_copyout dst (slice (Z.to_nat (off mod BSIZE)) (Z.to_nat m) d)) in
      if r =? -1 then fbio (brelse pid bp) ;; ret (u32 (-1), bs) else
      fbio (brelse pid bp) ;;
      let! (tot', bs') := readi_loop f ip (dest_add dst m) (u32 (off + m)) n (tot + m) in
      ret (tot', bs ++ bs')
  end.

(** [n/BSIZE + 2] iterations are enough: all but the first and the last copy
    whole blocks. *)
Definition readi (ip : nat) (dst : dest) (off n : Z) : F (Z * list Z) :=
  let! x := gets (ino ip) in
  if (i_size x <? off) || (u32 (off + n) <? off) then ret (0, []) else
  let n := if i_size x <? u32 (off + n) then u32 (i_size x - off) else n in
  let! (tot, bs) := readi_loop (Z.to_nat (n / BSIZE + 2)) ip dst off n 0 in
  ret (i32 tot, bs).

(** The loop of [writei]: the values of [tot] and [off] after it. *)
Fixpoint writei_loop (fuel : nat) (ip : nat) (src : source) (off n tot : Z) : F (Z * Z) :=
  if negb (tot <? n) then ret (tot, off) else
  match fuel with
  | O => λ s, Spin s []
  | S f =>
      let! addr := bmap ip (off / BSIZE) in
      if addr =? 0 then ret (tot, off) else
      let! x := gets (ino ip) in
      let! bp := fbio (bread pid (i_dev x) addr) in
      let m := Z.min (n - tot) (BSIZE - off mod BSIZE) in
      let! (bs, r) := fum (either_copyin src m) in
      bstore bp (put (Z.to_nat (off mod BSIZE)) bs) ;;
      if r =? -1 then fbio (brelse pid bp) ;; ret (tot, off) else
      flog (log_write bp) ;;
      fbio (brelse pid bp) ;;
      writei_loop f ip (source_add src m) (u32 (off + m)) n (tot + m)
  end.

Definition writei (ip : nat) (src : source) (off n : Z) : F Z :=
  let! x := gets (ino ip) in
  if (i_size x <? off) || (u32 (off + n) <? off) then ret (-1) else
  if MAXFILE * BSIZE <? u32 (off + n) then ret (-1) else
  let! (tot, off) := writei_loop (Z.to_nat (n / BSIZE + 2)) ip src off n 0 in
  let! x := gets (ino ip) in
  (if i_size x <? off then modify (upd_ino ip (set_i_size off)) else ret tt) ;;
  iupdate ip ;;
  ret (i32 tot).

(** ** Directories *)

(** [strncmp] on the bytes of two strings; past the end of a list is the NUL. *)
Fixpoint strncmp_bytes (n : nat) (p q : list Z) : Z :=
  match n with
  | O => 0
  | S n' =>
      let a := default 0 (p !! 0%nat) in
      let b := default 0 (q !! 0%nat) in
      if negb (a =? 0) && (a =? b) then strncmp_bytes n' (tail p) (tail q) else a - b
  end.
Definition namecmp (s t : list Z) : Z := strncmp_bytes DIRSIZ s t.

(** [struct dirent]: [inum] and [name]. *)
Definition de_inum (de : list Z) : Z := get16 0 de.
Definition de_name (de : list Z) : list Z := slice 2 DIRSIZ de.

(** The entry's inode and offset, or a null pointer. *)
Fixpoint dirlookup_loop (fuel : nat) (dp : nat) (name : list Z) (off : Z) : F (option (nat * Z)) :=
  let! x := gets (ino dp) in
  if negb (off <? i_size x) then ret None else
  match fuel with
  | O => λ s, Spin s []
  | S f =>
      let! (r, de) := readi dp KDst off DIRENT_SIZE in
      if negb (r =? DIRENT_SIZE) then panic "dirlookup read" else
      if de_inum de =? 0 then dirlookup_loop f dp name (u32 (off + DIRENT_SIZE)) else
      if namecmp name (de_name de) =? 0 then
        let! x := gets (ino dp) in
        let! ip := iget (i_dev x) (de_inum de) in
        ret (Some (ip, off))
      else dirlookup_loop f dp name (u32 (off + DIRENT_SIZE))
  end.
Definition dirlookup (dp : nat) (name : list Z) : F (option (nat * Z)) :=
  let! x := gets (ino dp) in
  if negb (i_type x =? T_DIR) then panic "dirlookup not DIR" else
  dirlookup_loop (Z.to_nat (i_size x / DIRENT_SIZE + 1)) dp name 0.

(** [dirlink]'s search for an empty entry: the offset it stops at. *)
Fixpoint dirlink_loop (fuel : nat) (dp : nat) (off : Z) : F Z :=
  let! x := gets (ino dp) in
  if negb (off <? i_size x) then ret off else
  match fuel with
  | O => λ s, Spin s []
  | S f =>
      let! (r, de) := readi dp KDst off DIRENT_SIZE in
      if negb (r =? DIRENT_SIZE) then panic "dirlink read" else
      if de_inum de =? 0 then ret off else dirlink_loop f dp (off + DIRENT_SIZE)
  end.

(** [strncpy(de.name, name, DIRSIZ)]: up to the NUL, then padded with NULs. *)
Fixpoint strncpy_bytes (n : nat) (t : list Z) : list Z :=
  match n with
  | O => []
  | S n' => let c := default 0 (t !! 0%nat) in if c =? 0 then replicate n 0 else c :: strncpy_bytes n' (tail t)
  end.

Definition dirent_bytes (inum : Z) (name : list Z) : list Z := le_bytes 2 inum ++ strncpy_bytes DIRSIZ name.

Definition dirlink (dp : nat) (name : list Z) (inum : Z) : F Z :=
  let! r := dirlookup dp name in
  match r with
  | Some (ip, _) => iput ip ;; ret (-1)
  | None =>
      let! x := gets (ino dp) in
      let! off := dirlink_loop (Z.to_nat (i_size x / DIRENT_SIZE + 1)) dp 0 in
      let! r := writei dp (KSrc (dirent_bytes inum name)) (u32 off) DIRENT_SIZE in
      if negb (r =? DIRENT_SIZE) then ret (-1) else ret 0
  end.

(** ** Paths *)

Definition SLASH : Z := 47.

(** The loops over slashes and over the characters of an element,
    on the bytes of a path; a NUL or the end of the list ends it. *)
Fixpoint skip_slashes (p : list Z) : list Z :=
  match p with c :: p' => if c =? SLASH then skip_slashes p' else p | [] => [] end.
Fixpoint elem_len (p : list Z) : nat :=
  match p with c :: p' => if (c =? SLASH) || (c =? 0) then O else S (elem_len p') | [] => O end.
Definition at_end (p : list Z) : bool := match p with [] => true | c :: _ => c =? 0 end.

(** The rest of the path and the new contents of [name], or a null pointer. *)
Definition skipelem (path name : list Z) : option (list Z * list Z) :=
  let path := skip_slashes path in
  if at_end path then None else
  let len := elem_len path in
  let s := take len path in
  let name := if (DIRSIZ <=? len)%nat then put 0 (take DIRSIZ s) name else put len [0] (put 0 s name) in
  Some (skip_slashes (drop len path), name).

(** [namex]'s loop, after [ip] was found; [name] is the caller's buffer. *)
Fixpoint namex_loop (fuel : nat) (ip : nat) (path name : list Z) (parent : bool) : F (option nat * list Z) :=
  match skipelem path name with
  | None => if parent then iput ip ;; ret (None, name) else ret (Some ip, name)
  | Some (path, name) =>
  match fuel with
  | O => λ s, Spin s []
  | S f =>
      ilock ip ;;
      let! x := gets (ino ip) in
      if negb (i_type x =? T_DIR) then iunlockput ip ;; ret (None, name) else
      if parent && at_end path then iunlock ip ;; ret (Some ip, name) else
      let! next := dirlookup ip name in
      match next with
      | None => iunlockput ip ;; ret (None, name)
      | Some (next, _) => iunlockput ip ;; namex_loop f next path name parent
      end
  end end.

(** [cwd] is [myproc()->cwd]; [path] is what precedes the NUL. *)
Definition namex (cwd : nat) (path : list Z) (parent : bool) (name : list Z) : F (option nat * list Z) :=
  let! ip := (match path with
              | c :: _ => if c =? SLASH then iget ROOTDEV ROOTINO else idup cwd
              | [] => idup cwd
              end) in
  namex_loop (length path) ip path name parent.

Definition namei (cwd : nat) (path : list Z) : F (option nat) :=
  let! (ip, _) := namex cwd path false (replicate DIRSIZ 0) in ret ip.
Definition nameiparent (cwd : nat) (path name : list Z) : F (option nat * list Z) :=
  namex cwd path true name.
End fs.
