(* ===== verification/Uart.v ===== *)
(** The driver of the serial port ([uart.c]), against the 16550 as a device
    with registers. *)
From Stdlib Require Import ZArith Lia.
From stdpp Require Import base list gmap strings.
From S2P Require Import Prelude Machine Ring.

(** ** The device *)

Definition RHR : Z := 0.
Definition THR : Z := 0.
Definition IER : Z := 1.
Definition IER_RX_ENABLE : Z := Z.shiftl 1 0.
Definition IER_TX_ENABLE : Z := Z.shiftl 1 1.
Definition FCR : Z := 2.
Definition FCR_FIFO_ENABLE : Z := Z.shiftl 1 0.
Definition FCR_FIFO_CLEAR : Z := Z.shiftl 3 1.
Definition ISR : Z := 2.
Definition LCR : Z := 3.
Definition LCR_EIGHT_BITS : Z := Z.shiftl 3 0.
Definition LCR_BAUD_LATCH : Z := Z.shiftl 1 7.
Definition LSR : Z := 5.
Definition LSR_RX_READY : Z := Z.shiftl 1 0.
Definition LSR_TX_IDLE : Z := Z.shiftl 1 5.

(** The registers, read and written at [UART0 + reg]; reading can change the
    device. *)
Class UartDev (D : Type) := {
  d_read : Z → D → Z * D;
  d_write : Z → Z → D → D
}.

(** What the driver relies on, from the data sheet: [d_sent] are the bytes given
    to the transmitter. Reading [LSR] or [ISR] sends nothing; a byte written to
    [THR] after [LSR] has shown the transmitter idle is sent; and the
    transmitter becomes idle after some polls. *)
Class UartLaws (D : Type) `{UartDev D} := {
  d_sent : D → list Z;
  d_ready : D → Prop;
  d_patience : nat;
  d_read_lsr d : d_sent (d_read LSR d).2 = d_sent d ∧
    (Z.land (d_read LSR d).1 LSR_TX_IDLE ≠ 0 → d_ready (d_read LSR d).2);
  d_read_isr d : d_sent (d_read ISR d).2 = d_sent d;
  d_read_rhr d : d_sent (d_read RHR d).2 = d_sent d;
  d_write_thr d c : d_ready d → d_sent (d_write THR c d) = d_sent d ++ [c];
  d_poll d : ∃ k, (k < d_patience)%nat ∧ Z.land (d_read LSR (Nat.iter k (λ d, (d_read LSR d).2) d)).1 LSR_TX_IDLE ≠ 0
}.

(** ** The driver *)

Definition UART_TX_BUF_SIZE : Z := 32.

Record uart (D : Type) := mkuart {
  uart_tx_lock : bool;
  uart_tx_buf : list Z;
  uart_tx_w : Z;
  uart_tx_r : Z;
  panicked : Z;
  dev : D
}.
Arguments mkuart {D}.
Arguments uart_tx_lock {D}.
Arguments uart_tx_buf {D}.
Arguments uart_tx_w {D}.
Arguments uart_tx_r {D}.
Arguments panicked {D}.
Arguments dev {D}.

(** How a call that may sleep ends. *)
Inductive txturn : Type := Sent | Full.

Section uart.
Context {D : Type} `{UartDev D}.

Definition set_tx_buf (v : list Z) (s : uart D) : uart D := mkuart (uart_tx_lock s) v (uart_tx_w s) (uart_tx_r s) (panicked s) (dev s).
Definition set_tx_w (v : Z) (s : uart D) : uart D := mkuart (uart_tx_lock s) (uart_tx_buf s) v (uart_tx_r s) (panicked s) (dev s).
Definition set_tx_r (v : Z) (s : uart D) : uart D := mkuart (uart_tx_lock s) (uart_tx_buf s) (uart_tx_w s) v (panicked s) (dev s).
Definition set_dev (v : D) (s : uart D) : uart D := mkuart (uart_tx_lock s) (uart_tx_buf s) (uart_tx_w s) (uart_tx_r s) (panicked s) v.

#[export, refine] Instance uart_locked : Locked (uart D) :=
  {| held := uart_tx_lock;
     set_held b s := mkuart b (uart_tx_buf s) (uart_tx_w s) (uart_tx_r s) (panicked s) (dev s) |}.
Proof. all: by try intros ? ? []; try intros ? []; try intros []. Defined.

Local Abbreviation T := (M event (uart D)).

Definition ReadReg (reg : Z) : T Z := λ s, Done (d_read reg (dev s)).1 (set_dev (d_read reg (dev s)).2 s) [].
Definition WriteReg (reg v : Z) : T unit := modify (λ s, set_dev (d_write reg (u8 v) (dev s)) s).

Definition uartinit : T unit :=
  WriteReg IER 0 ;;
  WriteReg LCR LCR_BAUD_LATCH ;;
  WriteReg 0 3 ;;
  WriteReg 1 0 ;;
  WriteReg LCR LCR_EIGHT_BITS ;;
  WriteReg FCR (Z.lor FCR_FIFO_ENABLE FCR_FIFO_CLEAR) ;;
  WriteReg IER (Z.lor IER_TX_ENABLE IER_RX_ENABLE) ;;
  modify (set_held false).

(** The buffer holds at most [UART_TX_BUF_SIZE] bytes, which bounds the
    [while(1)] of [uartstart]. *)
Fixpoint uartstart_loop (fuel : nat) : T unit :=
  match fuel with
  | O => λ s, Spin s []
  | S f =>
      let! s := gets id in
      if uart_tx_w s =? uart_tx_r s then
        let! _ := ReadReg ISR in ret tt
      else
        let! lsr := ReadReg LSR in
        if Z.land lsr LSR_TX_IDLE =? 0 then ret tt else
        let c := uart_tx_buf s !!! Z.to_nat (uart_tx_r s mod UART_TX_BUF_SIZE) in
        modify (set_tx_r (u64 (uart_tx_r s + 1))) ;;
        emit (Wakeup A_uart_tx_r) ;;
        WriteReg THR c ;;
        uartstart_loop f
  end.
Definition uartstart : T unit := uartstart_loop (S (Z.to_nat UART_TX_BUF_SIZE)).

(** [uartputc] from the start or from a wakeup to the next sleep or the
    return. *)
Definition uartputc (c : Z) : T txturn :=
  acquire ;;
  let! s := gets id in
  if negb (panicked s =? 0) then λ s, Spin s [] else
  if uart_tx_w s =? u64 (uart_tx_r s + UART_TX_BUF_SIZE) then
    release ;; ret Full
  else
    modify (λ s, set_tx_buf (<[Z.to_nat (uart_tx_w s mod UART_TX_BUF_SIZE) := u8 c]> (uart_tx_buf s)) s) ;;
    modify (λ s, set_tx_w (u64 (uart_tx_w s + 1)) s) ;;
    uartstart ;;
    release ;;
    ret Sent.

(** The polling loop of [uartputc_sync], for at most [fuel] polls. *)
Fixpoint wait_idle (fuel : nat) : T unit :=
  match fuel with
  | O => λ s, Spin s []
  | S f =>
      let! lsr := ReadReg LSR in
      if Z.land lsr LSR_TX_IDLE =? 0 then wait_idle f else ret tt
  end.
(** Interrupts are off around it ([push_off], [pop_off]), which leaves the hart
    as it was. *)
Definition uartputc_sync (fuel : nat) (c : Z) : T unit :=
  let! s := gets id in
  if negb (panicked s =? 0) then λ s, Spin s [] else
  wait_idle fuel ;;
  WriteReg THR c.

Definition uartgetc : T Z :=
  let! lsr := ReadReg LSR in
  if negb (Z.land lsr 1 =? 0) then ReadReg RHR else ret (-1).
End uart.

(** ** Output *)

Section output.
Context {D : Type} {UD : UartDev D} {UL : UartLaws D}.

Lemma bind_read {B} r (k : Z → M event (uart D) B) s : bind (ReadReg r) k s = k (d_read r (dev s)).1 (set_dev (d_read r (dev s)).2 s).
Proof. by apply bind_done. Qed.

(** Polling: the transmitter becomes idle, and the byte goes out. *)
Lemma wait_idle_run s k : Z.land (d_read LSR (Nat.iter k (λ d, (d_read LSR d).2) (dev s))).1 LSR_TX_IDLE ≠ 0 → ∀ fuel, (k < fuel)%nat →
  ∃ d', wait_idle fuel s = Done tt (set_dev d' s) [] ∧ d_ready d' ∧ d_sent d' = d_sent (dev s).
Proof.
  revert s. induction k as [|k IH]; intros s Hk fuel Hf; (destruct fuel as [|fuel]; [lia|]); cbn [wait_idle]; rewrite bind_read.
  - simpl in Hk. rewrite (proj2 (Z.eqb_neq _ 0) Hk). destruct (d_read_lsr (dev s)) as [Hs Hr]. eauto.
  - destruct (d_read_lsr (dev s)) as [Hs Hr]. destruct (Z.eqb_spec (Z.land (d_read LSR (dev s)).1 LSR_TX_IDLE) 0) as [_|Hn]; [|eauto].
    rewrite Nat.iter_succ_r in Hk. destruct (IH (set_dev (d_read LSR (dev s)).2 s) Hk fuel ltac:(lia)) as (d' & Hrun & Hd & Hs').
    exists d'. rewrite Hrun. split_and!; [done|done|]. by rewrite Hs'.
Qed.

Lemma uartputc_sync_run c s : panicked s = 0 →
  ∃ d', uartputc_sync d_patience c s = Done tt (set_dev d' s) [] ∧ d_sent d' = d_sent (dev s) ++ [u8 c].
Proof.
  intros Hp. unfold uartputc_sync. rewrite bind_gets. unfold id. rewrite Hp. cbn [Z.eqb negb].
  destruct (d_poll (dev s)) as (k & Hk & Hb). destruct (wait_idle_run s k Hb d_patience Hk) as (d' & Hrun & Hr & Hs).
  rewrite (bind_done _ _ _ _ _ Hrun). exists (d_write THR (u8 c) d'). split; [done|]. by rewrite d_write_thr, Hs.
Qed.

(** ** The transmit buffer *)

Definition txcount (s : uart D) : Z := u64 (uart_tx_w s - uart_tx_r s).
Definition txqueue (s : uart D) : list Z := ring_queue UART_TX_BUF_SIZE (uart_tx_buf s) (uart_tx_r s) (Z.to_nat (txcount s)).

Record uinv (s : uart D) : Prop := {
  ui_buf : length (uart_tx_buf s) = Z.to_nat UART_TX_BUF_SIZE;
  ui_bytes : Forall (λ b, u8 b = b) (uart_tx_buf s);
  ui_w : is_u64 (uart_tx_w s);
  ui_r : is_u64 (uart_tx_r s);
  ui_count : txcount s ≤ UART_TX_BUF_SIZE;
  ui_panic : panicked s = 0
}.

Lemma txcount_pos s : 0 ≤ txcount s.
Proof. pose proof (u64_range (uart_tx_w s - uart_tx_r s)). unfold txcount, is_u64 in *. lia. Qed.
Lemma txqueue_length s : Z.of_nat (length (txqueue s)) = txcount s.
Proof. pose proof (txcount_pos s). unfold txqueue. rewrite ring_length. lia. Qed.
Lemma tx_empty s : uinv s → (uart_tx_w s =? uart_tx_r s) = (txcount s =? 0).
Proof. intros [? ? ? ? ? ?]. unfold txcount. apply eq_iff_eq_true. rewrite !Z.eqb_eq. mach_lia. Qed.
Lemma tx_full s : uinv s → (uart_tx_w s =? u64 (uart_tx_r s + UART_TX_BUF_SIZE)) = (txcount s =? UART_TX_BUF_SIZE).
Proof. intros [? ? ? ? ? ?]. unfold txcount, UART_TX_BUF_SIZE in *. apply eq_iff_eq_true. rewrite !Z.eqb_eq. mach_lia. Qed.

Lemma tx_byte s : uinv s → u8 (uart_tx_buf s !!! Z.to_nat (uart_tx_r s mod UART_TX_BUF_SIZE)) = uart_tx_buf s !!! Z.to_nat (uart_tx_r s mod UART_TX_BUF_SIZE).
Proof.
  intros [Hb Hbs _ _ _ _]. rewrite Forall_forall in Hbs. apply Hbs, list_elem_of_lookup_total_2. rewrite Hb.
  pose proof (Z.mod_pos_bound (uart_tx_r s) UART_TX_BUF_SIZE ltac:(done)). lia.
Qed.

Definition tx_take (s : uart D) : uart D := set_tx_r (u64 (uart_tx_r s + 1)) s.
Lemma tx_take_ok s : uinv s → 0 < txcount s →
  uinv (tx_take s) ∧ txcount (tx_take s) = txcount s - 1 ∧
  txqueue s = uart_tx_buf s !!! Z.to_nat (uart_tx_r s mod UART_TX_BUF_SIZE) :: txqueue (tx_take s).
Proof.
  intros [Hb Hbs Hw Hr Hc Hp] H0. assert (txcount (tx_take s) = txcount s - 1) as Hc' by (unfold txcount, tx_take in *; simpl; mach_lia).
  split_and!; [split; simpl; [done|done|done|apply u64_range|lia|done]|done|].
  unfold txqueue. rewrite Hc'. replace (Z.to_nat (txcount s)) with (S (Z.to_nat (txcount s - 1))) by lia.
  rewrite ring_pop. f_equal. apply ring_mod; [done|]. unfold tx_take; cbn [uart_tx_r set_tx_r]. unfold UART_TX_BUF_SIZE. mach_lia.
Qed.

Definition tx_add (b : Z) (s : uart D) : uart D :=
  set_tx_w (u64 (uart_tx_w s + 1)) (set_tx_buf (<[Z.to_nat (uart_tx_w s mod UART_TX_BUF_SIZE) := b]> (uart_tx_buf s)) s).
Lemma tx_add_ok b s : u8 b = b → uinv s → txcount s < UART_TX_BUF_SIZE → uinv (tx_add b s) ∧ txqueue (tx_add b s) = txqueue s ++ [b].
Proof.
  intros Hb8 [Hb Hbs Hw Hr Hc Hp] H0. pose proof (txcount_pos s) as Hc0.
  assert (txcount (tx_add b s) = txcount s + 1) as Hc' by (unfold txcount, tx_add, UART_TX_BUF_SIZE in *; simpl; mach_lia).
  split; [split; simpl; [by rewrite length_insert|by apply Forall_insert|apply u64_range|done|lia|done]|].
  unfold txqueue. rewrite Hc'. replace (Z.to_nat (txcount s + 1)) with (S (Z.to_nat (txcount s))) by lia.
  unfold tx_add; cbn [uart_tx_buf uart_tx_r set_tx_w set_tx_buf].
  replace (uart_tx_w s mod UART_TX_BUF_SIZE) with ((uart_tx_r s + Z.of_nat (Z.to_nat (txcount s))) mod UART_TX_BUF_SIZE)
    by (unfold txcount, UART_TX_BUF_SIZE in *; mach_lia).
  apply ring_push; [done|rewrite Hb; done|lia].
Qed.
Lemma uinv_dev d s : uinv s → uinv (set_dev d s).
Proof. intros []. by split. Qed.

(** What [uartstart] leaves: it sends bytes from the front of the buffer, until
    the buffer is empty or the transmitter busy. *)
Record started (s s' : uart D) : Prop := {
  st_inv : uinv s';
  st_lock : uart_tx_lock s' = uart_tx_lock s;
  st_sent : d_sent (dev s') ++ txqueue s' = d_sent (dev s) ++ txqueue s;
  st_less : (length (txqueue s') ≤ length (txqueue s))%nat;
  st_stop : txqueue s' = [] ∨ ∃ d, dev s' = (d_read LSR d).2 ∧ Z.land (d_read LSR d).1 LSR_TX_IDLE = 0
}.

Lemma uartstart_loop_run fuel s : uinv s → (Z.to_nat (txcount s) < fuel)%nat →
  ∃ s' t, uartstart_loop fuel s = Done tt s' t ∧ started s s' ∧ ∀ e, e ∈ t → e = Wakeup A_uart_tx_r.
Proof.
  revert s. induction fuel as [|fuel IH]; intros s Hi Hf; [lia|]. cbn [uartstart_loop]. rewrite bind_gets. unfold id. rewrite tx_empty by done.
  pose proof (txqueue_length s) as Hl. destruct (Z.eqb_spec (txcount s) 0) as [H0|H0].
  - rewrite bind_read. eexists _, []. split; [done|]. split; [|intros e He; by apply not_elem_of_nil in He].
    split; [by apply uinv_dev|done|simpl; by rewrite d_read_isr|done|]. left. change (txqueue (set_dev _ s)) with (txqueue s). destruct (txqueue s); [done|simpl in Hl; lia].
  - rewrite bind_read. destruct (d_read_lsr (dev s)) as [Hs Hr]. set (s1 := set_dev _ s). destruct (Z.eqb_spec (Z.land (d_read LSR (dev s)).1 LSR_TX_IDLE) 0) as [Hb|Hb].
    + exists s1, []. split; [done|]. split; [|intros e He; by apply not_elem_of_nil in He].
      split; [by apply uinv_dev|done|unfold s1; simpl; by rewrite Hs|done|]. right. exists (dev s). done.
    + pose proof (txcount_pos s). destruct (tx_take_ok s Hi ltac:(lia)) as (Hi' & Hc' & Hq).
      rewrite bind_modify, bind_emit. unfold WriteReg. rewrite bind_modify. set (s2 := set_dev _ _).
      set (c := uart_tx_buf s !!! Z.to_nat (uart_tx_r s mod UART_TX_BUF_SIZE)) in *.
      assert (uinv s2) as Hi2 by (destruct Hi'; by split). assert (txcount s2 = txcount s - 1) as Hc2 by done.
      assert (txqueue s2 = txqueue (tx_take s)) as Hq2 by done.
      destruct (IH s2 Hi2 ltac:(lia)) as (s' & t & Hrun & [H1 H2 H3 H4 H5] & Ht). rewrite Hrun. exists s', (Wakeup A_uart_tx_r :: t).
      split; [done|]. split.
      * split; [done|done| |rewrite Hq; simpl; rewrite <- Hq2; lia|done]. rewrite H3, Hq2. unfold s2; simpl. rewrite d_write_thr by (by apply Hr).
        rewrite Hs, Hq, <- app_assoc. simpl. by rewrite (tx_byte s Hi : u8 c = c).
      * intros e [->|He]%elem_of_cons; [done|by apply Ht].
Qed.

Lemma uartstart_run s : uinv s → ∃ s' t, uartstart s = Done tt s' t ∧ started s s' ∧ ∀ e, e ∈ t → e = Wakeup A_uart_tx_r.
Proof. intros Hi. apply uartstart_loop_run; [done|]. pose proof (ui_count _ Hi). pose proof (txcount_pos s). lia. Qed.

Definition tx_held (b : bool) (s : uart D) : uart D := mkuart b (uart_tx_buf s) (uart_tx_w s) (uart_tx_r s) (panicked s) (dev s).

Lemma uinv_held b s : uinv s → uinv (tx_held b s).
Proof. intros []. by split. Qed.

(** The output half of [uartintr]. *)
Definition uartintr_tx : M event (uart D) unit := acquire ;; uartstart ;; release.

Lemma uartintr_tx_run s : uinv s → uart_tx_lock s = false →
  ∃ s' t, uartintr_tx s = Done tt s' t ∧ started s s'.
Proof.
  intros Hi Hl. unfold uartintr_tx. unfold bind, acquire. simpl. rewrite Hl, pre_nil.
  assert (uinv (tx_held true s)) as Hi1 by (by apply uinv_held).
  destruct (uartstart_run _ Hi1) as (s' & t & Hr & [H1 H2 H3 H4 H5] & _). change (mkuart true _ _ _ _ _) with (tx_held true s). rewrite Hr.
  unfold release. simpl. rewrite H2. simpl. eexists (tx_held false s'), _. split; [done|]. split; [by apply uinv_held|by rewrite Hl|done|done|done].
Qed.

Lemma uartputc_run c s : uinv s → uart_tx_lock s = false →
  (length (txqueue s) = Z.to_nat UART_TX_BUF_SIZE ∧ uartputc c s = Done Full s []) ∨
  ((length (txqueue s) < Z.to_nat UART_TX_BUF_SIZE)%nat ∧ ∃ s' t, uartputc c s = Done Sent s' t ∧ uinv s' ∧ uart_tx_lock s' = false ∧
     d_sent (dev s') ++ txqueue s' = (d_sent (dev s) ++ txqueue s) ++ [u8 c]).
Proof.
  intros Hi Hl. pose proof (txqueue_length s) as Hlen. pose proof (ui_count _ Hi) as Hcnt.
  unfold uartputc. rewrite bind_lock by done. rewrite bind_gets. unfold id. change (panicked (set_held true s)) with (panicked s).
  rewrite (ui_panic _ Hi). cbn [Z.eqb negb].
  change (uart_tx_w (set_held true s)) with (uart_tx_w s). change (uart_tx_r (set_held true s)) with (uart_tx_r s). rewrite tx_full by done.
  destruct (Z.eqb_spec (txcount s) UART_TX_BUF_SIZE) as [Hf|Hf].
  - left. split; [lia|]. rewrite bind_unlock by done. unfold ret. f_equal. rewrite set_set. pose proof (set_same s) as Hs. change (held s) with (uart_tx_lock s) in Hs. by rewrite Hl in Hs.
  - right. split; [unfold UART_TX_BUF_SIZE in *; lia|]. rewrite !bind_modify.
    change (set_tx_w _ _) with (tx_held true (tx_add (u8 c) s)).
    destruct (tx_add_ok (u8 c) s) as [Hi1 Hq]; [mach_lia|done|lia|].
    assert (uinv (tx_held true (tx_add (u8 c) s))) as Hi2 by (by apply uinv_held).
    destruct (uartstart_run _ Hi2) as (s' & t & Hr & [H1 H2 H3 H4 H5] & _). rewrite (bind_run _ _ _ _ _ _ Hr).
    rewrite bind_unlock by exact H2. eexists (tx_held false s'), _. split; [done|].
    split_and!; [by apply uinv_held|done|]. change (d_sent (dev s') ++ txqueue s' = (d_sent (dev s) ++ txqueue s) ++ [u8 c]).
    rewrite H3. change (txqueue (tx_held true ?x)) with (txqueue x). rewrite Hq. by rewrite app_assoc.
Qed.

(** The transmit side as a system: calls of [uartputc], transmit interrupts, and
    the device going on by itself. [acc] are the bytes accepted so far. *)
Inductive ustep : uart D * list Z → uart D * list Z → Prop :=
| u_put c s s' t acc : uartputc c s = Done Sent s' t → ustep (s, acc) (s', acc ++ [u8 c])
| u_full c s s' t acc : uartputc c s = Done Full s' t → ustep (s, acc) (s', acc)
| u_intr s s' t acc : uartintr_tx s = Done tt s' t → ustep (s, acc) (s', acc)
| u_device s d acc : d_sent d = d_sent (dev s) → ustep (s, acc) (set_dev d s, acc).

Definition uart0 (d : D) : uart D := mkuart false (replicate (Z.to_nat UART_TX_BUF_SIZE) 0) 0 0 0 d.

Definition tx_inv (d0 : D) (c : uart D * list Z) : Prop :=
  uinv c.1 ∧ uart_tx_lock c.1 = false ∧ d_sent (dev c.1) ++ txqueue c.1 = d_sent d0 ++ c.2.

Lemma tx_inv_step d0 c c' : tx_inv d0 c → ustep c c' → tx_inv d0 c'.
Proof.
  intros (Hi & Hl & Hs) Hstep. destruct Hstep as [c s s' t acc Hr|c s s' t acc Hr|s s' t acc Hr|s d acc Hd]; simpl in *.
  - destruct (uartputc_run c s Hi Hl) as [[_ Hr']|(_ & s2 & t2 & Hr' & Hi' & Hl' & Hs')]; rewrite Hr in Hr'; [done|].
    injection Hr' as <- <-. split_and!; [done|done|]. simpl. rewrite Hs', Hs. by rewrite app_assoc.
  - destruct (uartputc_run c s Hi Hl) as [[_ Hr']|(_ & s2 & t2 & Hr' & _)]; rewrite Hr in Hr'; [|done]. by injection Hr' as -> ->.
  - destruct (uartintr_tx_run s Hi Hl) as (s2 & t2 & Hr' & [H1 H2 H3 _ _]). rewrite Hr in Hr'. injection Hr' as <- <-.
    split_and!; simpl; [done|by rewrite H2|by rewrite H3].
  - split_and!; simpl; [by apply uinv_dev|done|]. by rewrite Hd.
Qed.

Lemma uart0_inv d : tx_inv d (uart0 d, []).
Proof. split_and!; [|done|done]. split; [done|by apply Forall_replicate|done|done|done|done]. Qed.

(** C26. The serial output is a FIFO. However calls of [uartputc], interrupts
    and the progress of the device interleave, the bytes given to the
    transmitter followed by those in the buffer are the bytes accepted, in
    order; the buffer holds at most [UART_TX_BUF_SIZE]; a call of [uartputc]
    returns, and waits exactly when the buffer is full; and an interrupt
    handler returns with the buffer empty or the transmitter busy. *)
Theorem uart_tx_fifo d s acc : rtc ustep (uart0 d, []) (s, acc) →
  d_sent (dev s) ++ txqueue s = d_sent d ++ acc ∧ (length (txqueue s) ≤ Z.to_nat UART_TX_BUF_SIZE)%nat ∧
  (∀ c, (length (txqueue s) = Z.to_nat UART_TX_BUF_SIZE → uartputc c s = Done Full s []) ∧
        ((length (txqueue s) < Z.to_nat UART_TX_BUF_SIZE)%nat → ∃ s' t, uartputc c s = Done Sent s' t)) ∧
  (∃ s' t, uartintr_tx s = Done tt s' t ∧
     (txqueue s' = [] ∨ ∃ d', dev s' = (d_read LSR d').2 ∧ Z.land (d_read LSR d').1 LSR_TX_IDLE = 0)).
Proof.
  intros Hsteps. assert (tx_inv d (s, acc)) as (Hi & Hl & Hs).
  { apply (rtc_invariant (tx_inv d) ustep (uart0 d, [])); [intros c c' Hc; by apply tx_inv_step|apply uart0_inv|done]. }
  simpl in *. pose proof (txqueue_length s). pose proof (ui_count _ Hi). split_and!; [done|unfold UART_TX_BUF_SIZE in *; lia| |].
  - intros c. destruct (uartputc_run c s Hi Hl) as [[Hf Hr]|(Hf & s' & t & Hr & _)]; (split; intros Hlen; [done || lia|eauto || lia]).
  - destruct (uartintr_tx_run s Hi Hl) as (s' & t & Hr & [_ _ _ _ Hst]). eauto.
Qed.
End output.

(** ** A device *)

(** A transmitter that is busy for one poll after each byte, and a receiver with
    a queue of bytes. *)
Record sim := mksim { sim_sent : list Z; sim_busy : bool; sim_rx : list Z }.
#[export] Instance sim_dev : UartDev sim := {|
  d_read r d :=
    if r =? LSR then
      (Z.lor (if sim_busy d then 0 else LSR_TX_IDLE) (if sim_rx d then 0 else LSR_RX_READY), mksim (sim_sent d) false (sim_rx d))
    else if r =? RHR then (default 0 (head (sim_rx d)), mksim (sim_sent d) (sim_busy d) (tail (sim_rx d)))
    else (0, d);
  d_write r v d := if r =? THR then mksim (sim_sent d ++ [v]) true (sim_rx d) else d
|}.
#[export, refine] Instance sim_laws : UartLaws sim :=
  {| d_sent := sim_sent; d_ready _ := True; d_patience := 2 |}.
Proof.
  - done.
  - done.
  - done.
  - done.
  - intros [sent [] rx]; [exists 1%nat|exists 0%nat]; (split; [lia|]); by destruct rx.
Defined.

Lemma uart_tx_fifo_witness : let s := result ((uartputc 104 ;; uartputc 105) (uart0 (mksim [] true []))) in
  ∃ s', s = Some (Sent, s') ∧ d_sent (dev s') ++ txqueue s' = [104; 105] ∧ txqueue s' = [105].
Proof.
  eexists. split; [vm_compute; reflexivity|]. split; [|vm_compute; reflexivity].
  refine (proj1 (uart_tx_fifo (mksim [] true []) _ [104; 105] _)).
  eapply rtc_l; [eapply (u_put 104); vm_compute; reflexivity|]. eapply rtc_once. eapply (u_put 105). vm_compute. reflexivity.
Defined.
