(* ===== verification/Console.v ===== *)
(** The console ([console.c]) with the interrupt handler of [uart.c] that feeds
    it: input line editing, reading by lines, and output. *)
From Stdlib Require Import ZArith Lia.
From stdpp Require Import base list gmap strings.
From S2P Require Import Prelude Machine Mem Kalloc Vm Pagetable Uvm Copy UserMem Ring Uart.

Definition BACKSPACE : Z := 256.
(** [C(x)], control-x. *)
Definition ctrl (x : Z) : Z := x - 64.
Definition INPUT_BUF_SIZE : Z := 128.
Definition NL : Z := 10.
Definition CR : Z := 13.

(** ** State *)

(** [cons]. *)
Record cons := mkcons {
  c_lock : bool;
  c_buf : list Z;
  c_r : Z;
  c_w : Z;
  c_e : Z
}.
Definition set_c_buf (v : list Z) (s : cons) : cons := mkcons (c_lock s) v (c_r s) (c_w s) (c_e s).
Definition set_c_r (v : Z) (s : cons) : cons := mkcons (c_lock s) (c_buf s) v (c_w s) (c_e s).
Definition set_c_w (v : Z) (s : cons) : cons := mkcons (c_lock s) (c_buf s) (c_r s) v (c_e s).
Definition set_c_e (v : Z) (s : cons) : cons := mkcons (c_lock s) (c_buf s) (c_r s) (c_w s) v.

(** The console, the serial port below it and the memory of the caller. *)
Record tty (D U : Type) := mktty { co : cons; ut : uart D; tum : U }.
Arguments mktty {D U}.
Arguments co {D U}.
Arguments ut {D U}.
Arguments tum {D U}.

(** How [consoleread] ends: it returns, or sleeps with [n] bytes still wanted
    and [dst] to go on at. *)
Inductive rturn : Type := RDone (r : Z) | RSleep (d : dest) (n : Z).
(** How [consolewrite] ends: it returns, or sleeps in [uartputc] with the byte
    [c] of index [i] in hand. *)
Inductive wturn : Type := WDone (r : Z) | WSleep (i c : Z).

Section console.
Context {D U : Type} `{UartDev D} `{UserMem U}.
(** The number of polls after which the transmitter is idle. *)
Context (polls : nat).

Local Abbreviation T := (M event (tty D U)).

Definition upd_co (f : cons → cons) (s : tty D U) : tty D U := mktty (f (co s)) (ut s) (tum s).
#[export, refine] Instance tty_locked : Locked (tty D U) :=
  {| held s := c_lock (co s);
     set_held b s := upd_co (λ c, mkcons b (c_buf c) (c_r c) (c_w c) (c_e c)) s |}.
Proof. all: by try intros ? ? [[] ? ?]; try intros ? [[] ? ?]; try intros [[] ? ?]. Defined.

Definition port {A} (m : M event (uart D) A) : T A := lift ut (λ v s, mktty (co s) v (tum s)) m.
Definition tmem {A} (m : M event U A) : T A := lift tum (λ v s, mktty (co s) (ut s) v) m.

Definition consputc (c : Z) : T unit :=
  if c =? BACKSPACE then
    port (uartputc_sync polls 8) ;; port (uartputc_sync polls 32) ;; port (uartputc_sync polls 8)
  else port (uartputc_sync polls c).

(** [consolewrite] from byte [i], with the byte [uartputc] sleeps on, if any, to
    the next sleep or the return. *)
Fixpoint consolewrite_loop (fuel : nat) (src : source) (n i : Z) (pending : option Z) : T wturn :=
  if negb (i <? n) then ret (WDone i) else
  match fuel with
  | O => λ s, Spin s []
  | S f =>
      let! c := match pending with
                | Some c => ret (Some c)
                | None =>
                    let! (bs, r) := tmem (either_copyin (source_add src i) 1) in
                    ret (if r =? -1 then None else Some (bs !!! 0%nat))
                end in
      match c with
      | None => ret (WDone i)
      | Some c =>
          let! t := port (uartputc c) in
          match t with
          | Full => ret (WSleep i c)
          | Sent => consolewrite_loop f src n (i + 1) None
          end
      end
  end.
Definition consolewrite_turn (src : source) (n i : Z) (pending : option Z) : T wturn :=
  consolewrite_loop (Z.to_nat (n - i)) src n i pending.

(** The loop of [consoleread], the lock held; [killed] is the value of
    [killed(myproc())]. Bytes for a kernel destination are returned. *)
Fixpoint consoleread_loop (fuel : nat) (killed : bool) (d : dest) (target n : Z) (got : list Z) : T (rturn * list Z) :=
  if negb (0 <? n) then release ;; ret (RDone (i32 (target - n)), got) else
  match fuel with
  | O => λ s, Spin s []
  | S f =>
      let! s := gets co in
      if c_r s =? c_w s then
        if killed then release ;; ret (RDone (-1), got)
        else release ;; ret (RSleep d n, got)
      else
        let c := c_buf s !!! Z.to_nat (c_r s mod INPUT_BUF_SIZE) in
        modify (upd_co (λ x, set_c_r (u32 (c_r x + 1)) x)) ;;
        if c =? ctrl 68 then
          (if u32 n <? u32 target then modify (upd_co (λ x, set_c_r (u32 (c_r x - 1)) x)) else ret tt) ;;
          release ;; ret (RDone (i32 (target - n)), got)
        else
          let! (r, bs) := tmem (either_copyout d [c]) in
          if r =? -1 then release ;; ret (RDone (i32 (target - n)), got) else
          if c =? NL then release ;; ret (RDone (i32 (target - (n - 1))), got ++ bs)
          else consoleread_loop f killed (dest_add d 1) target (n - 1) (got ++ bs)
  end.
(** One turn of [consoleread]. *)
Definition consoleread_turn (killed : bool) (d : dest) (target n : Z) : T (rturn * list Z) :=
  acquire ;; consoleread_loop (Z.to_nat n) killed d target n [].

(** The loop of control-U. *)
Fixpoint kill_line (fuel : nat) : T unit :=
  match fuel with
  | O => λ s, Spin s []
  | S f =>
      let! s := gets co in
      if negb (c_e s =? c_w s) && negb (c_buf s !!! Z.to_nat (u32 (c_e s - 1) mod INPUT_BUF_SIZE) =? NL) then
        modify (upd_co (λ x, set_c_e (u32 (c_e x - 1)) x)) ;;
        consputc BACKSPACE ;;
        kill_line f
      else ret tt
  end.

(** The process list that control-P prints is [procdump]'s. *)
Definition consoleintr (c : Z) : T unit :=
  acquire ;;
  (if c =? ctrl 80 then emit (Printf "procdump")
   else if c =? ctrl 85 then kill_line (S (Z.to_nat INPUT_BUF_SIZE))
   else if (c =? ctrl 72) || (c =? 127) then
     let! s := gets co in
     if negb (c_e s =? c_w s) then
       modify (upd_co (λ x, set_c_e (u32 (c_e x - 1)) x)) ;;
       consputc BACKSPACE
     else ret tt
   else
     let! s := gets co in
     if negb (c =? 0) && (u32 (c_e s - c_r s) <? INPUT_BUF_SIZE) then
       let c := if c =? CR then NL else c in
       consputc c ;;
       modify (upd_co (λ x, set_c_buf (<[Z.to_nat (c_e x mod INPUT_BUF_SIZE) := u8 c]> (c_buf x)) x)) ;;
       modify (upd_co (λ x, set_c_e (u32 (c_e x + 1)) x)) ;;
       let! s := gets co in
       if (c =? NL) || (c =? ctrl 68) || (u32 (c_e s - c_r s) =? INPUT_BUF_SIZE) then
         modify (upd_co (λ x, set_c_w (c_e x) x)) ;;
         emit (Wakeup A_cons_r)
       else ret tt
     else ret tt) ;;
  release.

(** The input loop of [uartintr], for at most [fuel] characters. *)
Fixpoint drain_input (fuel : nat) : T unit :=
  match fuel with
  | O => λ s, Spin s []
  | S f =>
      let! c := port uartgetc in
      if c =? -1 then ret tt else
      consoleintr c ;;
      drain_input f
  end.
Definition uartintr (fuel : nat) : T unit :=
  drain_input fuel ;;
  port (acquire ;; uartstart ;; release).

Definition consoleinit : T unit :=
  modify (set_held false) ;;
  port uartinit.
End console.
