(* ===== verification/ConsoleThm.v ===== *)
(** The console refines a line editor on lists. *)
From Stdlib Require Import ZArith Lia.
From stdpp Require Import base list gmap strings.
From S2P Require Import Prelude Machine Mem Kalloc Vm Pagetable Uvm Copy UserMem Ring Uart Console.

(** ** The specification *)

(** The lines ready to be read, the line being typed, and user memory. *)
Record line := mkline { lq : list Z; led : list Z; lmem : Z → option Z }.

Inductive cop : Type := Key (c : Z) | Rd (killed : bool) (d : dest) (target n : Z).
(** What an operation shows: the characters echoed and whether readers were
    woken up; how a read ended and the bytes it passed by value. *)
Inductive cout : Type := KeyOut (echo : list Z) (wake : bool) | RdOut (t : rturn) (got : list Z).

Definition rubout : list Z := [8; 32; 8].

Definition spec_key (c : Z) (a : line) : cout * line :=
  if c =? ctrl 80 then (KeyOut [] false, a)
  else if c =? ctrl 85 then (KeyOut (concat (replicate (length (led a)) rubout)) false, mkline (lq a) [] (lmem a))
  else if (c =? ctrl 72) || (c =? 127) then
    match led a with
    | [] => (KeyOut [] false, a)
    | _ => (KeyOut rubout false, mkline (lq a) (removelast (led a)) (lmem a))
    end
  else if (c =? 0) || bool_decide (length (lq a ++ led a) = Z.to_nat INPUT_BUF_SIZE) then (KeyOut [] false, a)
  else
    let c := if c =? CR then NL else c in
    if (c =? NL) || (c =? ctrl 68) || bool_decide (length (lq a ++ led a ++ [c]) = Z.to_nat INPUT_BUF_SIZE)
    then (KeyOut [c] true, mkline (lq a ++ led a ++ [c]) [] (lmem a))
    else (KeyOut [c] false, mkline (lq a) (led a ++ [c]) (lmem a)).

Section spec.
(** The addresses the reader can write to. *)
Context (wr : Z → bool).

Definition spec_store (d : dest) (c : Z) (m : Z → option Z) : bool * list Z * (Z → option Z) :=
  match d with
  | KDst => (true, [c], m)
  | UDst a => (wr a, [], if wr a then λ x, if x =? a then Some c else m x else m)
  end.

(** A read takes characters up to and including a newline, up to control-D,
    which it leaves if it has got something, or as many as wanted. *)
Fixpoint spec_read (killed : bool) (d : dest) (target n : Z) (got q : list Z) (m : Z → option Z) : cout * list Z * (Z → option Z) :=
  if n <=? 0 then (RdOut (RDone (target - n)) got, q, m) else
  match q with
  | [] => (RdOut (if killed then RDone (-1) else RSleep d n) got, [], m)
  | c :: q' =>
      if c =? ctrl 68 then (RdOut (RDone (target - n)) got, if n <? target then q else q', m) else
      let '(ok, bs, m') := spec_store d c m in
      if negb ok then (RdOut (RDone (target - n)) got, q', m)
      else if c =? NL then (RdOut (RDone (target - (n - 1))) (got ++ bs), q', m')
      else spec_read killed (dest_add d 1) target (n - 1) (got ++ bs) q' m'
  end.

Definition spec_op (o : cop) (a : line) : cout * line :=
  match o with
  | Key c => spec_key c a
  | Rd killed d target n => let '(out, q, m) := spec_read killed d target n [] (lq a) (lmem a) in (out, mkline q (led a) m)
  end.
Fixpoint spec_ops (os : list cop) (a : line) : list cout * line :=
  match os with
  | [] => ([], a)
  | o :: os => let '(out, a) := spec_op o a in let '(outs, a) := spec_ops os a in (out :: outs, a)
  end.
End spec.

(** ** The ring buffer *)

(** The console holds the lines [q] and the unfinished line [ed]. *)
Record cinv (c : cons) (q ed : list Z) : Prop := {
  ci_buf : length (c_buf c) = Z.to_nat INPUT_BUF_SIZE;
  ci_r : is_u32 (c_r c);
  ci_w : is_u32 (c_w c);
  ci_e : is_u32 (c_e c);
  ci_queue : ring_queue INPUT_BUF_SIZE (c_buf c) (c_r c) (Z.to_nat (u32 (c_e c - c_r c))) = q ++ ed;
  ci_ready : Z.of_nat (length q) = u32 (c_w c - c_r c);
  ci_all : u32 (c_e c - c_r c) ≤ INPUT_BUF_SIZE;
  ci_line : NL ∉ ed
}.

Section ring.
Context (c : cons) (q ed : list Z) (Hc : cinv c q ed).

Lemma ci_length : Z.of_nat (length q) + Z.of_nat (length ed) = u32 (c_e c - c_r c).
Proof.
  pose proof (f_equal length (ci_queue _ _ _ Hc)) as Hl. rewrite ring_length, length_app in Hl.
  pose proof (u32_range (c_e c - c_r c)). unfold is_u32 in *. lia.
Qed.
Lemma ci_empty : (c_r c =? c_w c) = bool_decide (q = []).
Proof.
  pose proof (ci_ready _ _ _ Hc) as Hr. pose proof (ci_r _ _ _ Hc). pose proof (ci_w _ _ _ Hc). apply eq_iff_eq_true.
  rewrite Z.eqb_eq, bool_decide_eq_true. split; [intros He|intros ->]; [|simpl in Hr; mach_lia].
  rewrite He, Z.sub_diag in Hr. destruct q; [done|simpl in Hr; mach_lia].
Qed.
Lemma ci_edit : (c_e c =? c_w c) = bool_decide (ed = []).
Proof.
  pose proof ci_length as Hl. pose proof (ci_ready _ _ _ Hc) as Hr. pose proof (ci_e _ _ _ Hc). pose proof (ci_w _ _ _ Hc). apply eq_iff_eq_true.
  rewrite Z.eqb_eq, bool_decide_eq_true. split; [intros He|intros ->]; [|simpl in Hl; mach_lia].
  rewrite He in Hl. destruct ed; [done|simpl in Hl; lia].
Qed.

(** Erasing the last character typed. *)
Definition erased : cons := set_c_e (u32 (c_e c - 1)) c.
Lemma erased_ok x ed' : ed = ed' ++ [x] → cinv erased q ed' ∧ c_buf c !!! Z.to_nat (u32 (c_e c - 1) mod INPUT_BUF_SIZE) = x.
Proof.
  intros He. pose proof ci_length as Hl. rewrite He, length_app in Hl. simpl in Hl. destruct Hc as [H1 H2 H3 H4 H5 H6 H7 H8].
  assert (u32 (c_e erased - c_r erased) = u32 (c_e c - c_r c) - 1) as Hm by (unfold erased; simpl; mach_lia).
  replace (Z.to_nat (u32 (c_e c - c_r c))) with (S (Z.to_nat (u32 (c_e c - c_r c) - 1))) in H5 by lia.
  rewrite ring_snoc, He, app_assoc in H5. apply app_inj_tail in H5 as [H5 Hx]. split.
  - split; [done|done|done|apply u32_range|by rewrite Hm|done|lia|]. rewrite He in H8. set_solver.
  - rewrite <- Hx. do 2 f_equal. unfold INPUT_BUF_SIZE. mach_lia.
Qed.

(** Storing a character. *)
Definition stored (b : Z) : cons := set_c_e (u32 (c_e c + 1)) (set_c_buf (<[Z.to_nat (c_e c mod INPUT_BUF_SIZE) := b]> (c_buf c)) c).
Lemma stored_queue b : u32 (c_e c - c_r c) < INPUT_BUF_SIZE → u32 (c_e (stored b) - c_r (stored b)) = u32 (c_e c - c_r c) + 1 ∧
  ring_queue INPUT_BUF_SIZE (c_buf (stored b)) (c_r (stored b)) (Z.to_nat (u32 (c_e c - c_r c) + 1)) = q ++ ed ++ [b].
Proof.
  intros Hlt. destruct Hc as [H1 H2 H3 H4 H5 H6 H7 H8]. pose proof (u32_range (c_e c - c_r c)) as Hu. unfold is_u32 in Hu.
  split; [unfold stored, INPUT_BUF_SIZE in *; simpl; mach_lia|].
  replace (Z.to_nat (u32 (c_e c - c_r c) + 1)) with (S (Z.to_nat (u32 (c_e c - c_r c)))) by lia.
  unfold stored; cbn [c_buf c_r set_c_e set_c_buf].
  replace (c_e c mod INPUT_BUF_SIZE) with ((c_r c + Z.of_nat (Z.to_nat (u32 (c_e c - c_r c)))) mod INPUT_BUF_SIZE) by (unfold INPUT_BUF_SIZE in *; mach_lia).
  rewrite ring_push; [by rewrite H5, app_assoc|done|by rewrite H1|lia].
Qed.
Lemma stored_ok b : u32 (c_e c - c_r c) < INPUT_BUF_SIZE → b ≠ NL → cinv (stored b) q (ed ++ [b]).
Proof.
  intros Hlt Hb. destruct (stored_queue b Hlt) as [Hm Hq]. destruct Hc as [H1 H2 H3 H4 H5 H6 H7 H8].
  split; [simpl; by rewrite length_insert|done|done|apply u32_range|by rewrite Hm|done|lia|set_solver].
Qed.
Lemma committed_ok b : u32 (c_e c - c_r c) < INPUT_BUF_SIZE → cinv (set_c_w (c_e (stored b)) (stored b)) (q ++ ed ++ [b]) [].
Proof.
  intros Hlt. destruct (stored_queue b Hlt) as [Hm Hq]. pose proof ci_length as Hl. destruct Hc as [H1 H2 H3 H4 H5 H6 H7 H8].
  split; [simpl; by rewrite length_insert|done|apply u32_range|apply u32_range| | | |set_solver].
  - change (u32 (c_e (set_c_w _ _) - _)) with (u32 (c_e (stored b) - c_r (stored b))). rewrite Hm, app_nil_r. exact Hq.
  - change (u32 (c_w (set_c_w _ _) - _)) with (u32 (c_e (stored b) - c_r (stored b))). rewrite Hm, !length_app. simpl. lia.
  - change (u32 (c_e (set_c_w _ _) - _)) with (u32 (c_e (stored b) - c_r (stored b))). lia.
Qed.

(** Taking a character. *)
Definition popped : cons := set_c_r (u32 (c_r c + 1)) c.
Lemma popped_ok b q' : q = b :: q' → cinv popped q' ed ∧ c_buf c !!! Z.to_nat (c_r c mod INPUT_BUF_SIZE) = b.
Proof.
  intros Hq. pose proof ci_length as Hl. rewrite Hq in Hl. cbn [length] in Hl. destruct Hc as [H1 H2 H3 H4 H5 H6 H7 H8]. rewrite Hq in H6. cbn [length] in H6.
  assert (u32 (c_e popped - c_r popped) = u32 (c_e c - c_r c) - 1) as Hm by (unfold popped; simpl; mach_lia).
  replace (Z.to_nat (u32 (c_e c - c_r c))) with (S (Z.to_nat (u32 (c_e c - c_r c) - 1))) in H5 by lia.
  rewrite ring_pop, Hq in H5. simpl in H5. injection H5 as Hb H5. split; [|done].
  split; [done|apply u32_range|done|done| |simpl; mach_lia|lia|done]. rewrite Hm, <- H5. apply ring_mod; [done|]. simpl. unfold INPUT_BUF_SIZE. mach_lia.
Qed.
Lemma unpopped : set_c_r (u32 (c_r popped - 1)) popped = c.
Proof.
  pose proof (ci_r _ _ _ Hc) as Hr. assert (u32 (c_r popped - 1) = c_r c) as -> by (unfold popped; simpl; mach_lia).
  unfold popped. clear. by destruct c.
Qed.
End ring.

(** ** Simulation *)

Section sim.
Context {D U : Type} {UD : UartDev D} {UL : UartLaws D} {UM : UserMem U} {UB : UserBytes U}.
Context (wr : Z → bool).

Record crel (s : tty D U) (a : line) : Prop := {
  cr_cons : cinv (co s) (lq a) (led a);
  cr_lock : c_lock (co s) = false;
  cr_port : panicked (ut s) = 0;
  cr_ok : u_ok (tum s);
  cr_wr : ∀ x, u_wr (tum s) x = wr x;
  cr_rd : ∀ x, u_rd (tum s) x = lmem a x
}.

Definition sent (s : tty D U) : list Z := d_sent (dev (ut s)).

(** [s'] is [s] with console state [c] and [e] echoed. *)
Definition echoed (s s' : tty D U) (c : cons) (e : list Z) : Prop :=
  co s' = c ∧ tum s' = tum s ∧ panicked (ut s') = panicked (ut s) ∧ sent s' = sent s ++ e.
Lemma echoed_nil s : echoed s s (co s) [].
Proof. split_and!; try done. by rewrite app_nil_r. Qed.
Lemma echoed_trans s s1 s2 c1 c2 e1 e2 : echoed s s1 c1 e1 → echoed s1 s2 c2 e2 → echoed s s2 c2 (e1 ++ e2).
Proof. intros (Ha & Hb & Hc & Hd) (Ha' & Hb' & Hc' & Hd'). split_and!; try congruence. by rewrite Hd', Hd, app_assoc. Qed.

Lemma echoed_upd s s1 s2 f e e' : echoed s s1 (co s1) e → echoed (upd_co f s1) s2 (f (co s1)) e' → echoed s s2 (f (co s1)) (e ++ e').
Proof. intros (_ & Hb & Hc & Hd) (Ha' & Hb' & Hc' & Hd'). split_and!; [done|by rewrite Hb'|by rewrite Hc'|]. rewrite Hd'. by rewrite app_assoc, <- Hd. Qed.

Lemma port_run {A} (m : M event (uart D) A) (s : tty D U) a u t : m (ut s) = Done a u t → port m s = Done a (mktty (co s) u (tum s)) t.
Proof. intros Hm. unfold port, lift. by rewrite Hm. Qed.

Lemma sync_run c (s : tty D U) : panicked (ut s) = 0 →
  ∃ s', port (uartputc_sync d_patience c) s = Done tt s' [] ∧ echoed s s' (co s) [u8 c].
Proof.
  intros Hp. destruct (uartputc_sync_run c (ut s) Hp) as (d & Hr & Hs). rewrite (port_run _ _ _ _ _ Hr).
  eexists. split; [done|]. split_and!; done.
Qed.

Lemma consputc_run c (s : tty D U) : panicked (ut s) = 0 →
  ∃ s', consputc d_patience c s = Done tt s' [] ∧ echoed s s' (co s) (if c =? BACKSPACE then rubout else [u8 c]).
Proof.
  intros Hp. unfold consputc. destruct (c =? BACKSPACE); [|by apply sync_run].
  destruct (sync_run 8 s Hp) as (s1 & Hr1 & He1). rewrite (bind_done _ _ _ _ _ Hr1). pose proof He1 as (Hc1 & _ & Hp1 & _).
  destruct (sync_run 32 s1) as (s2 & Hr2 & He2); [congruence|]. rewrite (bind_done _ _ _ _ _ Hr2). pose proof He2 as (Hc2 & _ & Hp2 & _).
  destruct (sync_run 8 s2) as (s3 & Hr3 & He3); [congruence|]. rewrite Hr3. exists s3. split; [done|].
  rewrite Hc2, Hc1 in He3. rewrite Hc1 in He2. exact (echoed_trans _ _ _ _ _ _ _ (echoed_trans _ _ _ _ _ _ _ He1 He2) He3).
Qed.

Lemma kill_line_run q ed fuel (s : tty D U) : cinv (co s) q ed → panicked (ut s) = 0 → (length ed < fuel)%nat →
  ∃ s' c, kill_line d_patience fuel s = Done tt s' [] ∧ echoed s s' c (concat (replicate (length ed) rubout)) ∧ cinv c q [] ∧ c_lock c = c_lock (co s).
Proof.
  revert fuel s. induction ed as [|x ed IH] using rev_ind; intros fuel s Hc Hp Hf; (destruct fuel as [|fuel]; [lia|]); cbn [kill_line]; rewrite bind_gets.
  - rewrite (ci_edit _ _ _ Hc), bool_decide_true by done. cbn [negb andb]. exists s, (co s). split; [done|]. split; [apply echoed_nil|]. done.
  - rewrite length_app in *. cbn [length] in *. destruct (erased_ok _ _ _ Hc x ed eq_refl) as [He Hx]. rewrite (ci_edit _ _ _ Hc), Hx.
    assert (x ≠ NL) as Hn by (intros ->; apply (ci_line _ _ _ Hc), elem_of_app; right; left).
    rewrite bool_decide_false by (by destruct ed). rewrite (proj2 (Z.eqb_neq _ _) Hn). cbn [negb andb]. rewrite bind_modify.
    set (s1 := upd_co _ s). destruct (consputc_run BACKSPACE s1 Hp) as (s2 & Hr2 & He2). rewrite (bind_done _ _ _ _ _ Hr2).
    pose proof He2 as (Hc2 & _ & Hp2 & _). destruct (IH fuel s2) as (s3 & c & Hr & He3 & Hc3 & Hl); [by rewrite Hc2|rewrite Hp2; exact Hp|lia|].
    exists s3, c. split; [done|]. split; [|split; [done|by rewrite Hl, Hc2]]. replace (length ed + 1)%nat with (S (length ed)) by lia. cbn [replicate concat].
    eapply (echoed_trans s s2 s3); [|exact He3]. exact He2.
Qed.

Definition key_out (s s' : tty D U) (t : list event) : cout :=
  KeyOut (drop (length (sent s)) (sent s')) (bool_decide (Wakeup A_cons_r ∈ t)).

Lemma key_out_echoed s s' c e t : echoed s s' c e → key_out s s' t = KeyOut e (bool_decide (Wakeup A_cons_r ∈ t)).
Proof. intros (_ & _ & _ & Hs). unfold key_out. by rewrite Hs, drop_app_length. Qed.

(** The end of [consoleintr]: the lock is released. *)
Lemma key_end s s1 a a' c e t : crel s a → echoed s s1 c e → cinv c (lq a') (led a') → c_lock c = true → lmem a' = lmem a →
  ∃ s', release s1 = Done (E:=event) tt s' [] ∧ crel s' a' ∧ key_out s s' t = KeyOut e (bool_decide (Wakeup A_cons_r ∈ t)).
Proof.
  intros [H1 H2 H3 H4 H5 H6] He Hc Hl Hm. pose proof He as (Hco & Hum & Hp & Hs). unfold release. simpl. rewrite Hco, Hl. eexists. split; [done|]. split.
  - split; simpl; [|done|congruence|by rewrite Hum|by rewrite Hum|by rewrite Hum, Hm]. rewrite Hco. destruct Hc; by split.
  - apply (key_out_echoed s _ (mkcons false (c_buf c) (c_r c) (c_w c) (c_e c))). split_and!; [simpl; by rewrite Hco|exact Hum|exact Hp|exact Hs].
Qed.

Lemma cinv_lock b c q ed : cinv c q ed → cinv (mkcons b (c_buf c) (c_r c) (c_w c) (c_e c)) q ed.
Proof. intros []. by split. Qed.

(** A key press. *)
Lemma key_run c s a : crel s a → 0 ≤ c < 256 →
  ∃ s' t, consoleintr d_patience c s = Done tt s' t ∧ crel s' (spec_key c a).2 ∧ key_out s s' t = (spec_key c a).1.
Proof.
  intros Hr Hc256. pose proof Hr as [Hc Hl Hp Hok Hwr Hrd]. unfold consoleintr, spec_key. rewrite bind_lock by done.
  set (s1 := set_held true s). assert (cinv (co s1) (lq a) (led a)) as Hc1 by (by apply cinv_lock).
  assert (echoed s s1 (co s1) []) as He1 by (split_and!; try done; by rewrite app_nil_r).
  assert (c_lock (co s1) = true) as Hl1 by done. assert (panicked (ut s1) = 0) as Hp1 by done. clearbody s1.
  destruct (c =? ctrl 80).
  { rewrite bind_emit. destruct (key_end s s1 a a (co s1) [] [Printf "procdump"] Hr He1 Hc1 Hl1 eq_refl) as (s' & -> & Hr' & Ho). eexists _, _. done. }
  destruct (c =? ctrl 85).
  { pose proof (ci_length _ _ _ Hc1) as Hlen. pose proof (ci_all _ _ _ Hc1).
    destruct (kill_line_run (lq a) (led a) (S (Z.to_nat INPUT_BUF_SIZE)) s1 Hc1 Hp1) as (s2 & c2 & Hr2 & He2 & Hc2 & Hl2); [unfold INPUT_BUF_SIZE in *; lia|].
    rewrite (bind_done _ _ _ _ _ Hr2).
    destruct (key_end s s2 a (mkline (lq a) [] (lmem a)) c2 _ [] Hr (echoed_trans _ _ _ _ _ _ _ He1 He2) Hc2) as (s' & -> & Hr' & Ho); [congruence|done|].
    eexists _, _. split; [done|]. split; [done|]. by rewrite Ho. }
  destruct ((c =? ctrl 72) || (c =? 127)).
  { rewrite bind_assoc, bind_gets. rewrite (ci_edit _ _ _ Hc1). destruct (led a) as [|y l] eqn:Hed.
    - cbn [bool_decide negb]. rewrite bool_decide_true by done. cbn [negb]. rewrite bind_ret.
      destruct (key_end s s1 a a (co s1) [] [] Hr He1) as (s' & -> & Hr' & Ho); [by rewrite Hed|done|done|]. eexists _, _. done.
    - rewrite bool_decide_false by done. cbn [negb]. destruct (exists_last (l:=y :: l) ltac:(done)) as (ed & x & Hx).
      rewrite bind_assoc, bind_modify. destruct (erased_ok _ _ _ Hc1 x ed Hx) as [Hc2 _]. set (s2 := upd_co _ s1).
      destruct (consputc_run BACKSPACE s2 Hp1) as (s3 & Hr3 & He3). rewrite (bind_done _ _ _ _ _ Hr3).
      pose proof (echoed_upd _ _ _ _ _ _ He1 He3) as He.
      destruct (key_end s s3 a (mkline (lq a) (removelast (y :: l)) (lmem a)) (erased (co s1)) rubout [] Hr He) as (s' & -> & Hr' & Ho); [|done|done|].
      { rewrite Hx, removelast_last. done. }
      eexists _, _. done. }
  pose proof (ci_length _ _ _ Hc1) as Hlen. pose proof (ci_all _ _ _ Hc1) as Hall. rewrite bind_assoc, bind_gets.
  assert (negb (c =? 0) && (u32 (c_e (co s1) - c_r (co s1)) <? INPUT_BUF_SIZE) =
    negb ((c =? 0) || bool_decide (length (lq a ++ led a) = Z.to_nat INPUT_BUF_SIZE))) as ->.
  { rewrite negb_orb. f_equal. rewrite length_app. destruct (Z.ltb_spec (u32 (c_e (co s1) - c_r (co s1))) INPUT_BUF_SIZE);
      [rewrite bool_decide_false by lia|rewrite bool_decide_true by (unfold INPUT_BUF_SIZE in *; lia)]; done. }
  destruct ((c =? 0) || _) eqn:Hcond; cbn [negb].
  { rewrite bind_ret. destruct (key_end s s1 a a (co s1) [] [] Hr He1 Hc1 Hl1 eq_refl) as (s' & -> & Hr' & Ho). eexists _, _. done. }
  apply orb_false_iff in Hcond as [_ Hfull]. apply bool_decide_eq_false in Hfull. rewrite length_app in Hfull.
  set (c' := if c =? CR then NL else c). assert (0 ≤ c' < 256) as Hc' by (unfold c', NL; destruct (c =? CR); lia).
  assert (u8 c' = c') as Hu8 by mach_lia. cbv zeta.
  rewrite bind_assoc. destruct (consputc_run c' s1 Hp1) as (s2 & Hr2 & He2). rewrite (bind_done _ _ _ _ _ Hr2).
  rewrite (proj2 (Z.eqb_neq c' BACKSPACE)) in He2 by (unfold BACKSPACE; lia). rewrite Hu8 in He2. pose proof He2 as (Hco2 & _ & _ & _).
  pose proof (echoed_trans _ _ _ _ _ _ _ He1 He2) as He. rewrite app_nil_l in He. rewrite <- Hco2 in He, Hc1, Hl1, Hlen, Hall. clear He2 Hr2 Hco2.
  rewrite !bind_assoc, !bind_modify, bind_assoc, bind_modify, bind_assoc, bind_gets. rewrite Hu8. set (s3 := upd_co _ (upd_co _ s2)).
  assert (co s3 = stored (co s2) c') as Hco3 by done. rewrite Hco3.
  assert (u32 (c_e (co s2) - c_r (co s2)) < INPUT_BUF_SIZE) as Hlt by (unfold INPUT_BUF_SIZE in *; lia).
  destruct (stored_queue _ _ _ Hc1 c' Hlt) as [Hm _]. rewrite Hm.
  assert ((u32 (c_e (co s2) - c_r (co s2)) + 1 =? INPUT_BUF_SIZE) = bool_decide (length (lq a ++ led a ++ [c']) = Z.to_nat INPUT_BUF_SIZE)) as ->.
  { rewrite !length_app. cbn [length]. destruct (Z.eqb_spec (u32 (c_e (co s2) - c_r (co s2)) + 1) INPUT_BUF_SIZE);
      [rewrite bool_decide_true by lia|rewrite bool_decide_false by (unfold INPUT_BUF_SIZE in *; lia)]; done. }
  assert (echoed s s3 (co s3) [c']) as He3 by (destruct He as (_ & ? & ? & ?); by split_and!).
  destruct ((c' =? NL) || (c' =? ctrl 68) || _) eqn:Hcommit.
  - rewrite bind_assoc, bind_modify, bind_emit. set (s4 := upd_co _ s3).
    destruct (key_end s s4 a (mkline (lq a ++ led a ++ [c']) [] (lmem a)) (co s4) [c'] [Wakeup A_cons_r] Hr) as (s' & -> & Hr' & Ho);
      [destruct He3 as (_ & ? & ? & ?); by split_and!|exact (committed_ok _ _ _ Hc1 c' Hlt)|exact Hl1|done|].
    exists s', [Wakeup A_cons_r]. split; [done|]. split; [done|]. rewrite Ho. by rewrite bool_decide_true by left.
  - rewrite bind_ret. apply orb_false_iff in Hcommit as [[Hnl _]%orb_false_iff _]. apply Z.eqb_neq in Hnl.
    destruct (key_end s s3 a (mkline (lq a) (led a ++ [c']) (lmem a)) (co s3) [c'] [] Hr He3 (stored_ok _ _ _ Hc1 c' Hlt Hnl) Hl1 eq_refl)
      as (s' & -> & Hr' & Ho). eexists _, _. done.
Qed.

(** A read. *)
Definition dest_ok (d : dest) : Prop := match d with UDst x => is_u64 x | KDst => True end.
Lemma dest_ok_add d n : dest_ok d → dest_ok (dest_add d n).
Proof. destruct d; [done|]. intros _. apply u64_range. Qed.

(** The end of [consoleread], in state [s] with [c] for the console. *)
Lemma read_end {A} (v : A) (s : tty D U) q ed m : cinv (co s) q ed → c_lock (co s) = true → panicked (ut s) = 0 → u_ok (tum s) →
  (∀ x, u_wr (tum s) x = wr x) → (∀ x, u_rd (tum s) x = m x) →
  ∃ s', (release ;; ret v : M event (tty D U) A) s = Done v s' [] ∧ crel s' (mkline q ed m) ∧ sent s' = sent s.
Proof.
  intros Hc Hl Hp Hok Hwr Hrd. rewrite bind_unlock by done. eexists. split; [done|]. split; [|done].
  split; simpl; try done. by apply cinv_lock.
Qed.

Lemma store_run d c (s : tty D U) m : dest_ok d → u_ok (tum s) → (∀ x, u_wr (tum s) x = wr x) → (∀ x, u_rd (tum s) x = m x) →
  let '(ok, bs, m') := spec_store wr d c m in
  ∃ u, tmem (either_copyout d [c]) s = Done (if ok then 0 else -1, bs) (mktty (co s) (ut s) u) [] ∧ u_ok u ∧
    (∀ x, u_wr u x = wr x) ∧ (∀ x, u_rd u x = m' x).
Proof.
  intros Hd Hok Hwr Hrd. unfold tmem, lift, either_copyout. destruct d as [|a]; simpl.
  - exists (tum s). by destruct s.
  - destruct (u_copyout1 (tum s) a c Hok Hd) as (u & Hr & Hok' & Hw & Hm). rewrite (bind_done _ _ _ _ _ Hr). exists u.
    rewrite Hwr. split; [by destruct s|]. split_and!; [done|intros x; by rewrite Hw|]. intros x. rewrite Hm, Hwr. destruct (wr a); simpl; [|done].
    by rewrite Hrd.
Qed.

Lemma read_run killed target d n got (s : tty D U) q ed m fuel : is_i32 target → 0 ≤ n ≤ target ∨ n = target → dest_ok d →
  cinv (co s) q ed → c_lock (co s) = true → panicked (ut s) = 0 → u_ok (tum s) → (∀ x, u_wr (tum s) x = wr x) → (∀ x, u_rd (tum s) x = m x) →
  (Z.to_nat n ≤ fuel)%nat →
  let '(out, q', m') := spec_read wr killed d target n got q m in
  ∃ t g s', consoleread_loop fuel killed d target n got s = Done (t, g) s' [] ∧ out = RdOut t g ∧ crel s' (mkline q' ed m') ∧ sent s' = sent s.
Proof.
  intros Ht. revert d n got s q m. induction fuel as [|fuel IH]; intros d n got s q m Hn Hd Hc Hl Hp Hok Hwr Hrd Hf;
    (destruct (Z.leb_spec n 0) as [Hn0|Hn0]; [|try lia]).
  1, 2: assert (spec_read wr killed d target n got q m = (RdOut (RDone (target - n)) got, q, m)) as -> by (destruct q; cbn [spec_read]; by rewrite (proj2 (Z.leb_le _ _) Hn0)).
  1, 2: cbn [consoleread_loop]; rewrite (proj2 (Z.ltb_ge _ _) Hn0); cbn [negb].
  1, 2: destruct (read_end (RDone (i32 (target - n)), got) s q ed m Hc Hl Hp Hok Hwr Hrd) as (s' & -> & Hr & Hs).
  1, 2: eexists _, _, s'; split_and!; [done| |done|done]; do 2 f_equal; symmetry; apply i32_small; unfold is_i32, INT_MIN, INT_MAX in *; lia.
  cbn [consoleread_loop]. rewrite (proj2 (Z.ltb_lt _ _) Hn0). cbn [negb]. rewrite bind_gets, (ci_empty _ _ _ Hc).
  assert (i32 (target - n) = target - n) as Hi by (apply i32_small; unfold is_i32, INT_MIN, INT_MAX in *; lia).
  destruct q as [|b q]; cbn [spec_read]; rewrite (proj2 (Z.leb_gt _ _) Hn0).
  - rewrite bool_decide_true by done.
    destruct killed; [destruct (read_end (RDone (-1), got) s [] ed m Hc Hl Hp Hok Hwr Hrd) as (s' & -> & Hr & Hs)|
      destruct (read_end (RSleep d n, got) s [] ed m Hc Hl Hp Hok Hwr Hrd) as (s' & -> & Hr & Hs)]; eexists _, _, s'; done.
  - rewrite bool_decide_false by done. destruct (popped_ok _ _ _ Hc b q eq_refl) as [Hc1 ->]. cbv zeta. rewrite bind_modify.
    set (s1 := upd_co _ s). destruct (b =? ctrl 68).
    + rewrite Hi. assert ((u32 n <? u32 target) = (n <? target)) as -> by (rewrite !u32_small by (unfold is_i32, is_u32, INT_MIN, INT_MAX in *; lia); done).
      destruct (n <? target).
      * rewrite bind_modify. set (s2 := upd_co _ s1). assert (co s2 = co s) as Hco by (exact (unpopped _ _ _ Hc)).
        destruct (read_end (RDone (target - n), got) s2 (b :: q) ed m) as (s' & -> & Hr & Hs); try done; [by rewrite Hco..|]. eexists _, _, s'. done.
      * rewrite bind_ret. destruct (read_end (RDone (target - n), got) s1 q ed m) as (s' & -> & Hr & Hs); try done. eexists _, _, s'. done.
    + pose proof (store_run d b s1 m Hd Hok Hwr Hrd) as Hst. destruct (spec_store wr d b m) as [[ok bs] m'] eqn:Hss. destruct Hst as (u & Hru & Hok' & Hwr' & Hrd').
      rewrite (bind_done _ _ _ _ _ Hru). destruct ok; cbn [negb].
      * change (0 =? -1) with false. cbv iota. destruct (b =? NL).
        -- assert (i32 (target - (n - 1)) = target - (n - 1)) as -> by (apply i32_small; unfold is_i32, INT_MIN, INT_MAX in *; lia).
           destruct (read_end (RDone (target - (n - 1)), got ++ bs) (mktty (co s1) (ut s1) u) q ed m') as (s' & -> & Hr & Hs); try done. eexists _, _, s'. done.
        -- apply (IH (dest_add d 1) (n - 1) (got ++ bs) (mktty (co s1) (ut s1) u) q m'); try done; [lia|by apply dest_ok_add|lia].
      * change (-1 =? -1) with true. cbv iota. rewrite Hi.
        destruct (read_end (RDone (target - n), got) (mktty (co s1) (ut s1) u) q ed m) as (s' & -> & Hr & Hs); try done; [|eexists _, _, s'; done].
        intros x. rewrite Hrd'. unfold spec_store in Hss. destruct d as [|a]; [done|]. destruct (wr a); [done|]. by injection Hss as _ <-.
Qed.

(** ** Sequences of operations *)

Definition run_op (o : cop) (s : tty D U) : option (cout * tty D U) :=
  match o with
  | Key c => match consoleintr d_patience c s with Done _ s' t => Some (key_out s s' t, s') | _ => None end
  | Rd killed d target n => match consoleread_turn killed d target n s with Done (t, g) s' _ => Some (RdOut t g, s') | _ => None end
  end.
Fixpoint run_cops (os : list cop) (s : tty D U) : option (list cout * tty D U) :=
  match os with
  | [] => Some ([], s)
  | o :: os => '(out, s) ← run_op o s; '(outs, s) ← run_cops os s; Some (out :: outs, s)
  end.

Definition op_ok (o : cop) : Prop :=
  match o with
  | Key c => 0 ≤ c < 256
  | Rd _ d target n => is_i32 target ∧ (0 ≤ n ≤ target ∨ n = target) ∧ dest_ok d
  end.

Lemma op_run o s a : crel s a → op_ok o → ∃ s', run_op o s = Some ((spec_op wr o a).1, s') ∧ crel s' (spec_op wr o a).2.
Proof.
  intros Hr Ho. destruct o as [c|killed d target n]; simpl in *.
  - destruct (key_run c s a Hr Ho) as (s' & t & -> & Hr' & <-). by exists s'.
  - destruct Ho as (Ht & Hn & Hd). pose proof Hr as [Hc Hl Hp Hok Hwr Hrd]. unfold consoleread_turn. rewrite bind_lock by done.
    pose proof (read_run killed target d n [] (set_held true s) (lq a) (led a) (lmem a) (Z.to_nat n) Ht Hn Hd) as Hrun.
    destruct (spec_read wr killed d target n [] (lq a) (lmem a)) as [[out q] m].
    destruct Hrun as (t & g & s' & -> & -> & Hr' & _); try done; [by apply cinv_lock|]. by exists s'.
Qed.
End sim.

(** The console after [consoleinit]. *)
Definition cons0 : cons := mkcons false (replicate (Z.to_nat INPUT_BUF_SIZE) 0) 0 0 0.
Lemma cons0_inv : cinv cons0 [] [].
Proof. split; try done. set_solver. Qed.

(** C25. The console is a line editor. However key presses and reads interleave,
    it behaves as the editor on lists: erase, kill and echo act on the line being
    typed; the line becomes readable, and readers are woken, exactly when it is
    ended by a newline or control-D or the buffer is full; nothing is lost or
    duplicated, in whatever places of the ring buffer it is kept; and a read
    takes from the readable lines up to a newline, up to control-D or as many as
    wanted, stores them in user memory, and waits only when there are none. Every
    operation returns. *)
Theorem console_refines {D U} {UD : UartDev D} {UL : UartLaws D} {UM : UserMem U} {UB : UserBytes U} wr os (s : tty D U) a :
  crel wr s a → Forall op_ok os → ∃ s', run_cops os s = Some ((spec_ops wr os a).1, s') ∧ crel wr s' (spec_ops wr os a).2.
Proof.
  revert s a. induction os as [|o os IH]; intros s a Hr Hos; simpl; [by exists s|]. apply Forall_cons in Hos as [Ho Hos].
  destruct (op_run wr o s a Hr Ho) as (s1 & -> & Hr1). simpl. destruct (spec_op wr o a) as [out a1]. simpl in *.
  destruct (IH s1 a1 Hr1 Hos) as (s2 & -> & Hr2). simpl. destruct (spec_ops wr os a1) as [outs a2]. by exists s2.
Qed.

(** A reader with no memory of its own, for reads into the kernel. *)
#[local] Instance nomem : UserMem unit :=
  {| u_copyout _ _ := ret (-1); u_copyin _ _ := ret ([], -1); u_copyinstr _ _ := ret ([], -1) |}.
#[local, refine] Instance nomem_bytes : UserBytes unit := {| u_ok _ := True; u_rd _ _ := None; u_wr _ _ := false |}.
Proof. all: intros []; eauto. Defined.

Lemma console_refines_witness : ∃ s, run_cops [Key 104; Key 120; Key 8; Key 105; Key 13; Rd false KDst 10 10] (mktty cons0 (uart0 (mksim [] false [])) tt) =
  Some ([KeyOut [104] false; KeyOut [120] false; KeyOut [8; 32; 8] false; KeyOut [105] false; KeyOut [10] true; RdOut (RDone 3) [104; 105; 10]], s).
Proof.
  destruct (console_refines (λ _, false) [Key 104; Key 120; Key 8; Key 105; Key 13; Rd false KDst 10 10] (mktty cons0 (uart0 (mksim [] false [])) tt) (mkline [] [] (λ _, None)))
    as (s & -> & _).
  - split; try done. apply cons0_inv.
  - repeat constructor; unfold INT_MIN, INT_MAX; try lia.
  - exists s. vm_compute. reflexivity.
Defined.
