(* ===== verification/Virtio.v ===== *)
(** The driver of the virtio disk ([virtio_disk.c], [virtio.h]). *)
From Stdlib Require Import ZArith Lia.
From stdpp Require Import base list gmap strings.
From S2P Require Import Prelude Machine Mem.

(** ** Registers and constants *)

Definition VIRTIO_MMIO_MAGIC_VALUE : Z := 0x000.
Definition VIRTIO_MMIO_VERSION : Z := 0x004.
Definition VIRTIO_MMIO_DEVICE_ID : Z := 0x008.
Definition VIRTIO_MMIO_VENDOR_ID : Z := 0x00c.
Definition VIRTIO_MMIO_DEVICE_FEATURES : Z := 0x010.
Definition VIRTIO_MMIO_DRIVER_FEATURES : Z := 0x020.
Definition VIRTIO_MMIO_QUEUE_SEL : Z := 0x030.
Definition VIRTIO_MMIO_QUEUE_NUM_MAX : Z := 0x034.
Definition VIRTIO_MMIO_QUEUE_NUM : Z := 0x038.
Definition VIRTIO_MMIO_QUEUE_READY : Z := 0x044.
Definition VIRTIO_MMIO_QUEUE_NOTIFY : Z := 0x050.
Definition VIRTIO_MMIO_INTERRUPT_STATUS : Z := 0x060.
Definition VIRTIO_MMIO_INTERRUPT_ACK : Z := 0x064.
Definition VIRTIO_MMIO_STATUS : Z := 0x070.
Definition VIRTIO_MMIO_QUEUE_DESC_LOW : Z := 0x080.
Definition VIRTIO_MMIO_QUEUE_DESC_HIGH : Z := 0x084.
Definition VIRTIO_MMIO_DRIVER_DESC_LOW : Z := 0x090.
Definition VIRTIO_MMIO_DRIVER_DESC_HIGH : Z := 0x094.
Definition VIRTIO_MMIO_DEVICE_DESC_LOW : Z := 0x0a0.
Definition VIRTIO_MMIO_DEVICE_DESC_HIGH : Z := 0x0a4.
Definition VIRTIO_CONFIG_S_ACKNOWLEDGE : Z := 1.
Definition VIRTIO_CONFIG_S_DRIVER : Z := 2.
Definition VIRTIO_CONFIG_S_DRIVER_OK : Z := 4.
Definition VIRTIO_CONFIG_S_FEATURES_OK : Z := 8.
Definition VIRTIO_BLK_F_RO : Z := 5.
Definition VIRTIO_BLK_F_SCSI : Z := 7.
Definition VIRTIO_BLK_F_CONFIG_WCE : Z := 11.
Definition VIRTIO_BLK_F_MQ : Z := 12.
Definition VIRTIO_F_ANY_LAYOUT : Z := 27.
Definition VIRTIO_RING_F_INDIRECT_DESC : Z := 28.
Definition VIRTIO_RING_F_EVENT_IDX : Z := 29.
Definition NUM : nat := 8.
Definition VRING_DESC_F_NEXT : Z := 1.
Definition VRING_DESC_F_WRITE : Z := 2.
Definition VIRTIO_BLK_T_IN : Z := 0.
Definition VIRTIO_BLK_T_OUT : Z := 1.

(** ** State *)

(** What a descriptor points to: [disk.ops[i]], the data of a buffer, or
    [disk.info[i].status]. *)
Inductive vaddr : Type := VNull | VOps (i : nat) | VData (b : nat) | VStatus (i : nat).

(** [struct virtq_desc]. *)
Record virtq_desc := mkdesc { vd_addr : vaddr; vd_len : Z; vd_flags : Z; vd_next : Z }.
Definition desc0 : virtq_desc := mkdesc VNull 0 0 0.
#[export] Instance virtq_desc_inhabited : Inhabited virtq_desc := populate desc0.
(** [struct virtio_blk_req]. *)
Record virtio_blk_req := mkreq { vr_type : Z; vr_reserved : Z; vr_sector : Z }.
Definition req0 : virtio_blk_req := mkreq 0 0 0.
#[export] Instance virtio_blk_req_inhabited : Inhabited virtio_blk_req := populate req0.
(** What the driver uses of [struct buf]. *)
Record vbuf := mkvbuf { vb_disk : Z; vb_blockno : Z; vb_data : list Z }.
#[export] Instance vbuf_inhabited : Inhabited vbuf := populate (mkvbuf 0 0 []).

(** [disk], with the rings it points to ([avail->idx], [avail->ring],
    [used->idx], the ids of [used->ring]), and the buffers. *)
Record vdisk := mkvdisk {
  v_lock : bool;
  v_desc : list virtq_desc;
  av_idx : Z;
  av_ring : list Z;
  us_idx : Z;
  us_ring : list Z;
  v_free : list bool;
  v_used_idx : Z;
  v_info : list (option nat * Z);
  v_ops : list virtio_blk_req;
  v_bufs : list vbuf
}.
Definition set_v_desc (x : list virtq_desc) (s : vdisk) : vdisk :=
  mkvdisk (v_lock s) x (av_idx s) (av_ring s) (us_idx s) (us_ring s) (v_free s) (v_used_idx s) (v_info s) (v_ops s) (v_bufs s).
Definition set_avail (i : Z) (r : list Z) (s : vdisk) : vdisk :=
  mkvdisk (v_lock s) (v_desc s) i r (us_idx s) (us_ring s) (v_free s) (v_used_idx s) (v_info s) (v_ops s) (v_bufs s).
Definition set_used (i : Z) (r : list Z) (s : vdisk) : vdisk :=
  mkvdisk (v_lock s) (v_desc s) (av_idx s) (av_ring s) i r (v_free s) (v_used_idx s) (v_info s) (v_ops s) (v_bufs s).
Definition set_v_free (x : list bool) (s : vdisk) : vdisk :=
  mkvdisk (v_lock s) (v_desc s) (av_idx s) (av_ring s) (us_idx s) (us_ring s) x (v_used_idx s) (v_info s) (v_ops s) (v_bufs s).
Definition set_v_used_idx (x : Z) (s : vdisk) : vdisk :=
  mkvdisk (v_lock s) (v_desc s) (av_idx s) (av_ring s) (us_idx s) (us_ring s) (v_free s) x (v_info s) (v_ops s) (v_bufs s).
Definition set_v_info (x : list (option nat * Z)) (s : vdisk) : vdisk :=
  mkvdisk (v_lock s) (v_desc s) (av_idx s) (av_ring s) (us_idx s) (us_ring s) (v_free s) (v_used_idx s) x (v_ops s) (v_bufs s).
Definition set_v_ops (x : list virtio_blk_req) (s : vdisk) : vdisk :=
  mkvdisk (v_lock s) (v_desc s) (av_idx s) (av_ring s) (us_idx s) (us_ring s) (v_free s) (v_used_idx s) (v_info s) x (v_bufs s).
Definition set_v_bufs (x : list vbuf) (s : vdisk) : vdisk :=
  mkvdisk (v_lock s) (v_desc s) (av_idx s) (av_ring s) (us_idx s) (us_ring s) (v_free s) (v_used_idx s) (v_info s) (v_ops s) x.

#[export, refine] Instance vdisk_locked : Locked vdisk :=
  {| held := v_lock;
     set_held b s := mkvdisk b (v_desc s) (av_idx s) (av_ring s) (us_idx s) (us_ring s) (v_free s) (v_used_idx s) (v_info s) (v_ops s) (v_bufs s) |}.
Proof. all: by try intros ? ? []; try intros ? []; try intros []. Defined.

(** What the driver shows: wakeups and register writes. *)
Inductive vevent : Type := VWakeup (c : addr) | MmioWrite (r v : Z).

Local Abbreviation V := (M vevent vdisk).

Definition upd_desc (i : nat) (d : virtq_desc) (s : vdisk) : vdisk := set_v_desc (<[i := d]> (v_desc s)) s.
Definition upd_free (i : nat) (b : bool) (s : vdisk) : vdisk := set_v_free (<[i := b]> (v_free s)) s.
Definition upd_info (i : nat) (f : option nat * Z → option nat * Z) (s : vdisk) : vdisk := set_v_info (alter f i (v_info s)) s.
Definition upd_vbuf (b : nat) (f : vbuf → vbuf) (s : vdisk) : vdisk := set_v_bufs (alter f b (v_bufs s)) s.
Definition set_vb_disk (x : Z) (b : vbuf) : vbuf := mkvbuf x (vb_blockno b) (vb_data b).
Definition set_vb_data (x : list Z) (b : vbuf) : vbuf := mkvbuf (vb_disk b) (vb_blockno b) x.

(** ** Descriptors *)

Definition alloc_desc : V (option nat) :=
  for_find NUM (λ i,
    let! s := gets id in
    if (v_free s !!! i : bool) then modify (upd_free i false) ;; ret (Some i) else ret None).

Definition free_desc (i : nat) : V unit :=
  if (NUM <=? i)%nat then panic "free_desc 1" else
  let! s := gets id in
  if (v_free s !!! i : bool) then panic "free_desc 2" else
  modify (upd_desc i desc0) ;;
  modify (upd_free i true) ;;
  emit (VWakeup A_disk_free).

(** A chain has at most [NUM] descriptors, which bounds the [while(1)]. *)
Fixpoint free_chain_loop (fuel : nat) (i : nat) : V unit :=
  match fuel with
  | O => λ s, Spin s []
  | S f =>
      let! s := gets id in
      let flag := vd_flags (v_desc s !!! i) in
      let nxt := vd_next (v_desc s !!! i) in
      free_desc i ;;
      if negb (Z.land flag VRING_DESC_F_NEXT =? 0) then free_chain_loop f (Z.to_nat nxt) else ret tt
  end.
Definition free_chain (i : nat) : V unit := free_chain_loop NUM i.

Definition alloc3_desc : V (option (nat * nat * nat)) :=
  let! i0 := alloc_desc in
  match i0 with
  | None => ret None
  | Some i0 =>
      let! i1 := alloc_desc in
      match i1 with
      | None => free_desc i0 ;; ret None
      | Some i1 =>
          let! i2 := alloc_desc in
          match i2 with
          | None => free_desc i0 ;; free_desc i1 ;; ret None
          | Some i2 => ret (Some (i0, i1, i2))
          end
      end
  end.

(** ** Transfers *)

(** How a call ends: it sleeps for descriptors, or for the transfer with head
    [i], or it returns. *)
Inductive vturn : Type := NoDesc | Waiting (i : nat) | Finished.

(** From the formatting of the descriptors to the notification. *)
Definition rw_submit (b : nat) (write : bool) (i0 i1 i2 : nat) : V unit :=
  let! s := gets id in
  let sector := u32 (vb_blockno (v_bufs s !!! b) * (1024 / 512)) in
  modify (λ s, set_v_ops (<[i0 := mkreq (if write then VIRTIO_BLK_T_OUT else VIRTIO_BLK_T_IN) 0 sector]> (v_ops s)) s) ;;
  modify (upd_desc i0 (mkdesc (VOps i0) 16 VRING_DESC_F_NEXT (Z.of_nat i1))) ;;
  modify (upd_desc i1 (mkdesc (VData b) 1024 (Z.lor (if write then 0 else VRING_DESC_F_WRITE) VRING_DESC_F_NEXT) (Z.of_nat i2))) ;;
  modify (upd_info i0 (λ x, (x.1, 255))) ;;
  modify (upd_desc i2 (mkdesc (VStatus i0) 1 VRING_DESC_F_WRITE 0)) ;;
  modify (upd_vbuf b (set_vb_disk 1)) ;;
  modify (upd_info i0 (λ x, (Some b, x.2))) ;;
  modify (λ s, set_avail (av_idx s) (<[Z.to_nat (av_idx s mod Z.of_nat NUM) := Z.of_nat i0]> (av_ring s)) s) ;;
  modify (λ s, set_avail (u16 (av_idx s + 1)) (av_ring s) s) ;;
  emit (MmioWrite VIRTIO_MMIO_QUEUE_NOTIFY 0).

(** The wait loop of [virtio_disk_rw] and what follows it, the lock held. *)
Definition rw_wait (b i0 : nat) : V vturn :=
  let! s := gets id in
  if vb_disk (v_bufs s !!! b) =? 1 then release ;; ret (Waiting i0) else
  modify (upd_info i0 (λ x, (None, x.2))) ;;
  free_chain i0 ;;
  release ;;
  ret Finished.

(** [virtio_disk_rw] up to its first sleep, also after a sleep for
    descriptors. *)
Definition virtio_rw_start (b : nat) (write : bool) : V vturn :=
  acquire ;;
  let! idx := alloc3_desc in
  match idx with
  | None => release ;; ret NoDesc
  | Some (i0, i1, i2) => rw_submit b write i0 i1 i2 ;; rw_wait b i0
  end.
(** [virtio_disk_rw] after a sleep for the transfer. *)
Definition virtio_rw_resume (b i0 : nat) : V vturn := acquire ;; rw_wait b i0.

(** The loop of [virtio_disk_intr]; [used->idx] counts modulo 2^16. *)
Fixpoint intr_loop (fuel : nat) : V unit :=
  let! s := gets id in
  if v_used_idx s =? us_idx s then ret tt else
  match fuel with
  | O => λ s, Spin s []
  | S f =>
      let i := Z.to_nat (us_ring s !!! Z.to_nat (v_used_idx s mod Z.of_nat NUM)) in
      if negb ((v_info s !!! i).2 =? 0) then panic "virtio_disk_intr status" else
      match (v_info s !!! i).1 with
      | None => panic "kerneltrap"
      | Some b =>
          modify (upd_vbuf b (set_vb_disk 0)) ;;
          emit (VWakeup (A_buf b)) ;;
          modify (λ s, set_v_used_idx (u16 (v_used_idx s + 1)) s) ;;
          intr_loop f
      end
  end.
(** [status] is what the interrupt status register reads. *)
Definition virtio_disk_intr (status : Z) : V unit :=
  acquire ;;
  emit (MmioWrite VIRTIO_MMIO_INTERRUPT_ACK (Z.land status 3)) ;;
  intr_loop (Z.to_nat 65536) ;;
  release.

(** ** Initialisation *)

(** [features &= ~(1 << b)]. *)
Definition without_bit (b x : Z) : Z := Z.land x (Z.lnot (Z.shiftl 1 b)).

(** [mmio r] is what register [r] reads the first time it is read, [status]
    what the status register reads after the negotiation, and [desc], [avail]
    and [used] the pages [kalloc] returned. *)
Definition virtio_disk_init (mmio : Z → Z) (status desc avail used : Z) : V unit :=
  modify (set_held false) ;;
  if negb (mmio VIRTIO_MMIO_MAGIC_VALUE =? 0x74726976) || negb (mmio VIRTIO_MMIO_VERSION =? 2) ||
     negb (mmio VIRTIO_MMIO_DEVICE_ID =? 2) || negb (mmio VIRTIO_MMIO_VENDOR_ID =? 0x554d4551)
  then panic "could not find virtio disk" else
  emit (MmioWrite VIRTIO_MMIO_STATUS 0) ;;
  emit (MmioWrite VIRTIO_MMIO_STATUS VIRTIO_CONFIG_S_ACKNOWLEDGE) ;;
  emit (MmioWrite VIRTIO_MMIO_STATUS (Z.lor VIRTIO_CONFIG_S_ACKNOWLEDGE VIRTIO_CONFIG_S_DRIVER)) ;;
  let features := without_bit VIRTIO_RING_F_INDIRECT_DESC (without_bit VIRTIO_RING_F_EVENT_IDX (without_bit VIRTIO_F_ANY_LAYOUT
    (without_bit VIRTIO_BLK_F_MQ (without_bit VIRTIO_BLK_F_CONFIG_WCE (without_bit VIRTIO_BLK_F_SCSI (without_bit VIRTIO_BLK_F_RO
      (mmio VIRTIO_MMIO_DEVICE_FEATURES))))))) in
  emit (MmioWrite VIRTIO_MMIO_DRIVER_FEATURES (u32 features)) ;;
  emit (MmioWrite VIRTIO_MMIO_STATUS (Z.lor (Z.lor VIRTIO_CONFIG_S_ACKNOWLEDGE VIRTIO_CONFIG_S_DRIVER) VIRTIO_CONFIG_S_FEATURES_OK)) ;;
  if Z.land status VIRTIO_CONFIG_S_FEATURES_OK =? 0 then panic "virtio disk FEATURES_OK unset" else
  emit (MmioWrite VIRTIO_MMIO_QUEUE_SEL 0) ;;
  if negb (mmio VIRTIO_MMIO_QUEUE_READY =? 0) then panic "virtio disk should not be ready" else
  let max := mmio VIRTIO_MMIO_QUEUE_NUM_MAX in
  if max =? 0 then panic "virtio disk has no queue 0" else
  if max <? Z.of_nat NUM then panic "virtio disk max queue too short" else
  if (desc =? 0) || (avail =? 0) || (used =? 0) then panic "virtio disk kalloc" else
  modify (set_v_desc (replicate NUM desc0)) ;;
  modify (set_avail 0 (replicate NUM 0)) ;;
  modify (set_used 0 (replicate NUM 0)) ;;
  emit (MmioWrite VIRTIO_MMIO_QUEUE_NUM (Z.of_nat NUM)) ;;
  emit (MmioWrite VIRTIO_MMIO_QUEUE_DESC_LOW (u32 desc)) ;;
  emit (MmioWrite VIRTIO_MMIO_QUEUE_DESC_HIGH (u32 (Z.shiftr desc 32))) ;;
  emit (MmioWrite VIRTIO_MMIO_DRIVER_DESC_LOW (u32 avail)) ;;
  emit (MmioWrite VIRTIO_MMIO_DRIVER_DESC_HIGH (u32 (Z.shiftr avail 32))) ;;
  emit (MmioWrite VIRTIO_MMIO_DEVICE_DESC_LOW (u32 used)) ;;
  emit (MmioWrite VIRTIO_MMIO_DEVICE_DESC_HIGH (u32 (Z.shiftr used 32))) ;;
  emit (MmioWrite VIRTIO_MMIO_QUEUE_READY 1) ;;
  for_upto NUM (λ i, modify (upd_free i true)) ;;
  emit (MmioWrite VIRTIO_MMIO_STATUS (Z.lor status VIRTIO_CONFIG_S_DRIVER_OK)).
