(* ===== verification/VirtioRun.v ===== *)
(** The disk device and the processes that use the driver of [virtio_disk.c], the
    specification of the driver, and what each of its operations does. *)
From Stdlib Require Import ZArith Lia.
From stdpp Require Import base list gmap strings.
From S2P Require Import Prelude Machine Mem Ring Virtio.

(** ** Descriptors *)

Lemma alloc_search n i s : (i + n = NUM)%nat → length (v_free s) = NUM →
  (∃ j, (i ≤ j < NUM)%nat ∧ v_free s !! j = Some true ∧
     for_find_from n i (λ i, let! s := gets id in if (v_free s !!! i : bool) then modify (upd_free i false) ;; ret (Some i) else ret None) s =
     Done (E:=vevent) (Some j) (upd_free j false s) []) ∨
  ((∀ j, (i ≤ j < NUM)%nat → v_free s !! j = Some false) ∧
     for_find_from n i (λ i, let! s := gets id in if (v_free s !!! i : bool) then modify (upd_free i false) ;; ret (Some i) else ret None) s =
     Done (E:=vevent) None s []).
Proof.
  revert i. induction n as [|n IH]; intros i Hn Hl; cbn [for_find_from].
  { right. split; [intros j; lia|done]. }
  rewrite bind_assoc, bind_gets. change (id s) with s. destruct (lookup_lt_is_Some_2 (v_free s) i ltac:(lia)) as [b Hb].
  rewrite (list_lookup_total_correct _ _ _ Hb). destruct b.
  - left. exists i. split; [lia|]. split; [done|]. rewrite bind_assoc, bind_modify, bind_ret. done.
  - rewrite bind_ret. destruct (IH (S i) ltac:(lia) Hl) as [(j & Hj & Hf & ->)|[Hf ->]].
    + left. exists j. split_and!; [lia|lia|done|done].
    + right. split; [|done]. intros j Hj. destruct (decide (j = i)) as [->|]; [done|apply Hf; lia].
Qed.
Lemma alloc_desc_run s : length (v_free s) = NUM →
  (∃ j, (j < NUM)%nat ∧ v_free s !! j = Some true ∧ alloc_desc s = Done (Some j) (upd_free j false s) []) ∨
  ((∀ j, (j < NUM)%nat → v_free s !! j = Some false) ∧ alloc_desc s = Done None s []).
Proof.
  intros Hl. destruct (alloc_search NUM 0 s eq_refl Hl) as [(j & Hj & Hf & Hr)|[Hf Hr]].
  - left. exists j. split_and!; [lia|done|exact Hr].
  - right. split; [intros j Hj; apply Hf; lia|exact Hr].
Qed.

Lemma free_desc_run i s : (i < NUM)%nat → v_free s !! i = Some false →
  free_desc i s = Done tt (upd_free i true (upd_desc i desc0 s)) [VWakeup A_disk_free].
Proof.
  intros Hi Hf. unfold free_desc. rewrite (proj2 (Nat.leb_gt _ _) Hi). rewrite bind_gets. unfold id.
  rewrite (list_lookup_total_correct _ _ _ Hf). by rewrite !bind_modify.
Qed.

(** Taking a descriptor, and giving it back. *)
Lemma free_lookup i b s j : (i < length (v_free s))%nat →
  v_free (upd_free i b s) !! j = if decide (i = j) then Some b else v_free s !! j.
Proof. intros Hi. simpl. case_decide as Hij; [subst j; by apply list_lookup_insert_eq|by apply list_lookup_insert_ne]. Qed.

Lemma vdisk_eq s s' : v_lock s = v_lock s' → v_desc s = v_desc s' → av_idx s = av_idx s' → av_ring s = av_ring s' →
  us_idx s = us_idx s' → us_ring s = us_ring s' → v_free s = v_free s' → v_used_idx s = v_used_idx s' →
  v_info s = v_info s' → v_ops s = v_ops s' → v_bufs s = v_bufs s' → s = s'.
Proof. destruct s, s'. cbn. congruence. Qed.

Lemma free_both i j s : v_free s !! i = Some true → v_free s !! j = Some true →
  upd_free j true (upd_desc j desc0 (upd_free i true (upd_desc i desc0 (upd_free j false (upd_free i false s))))) =
  set_v_desc (<[j := desc0]> (<[i := desc0]> (v_desc s))) s.
Proof.
  intros Hi Hj. apply vdisk_eq; try reflexivity. cbn [upd_free upd_desc set_v_free set_v_desc v_free v_desc].
  pose proof (lookup_lt_Some _ _ _ Hi). pose proof (lookup_lt_Some _ _ _ Hj).
  apply list_eq. intros w. destruct (decide (w = j)) as [->|]; [rewrite list_lookup_insert_eq by (rewrite !length_insert; lia); done|].
  rewrite list_lookup_insert_ne by done. destruct (decide (w = i)) as [->|]; [rewrite list_lookup_insert_eq by (rewrite !length_insert; lia); done|].
  by rewrite !list_lookup_insert_ne by done.
Qed.

(** [alloc3_desc] takes three free descriptors, or fails and gives back what it
    took. *)
Lemma alloc3_run s : length (v_free s) = NUM → length (v_desc s) = NUM →
  (∃ i j k, v_free s !! i = Some true ∧ v_free s !! j = Some true ∧ v_free s !! k = Some true ∧ (i ≠ j ∧ i ≠ k ∧ j ≠ k) ∧
     alloc3_desc s = Done (Some (i, j, k)) (upd_free k false (upd_free j false (upd_free i false s))) []) ∨
  (∃ ds t, alloc3_desc s = Done None (set_v_desc ds s) t ∧ length ds = NUM ∧
     (∀ i, v_free s !! i = Some false → ds !! i = v_desc s !! i) ∧
     (∀ i j k, v_free s !! i = Some true → v_free s !! j = Some true → v_free s !! k = Some true → ¬ (i ≠ j ∧ i ≠ k ∧ j ≠ k))).
Proof.
  intros Hl Hd. unfold alloc3_desc. destruct (alloc_desc_run s Hl) as [(i & Hi & Hfi & Hr)|[Hf Hr]]; rewrite (bind_done _ _ _ _ _ Hr).
  2:{ right. exists (v_desc s), []. split; [by destruct s|]. split_and!; [done|done|]. intros i j k Hfi. pose proof (lookup_lt_Some _ _ _ Hfi). rewrite Hf in Hfi by lia. done. }
  assert (Hi' : (i < length (v_free s))%nat) by lia.
  destruct (alloc_desc_run (upd_free i false s)) as [(j & Hj & Hfj & Hr1)|[Hf Hr1]]; [simpl; by rewrite length_insert| |]; rewrite (bind_done _ _ _ _ _ Hr1).
  2:{ right. exists (<[i := desc0]> (v_desc s)), [VWakeup A_disk_free].
      rewrite (bind_run _ _ _ _ _ _ (free_desc_run i (upd_free i false s) Hi ltac:(by rewrite free_lookup, decide_True))).
      split_and!; [|by rewrite length_insert| |].
      - unfold upd_free, upd_desc, set_v_free, set_v_desc. simpl. by rewrite list_insert_insert_eq, (list_insert_id (v_free s)).
      - intros x Hx. apply list_lookup_insert_ne. congruence.
      - intros x y z Hx Hy Hz Hnd. assert (∀ w, v_free s !! w = Some true → w = i) as Hw.
        { intros w Hw. pose proof (lookup_lt_Some _ _ _ Hw). specialize (Hf w ltac:(lia)). rewrite free_lookup in Hf by lia. case_decide; congruence. }
        pose proof (Hw x Hx). pose proof (Hw y Hy). lia. }
  rewrite free_lookup in Hfj by lia. case_decide as Hij; [done|].
  set (s2 := upd_free j false (upd_free i false s)).
  assert (∀ w, v_free s2 !! w = if decide (j = w) then Some false else if decide (i = w) then Some false else v_free s !! w) as Hs2.
  { intros w. unfold s2. rewrite free_lookup by (simpl; rewrite length_insert; lia). by rewrite free_lookup. }
  destruct (alloc_desc_run s2) as [(k & Hk & Hfk & Hr2)|[Hf Hr2]]; [unfold s2; simpl; by rewrite !length_insert| |]; rewrite (bind_done _ _ _ _ _ Hr2).
  - left. exists i, j, k. rewrite Hs2 in Hfk. repeat case_decide; done.
  - right. exists (<[j := desc0]> (<[i := desc0]> (v_desc s))), [VWakeup A_disk_free; VWakeup A_disk_free].
    rewrite (bind_run _ _ _ _ _ _ (free_desc_run i s2 Hi ltac:(apply Hf; lia))).
    rewrite (bind_run _ _ _ _ _ _ (free_desc_run j (upd_free i true (upd_desc i desc0 s2)) Hj
      ltac:(rewrite free_lookup by (unfold s2; simpl; rewrite !length_insert; lia); rewrite decide_False by done; apply Hf; lia))).
    split_and!; [|by rewrite !length_insert| |].
    + exact (f_equal (λ s', Done None s' _) (free_both i j s Hfi Hfj)).
    + intros x Hx. rewrite !list_lookup_insert_ne by congruence. done.
    + intros x y z Hx Hy Hz Hnd. assert (∀ w, v_free s !! w = Some true → w = i ∨ w = j) as Hw.
      { intros w Hw. pose proof (lookup_lt_Some _ _ _ Hw). specialize (Hf w ltac:(lia)). rewrite Hs2 in Hf. repeat case_decide; naive_solver. }
      pose proof (Hw x Hx). pose proof (Hw y Hy). pose proof (Hw z Hz). lia.
Qed.

(** ** The rings *)

(** The entries of a ring between two 16-bit counters. *)
Definition window (ring : list Z) (r e : Z) (l : list nat) : Prop :=
  (0 ≤ r < 65536 ∧ 0 ≤ e < 65536) ∧ ring_queue 8 ring r (Z.to_nat (u16 (e - r))) = Z.of_nat <$> l.

Lemma window_length ring r e l : window ring r e l → Z.of_nat (length l) = u16 (e - r).
Proof. intros [Hr Hq]. apply (f_equal length) in Hq. rewrite ring_length, length_fmap in Hq. mach_lia. Qed.

Lemma window_nil ring r e l : window ring r e l → r = e ↔ l = [].
Proof. intros Hw. pose proof (window_length _ _ _ _ Hw) as Hl. destruct Hw as [Hr _]. destruct l; simpl in Hl; split; try done; intros; mach_lia. Qed.

Lemma window_push ring r e l x : window ring r e l → (length l < 8)%nat → length ring = 8%nat →
  window (<[Z.to_nat (e mod 8) := Z.of_nat x]> ring) r (u16 (e + 1)) (l ++ [x]).
Proof.
  intros Hw Hl Hlen. pose proof (window_length _ _ _ _ Hw) as Hk. destruct Hw as [Hr Hq]. split; [mach_lia|].
  assert (Z.to_nat (u16 (u16 (e + 1) - r)) = S (length l)) as -> by mach_lia.
  assert (e mod 8 = (r + Z.of_nat (length l)) mod 8) as -> by mach_lia.
  rewrite ring_push, fmap_app by lia. f_equal. rewrite <- Hq. f_equal. lia.
Qed.

Lemma window_pop ring r e x l : window ring r e (x :: l) →
  ring !!! Z.to_nat (r mod 8) = Z.of_nat x ∧ r ≠ e ∧ window ring (u16 (r + 1)) e l.
Proof.
  intros Hw. pose proof (window_length _ _ _ _ Hw) as Hk. pose proof (window_nil _ _ _ _ Hw) as Hn. destruct Hw as [Hr Hq]. simpl in Hk.
  assert (Z.to_nat (u16 (e - r)) = S (length l)) as He by lia. rewrite He, ring_pop in Hq by lia. apply (inj2 cons) in Hq as [Hx Hq].
  split; [done|]. split; [naive_solver|]. split; [mach_lia|].
  assert (Z.to_nat (u16 (e - u16 (r + 1))) = length l) as -> by mach_lia.
  transitivity (ring_queue 8 ring (r + 1) (length l)); [apply ring_mod; [lia|mach_lia]|exact Hq].
Qed.

(** ** The device and the processes *)

(** What the device knows: the disk, how far it has read the available ring,
    and the heads of the chains it has fetched and not completed. *)
Record hw := mkhw { hw_disk : mem; hw_seen : Z; hw_pending : list nat }.

(** The device reads the next entry of the available ring. *)
Definition fetch (v : vdisk) (h : hw) : option (vdisk * hw) :=
  if hw_seen h =? av_idx v then None
  else Some (v, mkhw (hw_disk h) (u16 (hw_seen h + 1)) (hw_pending h ++ [Z.to_nat (av_ring v !!! Z.to_nat (hw_seen h mod Z.of_nat NUM))])).

(** It performs the request whose chain is the [n]th it has fetched: it follows
    the three descriptors by their [NEXT] flags, moves the data, writes the
    status byte and adds the head to the used ring. It writes only to memory
    whose descriptor has the [WRITE] flag and reads only from memory whose
    descriptor has not. *)
Definition has_flag (f : Z) (d : virtq_desc) : bool := negb (Z.land (vd_flags d) f =? 0).
Definition complete (n : nat) (v : vdisk) (h : hw) : option (vdisk * hw) :=
  match hw_pending h !! n with
  | None => None
  | Some i0 =>
      let d0 := v_desc v !!! i0 in
      let d1 := v_desc v !!! Z.to_nat (vd_next d0) in
      let d2 := v_desc v !!! Z.to_nat (vd_next d1) in
      if negb (has_flag VRING_DESC_F_NEXT d0 && has_flag VRING_DESC_F_NEXT d1) then None else
      match vd_addr d0, vd_addr d1, vd_addr d2 with
      | VOps k, VData b, VStatus j =>
          let q := v_ops v !!! k in
          let a := vr_sector q * 512 in
          let len := Z.to_nat (vd_len d1) in
          let out := vr_type q =? VIRTIO_BLK_T_OUT in
          let to_driver := has_flag VRING_DESC_F_WRITE d1 in
          let v1 := if negb out && to_driver then upd_vbuf b (set_vb_data (bytes_at (hw_disk h) a len)) v else v in
          let disk := if out && negb to_driver then write_bytes a (take len (vb_data (v_bufs v !!! b))) (hw_disk h) else hw_disk h in
          let v2 := if has_flag VRING_DESC_F_WRITE d2 then upd_info j (λ x, (x.1, 0)) v1 else v1 in
          Some (set_used (u16 (us_idx v2 + 1)) (<[Z.to_nat (us_idx v2 mod Z.of_nat NUM) := Z.of_nat i0]> (us_ring v2)) v2,
                mkhw disk (hw_seen h) (delete n (hw_pending h)))
      | _, _, _ => None
      end
  end.

(** A virtio block device: it takes requests in the order of the ring and
    completes them in any order, without errors. *)
Class DiskDev := {
  dev_step : vdisk * hw → vdisk * hw → Prop;
  dev_spec v h x : dev_step (v, h) x → fetch v h = Some x ∨ ∃ n, complete n v h = Some x
}.

(** Where a process is in [virtio_disk_rw]. *)
Inductive vpc : Type := PIdle | PNoDesc (b : nat) (w : bool) | PWait (b : nat) (w : bool) (i0 : nat).
Definition set_vpc {A} (p : nat) (x : A) (f : nat → A) : nat → A := λ q, if decide (q = p) then x else f q.
Definition pc_after (b : nat) (w : bool) (t : vturn) : vpc :=
  match t with NoDesc => PNoDesc b w | Waiting i => PWait b w i | Finished => PIdle end.
Definition uses (x : vpc) (b : nat) : Prop :=
  match x with PIdle => False | PNoDesc b' _ | PWait b' _ _ => b' = b end.

Record vconf := mkvconf { cv : vdisk; ch : hw; cpc : nat → vpc }.

(** Block numbers whose sector fits 32 bits, and whole blocks. *)
Definition block_ok (n : Z) (data : list Z) : Prop := 0 ≤ n < 2147483648 ∧ length data = 1024%nat.

(** Processes call the driver with buffers of which they hold the sleep lock;
    wakeups may be spurious, interrupts come at any time, and a buffer that is
    not in a transfer changes freely. *)
Inductive vstep `{DiskDev} : vconf → vconf → Prop :=
| v_client v h pc b n data : (∀ p, ¬ uses (pc p) b) → block_ok n data →
    vstep (mkvconf v h pc) (mkvconf (upd_vbuf b (λ x, mkvbuf (vb_disk x) n data) v) h pc)
| v_start v h pc p b w r v' t : pc p = PIdle → (∀ q, ¬ uses (pc q) b) → (b < length (v_bufs v))%nat →
    virtio_rw_start b w v = Done r v' t →
    vstep (mkvconf v h pc) (mkvconf v' h (set_vpc p (pc_after b w r) pc))
| v_retry v h pc p b w r v' t : pc p = PNoDesc b w → virtio_rw_start b w v = Done r v' t →
    vstep (mkvconf v h pc) (mkvconf v' h (set_vpc p (pc_after b w r) pc))
| v_resume v h pc p b w i0 r v' t : pc p = PWait b w i0 → virtio_rw_resume b i0 v = Done r v' t →
    vstep (mkvconf v h pc) (mkvconf v' h (set_vpc p (pc_after b w r) pc))
| v_intr v h pc st v' t : virtio_disk_intr st v = Done tt v' t →
    vstep (mkvconf v h pc) (mkvconf v' h pc)
| v_device v h pc v' h' : dev_step (v, h) (v', h') →
    vstep (mkvconf v h pc) (mkvconf v' h' pc).

(** ** The specification *)

(** A disk of blocks, buffers (block number and contents), and transfers that
    happen at one instant between the call and the return. *)
Inductive apc : Type := AIdle | AWait (b : nat) (w : bool) | ADone (b : nat).
Definition a_uses (x : apc) (b : nat) : Prop :=
  match x with AIdle => False | AWait b' _ | ADone b' => b' = b end.
Record aconf := mkaconf { a_disk : Z → list Z; a_bufs : list (Z * list Z); a_pc : nat → apc }.

Inductive astep : aconf → aconf → Prop :=
| a_client d bs pc b n data : (∀ p, ¬ a_uses (pc p) b) → block_ok n data →
    astep (mkaconf d bs pc) (mkaconf d (alter (λ _, (n, data)) b bs) pc)
| a_call d bs pc p b w : pc p = AIdle → (∀ q, ¬ a_uses (pc q) b) → (b < length bs)%nat →
    astep (mkaconf d bs pc) (mkaconf d bs (set_vpc p (AWait b w) pc))
| a_write d bs pc p b n data : pc p = AWait b true → bs !! b = Some (n, data) →
    astep (mkaconf d bs pc) (mkaconf (λ m, if decide (m = n) then data else d m) bs (set_vpc p (ADone b) pc))
| a_read d bs pc p b n data : pc p = AWait b false → bs !! b = Some (n, data) →
    astep (mkaconf d bs pc) (mkaconf d (<[b := (n, d n)]> bs) (set_vpc p (ADone b) pc))
| a_return d bs pc p b : pc p = ADone b →
    astep (mkaconf d bs pc) (mkaconf d bs (set_vpc p AIdle pc)).

(** ** What the operations do *)

(** A transfer in progress: its process, buffer, direction and descriptors. *)
Record rq := mkrq { q_p : nat; q_b : nat; q_w : bool; q_0 : nat; q_1 : nat; q_2 : nat }.
Definition q_idx (r : rq) : list nat := [q_0 r; q_1 r; q_2 r].

Definition head_desc (r : rq) : virtq_desc := mkdesc (VOps (q_0 r)) 16 VRING_DESC_F_NEXT (Z.of_nat (q_1 r)).
Definition data_desc (r : rq) : virtq_desc :=
  mkdesc (VData (q_b r)) 1024 (Z.lor (if q_w r then 0 else VRING_DESC_F_WRITE) VRING_DESC_F_NEXT) (Z.of_nat (q_2 r)).
Definition status_desc (r : rq) : virtq_desc := mkdesc (VStatus (q_0 r)) 1 VRING_DESC_F_WRITE 0.
Definition request (r : rq) (x : vbuf) : virtio_blk_req :=
  mkreq (if q_w r then VIRTIO_BLK_T_OUT else VIRTIO_BLK_T_IN) 0 (u32 (vb_blockno x * 2)).

(** The state after [r] is submitted, and after it is finished. *)
Definition submitted (r : rq) (s : vdisk) : vdisk :=
  mkvdisk (v_lock s) (<[q_2 r := status_desc r]> (<[q_1 r := data_desc r]> (<[q_0 r := head_desc r]> (v_desc s))))
    (u16 (av_idx s + 1)) (<[Z.to_nat (av_idx s mod 8) := Z.of_nat (q_0 r)]> (av_ring s)) (us_idx s) (us_ring s)
    (<[q_2 r := false]> (<[q_1 r := false]> (<[q_0 r := false]> (v_free s)))) (v_used_idx s)
    (alter (λ _, (Some (q_b r), 255)) (q_0 r) (v_info s)) (<[q_0 r := request r (v_bufs s !!! q_b r)]> (v_ops s))
    (alter (set_vb_disk 1) (q_b r) (v_bufs s)).
Definition finished (r : rq) (s : vdisk) : vdisk :=
  mkvdisk (v_lock s) (<[q_2 r := desc0]> (<[q_1 r := desc0]> (<[q_0 r := desc0]> (v_desc s))))
    (av_idx s) (av_ring s) (us_idx s) (us_ring s)
    (<[q_2 r := true]> (<[q_1 r := true]> (<[q_0 r := true]> (v_free s)))) (v_used_idx s)
    (alter (λ x, (None, x.2)) (q_0 r) (v_info s)) (v_ops s) (v_bufs s).
(** The state after an interrupt that finds the buffers [bs] done. *)
Definition acked (bs : list nat) (s : vdisk) : vdisk :=
  set_v_used_idx (us_idx s) (set_v_bufs (foldl (λ l b, alter (set_vb_disk 0) b l) (v_bufs s) bs) s).

(** The descriptors of a transfer hold its request. *)
Record formatted (s : vdisk) (r : rq) : Prop := {
  fm_head : v_desc s !! q_0 r = Some (head_desc r);
  fm_data : v_desc s !! q_1 r = Some (data_desc r);
  fm_status : v_desc s !! q_2 r = Some (status_desc r);
  fm_op : ∃ x, v_bufs s !! q_b r = Some x ∧ v_ops s !! q_0 r = Some (request r x);
  fm_info : ∃ st, v_info s !! q_0 r = Some (Some (q_b r), st)
}.

Lemma submit_run r s : rw_submit (q_b r) (q_w r) (q_0 r) (q_1 r) (q_2 r)
    (upd_free (q_2 r) false (upd_free (q_1 r) false (upd_free (q_0 r) false (set_held true s)))) =
  Done tt (set_held true (submitted r s)) [MmioWrite VIRTIO_MMIO_QUEUE_NOTIFY 0].
Proof.
  unfold rw_submit. rewrite bind_gets, !bind_modify. unfold emit. f_equal. apply vdisk_eq; try reflexivity.
  cbn. by rewrite alter_alter.
Qed.

Lemma start_run b w s : v_lock s = false → length (v_free s) = NUM → length (v_desc s) = NUM → (b < length (v_bufs s))%nat →
  (∃ i j k, v_free s !! i = Some true ∧ v_free s !! j = Some true ∧ v_free s !! k = Some true ∧ (i ≠ j ∧ i ≠ k ∧ j ≠ k) ∧
     ∀ p, virtio_rw_start b w s = Done (Waiting i) (submitted (mkrq p b w i j k) s) [MmioWrite VIRTIO_MMIO_QUEUE_NOTIFY 0]) ∨
  (∃ ds t, virtio_rw_start b w s = Done NoDesc (set_v_desc ds s) t ∧ length ds = NUM ∧
     (∀ i, v_free s !! i = Some false → ds !! i = v_desc s !! i) ∧
     (∀ i j k, v_free s !! i = Some true → v_free s !! j = Some true → v_free s !! k = Some true → ¬ (i ≠ j ∧ i ≠ k ∧ j ≠ k))).
Proof.
  intros Hlock Hf Hd Hb. unfold virtio_rw_start. rewrite bind_lock by done.
  assert (∀ s, v_lock s = false → set_held false (set_held true s) = s) as Hback by (intros s'; destruct s'; cbn; by intros ->).
  destruct (alloc3_run (set_held true s)) as [(i & j & k & Hi & Hj & Hk & (Hne1 & Hne2 & Hne3) & Hr)|(ds & t & Hr & Hl & Hs & Hn)]; [done|done| |].
  - left. exists i, j, k. split_and!; [done..|]. intros p. rewrite (bind_done _ _ _ _ _ Hr).
    rewrite (bind_run _ _ _ _ _ _ (submit_run (mkrq p b w i j k) s)). unfold rw_wait. rewrite bind_gets. unfold id.
    assert (vb_disk (v_bufs (set_held true (submitted (mkrq p b w i j k) s)) !!! b) = 1) as ->.
    { cbn [v_bufs set_held vdisk_locked submitted q_b]. by rewrite list_lookup_total_alter_eq by done. }
    cbn [Z.eqb Pos.eqb]. rewrite bind_unlock by done. rewrite Hback by done. done.
  - right. exists ds, t. split_and!; [|done..]. rewrite (bind_run _ _ _ _ _ _ Hr). rewrite bind_unlock by done.
    unfold ret. cbn [pre]. rewrite app_nil_r. f_equal. by apply vdisk_eq.
Qed.

Lemma wait_run b i0 s x : v_lock s = false → v_bufs s !! b = Some x → vb_disk x = 1 → virtio_rw_resume b i0 s = Done (Waiting i0) s [].
Proof.
  intros Hlock Hb Hx. unfold virtio_rw_resume. rewrite bind_lock by done. unfold rw_wait. rewrite bind_gets. unfold id.
  cbn [set_held vdisk_locked v_bufs]. rewrite (list_lookup_total_correct _ _ _ Hb), Hx. cbn [Z.eqb Pos.eqb].
  rewrite bind_unlock by done. unfold ret. f_equal. by apply vdisk_eq.
Qed.

Lemma chain_step f i d s : (i < NUM)%nat → v_free s !! i = Some false → v_desc s !! i = Some d →
  free_chain_loop (S f) i s = pre [VWakeup A_disk_free] ((if negb (Z.land (vd_flags d) VRING_DESC_F_NEXT =? 0)
    then free_chain_loop f (Z.to_nat (vd_next d)) else ret tt) (upd_free i true (upd_desc i desc0 s))).
Proof.
  intros Hi Hf Hd. cbn [free_chain_loop]. rewrite bind_gets. unfold id. rewrite (list_lookup_total_correct _ _ _ Hd).
  by rewrite (bind_run _ _ _ _ _ _ (free_desc_run i s Hi Hf)).
Qed.

Lemma finish_run r s x : v_lock s = false → v_bufs s !! q_b r = Some x → vb_disk x ≠ 1 → formatted s r →
  (∀ i, i ∈ q_idx r → (i < NUM)%nat ∧ v_free s !! i = Some false) → NoDup (q_idx r) →
  ∃ t, virtio_rw_resume (q_b r) (q_0 r) s = Done Finished (finished r s) t.
Proof.
  intros Hlock Hb Hx [H0 H1 H2 _ _] Hf Hnd. unfold virtio_rw_resume. rewrite bind_lock by done. unfold rw_wait. rewrite bind_gets. unfold id.
  cbn [set_held vdisk_locked v_bufs]. rewrite (list_lookup_total_correct _ _ _ Hb), (proj2 (Z.eqb_neq _ _) Hx). rewrite bind_modify.
  unfold q_idx in *. apply NoDup_cons in Hnd as [Hn0 Hnd]. apply NoDup_cons in Hnd as [Hn1 _].
  assert (q_0 r ≠ q_1 r ∧ q_0 r ≠ q_2 r ∧ q_1 r ≠ q_2 r) as (Hn01 & Hn02 & Hn12) by set_solver. clear Hn0 Hn1.
  destruct (Hf (q_0 r)) as [Hl0 Hf0]; [set_solver|]. destruct (Hf (q_1 r)) as [Hl1 Hf1]; [set_solver|]. destruct (Hf (q_2 r)) as [Hl2 Hf2]; [set_solver|].
  set (s0 := upd_info _ _ _). unfold free_chain.
  assert (free_chain_loop NUM (q_0 r) s0 = Done tt (upd_free (q_2 r) true (upd_desc (q_2 r) desc0 (upd_free (q_1 r) true (upd_desc (q_1 r) desc0
     (upd_free (q_0 r) true (upd_desc (q_0 r) desc0 s0)))))) [VWakeup A_disk_free; VWakeup A_disk_free; VWakeup A_disk_free]) as Hc.
  { unfold NUM. rewrite (chain_step _ _ (head_desc r)) by done. cbn [vd_flags vd_next head_desc]. change (negb (Z.land VRING_DESC_F_NEXT VRING_DESC_F_NEXT =? 0)) with true. cbn match.
    rewrite Nat2Z.id, (chain_step _ _ (data_desc r)) by (try done; cbn [upd_free upd_desc set_v_free set_v_desc v_free v_desc]; by rewrite list_lookup_insert_ne).
    assert (negb (Z.land (vd_flags (data_desc r)) VRING_DESC_F_NEXT =? 0) = true) as -> by (unfold data_desc; by destruct (q_w r)).
    cbn [vd_next data_desc]. rewrite Nat2Z.id, (chain_step _ _ (status_desc r)) by (try done; cbn [upd_free upd_desc set_v_free set_v_desc v_free v_desc]; by rewrite !list_lookup_insert_ne).
    done. }
  eexists. rewrite (bind_run _ _ _ _ _ _ Hc). rewrite bind_unlock by done. unfold ret. cbn [pre]. f_equal. by apply vdisk_eq.
Qed.

Lemma intr_loop_run RU : ∀ f s, (length RU ≤ f)%nat → window (us_ring s) (v_used_idx s) (us_idx s) (q_0 <$> RU) →
  (∀ r, r ∈ RU → v_info s !! q_0 r = Some (Some (q_b r), 0)) →
  intr_loop f s = Done tt (acked (q_b <$> RU) s) ((λ r, VWakeup (A_buf (q_b r))) <$> RU).
Proof.
  induction RU as [|r RU IH]; intros f s Hf Hw Hi.
  { apply window_nil in Hw as [_ Hw]. specialize (Hw eq_refl). destruct f; cbn [intr_loop]; rewrite bind_gets; unfold id; rewrite (proj2 (Z.eqb_eq _ _) Hw);
      unfold ret; f_equal; by apply vdisk_eq. }
  destruct f as [|f]; [simpl in Hf; lia|]. rewrite fmap_cons in Hw. destruct (window_pop _ _ _ _ _ Hw) as (Hx & Hne & Hw').
  cbn [intr_loop]. rewrite bind_gets. unfold id. rewrite (proj2 (Z.eqb_neq _ _) Hne). change (Z.of_nat NUM) with 8. rewrite Hx, Nat2Z.id.
  assert (v_info s !!! q_0 r = (Some (q_b r), 0)) as -> by (apply list_lookup_total_correct, Hi; set_solver). cbn [fst snd negb Z.eqb].
  rewrite bind_modify, bind_emit, bind_modify. rewrite IH.
  - cbn [pre fmap list_fmap app]. done.
  - simpl in Hf. lia.
  - done.
  - intros r' Hr'. apply (Hi r'). set_solver.
Qed.

Lemma intr_run RU st s : (length RU ≤ 8)%nat → v_lock s = false → window (us_ring s) (v_used_idx s) (us_idx s) (q_0 <$> RU) →
  (∀ r, r ∈ RU → v_info s !! q_0 r = Some (Some (q_b r), 0)) →
  ∃ t, virtio_disk_intr st s = Done tt (acked (q_b <$> RU) s) t ∧ ∀ r, r ∈ RU → VWakeup (A_buf (q_b r)) ∈ t.
Proof.
  intros Hl Hlock Hw Hi. unfold virtio_disk_intr. rewrite bind_lock by done. rewrite bind_emit.
  rewrite (bind_run _ _ _ _ _ _ (intr_loop_run RU (Z.to_nat 65536) (set_held true s) ltac:(lia) Hw Hi)).
  assert (release (E:=vevent) (acked (q_b <$> RU) (set_held true s)) = Done tt (acked (q_b <$> RU) s) []) as ->.
  { unfold release. change (held _) with true. cbn match. f_equal. by apply vdisk_eq. }
  eexists. split; [reflexivity|].
  intros r Hr. rewrite elem_of_app. right. rewrite app_nil_r. apply list_elem_of_fmap. eauto.
Qed.
