(* ===== verification/VirtioThm.v ===== *)
(** The disk driver implements atomic transfers of blocks, whatever the order in
    which the device completes them. *)
From Stdlib Require Import ZArith Lia.
From stdpp Require Import base list gmap strings.
From S2P Require Import Prelude Machine Mem Ring Virtio VirtioRun.

(** ** The descriptors in use *)

(** Membership in lists of transfers. *)
Ltac app_tauto H := revert H; rewrite ?elem_of_app; tauto.

Definition idxs (R : list rq) : list nat := R ≫= q_idx.

Lemma q_0_in r : q_0 r ∈ q_idx r.
Proof. by left. Qed.
Lemma elem_of_idxs i R : i ∈ idxs R ↔ ∃ r, r ∈ R ∧ i ∈ q_idx r.
Proof. unfold idxs. rewrite list_elem_of_bind. naive_solver. Qed.
Lemma idxs_app R R' : idxs (R ++ R') = idxs R ++ idxs R'.
Proof. apply bind_app. Qed.
#[export] Instance idxs_perm : Proper ((≡ₚ) ==> (≡ₚ)) idxs.
Proof. unfold idxs. intros R R' HR. by rewrite HR. Qed.
Lemma idxs_length R : length (idxs R) = (3 * length R)%nat.
Proof. induction R as [|r R IH]; [done|]. cbn [length]. change (idxs (r :: R)) with (q_idx r ++ idxs R). rewrite length_app, IH. simpl. lia. Qed.

(** Transfers do not share descriptors. *)
Lemma idxs_inj R r r' i : NoDup (idxs R) → r ∈ R → r' ∈ R → i ∈ q_idx r → i ∈ q_idx r' → r = r'.
Proof.
  induction R as [|x R IH]; [set_solver|]. change (idxs (x :: R)) with (q_idx x ++ idxs R). intros Hnd Hr Hr' Hi Hi'.
  apply NoDup_app in Hnd as (_ & Hd & Hnd). rewrite elem_of_cons in Hr, Hr'.
  assert (∀ y, y ∈ R → i ∈ q_idx y → i ∉ q_idx x) as Hx by (intros y Hy Hiy Hix; apply (Hd i Hix), elem_of_idxs; eauto).
  destruct Hr as [->|Hr], Hr' as [->|Hr']; [done| | |by apply IH]; exfalso; naive_solver.
Qed.
Lemma q_idx_nodup R r : NoDup (idxs R) → r ∈ R → NoDup (q_idx r).
Proof.
  intros Hnd Hr. apply list_elem_of_split in Hr as (l1 & l2 & ->). rewrite idxs_app in Hnd. change (idxs (r :: l2)) with (q_idx r ++ idxs l2) in Hnd.
  apply NoDup_app in Hnd as (_ & _ & Hnd). by apply NoDup_app in Hnd as (Hnd & _ & _).
Qed.

Lemma nodup_bound (l : list nat) n : NoDup l → (∀ i, i ∈ l → (i < n)%nat) → (length l ≤ n)%nat.
Proof.
  intros Hnd Hl. rewrite <- (length_seq n 0) at 1. apply submseteq_length, NoDup_submseteq; [done|]. intros i Hi. apply elem_of_seq. specialize (Hl i Hi). lia.
Qed.

Lemma formatted_ext s s' r : (∀ i, i ∈ q_idx r → v_desc s' !! i = v_desc s !! i) → v_ops s' !! q_0 r = v_ops s !! q_0 r →
  (∀ st, v_info s !! q_0 r = Some (Some (q_b r), st) → ∃ st', v_info s' !! q_0 r = Some (Some (q_b r), st')) →
  (∀ x, v_bufs s !! q_b r = Some x → ∃ x', v_bufs s' !! q_b r = Some x' ∧ vb_blockno x' = vb_blockno x) →
  formatted s r → formatted s' r.
Proof.
  intros Hd Ho Hi Hb [H0 H1 H2 (x & Hx & Hop) [st Hst]]. unfold q_idx in Hd.
  split; [rewrite Hd by set_solver; done..| |by eauto]. destruct (Hb x Hx) as (x' & Hx' & Hn). exists x'. split; [done|]. unfold request in *. by rewrite Hn, Ho.
Qed.

(** The transfers [R] hold the descriptors that are not free, and are those of
    the processes that wait for the disk. *)
Record owned (s : vdisk) (pc : nat → vpc) (R : list rq) : Prop := {
  ow_nodup : NoDup (idxs R);
  ow_free : ∀ i, (i < NUM)%nat → v_free s !! i = Some (bool_decide (i ∉ idxs R));
  ow_lt : ∀ i, i ∈ idxs R → (i < NUM)%nat;
  ow_fmt : ∀ r, r ∈ R → formatted s r;
  ow_pc : ∀ r, r ∈ R → pc (q_p r) = PWait (q_b r) (q_w r) (q_0 r);
  ow_wait : ∀ p b w i, pc p = PWait b w i → ∃ r, r ∈ R ∧ q_p r = p
}.

Lemma owned_perm s pc R R' : R ≡ₚ R' → owned s pc R → owned s pc R'.
Proof.
  intros HR [Hnd Hf Hlt Hfmt Hpc Hw]. split.
  - by rewrite <- HR.
  - intros i Hi. rewrite Hf by done. f_equal. apply bool_decide_ext. by rewrite HR.
  - intros i. rewrite <- HR. apply Hlt.
  - intros r. rewrite <- HR. apply Hfmt.
  - intros r. rewrite <- HR. apply Hpc.
  - intros p b w i Hp. destruct (Hw p b w i Hp) as (r & Hr & Hq). exists r. by rewrite <- HR.
Qed.

(** There are at most two transfers at a time. *)
Lemma owned_few s pc R : owned s pc R → (length R ≤ 2)%nat.
Proof. intros Ho. pose proof (nodup_bound _ _ (ow_nodup _ _ _ Ho) (ow_lt _ _ _ Ho)) as Hl. rewrite idxs_length in Hl. unfold NUM in Hl. lia. Qed.

(** A process has one transfer. *)
Lemma owned_proc s pc R r r' : owned s pc R → r ∈ R → r' ∈ R → q_p r = q_p r' → r = r'.
Proof.
  intros Ho Hr Hr' Hp. pose proof (ow_pc _ _ _ Ho r Hr) as H1. rewrite Hp, (ow_pc _ _ _ Ho r' Hr') in H1. injection H1 as _ _ He.
  apply (idxs_inj R r r' (q_0 r)); [by apply Ho|done|done|unfold q_idx; set_solver|unfold q_idx; rewrite <- He; set_solver].
Qed.

(** Changes that keep the requests of the transfers. *)
Lemma owned_ext s s' pc R : v_free s' = v_free s → (∀ r, r ∈ R → formatted s r → formatted s' r) → owned s pc R → owned s' pc R.
Proof. intros Hf Hr [Hnd Hfr Hlt Hfmt Hpc Hw]. split; [done|by rewrite Hf|done| |done|done]. eauto. Qed.

Lemma insert_three {A} (l : list A) r x i : (∀ j, j ∈ q_idx r → (j < length l)%nat) →
  <[q_2 r := x]> (<[q_1 r := x]> (<[q_0 r := x]> l)) !! i = if decide (i ∈ q_idx r) then Some x else l !! i.
Proof.
  unfold q_idx. intros Hl. assert (q_0 r < length l ∧ q_1 r < length l ∧ q_2 r < length l)%nat by (split_and!; apply Hl; set_solver).
  rewrite !list_lookup_insert, !length_insert. repeat case_decide; try done; set_solver.
Qed.
Lemma insert_three_ne {A} (l : list A) r x y z i : i ∉ q_idx r → <[q_2 r := x]> (<[q_1 r := y]> (<[q_0 r := z]> l)) !! i = l !! i.
Proof. unfold q_idx. intros Hi. rewrite !list_lookup_insert_ne by set_solver. done. Qed.

Lemma alter_some {A} (f : A → A) (l : list A) b b' y : l !! b' = Some y → alter f b l !! b' = Some (if decide (b = b') then f y else y).
Proof. intros Hy. rewrite list_lookup_alter. case_decide as He; [rewrite He|]; by rewrite Hy. Qed.

Lemma fmap_alter_same {A B} (f : A → B) (g : A → A) (i : nat) (l : list A) : (∀ x, f (g x) = f x) → f <$> alter g i l = f <$> l.
Proof. intros Hfg. revert i. induction l as [|x l IH]; intros [|i]; cbn; [done|done|by rewrite Hfg|]. f_equal. apply IH. Qed.

Lemma submitted_formatted s r x :
  length (v_desc s) = NUM → length (v_ops s) = NUM → length (v_info s) = NUM →
  (∀ i, i ∈ q_idx r → (i < NUM)%nat) → NoDup (q_idx r) → v_bufs s !! q_b r = Some x → formatted (submitted r s) r.
Proof.
  intros Hd Ho Hi Hlt Hnd Hx. unfold q_idx in *. assert (q_0 r < NUM ∧ q_1 r < NUM ∧ q_2 r < NUM)%nat as (H0 & H1 & H2) by (split_and!; apply Hlt; set_solver).
  apply NoDup_cons in Hnd as [Hn0 Hnd]. apply NoDup_cons in Hnd as [Hn1 _].
  split; cbn [v_desc v_bufs v_ops v_info submitted].
  - rewrite !list_lookup_insert_ne by (clear -Hn0; set_solver). apply list_lookup_insert_eq. lia.
  - rewrite list_lookup_insert_ne by set_solver. apply list_lookup_insert_eq. rewrite length_insert. lia.
  - apply list_lookup_insert_eq. rewrite !length_insert. lia.
  - exists (set_vb_disk 1 x). rewrite list_lookup_alter_eq, Hx. split; [done|]. rewrite (list_lookup_total_correct _ _ _ Hx). apply list_lookup_insert_eq. lia.
  - rewrite list_lookup_alter_eq. destruct (lookup_lt_is_Some_2 (v_info s) (q_0 r) ltac:(lia)) as [y ->]. by eexists.
Qed.

(** A transfer starts. *)
Lemma owned_submit s pc R r x :
  owned s pc R → length (v_desc s) = NUM → length (v_free s) = NUM → length (v_ops s) = NUM → length (v_info s) = NUM →
  (∀ i, i ∈ q_idx r → v_free s !! i = Some true) → NoDup (q_idx r) → v_bufs s !! q_b r = Some x →
  (∀ b w i, pc (q_p r) ≠ PWait b w i) →
  owned (submitted r s) (set_vpc (q_p r) (PWait (q_b r) (q_w r) (q_0 r)) pc) (r :: R).
Proof.
  intros Ho Hld Hlf Hlo Hli Hfree Hnd Hx Hpc.
  assert (∀ i, i ∈ q_idx r → (i < NUM)%nat) as Hlt by (intros i Hi; pose proof (lookup_lt_Some _ _ _ (Hfree i Hi)); lia).
  assert (∀ i, i ∈ q_idx r → i ∉ idxs R) as Hout.
  { intros i Hi. pose proof (ow_free _ _ _ Ho i (Hlt i Hi)) as Hf. rewrite (Hfree i Hi) in Hf. injection Hf as Hf. symmetry in Hf. by apply bool_decide_eq_true in Hf. }
  assert (∀ r', r' ∈ R → ∀ i, i ∈ q_idx r' → i ∉ q_idx r) as Hdis by (intros r' Hr' i Hi Hir; apply (Hout i Hir), elem_of_idxs; eauto).
  change (idxs (r :: R)) with (q_idx r ++ idxs R). split; change (idxs (r :: R)) with (q_idx r ++ idxs R).
  - apply NoDup_app. split_and!; [done|done|apply Ho].
  - intros i Hi. cbn [v_free submitted]. rewrite insert_three by (intros j Hj; rewrite Hlf; auto). case_decide as Hr.
    + f_equal. symmetry. apply bool_decide_eq_false. set_solver.
    + rewrite (ow_free _ _ _ Ho i Hi). f_equal. apply bool_decide_ext. set_solver.
  - intros i [Hi|Hi]%elem_of_app; [auto|by apply Ho].
  - intros r' [->|Hr']%elem_of_cons.
    + by apply (submitted_formatted s r x).
    + apply (formatted_ext s); [| | | |by apply Ho].
      * intros i Hi. apply insert_three_ne. by apply (Hdis r').
      * cbn [v_ops submitted]. apply list_lookup_insert_ne. intros He. apply (Hdis r' Hr' (q_0 r')); unfold q_idx; set_solver.
      * intros st Hst. exists st. cbn [v_info submitted]. rewrite list_lookup_alter_ne; [done|]. intros He. apply (Hdis r' Hr' (q_0 r')); unfold q_idx; set_solver.
      * intros y Hy. eexists. split; [by apply alter_some|]. by case_decide.
  - intros r' [->|Hr']%elem_of_cons; unfold set_vpc; case_decide as Hp; [done|done| |by apply Ho].
    pose proof (ow_pc _ _ _ Ho r' Hr') as Hq. rewrite Hp in Hq. by apply Hpc in Hq.
  - intros p b w i. unfold set_vpc. case_decide as Hp; [exists r; set_solver|]. intros Hq. destruct (ow_wait _ _ _ Ho _ _ _ _ Hq) as (r' & Hr' & Hp'). exists r'. set_solver.
Qed.

(** A transfer ends. *)
Lemma owned_finish s pc R r : length (v_free s) = NUM → owned s pc (r :: R) → owned (finished r s) (set_vpc (q_p r) PIdle pc) R.
Proof.
  intros Hlf Ho. pose proof (ow_nodup _ _ _ Ho) as Hnd. change (idxs (r :: R)) with (q_idx r ++ idxs R) in Hnd. apply NoDup_app in Hnd as (_ & Hdis & Hnd).
  assert (∀ r', r' ∈ R → ∀ i, i ∈ q_idx r' → i ∉ q_idx r) as Hd by (intros r' Hr' i Hi Hir; apply (Hdis i Hir), elem_of_idxs; eauto).
  assert (∀ r', r' ∈ R → q_0 r' ≠ q_0 r) as Hd0 by (intros r' Hr' He; apply (Hd r' Hr' (q_0 r')); unfold q_idx; set_solver).
  assert (∀ i, i ∈ q_idx r → (i < NUM)%nat) as Hlt by (intros i Hi; apply Ho; apply elem_of_idxs; exists r; set_solver).
  split; [done| | | | |].
  - intros i Hi. cbn [v_free finished]. rewrite insert_three by (intros j Hj; rewrite Hlf; auto). case_decide as Hr.
    + f_equal. symmetry. apply bool_decide_eq_true. auto.
    + rewrite (ow_free _ _ _ Ho i Hi). f_equal. apply bool_decide_ext. change (idxs (r :: R)) with (q_idx r ++ idxs R). set_solver.
  - intros i Hi. apply Ho. change (idxs (r :: R)) with (q_idx r ++ idxs R). set_solver.
  - intros r' Hr'. apply (formatted_ext s); [| | | |apply Ho; set_solver].
    + intros i Hi. apply insert_three_ne. by apply (Hd r').
    + done.
    + intros st Hst. exists st. cbn [v_info finished]. rewrite list_lookup_alter_ne; [done|]. intros He. by apply (Hd0 r').
    + intros y Hy. by exists y.
  - intros r' Hr'. unfold set_vpc. case_decide as Hp; [|apply Ho; set_solver].
    rewrite (owned_proc _ _ _ r' r Ho) in Hr' by set_solver. by apply (Hd0 r) in Hr'.
  - intros p b w i. unfold set_vpc. case_decide as Hp; [done|]. intros Hq. destruct (ow_wait _ _ _ Ho _ _ _ _ Hq) as (r' & Hr' & Hp'). exists r'. set_solver.
Qed.

(** ** The simulation *)

(** Where a process is in the specification; [d] says that its transfer has
    happened. *)
Definition apc_of (d : bool) (x : vpc) : apc :=
  match x with PIdle => AIdle | PNoDesc b w => AWait b w | PWait b w _ => if d then ADone b else AWait b w end.

(** The device has yet to fetch the transfers [RP] and to complete [RF]; the
    driver has yet to see that [RU] are complete, and the processes of [RA] to
    wake up. *)
Record vrel (c : vconf) (a : aconf) (RP RF RU RA : list rq) : Prop := {
  vr_lock : v_lock (cv c) = false;
  vr_desc : length (v_desc (cv c)) = NUM;
  vr_free : length (v_free (cv c)) = NUM;
  vr_ops : length (v_ops (cv c)) = NUM;
  vr_info : length (v_info (cv c)) = NUM;
  vr_aring : length (av_ring (cv c)) = NUM;
  vr_uring : length (us_ring (cv c)) = NUM;
  vr_avail : window (av_ring (cv c)) (hw_seen (ch c)) (av_idx (cv c)) (q_0 <$> RP);
  vr_pend : hw_pending (ch c) = q_0 <$> RF;
  vr_used : window (us_ring (cv c)) (v_used_idx (cv c)) (us_idx (cv c)) (q_0 <$> RU);
  vr_own : owned (cv c) (cpc c) (RP ++ RF ++ RU ++ RA);
  vr_status : ∀ r, r ∈ RU → v_info (cv c) !! q_0 r = Some (Some (q_b r), 0);
  vr_busy : ∀ r x, r ∈ RP ++ RF ++ RU → v_bufs (cv c) !! q_b r = Some x → vb_disk x = 1;
  vr_done : ∀ r x, r ∈ RA → v_bufs (cv c) !! q_b r = Some x → vb_disk x = 0;
  vr_excl : ∀ p q b, uses (cpc c p) b → uses (cpc c q) b → p = q;
  vr_in : ∀ p b, uses (cpc c p) b → (b < length (v_bufs (cv c)))%nat;
  vr_bufs : Forall (λ x, block_ok (vb_blockno x) (vb_data x)) (v_bufs (cv c));
  va_bufs : a_bufs a = (λ x, (vb_blockno x, vb_data x)) <$> v_bufs (cv c);
  va_disk : ∀ n, 0 ≤ n → a_disk a n = bytes_at (hw_disk (ch c)) (n * 1024) 1024;
  va_pc : ∀ p, a_pc a p = apc_of (bool_decide (p ∈ q_p <$> RU ++ RA)) (cpc c p)
}.

Lemma vrel_uses c a RP RF RU RA p b : vrel c a RP RF RU RA → uses (cpc c p) b ↔ a_uses (a_pc a p) b.
Proof. intros Hv. rewrite (va_pc _ _ _ _ _ _ Hv). by destruct (cpc c p); [| |cbn [apc_of]; case_bool_decide]. Qed.

Lemma vrel_buf c a RP RF RU RA r : vrel c a RP RF RU RA → r ∈ RP ++ RF ++ RU ++ RA →
  ∃ x, v_bufs (cv c) !! q_b r = Some x ∧ block_ok (vb_blockno x) (vb_data x) ∧ uses (cpc c (q_p r)) (q_b r).
Proof.
  intros Hv Hr. destruct (fm_op _ _ (ow_fmt _ _ _ (vr_own _ _ _ _ _ _ Hv) r Hr)) as (x & Hx & _). exists x. split; [done|]. split.
  - exact (proj1 (Forall_lookup _ _) (vr_bufs _ _ _ _ _ _ Hv) _ _ Hx).
  - by rewrite (ow_pc _ _ _ (vr_own _ _ _ _ _ _ Hv) r Hr).
Qed.

(** Transfers do not share buffers. *)
Lemma vrel_same_buf c a RP RF RU RA r r' : vrel c a RP RF RU RA →
  r ∈ RP ++ RF ++ RU ++ RA → r' ∈ RP ++ RF ++ RU ++ RA → q_b r = q_b r' → r = r'.
Proof.
  intros Hv Hr Hr' Hb. destruct (vrel_buf _ _ _ _ _ _ _ Hv Hr) as (_ & _ & _ & Hu). destruct (vrel_buf _ _ _ _ _ _ _ Hv Hr') as (_ & _ & _ & Hu').
  apply (owned_proc _ _ _ _ _ (vr_own _ _ _ _ _ _ Hv)); [done..|]. apply (vr_excl _ _ _ _ _ _ Hv _ _ (q_b r)); [done|by rewrite Hb].
Qed.

Lemma owned_list_nodup s pc R : owned s pc R → NoDup R.
Proof.
  intros Ho. pose proof (ow_nodup _ _ _ Ho) as Hnd. clear Ho. induction R as [|r R IH]; [constructor|].
  change (idxs (r :: R)) with (q_idx r ++ idxs R) in Hnd. apply NoDup_app in Hnd as (_ & Hd & Hnd). constructor; [|by apply IH].
  intros Hr. apply (Hd (q_0 r)); [unfold q_idx; set_solver|]. apply elem_of_idxs. exists r. split; [done|unfold q_idx; set_solver].
Qed.

Lemma owned_pc_ext s pc pc' R : (∀ p, pc' p = pc p) → owned s pc R → owned s pc' R.
Proof. intros Hp [Hnd Hf Hlt Hfmt Hpc Hw]. split; [done..| |]; setoid_rewrite Hp; done. Qed.
(** A process moves, but not to or from a wait for the disk. *)
Lemma owned_pc_move s pc p x R : (∀ b w i, pc p ≠ PWait b w i) → (∀ b w i, x ≠ PWait b w i) → owned s pc R → owned s (set_vpc p x pc) R.
Proof.
  intros Hp Hx [Hnd Hf Hlt Hfmt Hpc Hw]. split; [done..| |].
  - intros r Hr. unfold set_vpc. case_decide as He; [|by apply Hpc]. specialize (Hpc r Hr). rewrite He in Hpc. by apply Hp in Hpc.
  - intros q b w i. unfold set_vpc. case_decide; [intros Hq; by apply Hx in Hq|apply Hw].
Qed.

Lemma vrel_pc_ext v h pc pc' a RP RF RU RA : (∀ p, pc' p = pc p) → vrel (mkvconf v h pc) a RP RF RU RA → vrel (mkvconf v h pc') a RP RF RU RA.
Proof.
  intros Hp Hv. destruct Hv. cbn [cv ch cpc] in *. split; cbn [cv ch cpc]; try done; try (setoid_rewrite Hp; done).
  by apply (owned_pc_ext _ pc).
Qed.

(** A buffer that is not in a transfer changes. *)
Lemma sim_client v h pc d bs apc RP RF RU RA b n data : vrel (mkvconf v h pc) (mkaconf d bs apc) RP RF RU RA →
  (∀ p, ¬ uses (pc p) b) → block_ok n data →
  vrel (mkvconf (upd_vbuf b (λ x, mkvbuf (vb_disk x) n data) v) h pc) (mkaconf d (alter (λ _, (n, data)) b bs) apc) RP RF RU RA.
Proof.
  intros Hv Hb Hok.
  assert (∀ r, r ∈ RP ++ RF ++ RU ++ RA → q_b r ≠ b) as Hne.
  { intros r Hr He. destruct (vrel_buf _ _ _ _ _ _ r Hv Hr) as (_ & _ & _ & Hu). rewrite He in Hu. by apply Hb in Hu. }
  assert (∀ r, r ∈ RP ++ RF ++ RU ++ RA → alter (λ x, mkvbuf (vb_disk x) n data) b (v_bufs v) !! q_b r = v_bufs v !! q_b r) as Hsame.
  { intros r Hr. apply list_lookup_alter_ne. intros He. by apply (Hne r). }
  destruct Hv. cbn [cv ch cpc a_disk a_bufs a_pc] in *. split; cbn [cv ch cpc a_disk a_bufs a_pc]; try done.
  - apply (owned_ext v); [done| |done]. intros r Hr. apply formatted_ext; [done|done|by eauto|]. intros x Hx. exists x. split; [|done]. cbn [v_bufs upd_vbuf set_v_bufs]. by rewrite Hsame.
  - intros r x Hr. cbn [v_bufs upd_vbuf set_v_bufs]. rewrite Hsame by app_tauto Hr. eauto.
  - intros r x Hr. cbn [v_bufs upd_vbuf set_v_bufs]. rewrite Hsame by app_tauto Hr. eauto.
  - intros p b' Hu. cbn [v_bufs upd_vbuf set_v_bufs]. rewrite length_alter. eauto.
  - cbn [v_bufs upd_vbuf set_v_bufs]. apply Forall_alter; [done|]. done.
  - cbn [v_bufs upd_vbuf set_v_bufs]. rewrite va_bufs0. symmetry. by apply list_fmap_alter, Forall_true.
Qed.

(** A process that starts to use [b], as the only one. *)
Lemma excl_move (pc : nat → vpc) p b x : (∀ p q b, uses (pc p) b → uses (pc q) b → p = q) → (∀ q, uses (pc q) b → q = p) →
  (∀ b', uses x b' → b' = b) → ∀ p1 p2 b', uses (set_vpc p x pc p1) b' → uses (set_vpc p x pc p2) b' → p1 = p2.
Proof.
  intros He Hb Hx p1 p2 b'. unfold set_vpc. repeat case_decide; subst; [done|..|by apply He].
  - intros Hu Hu'. rewrite (Hx b' Hu) in Hu'. symmetry. by apply Hb.
  - intros Hu Hu'. rewrite (Hx b' Hu') in Hu. by apply Hb.
Qed.
Lemma in_move (pc : nat → vpc) p b x n : (∀ p b, uses (pc p) b → (b < n)%nat) → (b < n)%nat → (∀ b', uses x b' → b' = b) →
  ∀ q b', uses (set_vpc p x pc q) b' → (b' < n)%nat.
Proof. intros Hin Hb Hx q b'. unfold set_vpc. case_decide; [|apply Hin]. intros Hu. by rewrite (Hx b' Hu). Qed.

(** The process of a transfer is not another one's. *)
Lemma proc_not_in s pc R p : owned s pc R → (∀ b w i, pc p ≠ PWait b w i) → p ∉ q_p <$> R.
Proof. intros Ho Hp (r & -> & Hr)%list_elem_of_fmap. by eapply Hp, Ho. Qed.

Section start.
Context (v : vdisk) (h : hw) (pc : nat → vpc) (a a' : aconf) (RP RF RU RA : list rq) (p b : nat) (w : bool).
Context (Hv : vrel (mkvconf v h pc) a RP RF RU RA).
Context (Hp : ∀ b w i, pc p ≠ PWait b w i) (Hb : ∀ q, uses (pc q) b → q = p) (Hlen : (b < length (v_bufs v))%nat).
Context (Hdisk : a_disk a' = a_disk a) (Hbufs : a_bufs a' = a_bufs a) (Hpc : ∀ q, a_pc a' q = set_vpc p (AWait b w) (a_pc a) q).

#[local] Lemma p_out : p ∉ q_p <$> RU ++ RA.
Proof.
  intros Hin. apply (proc_not_in _ _ _ p (vr_own _ _ _ _ _ _ Hv) Hp). rewrite !fmap_app in *. app_tauto Hin.
Qed.

Lemma sim_submit i j k : v_free v !! i = Some true → v_free v !! j = Some true → v_free v !! k = Some true → i ≠ j ∧ i ≠ k ∧ j ≠ k →
  vrel (mkvconf (submitted (mkrq p b w i j k) v) h (set_vpc p (PWait b w i) pc)) a' (RP ++ [mkrq p b w i j k]) RF RU RA.
Proof.
  intros Hi Hj Hk (Hij & Hik & Hjk). set (r := mkrq p b w i j k). destruct (lookup_lt_is_Some_2 (v_bufs v) b Hlen) as [x Hx].
  assert (NoDup (q_idx r)) as Hnd by (unfold q_idx; cbn; repeat (apply NoDup_cons; split; [set_solver|]); apply NoDup_nil_2).
  pose proof p_out as Hout. pose proof (owned_few _ _ _ (vr_own _ _ _ _ _ _ Hv)) as Hfew. rewrite length_app in Hfew.
  pose proof Hv as Hv'. destruct Hv'. cbn [cv ch cpc] in *.
  assert (owned (submitted r v) (set_vpc p (PWait b w i) pc) ((RP ++ [r]) ++ RF ++ RU ++ RA)) as Ho.
  { apply (owned_perm _ _ (r :: RP ++ RF ++ RU ++ RA)); [by rewrite <- app_assoc; cbn; rewrite Permutation_middle|].
    apply (owned_submit v pc _ r x); [done..| |done|done|done]. intros y. unfold q_idx. cbn. rewrite !elem_of_cons, elem_of_nil. by intros [->|[->|[->|[]]]]. }
  assert (∀ r', r' ∈ RP ++ RF ++ RU ++ RA → q_b r' ≠ b) as Hne.
  { intros r' Hr' He. destruct (vrel_buf _ _ _ _ _ _ r' Hv Hr') as (_ & _ & _ & Hu). cbn [cpc] in Hu. rewrite He in Hu. apply Hb in Hu. pose proof (ow_pc _ _ _ vr_own0 r' Hr') as Hq. rewrite Hu in Hq. by apply Hp in Hq. }
  split; cbn [cv ch cpc v_lock v_desc v_free v_ops v_info av_ring us_ring av_idx us_idx v_used_idx v_bufs submitted]; rewrite ?length_insert, ?length_alter; try done.
  - rewrite fmap_app. apply window_push; [done|rewrite length_fmap; lia|done].
  - intros r' Hr'. rewrite list_lookup_alter_ne; [by apply vr_status0|]. intros He. cbn in He.
    pose proof (ow_nodup _ _ _ Ho) as Hnd'. apply (Hne r'); [app_tauto Hr'|].
    rewrite (idxs_inj _ r' r (q_0 r') Hnd'); [done|app_tauto Hr'|rewrite !elem_of_app; left; right; by left|apply q_0_in|rewrite <- He; apply (q_0_in r)].
  - intros r' y Hr' Hy. rewrite list_lookup_alter in Hy. case_decide as He; [change (q_b r) with b in Hy; rewrite Hx in Hy; by injection Hy as <-|].
    apply (vr_busy0 r' y); [|done]. rewrite !elem_of_app, list_elem_of_singleton in Hr'. rewrite !elem_of_app. destruct Hr' as [[Hr'| ->]|Hr']; [tauto|done|tauto].
  - intros r' y Hr' Hy. rewrite list_lookup_alter_ne in Hy; [by eapply vr_done0|]. intros He. apply (Hne r'); [app_tauto Hr'|done].
  - apply (excl_move pc p b); [done|done|]. by intros b' <-.
  - apply (in_move pc p b); [done|done|]. by intros b' <-.
  - apply Forall_alter; [done|]. done.
  - rewrite Hbufs, va_bufs0. symmetry. by apply fmap_alter_same.
  - by rewrite Hdisk.
  - intros q. rewrite Hpc. unfold set_vpc. case_decide as He; [|apply va_pc0]. rewrite He, bool_decide_eq_false_2 by done. done.
Qed.

Lemma sim_nodesc ds : length ds = NUM → (∀ i, v_free v !! i = Some false → ds !! i = v_desc v !! i) →
  vrel (mkvconf (set_v_desc ds v) h (set_vpc p (PNoDesc b w) pc)) a' RP RF RU RA.
Proof.
  intros Hds Hsame. pose proof p_out as Hout. pose proof Hv as Hv'. destruct Hv'. cbn [cv ch cpc] in *. split; cbn [cv ch cpc]; try done.
  - apply owned_pc_move; [done|done|]. apply (owned_ext v); [done| |done]. intros r Hr. apply formatted_ext; [|done|by eauto|by eauto].
    intros i Hi. assert (i ∈ idxs (RP ++ RF ++ RU ++ RA)) as Hin by (apply elem_of_idxs; eauto). apply Hsame.
    rewrite (ow_free _ _ _ vr_own0) by (by apply (ow_lt _ _ _ vr_own0)). f_equal. apply bool_decide_eq_false. tauto.
  - apply (excl_move pc p b); [done|done|]. by intros b' <-.
  - apply (in_move pc p b); [done|done|]. by intros b' <-.
  - by rewrite Hbufs.
  - by rewrite Hdisk.
  - intros q. rewrite Hpc. unfold set_vpc. case_decide as He; [|apply va_pc0]. done.
Qed.
End start.

(** Two transfers in different stages have different heads and buffers. *)
Lemma stages_differ c a RP RF RU RA R1 R2 r r' : vrel c a RP RF RU RA → RP ++ RF ++ RU ++ RA ≡ₚ R1 ++ R2 → r ∈ R1 → r' ∈ R2 →
  q_0 r ≠ q_0 r' ∧ q_b r ≠ q_b r' ∧ q_p r ≠ q_p r'.
Proof.
  intros Hv HR Hr Hr'. pose proof (owned_list_nodup _ _ _ (vr_own _ _ _ _ _ _ Hv)) as Hnd. rewrite HR in Hnd. apply NoDup_app in Hnd as (_ & Hd & _).
  assert (r ≠ r') as Hne by (intros ->; by apply (Hd r')).
  assert (r ∈ RP ++ RF ++ RU ++ RA) as H1 by (rewrite HR, elem_of_app; by left). assert (r' ∈ RP ++ RF ++ RU ++ RA) as H2 by (rewrite HR, elem_of_app; by right).
  split_and!; intros He; apply Hne.
  - apply (idxs_inj _ _ _ (q_0 r) (ow_nodup _ _ _ (vr_own _ _ _ _ _ _ Hv)) H1 H2); [apply q_0_in|rewrite He; apply q_0_in].
  - by apply (vrel_same_buf _ _ _ _ _ _ _ _ Hv).
  - by apply (owned_proc _ _ _ _ _ (vr_own _ _ _ _ _ _ Hv)).
Qed.

(** The process of a complete transfer returns. *)
Lemma sim_return v h pc d bs apc RP RF RU l1 r l2 : vrel (mkvconf v h pc) (mkaconf d bs apc) RP RF RU (l1 ++ r :: l2) →
  vrel (mkvconf (finished r v) h (set_vpc (q_p r) PIdle pc)) (mkaconf d bs (set_vpc (q_p r) AIdle apc)) RP RF RU (l1 ++ l2).
Proof.
  intros Hv. assert (RP ++ RF ++ RU ++ l1 ++ r :: l2 ≡ₚ [r] ++ (RP ++ RF ++ RU ++ l1 ++ l2)) as HR.
  { by rewrite <- !Permutation_middle. }
  assert (∀ r', r' ∈ RP ++ RF ++ RU ++ l1 ++ l2 → q_0 r ≠ q_0 r' ∧ q_b r ≠ q_b r' ∧ q_p r ≠ q_p r') as Hne.
  { intros r' Hr'. apply (stages_differ _ _ _ _ _ _ _ _ r r' Hv HR); [by left|done]. }
  destruct Hv. cbn [cv ch cpc a_disk a_bufs a_pc] in *.
  split; cbn [cv ch cpc a_disk a_bufs a_pc v_lock v_desc v_free v_ops v_info av_ring us_ring av_idx us_idx v_used_idx v_bufs finished];
    rewrite ?length_insert, ?length_alter; try done.
  - apply owned_finish; [done|]. by apply (owned_perm _ _ _ _ HR).
  - intros r' Hr'. rewrite list_lookup_alter_ne; [by apply vr_status0|]. apply Hne. app_tauto Hr'.
  - intros r' x Hr'. apply vr_done0. rewrite elem_of_app, elem_of_cons. app_tauto Hr'.
  - intros p q b. unfold set_vpc. repeat case_decide; [by intros []|by intros []|by intros _ []|by apply vr_excl0].
  - intros p b. unfold set_vpc. case_decide; [by intros []|by apply vr_in0].
  - intros p. unfold set_vpc. case_decide as Hp; [done|]. rewrite va_pc0. f_equal. apply bool_decide_ext. rewrite !fmap_app, fmap_cons, !elem_of_app, elem_of_cons. tauto.
Qed.

(** An interrupt. *)
Lemma window_refl ring e : 0 ≤ e < 65536 → window ring e e [].
Proof. intros He. split; [done|]. by rewrite Z.sub_diag. Qed.
Lemma acked_lookup bs (l : list vbuf) (b : nat) x : l !! b = Some x →
  foldl (λ l b, alter (set_vb_disk 0) b l) l bs !! b = Some (if decide (b ∈ bs) then set_vb_disk 0 x else x).
Proof.
  revert l x. induction bs as [|b' bs IH]; intros l x Hx; cbn [foldl]; [by rewrite decide_False by apply not_elem_of_nil|].
  rewrite (IH _ _ (alter_some _ _ b' _ _ Hx)). f_equal. destruct (decide (b ∈ bs)) as [Hb|Hb], (decide (b' = b)) as [He|He];
    [rewrite decide_True by (by right)|rewrite decide_True by (by right)|rewrite decide_True by (rewrite He; by left)|rewrite decide_False by (rewrite elem_of_cons; naive_solver)]; done.
Qed.
Lemma acked_length bs (l : list vbuf) : length (foldl (λ l b, alter (set_vb_disk 0) b l) l bs) = length l.
Proof. revert l. induction bs as [|b bs IH]; intros l; [done|]. cbn [foldl]. rewrite IH. apply length_alter. Qed.
Lemma acked_lookup_inv bs (l : list vbuf) (b : nat) y : foldl (λ l b, alter (set_vb_disk 0) b l) l bs !! b = Some y →
  ∃ x, l !! b = Some x ∧ y = if decide (b ∈ bs) then set_vb_disk 0 x else x.
Proof.
  intros Hy. pose proof (acked_length bs l) as Hl.
  destruct (lookup_lt_is_Some_2 l b) as [x Hx]; [rewrite <- Hl; by eapply lookup_lt_Some|]. exists x. split; [done|]. rewrite (acked_lookup _ _ _ _ Hx) in Hy. by injection Hy.
Qed.

Lemma sim_intr v h pc a RP RF RU RA : vrel (mkvconf v h pc) a RP RF RU RA → vrel (mkvconf (acked (q_b <$> RU) v) h pc) a RP RF [] (RU ++ RA).
Proof.
  intros Hv. assert (∀ r r', r ∈ RU → r' ∈ RP ++ RF ++ RA → q_b r ≠ q_b r') as Hne.
  { intros r r' Hr Hr'. apply (stages_differ _ _ _ _ _ _ RU (RP ++ RF ++ RA) r r' Hv); [|done|done]. by rewrite !(Permutation_app_swap_app RU). }
  destruct Hv. cbn [cv ch cpc] in *. split; cbn [cv ch cpc acked set_v_used_idx set_v_bufs v_bufs v_used_idx us_idx us_ring]; try done.
  - apply window_refl. by destruct vr_used0 as [[]].
  - apply (owned_ext v); [done| |done]. intros r Hr. apply formatted_ext; [done|done|by eauto|].
    intros x Hx. eexists. split; [by apply acked_lookup|]. by case_decide.
  - intros r Hr. by apply not_elem_of_nil in Hr.
  - intros r y Hr (x & Hx & ->)%acked_lookup_inv. rewrite app_nil_r in Hr. rewrite decide_False; [apply (vr_busy0 r x); [app_tauto Hr|done]|].
    intros (r' & He & Hr')%list_elem_of_fmap. apply (Hne r' r); [done|app_tauto Hr|done].
  - intros r y Hr (x & Hx & ->)%acked_lookup_inv. case_decide as Hb; [done|]. apply elem_of_app in Hr as [Hr|Hr]; [|by apply (vr_done0 r)].
    destruct Hb. apply list_elem_of_fmap. eauto.
  - intros p b Hu. rewrite acked_length. eauto.
  - apply Forall_lookup. intros b y (x & Hx & ->)%acked_lookup_inv. apply (proj1 (Forall_lookup _ _) vr_bufs0) in Hx. by case_decide.
  - rewrite va_bufs0. clear. generalize (q_b <$> RU). intros bs. generalize (v_bufs v). induction bs as [|b bs IH]; intros l; [done|]. cbn [foldl]. rewrite <- IH. symmetry. by apply fmap_alter_same.
Qed.

(** The device fetches a request. *)
Lemma sim_fetch v h pc a RP RF RU RA v' h' : vrel (mkvconf v h pc) a RP RF RU RA → fetch v h = Some (v', h') →
  ∃ r RP', vrel (mkvconf v' h' pc) a RP' (RF ++ [r]) RU RA.
Proof.
  intros Hv. unfold fetch. destruct (hw_seen h =? av_idx v) eqn:He; [done|]. apply Z.eqb_neq in He. intros [= <- <-].
  destruct RP as [|r RP']. { pose proof (window_nil _ _ _ _ (vr_avail _ _ _ _ _ _ Hv)) as [_ Hn]. by destruct (He (Hn eq_refl)). }
  exists r, RP'. destruct Hv. cbn [cv ch cpc] in *. rewrite fmap_cons in vr_avail0. destruct (window_pop _ _ _ _ _ vr_avail0) as (Hx & _ & Hw).
  assert (RP' ++ (RF ++ [r]) ++ RU ++ RA ≡ₚ (r :: RP') ++ RF ++ RU ++ RA) as HR by (rewrite <- app_assoc; cbn; by rewrite <- !Permutation_middle).
  split; cbn [cv ch cpc hw_seen hw_pending hw_disk]; try done.
  - change (Z.of_nat NUM) with 8. rewrite Hx, Nat2Z.id, vr_pend0, fmap_app. done.
  - by apply (owned_perm _ _ _ _ (symmetry HR)).
  - intros r' x Hr'. apply vr_busy0. revert Hr'. rewrite !elem_of_app, !elem_of_cons, elem_of_nil. tauto.
Qed.

(** What the device does with a request. *)
Definition performed (r : rq) (x : vbuf) (disk : mem) (v : vdisk) : vdisk :=
  mkvdisk (v_lock v) (v_desc v) (av_idx v) (av_ring v) (u16 (us_idx v + 1)) (<[Z.to_nat (us_idx v mod 8) := Z.of_nat (q_0 r)]> (us_ring v))
    (v_free v) (v_used_idx v) (alter (λ y, (y.1, 0)) (q_0 r) (v_info v)) (v_ops v)
    (if q_w r then v_bufs v else alter (set_vb_data (bytes_at disk (vb_blockno x * 1024) 1024)) (q_b r) (v_bufs v)).

Lemma complete_run v h n r x : formatted v r → v_bufs v !! q_b r = Some x → block_ok (vb_blockno x) (vb_data x) → hw_pending h !! n = Some (q_0 r) →
  complete n v h = Some (performed r x (hw_disk h) v,
    mkhw (if q_w r then write_bytes (vb_blockno x * 1024) (vb_data x) (hw_disk h) else hw_disk h) (hw_seen h) (delete n (hw_pending h))).
Proof.
  intros [H0 H1 H2 (y & Hy & Hop) _] Hx [Hbn Hlen] Hn. assert (y = x) as -> by congruence. unfold complete. rewrite Hn.
  rewrite (list_lookup_total_correct _ _ _ H0). cbn [vd_next head_desc vd_addr]. rewrite Nat2Z.id, (list_lookup_total_correct _ _ _ H1).
  cbn [vd_next data_desc vd_addr]. rewrite Nat2Z.id, (list_lookup_total_correct _ _ _ H2). cbn [status_desc vd_addr].
  assert (has_flag VRING_DESC_F_NEXT (head_desc r) && has_flag VRING_DESC_F_NEXT (data_desc r) = true) as -> by (unfold has_flag, data_desc; by destruct (q_w r)).
  cbn [negb]. assert (has_flag VRING_DESC_F_WRITE (data_desc r) = negb (q_w r)) as -> by (unfold has_flag, data_desc; by destruct (q_w r)).
  rewrite (list_lookup_total_correct _ _ _ Hop), (list_lookup_total_correct _ _ _ Hx). cbn [vr_type vr_sector request vd_len data_desc].
  assert (u32 (vb_blockno x * 2) * 512 = vb_blockno x * 1024) as -> by mach_lia. change (Z.to_nat 1024) with 1024%nat. rewrite take_ge by lia.
  unfold performed. by destruct (q_w r).
Qed.

Lemma performed_buf r x disk v b y : v_bufs v !! b = Some y → ∃ y', v_bufs (performed r x disk v) !! b = Some y' ∧
  vb_blockno y' = vb_blockno y ∧ vb_disk y' = vb_disk y ∧ (length (vb_data y) = 1024%nat → length (vb_data y') = 1024%nat).
Proof.
  intros Hy. cbn [v_bufs performed]. destruct (q_w r); [by exists y|]. eexists. split; [by apply alter_some|]. case_decide; [|done].
  cbn [vb_blockno vb_disk vb_data set_vb_data]. by rewrite bytes_at_length.
Qed.
Lemma performed_length r x disk v : length (v_bufs (performed r x disk v)) = length (v_bufs v).
Proof. cbn [v_bufs performed]. destruct (q_w r); [done|apply length_alter]. Qed.
Lemma performed_buf_inv r x disk v b y' : v_bufs (performed r x disk v) !! b = Some y' → ∃ y, v_bufs v !! b = Some y ∧
  vb_blockno y' = vb_blockno y ∧ vb_disk y' = vb_disk y ∧ (length (vb_data y) = 1024%nat → length (vb_data y') = 1024%nat).
Proof.
  intros Hy'. destruct (lookup_lt_is_Some_2 (v_bufs v) b) as [y Hy].
  { apply lookup_lt_Some in Hy'. by rewrite performed_length in Hy'. }
  exists y. split; [done|]. destruct (performed_buf r x disk v b y Hy) as (y'' & Hy'' & Hrest). by replace y' with y'' by congruence.
Qed.

Lemma sim_perform v h pc a RP l1 r l2 RU RA x disk a' : vrel (mkvconf v h pc) a RP (l1 ++ r :: l2) RU RA →
  a_bufs a' = (λ x, (vb_blockno x, vb_data x)) <$> v_bufs (performed r x (hw_disk h) v) →
  (∀ n, 0 ≤ n → a_disk a' n = bytes_at disk (n * 1024) 1024) →
  (∀ q, a_pc a' q = set_vpc (q_p r) (ADone (q_b r)) (a_pc a) q) →
  vrel (mkvconf (performed r x (hw_disk h) v) (mkhw disk (hw_seen h) (delete (length l1) (hw_pending h))) pc) a' RP (l1 ++ l2) (RU ++ [r]) RA.
Proof.
  intros Hv Hbufs Hdisk Hpc. assert (RP ++ (l1 ++ r :: l2) ++ RU ++ RA ≡ₚ [r] ++ (RP ++ (l1 ++ l2) ++ RU ++ RA)) as HR.
  { rewrite <- (app_assoc l1). cbn. rewrite <- (app_assoc l1). by rewrite <- !Permutation_middle. }
  assert (∀ r', r' ∈ RP ++ (l1 ++ l2) ++ RU ++ RA → q_0 r ≠ q_0 r' ∧ q_b r ≠ q_b r' ∧ q_p r ≠ q_p r') as Hne.
  { intros r' Hr'. apply (stages_differ _ _ _ _ _ _ _ _ r r' Hv HR); [by left|done]. }
  assert (r ∈ RP ++ (l1 ++ r :: l2) ++ RU ++ RA) as Hin by (rewrite HR; by left).
  pose proof (owned_few _ _ _ (vr_own _ _ _ _ _ _ Hv)) as Hfew. rewrite HR, !length_app in Hfew.
  destruct Hv. cbn [cv ch cpc] in *. destruct (fm_info _ _ (ow_fmt _ _ _ vr_own0 r Hin)) as [st Hst].
  split; cbn [cv ch cpc hw_disk hw_seen hw_pending]; try done.
  - cbn [v_info performed]. by rewrite length_alter.
  - cbn [us_ring performed]. by rewrite length_insert.
  - rewrite vr_pend0, !fmap_app, fmap_cons. rewrite <- (length_fmap q_0 l1). apply delete_middle.
  - rewrite fmap_app. apply window_push; [done|rewrite length_fmap; lia|done].
  - apply (owned_perm _ _ (RP ++ (l1 ++ r :: l2) ++ RU ++ RA)); [rewrite HR, <- (app_assoc RU); cbn; by rewrite <- !Permutation_middle|].
    apply (owned_ext v); [done| |done]. intros r' Hr'. apply formatted_ext; [done|done| |].
    + intros st' Hst'. cbn [v_info performed]. rewrite (alter_some _ _ _ _ _ Hst'). case_decide; eexists; reflexivity.
    + intros y Hy. destruct (performed_buf r x (hw_disk h) v _ _ Hy) as (y' & Hy' & Hn & _). eauto.
  - intros r' [Hr'|Hr']%elem_of_app; cbn [v_info performed].
    + rewrite list_lookup_alter_ne; [by apply vr_status0|]. apply Hne. app_tauto Hr'.
    + apply list_elem_of_singleton in Hr' as ->. by rewrite list_lookup_alter_eq, Hst.
  - intros r' y' Hr' (y & Hy & _ & -> & _)%performed_buf_inv. apply (vr_busy0 r' y); [|done]. revert Hr'. rewrite !elem_of_app, !elem_of_cons, elem_of_nil. tauto.
  - intros r' y' Hr' (y & Hy & _ & -> & _)%performed_buf_inv. by apply (vr_done0 r' y).
  - intros p b Hu. rewrite performed_length. eauto.
  - apply Forall_lookup. intros b y' (y & Hy & Hn & _ & Hl)%performed_buf_inv. apply (proj1 (Forall_lookup _ _) vr_bufs0) in Hy as [Hbn Hlen]. split; [by rewrite Hn|auto].
  - intros q. rewrite Hpc. unfold set_vpc. case_decide as Hq.
    + rewrite Hq, (ow_pc _ _ _ vr_own0 r Hin). rewrite bool_decide_eq_true_2; [done|]. apply list_elem_of_fmap. exists r. split; [done|]. rewrite !elem_of_app, list_elem_of_singleton. tauto.
    + rewrite va_pc0. f_equal. apply bool_decide_ext. rewrite !fmap_app, !elem_of_app. cbn. rewrite list_elem_of_singleton. tauto.
Qed.

Lemma sim_complete v h pc a RP RF RU RA n v' h' : vrel (mkvconf v h pc) a RP RF RU RA → complete n v h = Some (v', h') →
  ∃ a' RF' r, astep a a' ∧ vrel (mkvconf v' h' pc) a' RP RF' (RU ++ [r]) RA.
Proof.
  intros Hv Hc. pose proof (vr_pend _ _ _ _ _ _ Hv) as Hpend. cbn [ch] in Hpend. assert (∃ r, RF !! n = Some r) as [r Hr].
  { revert Hc. unfold complete. rewrite Hpend, list_lookup_fmap. destruct (RF !! n); [by eauto|done]. }
  pose proof (list_elem_of_lookup_2 _ _ _ Hr) as Hin. apply list_elem_of_split_length in Hr as (l1 & l2 & -> & ->).
  assert (r ∈ RP ++ (l1 ++ r :: l2) ++ RU ++ RA) as HinR by app_tauto Hin.
  destruct (vrel_buf _ _ _ _ _ _ r Hv HinR) as (x & Hx & Hok & _). cbn [cv] in Hx.
  pose proof (ow_fmt _ _ _ (vr_own _ _ _ _ _ _ Hv) r HinR) as Hfmt. cbn [cv] in Hfmt.
  rewrite (complete_run v h _ r x Hfmt Hx Hok) in Hc by (rewrite Hpend, list_lookup_fmap, list_lookup_middle by done; done). injection Hc as <- <-.
  assert (a_pc a (q_p r) = AWait (q_b r) (q_w r)) as Hpc.
  { rewrite (va_pc _ _ _ _ _ _ Hv), (ow_pc _ _ _ (vr_own _ _ _ _ _ _ Hv) r HinR). cbn [apc_of]. rewrite bool_decide_eq_false_2; [done|].
    intros (r' & He & Hr')%list_elem_of_fmap. apply (stages_differ _ _ _ _ _ _ (RP ++ l1 ++ r :: l2) (RU ++ RA) r r' Hv); [by rewrite <- !app_assoc|app_tauto Hin|done|done]. }
  pose proof (va_bufs _ _ _ _ _ _ Hv) as Hbufs. pose proof (va_disk _ _ _ _ _ _ Hv) as Hdisk. destruct a as [d bs pc']. cbn [cv ch a_bufs a_disk a_pc] in *.
  assert (bs !! q_b r = Some (vb_blockno x, vb_data x)) as Hb by (by rewrite Hbufs, list_lookup_fmap, Hx). destruct Hok as [Hbn Hlen].
  destruct (q_w r) eqn:Hw; [eexists (mkaconf _ bs _), _, r; split; [by apply (a_write d bs pc' (q_p r) (q_b r) (vb_blockno x) (vb_data x))|]
    |eexists (mkaconf d _ _), _, r; split; [by apply (a_read d bs pc' (q_p r) (q_b r) (vb_blockno x) (vb_data x))|]];
    apply (sim_perform _ _ _ _ _ _ _ _ _ _ _ _ _ Hv); try done; cbn [a_bufs a_disk v_bufs performed]; rewrite ?Hw; try done.
  - intros m Hm. case_decide as He; [rewrite He, <- Hlen at 1; by rewrite bytes_write|]. rewrite Hdisk by done. symmetry. apply bytes_write_ne. unfold disjoint_ranges. lia.
  - rewrite Hbufs, Hdisk by lia. apply list_eq. intros i. rewrite list_lookup_insert, !list_lookup_fmap, list_lookup_alter, length_fmap.
    pose proof (lookup_lt_Some _ _ _ Hx). destruct (decide (q_b r = i)) as [<-|]; [rewrite decide_True by done; by rewrite Hx|]. rewrite decide_False by tauto. done.
Qed.

(** ** Refinement *)

Lemma sim_start v h pc a a' RP RF RU RA p b w r v' t : vrel (mkvconf v h pc) a RP RF RU RA →
  (∀ b w i, pc p ≠ PWait b w i) → (∀ q, uses (pc q) b → q = p) → (b < length (v_bufs v))%nat →
  a_disk a' = a_disk a → a_bufs a' = a_bufs a → (∀ q, a_pc a' q = set_vpc p (AWait b w) (a_pc a) q) →
  virtio_rw_start b w v = Done r v' t → ∃ RP', vrel (mkvconf v' h (set_vpc p (pc_after b w r) pc)) a' RP' RF RU RA.
Proof.
  intros Hv Hp Hb Hlen Hdisk Hbufs Hpc Hr.
  destruct (start_run b w v) as [(i & j & k & Hi & Hj & Hk & Hne & Hr')|(ds & t' & Hr' & Hl & Hds & _)]; [apply Hv..|done| |].
  - rewrite (Hr' p) in Hr. injection Hr as <- <- _. eexists. by eapply sim_submit.
  - rewrite Hr' in Hr. injection Hr as <- <- _. eexists. by eapply sim_nodesc.
Qed.

(** Where the transfer of a waiting process is, and what its process does. *)
Lemma resume_cases v h pc a RP RF RU RA p b w i0 : vrel (mkvconf v h pc) a RP RF RU RA → pc p = PWait b w i0 →
  (virtio_rw_resume b i0 v = Done (Waiting i0) v [] ∧ p ∉ q_p <$> RA) ∨
  (∃ r l1 l2 t, q_p r = p ∧ RA = l1 ++ r :: l2 ∧ virtio_rw_resume b i0 v = Done Finished (finished r v) t).
Proof.
  intros Hv Hp. pose proof (vr_own _ _ _ _ _ _ Hv) as Ho. cbn [cv cpc] in Ho. destruct (ow_wait _ _ _ Ho _ _ _ _ Hp) as (r & Hr & <-).
  pose proof (ow_pc _ _ _ Ho r Hr) as Hq. rewrite Hp in Hq. injection Hq as -> -> ->.
  destruct (vrel_buf _ _ _ _ _ _ r Hv Hr) as (x & Hx & _ & _). cbn [cv] in Hx. rewrite !app_assoc, elem_of_app in Hr. rewrite <- !app_assoc in Hr. destruct Hr as [Hr|Hr].
  - left. split; [apply (wait_run _ _ _ x); [apply Hv|done|]; by apply (vr_busy _ _ _ _ _ _ Hv r)|].
    intros (r' & He & Hr')%list_elem_of_fmap. apply (stages_differ _ _ _ _ _ _ (RP ++ RF ++ RU) RA r r' Hv); [by rewrite <- !app_assoc|done|done|done].
  - right. assert (r ∈ RP ++ RF ++ RU ++ RA) as HinR by app_tauto Hr. pose proof (ow_nodup _ _ _ Ho) as Hnd. apply list_elem_of_split in Hr as (l1 & l2 & HRA).
    destruct (finish_run r v x) as [t Ht]; [apply Hv|done| |by apply Ho| |by apply (q_idx_nodup _ r Hnd)|].
    + rewrite (vr_done _ _ _ _ _ _ Hv r x); [done|rewrite HRA, elem_of_app; right; by left|done].
    + intros i Hi. assert (i ∈ idxs (RP ++ RF ++ RU ++ RA)) as Hin by (apply elem_of_idxs; eauto). pose proof (ow_lt _ _ _ Ho i Hin). split; [done|].
      rewrite (ow_free _ _ _ Ho i) by done. f_equal. apply bool_decide_eq_false. tauto.
    + exists r, l1, l2, t. done.
Qed.

Lemma intr_cases v h pc a RP RF RU RA st : vrel (mkvconf v h pc) a RP RF RU RA →
  ∃ t, virtio_disk_intr st v = Done tt (acked (q_b <$> RU) v) t ∧ ∀ r, r ∈ RU → VWakeup (A_buf (q_b r)) ∈ t.
Proof.
  intros Hv. pose proof (owned_few _ _ _ (vr_own _ _ _ _ _ _ Hv)) as Hfew. rewrite !length_app in Hfew. apply intr_run; [lia|apply Hv|apply Hv|apply Hv].
Qed.

Lemma vsim_step `{DiskDev} c c' a RP RF RU RA : vrel c a RP RF RU RA → vstep c c' →
  ∃ a' RP' RF' RU' RA', rtc astep a a' ∧ vrel c' a' RP' RF' RU' RA'.
Proof.
  intros Hv Hs. destruct Hs as [v h pc b n data Hb Hok|v h pc p b w r v' t Hp Hb Hlen Hr|v h pc p b w r v' t Hp Hr|v h pc p b w i0 r v' t Hp Hr|v h pc st v' t Hr|v h pc v' h' Hd].
  - destruct a as [d bs apc]. exists (mkaconf d (alter (λ _, (n, data)) b bs) apc), RP, RF, RU, RA. split; [|by apply sim_client].
    apply rtc_once, a_client; [|done]. intros p Hu. apply (Hb p). by apply (vrel_uses _ _ _ _ _ _ p b Hv).
  - destruct (sim_start v h pc a (mkaconf (a_disk a) (a_bufs a) (set_vpc p (AWait b w) (a_pc a))) RP RF RU RA p b w r v' t Hv) as [RP' Hv']; [by rewrite Hp|by intros q []%Hb|done..|].
    eexists _, RP', RF, RU, RA. split; [|exact Hv']. destruct a as [d bs apc]. apply rtc_once, a_call.
    + pose proof (va_pc _ _ _ _ _ _ Hv p) as Hq. cbn in Hq. cbn. by rewrite Hq, Hp.
    + intros q Hu. apply (Hb q). by apply (vrel_uses _ _ _ _ _ _ q b Hv).
    + cbn. pose proof (va_bufs _ _ _ _ _ _ Hv) as Hbs. cbn in Hbs. by rewrite Hbs, length_fmap.
  - destruct (sim_start v h pc a a RP RF RU RA p b w r v' t Hv) as [RP' Hv']; [by rewrite Hp|..|done|done| |done|by exists a, RP', RF, RU, RA].
    + intros q Hu. apply (vr_excl _ _ _ _ _ _ Hv q p b Hu). by cbn; rewrite Hp.
    + apply (vr_in _ _ _ _ _ _ Hv p). by cbn; rewrite Hp.
    + intros q. unfold set_vpc. case_decide as Hq; [|done]. subst q. rewrite (va_pc _ _ _ _ _ _ Hv). by cbn; rewrite Hp.
  - destruct (resume_cases _ _ _ _ _ _ _ _ _ _ _ _ Hv Hp) as [[Hr' _]|(q & l1 & l2 & t' & Hq & HRA & Hr')]; rewrite Hr' in Hr; injection Hr as <- <- _.
    + exists a, RP, RF, RU, RA. split; [done|]. apply (vrel_pc_ext v h pc); [|done]. intros q. unfold set_vpc. case_decide as Hq; [by rewrite Hq|done].
    + subst p RA. destruct a as [d bs apc]. eexists _, RP, RF, RU, (l1 ++ l2). split; [|by apply sim_return].
      apply rtc_once, (a_return _ _ _ _ b). pose proof (va_pc _ _ _ _ _ _ Hv (q_p q)) as Hq. cbn [a_pc cpc] in Hq. rewrite Hq, Hp. cbn [apc_of].
      rewrite bool_decide_eq_true_2; [done|]. apply list_elem_of_fmap. exists q. split; [done|]. rewrite !elem_of_app, elem_of_cons. tauto.
  - destruct (intr_cases _ _ _ _ _ _ _ _ st Hv) as (t' & Hr' & _). rewrite Hr' in Hr. injection Hr as <- _. exists a, RP, RF, [], (RU ++ RA). split; [done|by apply sim_intr].
  - apply dev_spec in Hd as [Hf|[n Hc]].
    + destruct (sim_fetch _ _ _ _ _ _ _ _ _ _ Hv Hf) as (r & RP' & Hv'). by exists a, RP', (RF ++ [r]), RU, RA.
    + destruct (sim_complete _ _ _ _ _ _ _ _ _ _ _ Hv Hc) as (a' & RF' & r & Ha & Hv'). exists a', RP, RF', (RU ++ [r]), RA. split; [by apply rtc_once|done].
Qed.

(** What [virtio_disk_init] leaves. *)
Definition initialised (s0 : vdisk) : vdisk :=
  mkvdisk false (replicate NUM desc0) 0 (replicate NUM 0) 0 (replicate NUM 0) (replicate NUM true) (v_used_idx s0) (v_info s0) (v_ops s0) (v_bufs s0).

Lemma free_all_run s : length (v_free s) = NUM → for_upto NUM (λ i, modify (upd_free i true)) s = Done (E:=vevent) tt (set_v_free (replicate NUM true) s) [].
Proof.
  intros Hl. unfold for_upto, NUM. cbn [for_from]. rewrite !bind_modify. unfold ret. f_equal. apply vdisk_eq; try reflexivity.
  cbn [v_free upd_free set_v_free]. destruct (v_free s) as [|? [|? [|? [|? [|? [|? [|? [|? [|]]]]]]]]]; try discriminate Hl. reflexivity.
Qed.

Lemma init_run mmio status desc avail used s0 s t : length (v_free s0) = NUM →
  virtio_disk_init mmio status desc avail used s0 = Done tt s t → s = initialised s0.
Proof.
  intros Hl. unfold virtio_disk_init. rewrite bind_modify. case_match; [done|]. rewrite !bind_emit. case_match; [done|]. rewrite !bind_emit.
  case_match; [done|]. case_match; [done|]. case_match; [done|]. case_match; [done|]. rewrite !bind_modify, !bind_emit.
  match goal with |- context [bind (for_upto _ _) _ ?s'] => rewrite (bind_done _ _ _ _ _ (free_all_run s' Hl)) end. unfold emit. cbn [pre]. intros [= <- _]. by apply vdisk_eq.
Qed.

(** The driver returns from every operation, asks for descriptors in vain only
    while a transfer is in progress, and after an interrupt every process whose
    transfer has happened has been woken and returns. *)
Definition vsafe (c : vconf) (a : aconf) : Prop :=
  (∀ p b w, cpc c p = PNoDesc b w ∨ (cpc c p = PIdle ∧ (b < length (v_bufs (cv c)))%nat) →
    ∃ r s t, virtio_rw_start b w (cv c) = Done r s t ∧ (r = NoDesc → ∃ q b' w' i, cpc c q = PWait b' w' i)) ∧
  (∀ p b w i, cpc c p = PWait b w i → ∃ r s t, virtio_rw_resume b i (cv c) = Done r s t) ∧
  (∀ st, ∃ s t, virtio_disk_intr st (cv c) = Done tt s t ∧
    ∀ p b w i, cpc c p = PWait b w i → a_pc a p = ADone b →
      (vb_disk (v_bufs (cv c) !!! b) = 0 ∨ VWakeup (A_buf b) ∈ t) ∧ ∃ s' t', virtio_rw_resume b i s = Done Finished s' t').

(** The buffers and the disk are those of the specification, and the calls that
    have returned there have returned. *)
Definition vobs (c : vconf) (a : aconf) : Prop :=
  a_bufs a = (λ x, (vb_blockno x, vb_data x)) <$> v_bufs (cv c) ∧
  (∀ n, 0 ≤ n → a_disk a n = bytes_at (hw_disk (ch c)) (n * 1024) 1024) ∧
  (∀ p, a_pc a p = AIdle ↔ cpc c p = PIdle).

Lemma vrel_obs c a RP RF RU RA : vrel c a RP RF RU RA → vobs c a.
Proof.
  intros Hv. split_and!; [apply Hv|apply Hv|]. intros p. rewrite (va_pc _ _ _ _ _ _ Hv). destruct (cpc c p); cbn; [done|done|]. by case_bool_decide.
Qed.

Lemma start_safe v h pc a RP RF RU RA p b w : vrel (mkvconf v h pc) a RP RF RU RA → pc p = PNoDesc b w ∨ (pc p = PIdle ∧ (b < length (v_bufs v))%nat) →
  ∃ r s t, virtio_rw_start b w v = Done r s t ∧ (r = NoDesc → ∃ q b' w' i, pc q = PWait b' w' i).
Proof.
  intros Hv Hp. destruct (start_run b w v) as [(i & j & k & _ & _ & _ & _ & Hr)|(ds & t & Hr & _ & _ & Hn)]; [apply Hv..| | |].
  - destruct Hp as [Hp|[_ Hb]]; [|done]. apply (vr_in _ _ _ _ _ _ Hv p). by cbn; rewrite Hp.
  - eexists _, _, _. by rewrite (Hr p).
  - eexists _, _, _. split; [exact Hr|]. intros _. pose proof (vr_own _ _ _ _ _ _ Hv) as Ho. cbn [cv cpc] in Ho.
    destruct (RP ++ RF ++ RU ++ RA) as [|r R] eqn:HR; [|exists (q_p r); do 3 eexists; apply (ow_pc _ _ _ Ho r); by left].
    destruct (Hn 0%nat 1%nat 2%nat); [apply (ow_free _ _ _ Ho); unfold NUM; lia..|lia].
Qed.

Lemma vrel_safe c a RP RF RU RA : vrel c a RP RF RU RA → vsafe c a.
Proof.
  intros Hv. destruct c as [v h pc]. split_and!; cbn [cv ch cpc].
  - intros p b w Hp. by eapply start_safe.
  - intros p b w i Hp. destruct (resume_cases _ _ _ _ _ _ _ _ _ _ _ _ Hv Hp) as [[Hr _]|(q & l1 & l2 & t & _ & _ & Hr)]; rewrite Hr; eauto.
  - intros st. destruct (intr_cases _ _ _ _ _ _ _ _ st Hv) as (t & Hr & Hw). eexists _, t. split; [exact Hr|]. intros p b w i Hp Ha.
    rewrite (va_pc _ _ _ _ _ _ Hv) in Ha. cbn [cpc] in Ha. rewrite Hp in Ha. cbn [apc_of] in Ha. case_bool_decide as Hin; [|done].
    split.
    + apply list_elem_of_fmap in Hin as (r & -> & Hin). assert (r ∈ RP ++ RF ++ RU ++ RA) as HinR by app_tauto Hin.
      pose proof (ow_pc _ _ _ (vr_own _ _ _ _ _ _ Hv) r HinR) as Hq. cbn [cpc] in Hq. rewrite Hp in Hq. injection Hq as -> _ _.
      apply elem_of_app in Hin as [Hin|Hin]; [right; by apply Hw|left]. destruct (vrel_buf _ _ _ _ _ _ r Hv HinR) as (x & Hx & _).
      rewrite (list_lookup_total_correct _ _ _ Hx). by apply (vr_done _ _ _ _ _ _ Hv r).
    + destruct (resume_cases _ _ _ _ _ _ _ _ _ _ _ _ (sim_intr _ _ _ _ _ _ _ _ Hv) Hp) as [[_ Hout]|(q & l1 & l2 & t' & _ & _ & Hr')]; [done|eauto].
Qed.

Lemma initial_vrel s0 disk : length (v_info s0) = NUM → length (v_ops s0) = NUM → v_used_idx s0 = 0 →
  Forall (λ x, block_ok (vb_blockno x) (vb_data x)) (v_bufs s0) →
  vrel (mkvconf (initialised s0) (mkhw disk 0 []) (λ _, PIdle))
    (mkaconf (λ n, bytes_at disk (n * 1024) 1024) ((λ x, (vb_blockno x, vb_data x)) <$> v_bufs s0) (λ _, AIdle)) [] [] [] [].
Proof.
  intros Hi Ho Hu Hb. split; cbn [cv ch cpc initialised hw_seen hw_pending av_ring av_idx us_ring us_idx v_used_idx fmap list_fmap]; try done.
  - rewrite Hu. apply window_refl. lia.
  - split; try done; [constructor| |by intros i ?%not_elem_of_nil|by intros i ?%not_elem_of_nil|by intros i ?%not_elem_of_nil].
    intros i Hi'. change (replicate NUM true !! i = Some true). by apply lookup_replicate_2.
  - by intros i ?%not_elem_of_nil.
  - by intros i x ?%not_elem_of_nil.
  - by intros i x ?%not_elem_of_nil.
Qed.

(** C11. Whatever the interleaving of the processes, the interrupts and the
    device, the driver of the virtio disk implements atomic transfers of whole
    blocks: each call of [virtio_disk_rw] reads or writes its block once, at
    one instant between the call and the return, with the other transfers in
    some order. No operation panics or loops, descriptors run out only while
    transfers are in progress, and no completion is lost. *)
Theorem virtio_refines `{DiskDev} mmio status desc avail used s0 s t disk c :
  length (v_free s0) = NUM → length (v_info s0) = NUM → length (v_ops s0) = NUM → v_used_idx s0 = 0 →
  Forall (λ x, block_ok (vb_blockno x) (vb_data x)) (v_bufs s0) →
  virtio_disk_init mmio status desc avail used s0 = Done tt s t →
  rtc vstep (mkvconf s (mkhw disk 0 []) (λ _, PIdle)) c →
  ∃ a, rtc astep (mkaconf (λ n, bytes_at disk (n * 1024) 1024) ((λ x, (vb_blockno x, vb_data x)) <$> v_bufs s0) (λ _, AIdle)) a ∧
    vobs c a ∧ vsafe c a.
Proof.
  intros Hf Hi Ho Hu Hb Hinit Hrun. apply init_run in Hinit as ->; [|done].
  set (a0 := mkaconf _ _ _). assert (∃ a RP RF RU RA, rtc astep a0 a ∧ vrel c a RP RF RU RA) as (a & RP & RF & RU & RA & Ha & Hv).
  { revert Hrun. apply (rtc_invariant (λ c, ∃ a RP RF RU RA, rtc astep a0 a ∧ vrel c a RP RF RU RA)).
    - intros c1 c2 (a & RP & RF & RU & RA & Ha & Hv) Hs. destruct (vsim_step _ _ _ _ _ _ _ Hv Hs) as (a' & RP' & RF' & RU' & RA' & Ha' & Hv').
      exists a', RP', RF', RU', RA'. split; [by etrans|done].
    - exists a0, [], [], [], []. split; [done|]. by apply initial_vrel. }
  exists a. split; [done|]. split; [by eapply vrel_obs|by eapply vrel_safe].
Qed.

(** A device that serves the requests in order, and two processes: one writes
    block 3, the other reads it. *)
Definition fifo_dev (x : vdisk * hw) : option (vdisk * hw) :=
  match complete 0 x.1 x.2 with Some y => Some y | None => fetch x.1 x.2 end.
#[local] Instance fifo_disk : DiskDev.
Proof.
  refine {| dev_step x y := fifo_dev x = Some y |}. intros v h y. unfold fifo_dev. cbn [fst snd]. destruct (complete 0 v h) eqn:Hc; [|by left].
  intros Hy. right. exists 0%nat. by rewrite Hc.
Defined.

Definition demo_mmio (r : Z) : Z :=
  if r =? VIRTIO_MMIO_MAGIC_VALUE then 0x74726976 else if r =? VIRTIO_MMIO_VERSION then 2 else if r =? VIRTIO_MMIO_DEVICE_ID then 2
  else if r =? VIRTIO_MMIO_VENDOR_ID then 0x554d4551 else if r =? VIRTIO_MMIO_QUEUE_NUM_MAX then 1024 else 0.
Definition demo_bss : vdisk :=
  mkvdisk false [] 0 [] 0 [] (replicate NUM false) 0 (replicate NUM (None, 0)) (replicate NUM req0)
    [mkvbuf 0 3 (replicate 1024 7); mkvbuf 0 3 (replicate 1024 0)].
Definition state_of {A} (o : outcome vevent vdisk A) : vdisk := match o with Done _ s _ | Panic _ s _ | Spin s _ | Asleep _ s _ => s end.
Definition dev_after (x : vdisk * hw) : vdisk * hw := default x (fifo_dev x).
Definition demo0 : vdisk := state_of (virtio_disk_init demo_mmio 11 4096 8192 12288 demo_bss).
Definition demo1 : vdisk := state_of (virtio_rw_start 1 false (state_of (virtio_rw_start 0 true demo0))).
Definition demo_dev (n : nat) : vdisk * hw := Nat.iter n dev_after (demo1, mkhw ∅ 0 []).
Definition demo3 : vdisk := state_of (virtio_disk_intr 1 (demo_dev 4).1).
Definition demo4 : vdisk := state_of (virtio_rw_resume 1 3 (state_of (virtio_rw_resume 0 0 demo3))).

Lemma fifo_some x : (if fifo_dev x then true else false) = true → fifo_dev x ≠ None.
Proof. by destruct (fifo_dev x). Qed.

Lemma virtio_refines_witness : ∃ c a, vb_data (v_bufs (cv c) !!! 1%nat) = replicate 1024 7 ∧ vobs c a ∧ vsafe c a.
Proof.
  pose (pc1 := set_vpc 0 (PWait 0 true 0) (λ _, PIdle)). pose (pc2 := set_vpc 1 (PWait 1 false 3) pc1). pose (pc3 := set_vpc 0 PIdle pc2). pose (pc4 := set_vpc 1 PIdle pc3).
  pose (v1 := state_of (virtio_rw_start 0 true demo0)). pose (v3 := state_of (virtio_rw_resume 0 0 demo3)).
  assert (∀ n, (n < 4)%nat → vstep (mkvconf (demo_dev n).1 (demo_dev n).2 pc2) (mkvconf (demo_dev (S n)).1 (demo_dev (S n)).2 pc2)) as Hdev.
  { intros n Hn. apply v_device. assert (is_Some (fifo_dev (demo_dev n))) as [y Hy].
    { destruct n as [|[|[|[|?]]]]; [| | | |lia]; apply not_eq_None_Some, fifo_some; vm_compute; reflexivity. }
    change (demo_dev (S n)) with (dev_after (demo_dev n)). unfold dev_after. rewrite Hy. cbn [default]. destruct (demo_dev n), y. exact Hy. }
  destruct (virtio_refines demo_mmio 11 4096 8192 12288 demo_bss demo0 (trace (virtio_disk_init demo_mmio 11 4096 8192 12288 demo_bss)) ∅ (mkvconf demo4 (demo_dev 4).2 pc4)) as (a & _ & Hobs & Hsafe).
  1-4: reflexivity.
  { repeat constructor; cbn; lia. }
  { vm_compute. reflexivity. }
  { apply (rtc_l _ _ (mkvconf v1 (mkhw ∅ 0 []) pc1)); [apply (v_start _ _ _ 0 0 true (Waiting 0) v1 [MmioWrite VIRTIO_MMIO_QUEUE_NOTIFY 0]); [done|by intros ? []|vm_compute; lia|vm_compute; reflexivity]|].
    apply (rtc_l _ _ (mkvconf (demo_dev 0).1 (demo_dev 0).2 pc2)); [apply (v_start _ _ _ 1 1 false (Waiting 3) (demo_dev 0).1 [MmioWrite VIRTIO_MMIO_QUEUE_NOTIFY 0]); [done|intros [|?]; unfold pc1, set_vpc; cbn; [discriminate|tauto]|vm_compute; lia|vm_compute; reflexivity]|].
    apply (rtc_l _ _ _ _ (Hdev 0%nat ltac:(lia))), (rtc_l _ _ _ _ (Hdev 1%nat ltac:(lia))), (rtc_l _ _ _ _ (Hdev 2%nat ltac:(lia))), (rtc_l _ _ _ _ (Hdev 3%nat ltac:(lia))).
    apply (rtc_l _ _ (mkvconf demo3 (demo_dev 4).2 pc2)); [apply (v_intr _ _ _ 1 demo3 [MmioWrite VIRTIO_MMIO_INTERRUPT_ACK 1; VWakeup (A_buf 0); VWakeup (A_buf 1)]); vm_compute; reflexivity|].
    apply (rtc_l _ _ (mkvconf v3 (demo_dev 4).2 pc3)); [apply (v_resume _ _ _ 0 0 true 0 Finished v3 (trace (virtio_rw_resume 0 0 demo3))); [done|vm_compute; reflexivity]|].
    apply rtc_once. apply (v_resume _ _ _ 1 1 false 3 Finished demo4 (trace (virtio_rw_resume 1 3 v3))); [done|vm_compute; reflexivity]. }
  eexists _, a. split; [|split; [exact Hobs|exact Hsafe]]. vm_compute. reflexivity.
Defined.
