(* ===== verification/Pipe.v ===== *)
(** Pipes ([pipe.c]): the ring buffer, its readers and writers, and the FIFO
    they implement. *)
From Stdlib Require Import ZArith Lia.
From stdpp Require Import base list gmap strings.
From S2P Require Import Prelude Machine UserMem.

Definition PIPESIZE : Z := 512.

(** ** State *)

(** [struct pipe]. *)
Record pipe := mkpipe {
  pi_lock : bool;
  pi_data : list Z;
  nread : Z;
  nwrite : Z;
  readopen : Z;
  writeopen : Z
}.
Definition set_pi_data (v : list Z) (p : pipe) : pipe := mkpipe (pi_lock p) v (nread p) (nwrite p) (readopen p) (writeopen p).
Definition set_nread (v : Z) (p : pipe) : pipe := mkpipe (pi_lock p) (pi_data p) v (nwrite p) (readopen p) (writeopen p).
Definition set_nwrite (v : Z) (p : pipe) : pipe := mkpipe (pi_lock p) (pi_data p) (nread p) v (readopen p) (writeopen p).
Definition set_readopen (v : Z) (p : pipe) : pipe := mkpipe (pi_lock p) (pi_data p) (nread p) (nwrite p) v (writeopen p).
Definition set_writeopen (v : Z) (p : pipe) : pipe := mkpipe (pi_lock p) (pi_data p) (nread p) (nwrite p) (readopen p) v.

(** The pipe and the caller's memory. *)
Record pst (U : Type) := mkpst { pip : pipe; pum : U }.
Arguments mkpst {U}.
Arguments pip {U}.
Arguments pum {U}.

(** What [pipealloc] makes of the page [kalloc] returned, whose bytes are
    arbitrary. *)
Definition pipe_init (old : list Z) : pipe := mkpipe false old 0 0 1 1.

(** How a call ends: it returns, or it sleeps on a channel having done [i]
    bytes; woken up, it continues from there. *)
Inductive turn : Type := Returned (r : Z) | Blocked (c : addr) (i : Z).

Section pipe.
Context {U : Type} `{UserMem U}.
(** The address of the pipe, which is a page of its own. *)
Context (pi : Z).

Local Abbreviation P := (M event (pst U)).

Definition upd_pip (f : pipe → pipe) (s : pst U) : pst U := mkpst (f (pip s)) (pum s).
#[export, refine] Instance pst_locked : Locked (pst U) :=
  {| held s := pi_lock (pip s);
     set_held b s := upd_pip (λ p, mkpipe b (pi_data p) (nread p) (nwrite p) (readopen p) (writeopen p)) s |}.
Proof. all: by try intros ? ? [[] ?]; try intros ? [[] ?]; try intros [[] ?]. Defined.

Definition pium {A} (m : M event U A) : P A := lift pum (λ v s, mkpst (pip s) v) m.

(** Whether both ends are closed and the page must be freed. *)
Definition pipeclose (writable : bool) : P bool :=
  acquire ;;
  (if writable then
     modify (upd_pip (set_writeopen 0)) ;; emit (Wakeup (A_pipe_nread pi))
   else
     modify (upd_pip (set_readopen 0)) ;; emit (Wakeup (A_pipe_nwrite pi))) ;;
  let! p := gets pip in
  release ;;
  ret ((readopen p =? 0) && (writeopen p =? 0)).

(** The loop of [pipewrite] from [i], the lock held; [killed i] is the value of
    [killed(pr)] at that point. *)
Fixpoint pipewrite_loop (fuel : nat) (killed : Z → bool) (addr n i : Z) : P turn :=
  if negb (i <? n) then
    emit (Wakeup (A_pipe_nread pi)) ;; release ;; ret (Returned i)
  else
  match fuel with
  | O => λ s, Spin s []
  | S f =>
      let! p := gets pip in
      if (readopen p =? 0) || killed i then release ;; ret (Returned (-1)) else
      if nwrite p =? u32 (nread p + PIPESIZE) then
        emit (Wakeup (A_pipe_nread pi)) ;; release ;; ret (Blocked (A_pipe_nwrite pi) i)
      else
        let! (bs, r) := pium (u_copyin (u64 (addr + i)) 1) in
        if r =? -1 then emit (Wakeup (A_pipe_nread pi)) ;; release ;; ret (Returned i) else
        modify (upd_pip (λ p, set_pi_data (<[Z.to_nat (nwrite p mod PIPESIZE) := bs !!! 0%nat]> (pi_data p)) p)) ;;
        modify (upd_pip (λ p, set_nwrite (u32 (nwrite p + 1)) p)) ;;
        pipewrite_loop f killed addr n (i + 1)
  end.
(** One turn of [pipewrite]: from the start or from a wakeup to the next sleep
    or the return, with [pi->lock] held throughout. [sleep] reacquires it. *)
Definition pipewrite_turn (killed : Z → bool) (addr n i : Z) : P turn :=
  acquire ;; pipewrite_loop (S (Z.to_nat (n - i))) killed addr n i.

(** The copy loop of [piperead]. *)
Fixpoint piperead_copy (k : nat) (addr i : Z) : P Z :=
  match k with
  | O => ret i
  | S k' =>
      let! p := gets pip in
      if nread p =? nwrite p then ret i else
      let ch := pi_data p !!! Z.to_nat (nread p mod PIPESIZE) in
      modify (upd_pip (λ p, set_nread (u32 (nread p + 1)) p)) ;;
      let! r := pium (u_copyout (u64 (addr + i)) [ch]) in
      if r =? -1 then ret i else piperead_copy k' addr (i + 1)
  end.
(** One turn of [piperead]. *)
Definition piperead_turn (killed : bool) (addr n : Z) : P turn :=
  acquire ;;
  let! p := gets pip in
  if (nread p =? nwrite p) && negb (writeopen p =? 0) then
    if killed then release ;; ret (Returned (-1))
    else release ;; ret (Blocked (A_pipe_nread pi) 0)
  else
    let! i := piperead_copy (Z.to_nat n) addr 0 in
    emit (Wakeup (A_pipe_nwrite pi)) ;;
    release ;;
    ret (Returned i).
End pipe.
