(* ===== verification/PipeThm.v ===== *)
(** Pipes are first-in first-out queues of bytes, and no reader or writer is
    left asleep when it could go on. *)
From Stdlib Require Import ZArith Lia.
From stdpp Require Import base list gmap strings.
From S2P Require Import Prelude Machine Mem Kalloc Vm Pagetable Uvm Uvmfree Copy VmThm UserMem Ring Pipe.

(** ** The queue in the ring buffer *)

Definition pcount (p : pipe) : Z := u32 (nwrite p - nread p).
Definition pqueue (p : pipe) : list Z :=
  ring_queue PIPESIZE (pi_data p) (nread p) (Z.to_nat (pcount p)).

Record pinv (p : pipe) : Prop := {
  pv_data : length (pi_data p) = Z.to_nat PIPESIZE;
  pv_nread : is_u32 (nread p);
  pv_nwrite : is_u32 (nwrite p);
  pv_count : pcount p ≤ PIPESIZE
}.

Lemma pqueue_length p : Z.of_nat (length (pqueue p)) = pcount p.
Proof. unfold pqueue. rewrite ring_length. pose proof (u32_range (nwrite p - nread p)). unfold pcount, is_u32 in *. lia. Qed.

Lemma pqueue_empty p : pinv p → (nread p =? nwrite p) = true ↔ pqueue p = [].
Proof.
  intros Hp. rewrite Z.eqb_eq. pose proof (pqueue_length p) as Hl. pose proof (pv_nread _ Hp). pose proof (pv_nwrite _ Hp).
  unfold pcount in Hl. split; intros He.
  - rewrite He, Z.sub_diag in Hl. change (u32 0) with 0 in Hl. destruct (pqueue p); [done|simpl in Hl; lia].
  - rewrite He in Hl. simpl in Hl. mach_lia.
Qed.
Lemma pipe_full p : pinv p → (nwrite p =? u32 (nread p + PIPESIZE)) = (pcount p =? PIPESIZE).
Proof.
  intros Hp. pose proof (pv_nread _ Hp). pose proof (pv_nwrite _ Hp). pose proof (pv_count _ Hp). unfold pcount, PIPESIZE in *.
  apply eq_iff_eq_true. rewrite !Z.eqb_eq. mach_lia.
Qed.

Definition put_byte (b : Z) (p : pipe) : pipe :=
  set_nwrite (u32 (nwrite p + 1)) (set_pi_data (<[Z.to_nat (nwrite p mod PIPESIZE) := b]> (pi_data p)) p).
Definition get_byte (p : pipe) : pipe := set_nread (u32 (nread p + 1)) p.

Lemma put_byte_ok b p : pinv p → pcount p < PIPESIZE → pinv (put_byte b p) ∧ pqueue (put_byte b p) = pqueue p ++ [b].
Proof.
  intros Hp Hc. pose proof (pv_nread _ Hp) as Hr. pose proof (pv_nwrite _ Hp) as Hw. pose proof (pv_data _ Hp) as Hd.
  assert (pcount (put_byte b p) = pcount p + 1) as Hc'.
  { unfold pcount, put_byte, PIPESIZE in *; simpl. mach_lia. }
  split.
  - split; simpl; [by rewrite length_insert|done|apply u32_range|lia].
  - unfold pqueue. rewrite Hc'. pose proof (u32_range (nwrite p - nread p)) as Hu. fold (pcount p) in Hu. unfold is_u32 in Hu.
    replace (Z.to_nat (pcount p + 1)) with (S (Z.to_nat (pcount p))) by lia. unfold put_byte; cbn [pi_data nread set_nwrite set_pi_data].
    replace (nwrite p mod PIPESIZE) with ((nread p + Z.of_nat (Z.to_nat (pcount p))) mod PIPESIZE) by (unfold pcount, PIPESIZE in *; mach_lia).
    apply ring_push; [done|rewrite Hd; done|lia].
Qed.

Lemma get_byte_ok p : pinv p → pqueue p ≠ [] →
  pinv (get_byte p) ∧ pqueue p = pi_data p !!! Z.to_nat (nread p mod PIPESIZE) :: pqueue (get_byte p).
Proof.
  intros Hp Hq. pose proof (pv_nread _ Hp) as Hr. pose proof (pv_nwrite _ Hp) as Hw. pose proof (pv_count _ Hp) as Hc.
  pose proof (u32_range (nwrite p - nread p)) as Hu. fold (pcount p) in Hu. unfold is_u32 in Hu.
  assert (0 < pcount p) as H0.
  { pose proof (pqueue_length p). destruct (pqueue p); [done|simpl in *; lia]. }
  assert (pcount (get_byte p) = pcount p - 1) as Hc' by (unfold pcount, get_byte in *; simpl; mach_lia).
  split.
  - split; simpl; [apply Hp|apply u32_range|done|lia].
  - unfold pqueue. rewrite Hc'. replace (Z.to_nat (pcount p)) with (S (Z.to_nat (pcount p - 1))) by lia.
    rewrite ring_pop. f_equal. apply ring_mod; [done|]. unfold get_byte; cbn [nread set_nread]. unfold PIPESIZE. mach_lia.
Qed.

(** ** The loops *)

Section loops.
Context {U : Type} `{UserBytes U} (pi : Z).

(** [bs] is what the process has at [a], [a+1], ... *)
Definition user_bytes (u : U) (a : Z) (bs : list Z) : Prop :=
  ∀ j b, bs !! j = Some b → u_rd u (u64 (a + Z.of_nat j)) = Some b.

Lemma user_bytes_nil u a : user_bytes u a [].
Proof. intros j b Hj. by rewrite lookup_nil in Hj. Qed.
Lemma user_bytes_cons u a b bs : u_rd u (u64 a) = Some b → user_bytes u (a + 1) bs → user_bytes u a (b :: bs).
Proof.
  intros Hb Hbs [|j] c Hj; simpl in Hj.
  - injection Hj as <-. by rewrite Z.add_0_r.
  - rewrite <- (Hbs j c Hj). f_equal. f_equal. lia.
Qed.

Definition unlocked (p : pipe) : pipe := mkpipe false (pi_data p) (nread p) (nwrite p) (readopen p) (writeopen p).
Lemma unlocked_queue p : pqueue (unlocked p) = pqueue p.
Proof. done. Qed.
Lemma unlocked_inv p : pinv p → pinv (unlocked p).
Proof. intros []. by split. Qed.

Lemma release_pipe {A} (k : unit → M event (pst U) A) p u : pi_lock p = true → bind release k (mkpst p u) = k tt (mkpst (unlocked p) u).
Proof. intros Hl. unfold bind, release; simpl. rewrite Hl. by rewrite pre_nil. Qed.

Lemma pium_done {A} (m : M event U A) p u a u' t : m u = Done a u' t → pium m (mkpst p u) = Done a (mkpst p u') t.
Proof. intros Hm. unfold pium, lift. simpl. by rewrite Hm. Qed.

(** What a turn of a writer that accepted [bs] leaves. *)
Record wrote (p p' : pipe) (bs : list Z) : Prop := {
  wr_inv : pinv p';
  wr_lock : pi_lock p' = false;
  wr_queue : pqueue p' = pqueue p ++ bs;
  wr_nread : nread p' = nread p;
  wr_ro : readopen p' = readopen p;
  wr_wo : writeopen p' = writeopen p
}.

Lemma pipewrite_loop_run kl addr n fuel i p u : u_ok u → pinv p → pi_lock p = true → (Z.to_nat (n - i) < fuel)%nat →
  ∃ t p' tr bs, pipewrite_loop pi fuel kl addr n i (mkpst p u) = Done t (mkpst p' u) tr ∧ wrote p p' bs ∧ user_bytes u (addr + i) bs ∧
    (bs ≠ [] → kl i = false ∧ readopen p ≠ 0) ∧
    match t with
    | Returned r => Wakeup (A_pipe_nread pi) ∈ tr ∧ r = i + Z.of_nat (length bs) ∨
                    r = -1 ∧ tr = [] ∧ (readopen p = 0 ∨ kl (i + Z.of_nat (length bs)) = true)
    | Blocked c i' => Wakeup (A_pipe_nread pi) ∈ tr ∧ c = A_pipe_nwrite pi ∧ i' = i + Z.of_nat (length bs) ∧
                      pcount p' = PIPESIZE ∧ readopen p ≠ 0
    end.
Proof.
  revert i p. induction fuel as [|fuel IH]; intros i p Hu Hp Hl Hf; [lia|]. cbn [pipewrite_loop].
  assert (wrote p (unlocked p) []) as Hw0 by (split; [by apply unlocked_inv|done|by rewrite app_nil_r|done|done|done]).
  pose proof (user_bytes_nil u (addr + i)) as Hb0.
  destruct (Z.ltb_spec i n) as [Hi|Hi]; cbn [negb].
  2:{ eexists _, _, _, []. mrun. rewrite release_pipe by done. simpl. split_and!; [reflexivity|done|done|done|]. left. split; [left|lia]. }
  mrun. cbn [pip]. destruct (Z.eqb_spec (readopen p) 0) as [Hro|Hro]; [|destruct (kl i) eqn:Hk]; cbn [orb].
  1,2: rewrite release_pipe by done; eexists _, _, _, []; (split; [reflexivity|]); split_and!; [done|done|done|]; right; rewrite Z.add_0_r; auto.
  rewrite pipe_full by done. destruct (Z.eqb_spec (pcount p) PIPESIZE) as [Hc|Hc].
  - eexists _, _, _, []. mrun. rewrite release_pipe by done. simpl. split_and!; [reflexivity|done|done|done|]. cbv beta iota. split_and!; [left|done|simpl; lia|done|done].
  - pose proof (pv_count _ Hp) as Hcle.
    rewrite (bind_done _ _ _ _ _ (pium_done _ p u _ _ _ (u_copyin1 u (u64 (addr + i)) Hu (u64_range _)))).
    destruct (u_rd u (u64 (addr + i))) as [b|] eqn:Hrd; [change (0 =? -1) with false|change (-1 =? -1) with true]; cbv iota.
    + mrun. cbn [upd_pip pip pum list_lookup_total].
      destruct (put_byte_ok b p Hp) as [Hp' Hq']; [lia|].
      destruct (IH (i + 1) (put_byte b p) Hu Hp' Hl) as (t & p' & tr & bs & Hrun & Hw & Hbs & _ & Ht); [lia|].
      exists t, p', tr, (b :: bs). split; [exact Hrun|]. split_and!.
      * destruct Hw as [? ? Hq ? ? ?]. split; try done. rewrite Hq, Hq', <- app_assoc. done.
      * apply user_bytes_cons; [done|]. by replace (addr + i + 1) with (addr + (i + 1)) by lia.
      * done.
      * cbn [length]. replace (i + Z.of_nat (S (length bs))) with (i + 1 + Z.of_nat (length bs)) by lia. exact Ht.
    + eexists _, _, _, []. mrun. rewrite release_pipe by done. simpl. split_and!; [reflexivity|done|done|done|]. left. split; [left|lia].
Qed.

Record read_from (p p' : pipe) (bs : list Z) : Prop := {
  rf_inv : pinv p';
  rf_lock : pi_lock p' = pi_lock p;
  rf_queue : pqueue p = bs ++ pqueue p';
  rf_nwrite : nwrite p' = nwrite p;
  rf_ro : readopen p' = readopen p;
  rf_wo : writeopen p' = writeopen p
}.

(** The bytes [bs] reach the reader; [ls] is the byte taken out of the pipe by
    an iteration whose [copyout] fails. *)
Lemma piperead_copy_run k addr i p u : u_ok u → pinv p → Z.of_nat k < 2 ^ 32 →
  ∃ p' u' bs ls, piperead_copy k addr i (mkpst p u) = Done (i + Z.of_nat (length bs)) (mkpst p' u') [] ∧ read_from p p' (bs ++ ls) ∧
    user_bytes u' (addr + i) bs ∧ u_ok u' ∧ (length bs ≤ k)%nat ∧
    (ls = [] ∧ (length bs = k ∨ pqueue p' = []) ∨
     (∃ b, ls = [b]) ∧ u_wr u (u64 (addr + i + Z.of_nat (length bs))) = false) ∧
    (∀ x, (∀ j, (j < k)%nat → x ≠ u64 (addr + i + Z.of_nat j)) → u_rd u' x = u_rd u x).
Proof.
  revert i p u. induction k as [|k IH]; intros i p u Hu Hp Hk; cbn [piperead_copy].
  - exists p, u, [], []. rewrite Z.add_0_r. split_and!; [done|by split|apply user_bytes_nil|done|done|by left; split; [|left]|done].
  - mrun. cbn [pip]. destruct (nread p =? nwrite p) eqn:He.
    + exists p, u, [], []. rewrite Z.add_0_r.
      split_and!; [done|by split|apply user_bytes_nil|done|simpl; lia|left; split; [done|right; by apply pqueue_empty]|done].
    + assert (pqueue p ≠ []) as Hq by (intros Hq; apply pqueue_empty in Hq; [congruence|done]).
      destruct (get_byte_ok p Hp Hq) as [Hp' Hq']. set (ch := pi_data p !!! _) in *.
      destruct (u_copyout1 u (u64 (addr + i)) ch Hu (u64_range _)) as (u1 & Hrun1 & Hu1 & Hwr1 & Hrd1).
      mrun. rewrite (bind_done _ _ _ _ _ (pium_done _ (get_byte p) u _ _ _ Hrun1)).
      destruct (u_wr u (u64 (addr + i))) eqn:Hw0; simpl in Hrd1; [change (0 =? -1) with false|change (-1 =? -1) with true]; cbv iota.
      2:{ exists (get_byte p), u1, [], [ch]. rewrite Z.add_0_r. split_and!; [done|by split|apply user_bytes_nil|done|simpl; lia| |done].
          right. split; [eauto|]. rewrite <-Hw0. f_equal. f_equal. simpl. lia. }
      destruct (IH (i + 1) (get_byte p) u1 Hu1 Hp') as (p2 & u2 & bs & ls & Hrun2 & Hrf & Hub & Hu2 & Hle & Hend & Hkeep); [lia|].
      exists p2, u2, (ch :: bs), ls. split_and!.
      * rewrite Hrun2. f_equal. simpl. lia.
      * destruct Hrf as [? ? Hq2 ? ? ?]. split; try done. by rewrite Hq', Hq2.
      * apply user_bytes_cons; [|by replace (addr + i + 1) with (addr + (i + 1)) by lia].
        rewrite Hkeep; [by rewrite Hrd1, Z.eqb_refl|]. intros j Hj Hx. mach_lia.
      * done.
      * simpl. lia.
      * destruct Hend as [[-> Hend]|[Hb Hw]]; [left|right].
        -- split; [done|]. destruct Hend as [<-|Hend]; [by left|by right].
        -- split; [done|]. rewrite <-Hwr1, <-Hw. f_equal. f_equal. simpl. lia.
      * intros x Hx. rewrite Hkeep.
        -- rewrite Hrd1. destruct (Z.eqb_spec x (u64 (addr + i))) as [->|]; [|done].
           destruct (Hx 0%nat); [lia|]. f_equal. lia.
        -- intros j Hj ->. destruct (Hx (S j)); [lia|]. f_equal. lia.
Qed.
End loops.

(** ** Readers and writers in any order *)

Section system.
Context {U : Type} `{UserBytes U} (pi : Z).

(** What a process is doing with the pipe: nothing, in [pipewrite] having
    written [i] of its [n] bytes, or in [piperead]; asleep or ready to run. *)
Inductive ppc : Type :=
| Idle
| Writing (u : U) (addr n i : Z) (asleep : bool)
| Reading (u : U) (addr n : Z) (asleep : bool).

(** A byte taken out of the pipe: a reader got it, or the reader with memory [u]
    could not store it at [a]. *)
Inductive taken : Type := Got (b : Z) | Lost (b : Z) (u : U) (a : Z).
Definition taken_byte (x : taken) : Z := match x with Got b | Lost b _ _ => b end.

(** The pipe, the processes, the bytes writers handed over and the bytes taken
    out, in order. [cS]: since the last wakeup of the readers, a writer was
    killed in the middle of its turn. *)
Record conf := mkconf { cp : pipe; cf : Z → ppc; cW : list Z; cR : list taken; cS : bool }.

Definition set_pc (f : Z → ppc) (q : Z) (v : ppc) : Z → ppc := λ r, if decide (r = q) then v else f r.

(** The wakeups of a trace. *)
Definition wake_all (tr : list event) (f : Z → ppc) : Z → ppc := λ r,
  match f r with
  | Writing u a n i true => Writing u a n i (negb (bool_decide (Wakeup (A_pipe_nwrite pi) ∈ tr)))
  | Reading u a n true => Reading u a n (negb (bool_decide (Wakeup (A_pipe_nread pi) ∈ tr)))
  | v => v
  end.

(** The [k] bytes at [a]. *)
Definition bytes_of (u : U) (a : Z) (k : nat) : list Z := (λ j, default 0 (u_rd u (u64 (a + Z.of_nat j)))) <$> seq 0 k.

(** How far one of the counters moved. *)
Definition moved (v v' : Z) : nat := Z.to_nat (u32 (v' - v)).

(** What a turn of a reader with memory [u], then [u'], takes out of the pipe. *)
Definition takes (p p' : pipe) (u u' : U) (addr : Z) (t : turn) : list taken :=
  let r := match t with Returned r => Z.to_nat r | Blocked _ _ => O end in
  (Got <$> bytes_of u' addr r) ++
  ((λ b, Lost b u (addr + Z.of_nat r)) <$> drop r (take (moved (nread p) (nread p')) (pqueue p))).

(** [cS] after a turn of a writer that put [k] bytes starting at its [i]-th:
    [kl] gives [killed(pr)] at each iteration. *)
Definition stranded (tr : list event) (old : bool) (kl : Z → bool) (i : Z) (k : nat) : bool :=
  negb (bool_decide (Wakeup (A_pipe_nread pi) ∈ tr)) && (old || (negb (k =? 0)%nat && kl (i + Z.of_nat k))).

Inductive pstep : conf → conf → Prop :=
| ps_write c q u addr n : cf c q = Idle → u_ok u →
    pstep c (mkconf (cp c) (set_pc (cf c) q (Writing u addr n 0 false)) (cW c) (cR c) (cS c))
| ps_read c q u addr n : cf c q = Idle → u_ok u → n ≤ INT_MAX →
    pstep c (mkconf (cp c) (set_pc (cf c) q (Reading u addr n false)) (cW c) (cR c) (cS c))
| ps_wturn c q u addr n i kl t p' u' tr : cf c q = Writing u addr n i false →
    pipewrite_turn pi kl addr n i (mkpst (cp c) u) = Done t (mkpst p' u') tr →
    pstep c (mkconf p'
      (set_pc (wake_all tr (cf c)) q (match t with Returned _ => Idle | Blocked _ i' => Writing u addr n i' true end))
      (cW c ++ bytes_of u (addr + i) (moved (nwrite (cp c)) (nwrite p'))) (cR c)
      (stranded tr (cS c) kl i (moved (nwrite (cp c)) (nwrite p'))))
| ps_rturn c q u addr n kl t p' u' tr : cf c q = Reading u addr n false →
    piperead_turn pi kl addr n (mkpst (cp c) u) = Done t (mkpst p' u') tr →
    pstep c (mkconf p'
      (set_pc (wake_all tr (cf c)) q (match t with Returned _ => Idle | Blocked _ _ => Reading u addr n true end))
      (cW c) (cR c ++ takes (cp c) p' u u' addr t) (cS c))
| ps_close c writable (u : U) b p' u' tr :
    pipeclose pi writable (mkpst (cp c) u) = Done b (mkpst p' u') tr →
    pstep c (mkconf p' (wake_all tr (cf c)) (cW c) (cR c) (stranded tr (cS c) (λ _, false) 0 0))
| ps_kill c q : pstep c (mkconf (cp c) (set_pc (cf c) q
    (match cf c q with Writing u a n i _ => Writing u a n i false | Reading u a n _ => Reading u a n false | Idle => Idle end))
    (cW c) (cR c) (cS c)).

Definition conf0 (old : list Z) : conf := mkconf (pipe_init old) (λ _, Idle) [] [] false.

(** What is true of each process. *)
Definition pc_ok (p : pipe) (st : bool) (v : ppc) : Prop :=
  match v with
  | Idle => True
  | Writing u _ _ _ sl => u_ok u ∧ (sl = true → pcount p = PIPESIZE ∧ readopen p ≠ 0)
  | Reading u _ n sl => u_ok u ∧ n ≤ INT_MAX ∧ (sl = true → (pqueue p = [] ∨ st = true) ∧ writeopen p ≠ 0)
  end.

Record cinv (c : conf) : Prop := {
  ci_pipe : pinv (cp c);
  ci_lock : pi_lock (cp c) = false;
  ci_fifo : cW c = (taken_byte <$> cR c) ++ pqueue (cp c);
  ci_lost : ∀ b u a, Lost b u a ∈ cR c → u_wr u (u64 a) = false;
  ci_pcs : ∀ q, pc_ok (cp c) (cS c) (cf c q)
}.

Lemma bytes_of_user u a bs : user_bytes u a bs → bytes_of u a (length bs) = bs.
Proof.
  intros Hu. apply list_eq. intros j. unfold bytes_of. rewrite list_lookup_fmap. destruct (bs !! j) as [b|] eqn:Hj.
  - pose proof (lookup_lt_Some _ _ _ Hj). rewrite lookup_seq_lt by done. simpl. by rewrite (Hu j b Hj).
  - rewrite (lookup_ge_None_2 (seq _ _)); [done|]. rewrite length_seq. by apply lookup_ge_None.
Qed.

(** Turns return; what they do. *)
Lemma pipewrite_turn_run kl addr n i p u : u_ok u → pinv p → pi_lock p = false →
  ∃ t p' tr bs, pipewrite_turn pi kl addr n i (mkpst p u) = Done t (mkpst p' u) tr ∧ wrote p p' bs ∧ user_bytes u (addr + i) bs ∧
    (bs = [] ∨ Wakeup (A_pipe_nread pi) ∈ tr ∨ kl (i + Z.of_nat (length bs)) = true) ∧
    match t with Returned _ => True | Blocked c i' => pcount p' = PIPESIZE ∧ readopen p' ≠ 0 end.
Proof.
  intros Hu Hp Hl. unfold pipewrite_turn. unfold bind, acquire. cbn [held pst_locked pip]. rewrite Hl. rewrite pre_nil.
  set (p1 := mkpipe true (pi_data p) (nread p) (nwrite p) (readopen p) (writeopen p)).
  assert (pinv p1) as Hp1 by (destruct Hp; by split).
  destruct (pipewrite_loop_run pi kl addr n (S (Z.to_nat (n - i))) i p1 u Hu Hp1 eq_refl) as (t & p' & tr & bs & Hrun & Hw & Hub & Hst & Ht); [lia|].
  exists t, p', tr, bs. split; [exact Hrun|].
  assert (wrote p p' bs) as Hw' by (destruct Hw; by split). split; [done|]. split; [done|].
  destruct t as [r|c i'].
  - split; [|done]. destruct Ht as [[Hwk _]|(-> & -> & Hk)]; [by right; left|].
    destruct bs as [|b bs]; [by left|]. destruct Hst as [Hk0 Hr0]; [done|]. destruct Hk; [congruence|by right; right].
  - destruct Ht as (Hwk & -> & -> & Hc & Hro). split; [by right; left|]. split; [done|]. by rewrite (wr_ro _ _ _ Hw).
Qed.

Lemma piperead_turn_run kl addr n p u : u_ok u → pinv p → pi_lock p = false → n ≤ INT_MAX →
  ∃ t p' u' tr bs ls, piperead_turn pi kl addr n (mkpst p u) = Done t (mkpst p' u') tr ∧ read_from p p' (bs ++ ls) ∧ u_ok u' ∧
    (bs ++ ls = [] ∨ Wakeup (A_pipe_nwrite pi) ∈ tr) ∧
    (ls = [] ∨ u_wr u (u64 (addr + Z.of_nat (length bs))) = false) ∧
    match t with
    | Returned r => r = -1 ∧ bs ++ ls = [] ∨ r = Z.of_nat (length bs) ∧ user_bytes u' addr bs
    | Blocked c _ => bs ++ ls = [] ∧ pqueue p' = [] ∧ writeopen p' ≠ 0
    end.
Proof.
  intros Hu Hp Hl Hn. unfold piperead_turn. unfold bind at 1, acquire. cbn [held pst_locked pip]. rewrite Hl, pre_nil.
  set (p1 := mkpipe true (pi_data p) (nread p) (nwrite p) (readopen p) (writeopen p)).
  assert (pinv p1) as Hp1 by (destruct Hp; by split).
  change (set_held true _) with (mkpst p1 u). rewrite bind_gets. cbn [pip].
  assert (read_from p (unlocked p1) []) as Hr0 by (split; [by apply unlocked_inv|done..]).
  destruct ((nread p1 =? nwrite p1) && negb (writeopen p1 =? 0)) eqn:Hc.
  - apply andb_true_iff in Hc as [He Hwo]. apply (pqueue_empty p1 Hp1) in He. apply negb_true_iff, Z.eqb_neq in Hwo.
    destruct kl; rewrite release_pipe by done; eexists _, _, _, _, [], []; (split; [reflexivity|]); split_and!; auto.
  - destruct (piperead_copy_run (Z.to_nat n) addr 0 p1 u Hu Hp1) as (p' & u' & bs & ls & Hrun & Hrf & Hub & Hu' & _ & Hend & _).
    { unfold INT_MAX in Hn. lia. }
    rewrite (bind_done _ _ _ _ _ Hrun). mrun. rewrite release_pipe by (by rewrite (rf_lock _ _ _ Hrf)). simpl.
    rewrite Z.add_0_r in Hub, Hend.
    eexists _, _, _, _, bs, ls. split; [reflexivity|]. split_and!; [|done|right; left| |right; split; done].
    + destruct Hrf as [? ? ? ? ? ?]. split; try done; [by apply unlocked_inv].
    + destruct Hend as [[-> _]|[_ Hw]]; [by left|by right].
Qed.

(** Processes that were fine stay fine when the pipe changes from [p] to [p'],
    after the wakeups of [tr]. *)
Lemma pc_ok_wake p p' st st' tr f q : pc_ok p st (f q) →
  (pcount p = PIPESIZE → readopen p ≠ 0 → (pcount p' = PIPESIZE ∧ readopen p' ≠ 0) ∨ Wakeup (A_pipe_nwrite pi) ∈ tr) →
  (pqueue p = [] ∨ st = true → writeopen p ≠ 0 → ((pqueue p' = [] ∨ st' = true) ∧ writeopen p' ≠ 0) ∨ Wakeup (A_pipe_nread pi) ∈ tr) →
  pc_ok p' st' (wake_all tr f q).
Proof.
  intros Hok Hw Hr. unfold wake_all. destruct (f q) as [|u a n i []|u a n []]; simpl in *; try done.
  - destruct Hok as [? Hs]. split; [done|]. destruct (Hs eq_refl) as [E1 E2]. case_bool_decide; [done|]. intros _. by destruct (Hw E1 E2).
  - destruct Hok as [? _]. split; [done|]. by intros [=].
  - destruct Hok as (? & ? & Hs). split_and!; [done..|]. destruct (Hs eq_refl) as [E1 E2]. case_bool_decide; [done|]. intros _. by destruct (Hr E1 E2).
  - destruct Hok as (? & ? & _). split_and!; [done..|]. by intros [=].
Qed.

Lemma wrote_count p p' bs : pinv p → wrote p p' bs → pcount p' = pcount p + Z.of_nat (length bs) ∧ moved (nwrite p) (nwrite p') = length bs.
Proof.
  intros Hp Hw. pose proof (wr_nread _ _ _ Hw) as Hn. assert (pcount p' = pcount p + Z.of_nat (length bs)) as Hc.
  { rewrite <- !pqueue_length, (wr_queue _ _ _ Hw), length_app. lia. }
  split; [done|]. pose proof (pv_count _ (wr_inv _ _ _ Hw)). pose proof (pv_nwrite _ Hp). pose proof (pv_nwrite _ (wr_inv _ _ _ Hw)).
  pose proof (pv_nread _ Hp). pose proof (pv_count _ Hp). unfold pcount, PIPESIZE in *. rewrite Hn in *.
  unfold moved. enough (u32 (nwrite p' - nwrite p) = Z.of_nat (length bs)) by lia. mach_lia.
Qed.

Lemma read_count p p' bs : pinv p → read_from p p' bs → moved (nread p) (nread p') = length bs.
Proof.
  intros Hp Hr. assert (pcount p = Z.of_nat (length bs) + pcount p') as Hc.
  { rewrite <- !pqueue_length, (rf_queue _ _ _ Hr), length_app. lia. }
  pose proof (pv_count _ (rf_inv _ _ _ Hr)). pose proof (pv_nread _ Hp). pose proof (pv_nread _ (rf_inv _ _ _ Hr)).
  pose proof (pv_nwrite _ Hp). pose proof (pv_count _ Hp). pose proof (rf_nwrite _ _ _ Hr) as Hn.
  unfold moved. enough (u32 (nread p' - nread p) = Z.of_nat (length bs)) by lia.
  unfold pcount, PIPESIZE in *. rewrite Hn in *. mach_lia.
Qed.

(** What a reader's turn takes is the front of the queue. *)
Lemma takes_front p p' u u' addr t bs ls : pinv p → read_from p p' (bs ++ ls) →
  (ls = [] ∨ u_wr u (u64 (addr + Z.of_nat (length bs))) = false) →
  match t with
  | Returned r => r = -1 ∧ bs ++ ls = [] ∨ r = Z.of_nat (length bs) ∧ user_bytes u' addr bs
  | Blocked c _ => bs ++ ls = [] ∧ pqueue p' = [] ∧ writeopen p' ≠ 0
  end →
  taken_byte <$> takes p p' u u' addr t = bs ++ ls ∧
  ∀ b v a, Lost b v a ∈ takes p p' u u' addr t → u_wr v (u64 a) = false.
Proof.
  intros Hp Hrf Hls Ht. unfold takes. rewrite (read_count _ _ _ Hp Hrf), (rf_queue _ _ _ Hrf), take_app_length.
  assert (bs ++ ls = [] → bs = [] ∧ ls = []) as Hnil by apply app_nil.
  assert (∀ r, r = length bs → user_bytes u' addr bs →
    (taken_byte <$> (Got <$> bytes_of u' addr r) ++ ((λ b, Lost b u (addr + Z.of_nat r)) <$> drop r (bs ++ ls))) = bs ++ ls ∧
    ∀ b v a, Lost b v a ∈ (Got <$> bytes_of u' addr r) ++ ((λ b, Lost b u (addr + Z.of_nat r)) <$> drop r (bs ++ ls)) → u_wr v (u64 a) = false) as Hgen.
  { intros r -> Hub. rewrite bytes_of_user, drop_app_length by done. split.
    - rewrite fmap_app, <-!list_fmap_compose. unfold compose; simpl. by rewrite !list_fmap_id.
    - intros b v a. rewrite elem_of_app, !list_elem_of_fmap. intros [(x & [=] & _)|(x & [= -> -> ->] & Hx)].
      destruct Hls as [->|Hls]; [by apply not_elem_of_nil in Hx|done]. }
  destruct t as [r|c i].
  - destruct Ht as [[-> [-> ->]%Hnil]|[-> Hub]].
    + apply Hgen; [done|apply user_bytes_nil].
    + apply Hgen; [lia|done].
  - destruct Ht as ([-> ->]%Hnil & _). apply Hgen; [done|apply user_bytes_nil].
Qed.

Lemma stranded_no tr old kl i k : stranded tr old kl i k = true ∨ Wakeup (A_pipe_nread pi) ∈ tr ∨ (old = false ∧ (k = 0%nat ∨ kl (i + Z.of_nat k) = false)).
Proof.
  unfold stranded. case_bool_decide; [by right; left|]. simpl. destruct old; [by left|]. simpl.
  destruct (Nat.eqb_spec k 0); [naive_solver|]. simpl. destruct (kl _); naive_solver.
Qed.

Lemma set_pc_ok (f : Z → ppc) q v p st : pc_ok p st v → (∀ r, pc_ok p st (f r)) → ∀ r, pc_ok p st (set_pc f q v r).
Proof. intros Hv Hf r. unfold set_pc. by case_decide. Qed.

Lemma wturn_inv c q u addr n i kl t p' u' tr : cinv c → cf c q = Writing u addr n i false →
  pipewrite_turn pi kl addr n i (mkpst (cp c) u) = Done t (mkpst p' u') tr →
  cinv (mkconf p'
    (set_pc (wake_all tr (cf c)) q (match t with Returned _ => Idle | Blocked _ i' => Writing u addr n i' true end))
    (cW c ++ bytes_of u (addr + i) (moved (nwrite (cp c)) (nwrite p'))) (cR c)
    (stranded tr (cS c) kl i (moved (nwrite (cp c)) (nwrite p')))).
Proof.
  intros [Hp Hl Hf Hlost Hpc] Hq Hrun. pose proof (Hpc q) as Hok. rewrite Hq in Hok. destruct Hok as [Hu _].
  destruct (pipewrite_turn_run kl addr n i (cp c) u Hu Hp Hl) as (t1 & p1 & tr1 & bs & Hrun1 & Hw & Hub & Hwk & Ht).
  rewrite Hrun1 in Hrun. injection Hrun as <- <- <- <-. destruct (wrote_count _ _ _ Hp Hw) as [Hcount Hk]. rewrite Hk.
  split; simpl; [apply Hw|apply Hw| |done|].
  - rewrite bytes_of_user by done. by rewrite (wr_queue _ _ _ Hw), Hf, app_assoc.
  - apply set_pc_ok.
    + destruct t1 as [r|ch i']; [done|]. simpl. split; [done|]. intros _. exact Ht.
    + intros r. apply (pc_ok_wake (cp c) p1 (cS c)); [apply Hpc| |].
      * intros Hc Hro. left. split; [|by rewrite (wr_ro _ _ _ Hw)]. pose proof (pv_count _ (wr_inv _ _ _ Hw)). lia.
      * intros Hq0 Hwo. destruct (stranded_no tr1 (cS c) kl i (length bs)) as [->|[?|[Hs Hno]]]; [|by right|].
        -- left. rewrite (wr_wo _ _ _ Hw). auto.
        -- destruct Hwk as [->|[?|Hkl]]; [|by right|].
           ++ left. rewrite (wr_queue _ _ _ Hw), (wr_wo _ _ _ Hw), app_nil_r. split; [|done]. left. destruct Hq0; congruence.
           ++ destruct Hno as [Hno|Hno]; [|congruence]. apply length_zero_iff_nil in Hno as ->.
              left. rewrite (wr_queue _ _ _ Hw), (wr_wo _ _ _ Hw), app_nil_r. split; [|done]. left. destruct Hq0; congruence.
Qed.

Lemma rturn_inv c q u addr n kl t p' u' tr : cinv c → cf c q = Reading u addr n false →
  piperead_turn pi kl addr n (mkpst (cp c) u) = Done t (mkpst p' u') tr →
  cinv (mkconf p'
    (set_pc (wake_all tr (cf c)) q (match t with Returned _ => Idle | Blocked _ _ => Reading u addr n true end))
    (cW c) (cR c ++ takes (cp c) p' u u' addr t) (cS c)).
Proof.
  intros [Hp Hl Hf Hlost Hpc] Hq Hrun. pose proof (Hpc q) as Hok. rewrite Hq in Hok. destruct Hok as (Hu & Hn & _).
  destruct (piperead_turn_run kl addr n (cp c) u Hu Hp Hl Hn) as (t1 & p1 & u1 & tr1 & bs & ls & Hrun1 & Hrf & Hu1 & Hwk & Hls & Ht).
  rewrite Hrun1 in Hrun. injection Hrun as <- <- <- <-.
  destruct (takes_front (cp c) p1 u u1 addr t1 bs ls Hp Hrf Hls Ht) as [Htk Hlo].
  split; simpl; [apply Hrf|by rewrite (rf_lock _ _ _ Hrf)| | |].
  - rewrite fmap_app, Htk, Hf, (rf_queue _ _ _ Hrf). by rewrite !app_assoc.
  - intros b v a [Hin|Hin]%elem_of_app; eauto.
  - apply set_pc_ok.
    + destruct t1 as [r|ch i']; [done|]. simpl. split_and!; [done..|]. intros _. naive_solver.
    + intros r. apply (pc_ok_wake (cp c) p1 (cS c)); [apply Hpc| |].
      * intros Hc Hro. destruct Hwk as [Hnil|Hwk]; [left|by right]. rewrite (rf_ro _ _ _ Hrf). split; [|done].
        rewrite <- pqueue_length in Hc |- *. pose proof (rf_queue _ _ _ Hrf) as Hqq. rewrite Hnil in Hqq. simpl in Hqq. by rewrite <- Hqq.
      * intros Hq0 Hwo. left. rewrite (rf_wo _ _ _ Hrf). split; [|done]. destruct Hq0 as [Hq0|]; [left|by right].
        rewrite (rf_queue _ _ _ Hrf) in Hq0. by apply app_nil in Hq0 as [_ ?].
Qed.

Lemma close_inv c writable (u : U) b p' u' tr : cinv c →
  pipeclose pi writable (mkpst (cp c) u) = Done b (mkpst p' u') tr →
  cinv (mkconf p' (wake_all tr (cf c)) (cW c) (cR c) (stranded tr (cS c) (λ _, false) 0 0)).
Proof.
  intros [Hp Hl Hf Hlost Hpc] Hrun. unfold pipeclose, bind, acquire in Hrun. simpl in Hrun. rewrite Hl in Hrun.
  destruct writable; simpl in Hrun; injection Hrun as <- <- <- <-; (split; simpl; [destruct Hp; by split|done|done|done|]);
    intros r; (apply (pc_ok_wake (cp c) _ (cS c)); [apply Hpc| |]).
  - by left.
  - right. left.
  - right. left.
  - intros Hq0 Hwo. left. split; [|done]. unfold stranded. rewrite bool_decide_false.
    + simpl. rewrite orb_false_r. naive_solver.
    + intros [[=]|?%not_elem_of_nil]%elem_of_cons. done.
Qed.

Lemma pstep_inv c c' : cinv c → pstep c c' → cinv c'.
Proof.
  intros Hi Hstep.
  destruct Hstep as [c q u addr n Hq Hu|c q u addr n Hq Hu Hn|c q u addr n i kl t p' u' tr Hq Hrun|c q u addr n kl t p' u' tr Hq Hrun|c writable u b p' u' tr Hrun|c q].
  - destruct Hi as [? ? ? ? Hpc]. split; simpl; try done. by apply set_pc_ok.
  - destruct Hi as [? ? ? ? Hpc]. split; simpl; try done. by apply set_pc_ok.
  - by apply (wturn_inv c q u addr n i kl t p' u' tr).
  - by apply (rturn_inv c q u addr n kl t p' u' tr).
  - by apply (close_inv c writable u b p' u' tr).
  - destruct Hi as [? ? ? ? Hpc]. split; simpl; try done. apply set_pc_ok; [|done].
    pose proof (Hpc q) as Hok. destruct (cf c q); simpl in *; naive_solver.
Qed.
End system.

(** C12. A pipe is a FIFO queue of bytes with blocking ends. However the turns of
    any number of readers and writers, closes and kills interleave, kills in
    the middle of a writer's turn included, the bytes handed over by writers
    are, in order, the bytes taken out by readers followed by those in the
    buffer, which never holds more than [PIPESIZE]. A byte taken out reaches
    its reader unless [copyout] failed on it, at an address the reader cannot
    write; then it is lost. A writer sleeps only while the buffer is full and
    the read end open; a reader only while the write end is open and the
    buffer is empty, except after a writer was killed having put some of its
    bytes in one turn, which returns without waking the readers. Every process
    in a call completes its turn, whenever it is killed. *)
Theorem pipe_fifo {U} `{UserBytes U} pi old c : length old = Z.to_nat PIPESIZE → rtc (pstep pi) (conf0 old) c →
  cW c = (taken_byte <$> cR c) ++ pqueue (cp c) ∧ Z.of_nat (length (pqueue (cp c))) ≤ PIPESIZE ∧
  (∀ b u a, Lost b u a ∈ cR c → u_wr u (u64 a) = false) ∧
  (∀ q u a n i, cf c q = Writing u a n i true → Z.of_nat (length (pqueue (cp c))) = PIPESIZE ∧ readopen (cp c) ≠ 0) ∧
  (∀ q u a n, cf c q = Reading u a n true → (pqueue (cp c) = [] ∨ cS c = true) ∧ writeopen (cp c) ≠ 0) ∧
  (∀ q u a n i sl kl, cf c q = Writing u a n i sl →
    ∃ t s tr, pipewrite_turn pi kl a n i (mkpst (cp c) u) = Done t s tr) ∧
  (∀ q u a n sl kl, cf c q = Reading u a n sl →
    ∃ t s tr, piperead_turn pi kl a n (mkpst (cp c) u) = Done t s tr).
Proof.
  intros Hold Hr. assert (cinv c) as [Hp Hl Hf Hlost Hpc].
  { eapply (rtc_invariant cinv); [intros a b; apply (pstep_inv pi)| |exact Hr].
    split; simpl; try done. intros ? ? ? []%not_elem_of_nil. }
  rewrite pqueue_length. split_and!; [done|apply Hp|exact Hlost|..].
  - intros q u a n i Hq. pose proof (Hpc q) as Hok. rewrite Hq in Hok. by apply Hok.
  - intros q u a n Hq. pose proof (Hpc q) as Hok. rewrite Hq in Hok. by apply Hok.
  - intros q u a n i sl kl Hq. pose proof (Hpc q) as Hok. rewrite Hq in Hok. destruct Hok as [Hu _].
    destruct (pipewrite_turn_run pi kl a n i (cp c) u Hu Hp Hl) as (t & p' & tr & bs & Hrun & _). eauto.
  - intros q u a n sl kl Hq. pose proof (Hpc q) as Hok. rewrite Hq in Hok. destruct Hok as (Hu & Hn & _).
    destruct (piperead_turn_run pi kl a n (cp c) u Hu Hp Hl Hn) as (t & p' & u' & tr & bs & ls & Hrun & _). eauto.
Qed.

(** A process memory of a few bytes from address 0, all readable, of which the
    first [snd] are writable. *)
Definition flat_mem : Type := list Z * nat.
#[local] Instance flat_user : UserMem flat_mem := {|
  u_copyout dst src u :=
    if (0 <=? dst) && (dst + Z.of_nat (length src) <=? Z.of_nat (snd u))
    then Done 0 (list_inserts (Z.to_nat dst) src (fst u), snd u) [] else Done (-1) u [];
  u_copyin src len u :=
    let bs := take (Z.to_nat len) (drop (Z.to_nat src) (fst u)) in
    if (0 <=? src) && (Z.of_nat (length bs) =? len) then Done (bs, 0) u [] else Done ([], -1) u [];
  u_copyinstr src max u := Done ([], -1) u []
|}.
#[local, refine] Instance flat_bytes : UserBytes flat_mem := {|
  u_ok u := (snd u ≤ length (fst u))%nat;
  u_rd u a := if 0 <=? a then fst u !! Z.to_nat a else None;
  u_wr u a := (0 <=? a) && (a <? Z.of_nat (snd u))
|}.
Proof.
  - intros [m w] a Hu Ha. simpl. assert (0 <=? a = true) as -> by (unfold is_u64 in Ha; lia). simpl.
    change (Pos.to_nat 1) with 1%nat. destruct (m !! Z.to_nat a) as [b|] eqn:Hb.
    + by rewrite (drop_S _ _ _ Hb).
    + by rewrite drop_ge by (by apply lookup_ge_None).
  - intros [m w] a b Hu Ha. simpl in *. assert (0 <=? a = true) as Ha0 by (unfold is_u64 in Ha; lia). rewrite Ha0. simpl.
    change (Z.of_nat 1) with 1. destruct (Z.ltb_spec a (Z.of_nat w)), (Z.leb_spec (a + 1) (Z.of_nat w)); try lia.
    + eexists. split; [done|]. simpl. rewrite length_insert. split; [done|]. split; [done|]. intros x.
      destruct (Z.eqb_spec x a) as [->|Hx].
      * rewrite Ha0. by rewrite list_lookup_insert_eq by lia.
      * destruct (Z.leb_spec 0 x); [|done]. by rewrite list_lookup_insert_ne by lia.
    + eexists. split; [done|]. done.
Defined.

(** Runs as computations. *)
Inductive pop : Type :=
| OWrite (q : Z) (u : flat_mem) (addr n : Z)
| ORead (q : Z) (u : flat_mem) (addr n : Z)
| OWturn (q : Z) (kl : Z → bool)
| ORturn (q : Z) (kl : bool).

Definition prun (pi : Z) (o : pop) (c : @conf flat_mem) : option (@conf flat_mem) :=
  match o with
  | OWrite q u addr n =>
      match cf c q with
      | Idle => if (snd u <=? length (fst u))%nat then Some (mkconf (cp c) (set_pc (cf c) q (Writing u addr n 0 false)) (cW c) (cR c) (cS c)) else None
      | _ => None
      end
  | ORead q u addr n =>
      match cf c q with
      | Idle => if (snd u <=? length (fst u))%nat && (n <=? INT_MAX) then Some (mkconf (cp c) (set_pc (cf c) q (Reading u addr n false)) (cW c) (cR c) (cS c)) else None
      | _ => None
      end
  | OWturn q kl =>
      match cf c q with
      | Writing u addr n i false =>
          match pipewrite_turn pi kl addr n i (mkpst (cp c) u) with
          | Done t (mkpst p' u') tr => Some (mkconf p'
              (set_pc (wake_all pi tr (cf c)) q (match t with Returned _ => Idle | Blocked _ i' => Writing u addr n i' true end))
              (cW c ++ bytes_of u (addr + i) (moved (nwrite (cp c)) (nwrite p'))) (cR c)
              (stranded pi tr (cS c) kl i (moved (nwrite (cp c)) (nwrite p'))))
          | _ => None
          end
      | _ => None
      end
  | ORturn q kl =>
      match cf c q with
      | Reading u addr n false =>
          match piperead_turn pi kl addr n (mkpst (cp c) u) with
          | Done t (mkpst p' u') tr => Some (mkconf p'
              (set_pc (wake_all pi tr (cf c)) q (match t with Returned _ => Idle | Blocked _ _ => Reading u addr n true end))
              (cW c) (cR c ++ takes (cp c) p' u u' addr t) (cS c))
          | _ => None
          end
      | _ => None
      end
  end.
Definition pruns (pi : Z) (os : list pop) (c : @conf flat_mem) : option (@conf flat_mem) :=
  foldl (λ r o, r ≫= prun pi o) (Some c) os.

Lemma prun_step pi o c c' : prun pi o c = Some c' → pstep pi c c'.
Proof.
  destruct o as [q u addr n|q u addr n|q kl|q kl]; simpl.
  - destruct (cf c q) eqn:Hq; try done. case_match eqn:Hle; [|done]. intros [= <-].
    apply ps_write; [done|]. simpl. by apply Nat.leb_le.
  - destruct (cf c q) eqn:Hq; try done. case_match eqn:Hle; [|done]. intros [= <-].
    apply andb_true_iff in Hle as [H1%Nat.leb_le H2%Z.leb_le]. by apply ps_read.
  - destruct (cf c q) as [|u addr n i []|] eqn:Hq; try done.
    destruct (pipewrite_turn _ _ _ _ _ _) as [t [p' u'] tr|? ? ?|? ? ?|? ?] eqn:Hr; try done. intros [= <-]. by eapply ps_wturn.
  - destruct (cf c q) as [| |u addr n []] eqn:Hq; try done.
    destruct (piperead_turn _ _ _ _ _) as [t [p' u'] tr|? ? ?|? ? ?|? ?] eqn:Hr; try done. intros [= <-]. by eapply ps_rturn.
Qed.
Lemma pruns_steps pi os c c' : pruns pi os c = Some c' → rtc (pstep pi) c c'.
Proof.
  unfold pruns. revert c. induction os as [|o os IH]; intros c; simpl; [intros [= ->]; apply rtc_refl|].
  destruct (prun pi o c) as [c1|] eqn:Ho.
  - intros Hr. eapply rtc_l; [by apply (prun_step pi o)|by apply IH].
  - intros Hr. exfalso. clear -Hr. induction os; simpl in Hr; [done|auto].
Qed.

(** A reader sleeps on the empty pipe; a writer puts "AB" of its three bytes
    and is killed, so that nobody is woken; a second reader with room for one
    byte gets "A" and loses "B". *)
Definition pipe_ops : list pop :=
  [ORead 1 ([0; 0; 0], 3%nat) 0 3; ORturn 1 false; OWrite 2 ([65; 66; 67], 3%nat) 0 3; OWturn 2 (λ i, i =? 2);
   ORead 3 ([0; 0], 1%nat) 0 2; ORturn 3 false].
Definition pipe_end : conf := default (conf0 []) (pruns 0 pipe_ops (conf0 (replicate 512 0))).
Lemma pipe_end_reached : rtc (pstep 0) (conf0 (replicate 512 0)) pipe_end.
Proof.
  apply (pruns_steps 0 pipe_ops). unfold pipe_end.
  assert ((if pruns 0 pipe_ops (conf0 (replicate 512 0)) then true else false) = true) as Hs by (vm_compute; reflexivity).
  by destruct (pruns 0 pipe_ops _).
Qed.

Lemma pipe_fifo_witness :
  (cW pipe_end = [65; 66] ∧ cR pipe_end = [Got 65; Lost 66 ([0; 0], 1%nat) 1] ∧ cf pipe_end 1 = Reading ([0; 0; 0], 3%nat) 0 3 true) ∧
  cW pipe_end = (taken_byte <$> cR pipe_end) ++ pqueue (cp pipe_end) ∧
  (∀ b u a, Lost b u a ∈ cR pipe_end → u_wr u (u64 a) = false) ∧
  (pqueue (cp pipe_end) = [] ∨ cS pipe_end = true).
Proof.
  split; [split_and!; vm_compute; reflexivity|].
  destruct (pipe_fifo 0 (replicate 512 0) pipe_end (length_replicate _ _) pipe_end_reached) as (H1 & _ & H3 & _ & H5 & _).
  split; [exact H1|]. split; [exact H3|]. apply (H5 1 ([0; 0; 0], 3%nat) 0 3). vm_compute. reflexivity.
Defined.

(** ** What can go wrong *)

(** A writer that is killed while it holds the lock returns -1 without waking
    the readers up: the byte it has put in the empty pipe stays unnoticed. *)
Theorem pipewrite_lost_wakeup {U} `{UserBytes U} pi old u addr b : length old = Z.to_nat PIPESIZE → u_ok u →
  u_rd u (u64 addr) = Some b →
  ∃ p', pipewrite_turn pi (λ i, i =? 1) addr 2 0 (mkpst (pipe_init old) u) = Done (Returned (-1)) (mkpst p' u) [] ∧ pqueue p' = [b].
Proof.
  intros Hold Hu Hb. unfold pipewrite_turn. unfold bind at 1, acquire. cbn [held pst_locked pip pi_lock pipe_init]. rewrite pre_nil.
  change (Z.to_nat (2 - 0)) with 2%nat. set (p1 := mkpipe true old 0 0 1 1). change (set_held true _) with (mkpst p1 u).
  pose proof (u_copyin1 u (u64 addr) Hu (u64_range _)) as Hc. rewrite Hb in Hc.
  cbn [pipewrite_loop]. cbn [Z.ltb Z.compare negb]. mrun. cbn [pip]. cbn [readopen orb p1 nwrite nread].
  change ((1 =? 0) || _) with false. change (0 =? u32 (0 + PIPESIZE)) with false. cbv iota. rewrite Z.add_0_r.
  rewrite (bind_done _ _ _ _ _ (pium_done _ p1 u _ _ _ Hc)). change (0 =? -1) with false. cbv iota. mrun.
  change (negb (0 + 1 <? 2)) with false. cbv iota. mrun. change (0 + 1 =? 1) with true. rewrite orb_true_r. unfold upd_pip; cbn [pip pum]; rewrite release_pipe by done.
  eexists. split; [reflexivity|]. unfold pqueue; simpl. by destruct old.
Qed.

(** [piperead] takes a byte out of the pipe before it knows that the byte can
    be stored: reading into memory that cannot be written loses it. *)
Theorem piperead_loses_byte {U} `{UserBytes U} pi addr n p u b q : u_ok u → pinv p → pi_lock p = false →
  0 < n → pqueue p = b :: q → u_wr u (u64 addr) = false →
  ∃ p' u' tr, piperead_turn pi false addr n (mkpst p u) = Done (Returned 0) (mkpst p' u') tr ∧ pqueue p' = q.
Proof.
  intros Hu Hp Hl Hn Hq Hw. unfold piperead_turn. unfold bind at 1, acquire. cbn [held pst_locked pip]. rewrite Hl, pre_nil.
  set (p1 := mkpipe true (pi_data p) (nread p) (nwrite p) (readopen p) (writeopen p)).
  assert (pinv p1) as Hp1 by (destruct Hp; by split). assert (pqueue p1 = b :: q) as Hq1 by done.
  change (set_held true _) with (mkpst p1 u). rewrite bind_gets. cbn [pip].
  destruct (nread p1 =? nwrite p1) eqn:He; [apply (pqueue_empty p1 Hp1) in He; congruence|]. cbn [andb].
  destruct (get_byte_ok p1 Hp1) as [Hp' Hq']; [by rewrite Hq1|]. rewrite Hq1 in Hq'. injection Hq' as _ Hq'.
  destruct (Z.to_nat n) as [|k] eqn:Hk; [lia|]. cbn [piperead_copy].
  destruct (u_copyout1 u (u64 addr) (pi_data p1 !!! Z.to_nat (nread p1 mod PIPESIZE)) Hu (u64_range _)) as (u1 & Hrun1 & _).
  rewrite Hw in Hrun1. rewrite bind_assoc. mrun. cbn [pip]. rewrite He, Z.add_0_r.
  rewrite !bind_assoc. mrun. rewrite ?bind_assoc, (bind_done _ _ _ _ _ (pium_done _ (get_byte p1) u _ _ _ Hrun1)).
  change (-1 =? -1) with true. cbv iota. mrun. rewrite release_pipe by done. eauto.
Qed.
