(* ===== verification/File.v ===== *)
(** Open files ([file.c] with [struct file] of [file.h]) and the allocation of
    pipes ([pipealloc] of [pipe.c]). *)
From Stdlib Require Import ZArith Lia.
From stdpp Require Import base list gmap strings.
From S2P Require Import Prelude Machine Mem Kalloc Vm Sleeplock Bio Blk Log UserMem Fs Pipe.


Inductive ftype : Type := FD_NONE | FD_PIPE | FD_INODE | FD_DEVICE.
#[export] Instance ftype_eq_dec : EqDecision ftype.
Proof. solve_decision. Defined.

(** [struct file]; pipes are named by their address, inodes by their index. *)
Record file := mkfile {
  f_type : ftype;
  f_ref : Z;
  f_readable : Z;
  f_writable : Z;
  f_pipe : Z;
  f_ip : nat;
  f_off : Z;
  f_major : Z
}.
Definition set_f_ref (v : Z) (x : file) : file := mkfile (f_type x) v (f_readable x) (f_writable x) (f_pipe x) (f_ip x) (f_off x) (f_major x).
Definition set_f_type (v : ftype) (x : file) : file := mkfile v (f_ref x) (f_readable x) (f_writable x) (f_pipe x) (f_ip x) (f_off x) (f_major x).
Definition set_f_mode (r w : Z) (x : file) : file := mkfile (f_type x) (f_ref x) r w (f_pipe x) (f_ip x) (f_off x) (f_major x).
Definition set_f_pipe (v : Z) (x : file) : file := mkfile (f_type x) (f_ref x) (f_readable x) (f_writable x) v (f_ip x) (f_off x) (f_major x).
Definition set_f_ip (v : nat) (x : file) : file := mkfile (f_type x) (f_ref x) (f_readable x) (f_writable x) (f_pipe x) v (f_off x) (f_major x).
Definition set_f_off (v : Z) (x : file) : file := mkfile (f_type x) (f_ref x) (f_readable x) (f_writable x) (f_pipe x) (f_ip x) v (f_major x).
Definition set_f_major (v : Z) (x : file) : file := mkfile (f_type x) (f_ref x) (f_readable x) (f_writable x) (f_pipe x) (f_ip x) (f_off x) v.

Definition file0 : file := mkfile FD_NONE 0 0 0 0 0 0 0.
#[export] Instance file_inhabited : Inhabited file := populate file0.
#[export] Instance pipe_inhabited : Inhabited pipe := populate (pipe_init []).

(** What [pipe.c] uses of [kalloc.c]. *)
Class PageAlloc (U : Type) := {
  u_kalloc : M event U Z;
  u_kfree : Z → M event U unit
}.
#[export] Instance vm_pages (kend : Z) : PageAlloc kmem := {| u_kalloc := kalloc; u_kfree := kfree kend |}.

(** [ftable], the pages that hold pipes, and what is below. *)
Record filest (U : Type) := mkfilest {
  ft_lock : bool;
  files : list file;
  pipes : gmap Z pipe;
  ffs : fsst U
}.
Arguments mkfilest {U}.
Arguments ft_lock {U}.
Arguments files {U}.
Arguments pipes {U}.
Arguments ffs {U}.

Section file.
Context {U : Type} `{UserMem U} `{PageAlloc U}.
(** [myproc()->pid] and [killed(myproc())]. *)
Context (pid : Z) (killed : bool).

Local Abbreviation F := (M event (filest U)).

Definition set_files (v : list file) (s : filest U) : filest U := mkfilest (ft_lock s) v (pipes s) (ffs s).
Definition set_pipes (v : gmap Z pipe) (s : filest U) : filest U := mkfilest (ft_lock s) (files s) v (ffs s).
Definition set_ffs (v : fsst U) (s : filest U) : filest U := mkfilest (ft_lock s) (files s) (pipes s) v.
#[export, refine] Instance filest_locked : Locked (filest U) :=
  {| held := ft_lock; set_held b s := mkfilest b (files s) (pipes s) (ffs s) |}.
Proof. all: by try intros ? ? []; try intros ? []; try intros []. Defined.

Definition fil (f : nat) (s : filest U) : file := files s !!! f.
Definition upd_file (f : nat) (g : file → file) (s : filest U) : filest U := set_files (alter g f (files s)) s.

Definition fileinit : F unit := modify (set_held false).

(** Run a routine of the file system, of memory, of the pipe at [pi]. *)
Definition ffs_ {A} (m : M event (fsst U) A) : F A := lift ffs set_ffs m.
Definition fpages {A} (m : M event U A) : F A := ffs_ (fum m).
Definition with_pipe {A} (pi : Z) (m : M event (pst U) A) : F A :=
  lift (λ s, mkpst (pipes s !!! pi) (um (ffs s)))
       (λ p s, mkfilest (ft_lock s) (files s) (<[pi := pip p]> (pipes s)) (set_um (pum p) (ffs s))) m.

(** The [for] loop of [filealloc]: the first file whose [ref] is 0. *)
Fixpoint find_unused (l : list file) (i : nat) : option nat :=
  match l with
  | [] => None
  | x :: l' => if f_ref x =? 0 then Some i else find_unused l' (S i)
  end.
(** [None] is the null pointer. *)
Definition filealloc : F (option nat) :=
  acquire ;;
  let! l := gets files in
  match find_unused l 0 with
  | Some f => modify (upd_file f (set_f_ref 1)) ;; release ;; ret (Some f)
  | None => release ;; ret None
  end.

Definition filedup (f : nat) : F nat :=
  acquire ;;
  let! x := gets (fil f) in
  if f_ref x <? 1 then panic "filedup" else
  modify (upd_file f (set_f_ref (i32 (f_ref x + 1)))) ;;
  release ;;
  ret f.

(** [fileclose] up to the second [release]: the copy [ff] when this was the
    last reference. *)
Definition fileclose_ref (f : nat) : F (option file) :=
  acquire ;;
  let! x := gets (fil f) in
  if f_ref x <? 1 then panic "fileclose" else
  let r := i32 (f_ref x - 1) in
  modify (upd_file f (set_f_ref r)) ;;
  if 0 <? r then release ;; ret None else
  let! ff := gets (fil f) in
  modify (upd_file f (set_f_ref 0)) ;;
  modify (upd_file f (set_f_type FD_NONE)) ;;
  release ;;
  ret (Some ff).

(** The page of a pipe both of whose ends are closed is freed. *)
Definition pipeclose_free (pi : Z) (writable : bool) : F unit :=
  let! free := with_pipe pi (pipeclose pi writable) in
  if free then
    modify (λ s, set_pipes (delete pi (pipes s)) s) ;;
    fpages (u_kfree pi)
  else ret tt.

Definition fileclose (f : nat) : F unit :=
  let! last := fileclose_ref f in
  match last with
  | None => ret tt
  | Some ff =>
      match f_type ff with
      | FD_PIPE => pipeclose_free (f_pipe ff) (negb (f_writable ff =? 0))
      | FD_INODE | FD_DEVICE =>
          ffs_ (flog (begin_op)) ;;
          ffs_ (iput pid (f_ip ff)) ;;
          ffs_ (flog (end_op pid))
      | FD_NONE => ret tt
      end
  end.

(** [pipealloc]: the two files, or [None] for -1. The bytes of the page are
    those [kalloc] filled it with. *)
Definition pipealloc : F (option (nat * nat)) :=
  let! f0 := filealloc in
  match f0 with
  | None => ret None
  | Some f0 =>
      let! f1 := filealloc in
      match f1 with
      | None => fileclose f0 ;; ret None
      | Some f1 =>
          let! pi := fpages u_kalloc in
          if pi =? 0 then fileclose f0 ;; fileclose f1 ;; ret None else
          modify (λ s, set_pipes (<[pi := pipe_init (replicate (Z.to_nat PIPESIZE) 5)]> (pipes s)) s) ;;
          modify (upd_file f0 (λ x, set_f_pipe pi (set_f_mode 1 0 (set_f_type FD_PIPE x)))) ;;
          modify (upd_file f1 (λ x, set_f_pipe pi (set_f_mode 0 1 (set_f_type FD_PIPE x)))) ;;
          ret (Some (f0, f1))
      end
  end.

(** [struct stat] as [copyout] sees it; [pad] is the padding between [nlink] and
    [size], which the code does not initialise. *)
Definition stat_bytes (pad : list Z) (st : stat) : list Z :=
  le_bytes 4 (st_dev st) ++ le_bytes 4 (st_ino st) ++ le_bytes 2 (st_type st) ++ le_bytes 2 (st_nlink st) ++ pad ++ le_bytes 8 (st_size st).

Definition filestat (pad : list Z) (f : nat) (addr : Z) : F Z :=
  let! x := gets (fil f) in
  match f_type x with
  | FD_INODE | FD_DEVICE =>
      ffs_ (ilock pid (f_ip x)) ;;
      let! st := ffs_ (stati (f_ip x)) in
      ffs_ (iunlock pid (f_ip x)) ;;
      let! r := fpages (u_copyout addr (stat_bytes pad st)) in
      if r <? 0 then ret (-1) else ret 0
  | _ => ret (-1)
  end.

(** [devsw]: the [read] and [write] functions of a major device number. *)
Record devops := mkdevops { dev_read : option (Z → Z → F turn); dev_write : option (Z → Z → F turn) }.
Context (devsw : Z → devops).

(** [fileread] and [filewrite] return, or sleep in the pipe or device. *)
Definition fileread (f : nat) (addr n : Z) : F turn :=
  let! x := gets (fil f) in
  if f_readable x =? 0 then ret (Returned (-1)) else
  match f_type x with
  | FD_PIPE => with_pipe (f_pipe x) (piperead_turn (f_pipe x) killed addr n)
  | FD_DEVICE =>
      if (f_major x <? 0) || (NDEV <=? f_major x) then ret (Returned (-1)) else
      match dev_read (devsw (f_major x)) with
      | None => ret (Returned (-1))
      | Some rd => rd addr n
      end
  | FD_INODE =>
      ffs_ (ilock pid (f_ip x)) ;;
      let! off := gets (λ s, f_off (fil f s)) in
      let! (r, _) := ffs_ (readi pid (f_ip x) (UDst addr) off (u32 n)) in
      (if 0 <? r then modify (upd_file f (λ x, set_f_off (u32 (f_off x + r)) x)) else ret tt) ;;
      ffs_ (iunlock pid (f_ip x)) ;;
      ret (Returned r)
  | FD_NONE => panic "fileread"
  end.

(** The [while] loop of [filewrite] from [i]; each round but the last writes at
    least one byte. *)
Definition WMAX : Z := (MAXOPBLOCKS - 1 - 1 - 2) / 2 * BSIZE.
Fixpoint filewrite_loop (fuel : nat) (f : nat) (addr n i : Z) : F Z :=
  if negb (i <? n) then ret i else
  match fuel with
  | O => λ s, Spin s []
  | S k =>
      let n1 := if WMAX <? n - i then WMAX else n - i in
      let! x := gets (fil f) in
      ffs_ (flog begin_op) ;;
      ffs_ (ilock pid (f_ip x)) ;;
      let! off := gets (λ s, f_off (fil f s)) in
      let! r := ffs_ (writei pid (f_ip x) (USrc (u64 (addr + i))) off (u32 n1)) in
      (if 0 <? r then modify (upd_file f (λ x, set_f_off (u32 (f_off x + r)) x)) else ret tt) ;;
      ffs_ (iunlock pid (f_ip x)) ;;
      ffs_ (flog (end_op pid)) ;;
      if negb (r =? n1) then ret i else filewrite_loop k f addr n (i + r)
  end.

Definition filewrite (f : nat) (addr n : Z) : F turn :=
  let! x := gets (fil f) in
  if f_writable x =? 0 then ret (Returned (-1)) else
  match f_type x with
  | FD_PIPE => with_pipe (f_pipe x) (pipewrite_turn (f_pipe x) (λ _, killed) addr n 0)
  | FD_DEVICE =>
      if (f_major x <? 0) || (NDEV <=? f_major x) then ret (Returned (-1)) else
      match dev_write (devsw (f_major x)) with
      | None => ret (Returned (-1))
      | Some wr => wr addr n
      end
  | FD_INODE =>
      let! i := filewrite_loop (Z.to_nat n) f addr n 0 in
      ret (Returned (if i =? n then n else -1))
  | FD_NONE => panic "filewrite"
  end.
End file.
