(* ===== verification/FileThm.v ===== *)
(** Reference counts of open files, and the life of a pipe. *)
From Stdlib Require Import ZArith Lia.
From stdpp Require Import base list gmap strings.
From S2P Require Import Prelude Machine Mem Kalloc Vm Sleeplock Bio Blk Log UserMem Fs Pipe File VmThm.

Section refs.
Context {U : Type}.
Local Abbreviation F := (M event (filest U)).

(** How many times a file is held. *)
Definition holds (f : nat) (h : list nat) : nat := length (filter (λ g, g = f) h).

Lemma holds_cons f g h : holds f (g :: h) = ((if decide (g = f) then 1 else 0) + holds f h)%nat.
Proof. unfold holds. rewrite filter_cons. by case_decide. Qed.
Lemma holds_app f h1 h2 : holds f (h1 ++ h2) = (holds f h1 + holds f h2)%nat.
Proof. unfold holds. by rewrite filter_app, length_app. Qed.
Lemma holds_pos f h : f ∈ h ↔ (0 < holds f h)%nat.
Proof.
  induction h as [|g h IH]; [rewrite elem_of_nil; unfold holds; simpl; lia|]. rewrite elem_of_cons, holds_cons, IH.
  case_decide; [subst; split; [lia|by left]|]. split; [intros [->|?]; [done|lia]|intros; right; lia].
Qed.
Lemma holds_le f h : (holds f h ≤ length h)%nat.
Proof. unfold holds. apply length_filter. Qed.

(** The files are counted right when their counts are the numbers of holders;
    files nobody holds have no type. *)
Record counted (s : filest U) (h : list nat) : Prop := {
  ct_len : length (files s) = NFILE;
  ct_lock : ft_lock s = false;
  ct_ref : ∀ f x, files s !! f = Some x → f_ref x = Z.of_nat (holds f h);
  ct_none : ∀ f x, files s !! f = Some x → f ∉ h → f_type x = FD_NONE;
  ct_held : ∀ f, f ∈ h → (f < NFILE)%nat;
  ct_max : Z.of_nat (length h) ≤ INT_MAX
}.

Lemma find_unused_spec l i : match find_unused l i with
  | Some f => ∃ x, (i ≤ f)%nat ∧ l !! (f - i)%nat = Some x ∧ f_ref x = 0
  | None => ∀ k x, l !! k = Some x → f_ref x ≠ 0
  end.
Proof.
  revert i. induction l as [|x l IH]; intros i; simpl; [done|]. destruct (Z.eqb_spec (f_ref x) 0) as [H0|H0].
  - exists x. by rewrite Nat.sub_diag.
  - specialize (IH (S i)). destruct (find_unused l (S i)) as [f|].
    + destruct IH as (y & Hle & Hy & Hr). exists y. split_and!; [lia| |done]. by replace (f - i)%nat with (S (f - S i)) by lia.
    + intros [|k] y Hy; [by injection Hy as <-|by eapply IH].
Qed.

(** [s] with the count of [f] changed. *)
Definition with_ref (f : nat) (v : Z) (s : filest U) : filest U := upd_file f (set_f_ref v) s.

Lemma counted_upd s h f h' g : counted s h → (f < NFILE)%nat →
  (∀ x, files s !! f = Some x → f_ref (g x) = Z.of_nat (holds f h')) → (∀ x, files s !! f = Some x → f ∉ h' → f_type (g x) = FD_NONE) →
  (∀ k, k ≠ f → holds k h' = holds k h) →
  (∀ k, k ∈ h' → (k < NFILE)%nat) → Z.of_nat (length h') ≤ INT_MAX → counted (upd_file f g s) h'.
Proof.
  intros [Hl Hk Hr Hno Hh Hm] Hf Hg Hg' Ho Hh' Hm'. split; [by simpl; rewrite length_alter|done| | |done|done].
  - intros k x Hx. simpl in Hx. destruct (decide (k = f)) as [->|Hne].
    + rewrite list_lookup_alter_eq in Hx. apply fmap_Some in Hx as (y & Hy & ->). by apply Hg.
    + rewrite list_lookup_alter_ne in Hx by done. rewrite Ho by done. by apply Hr.
  - intros k x Hx Hn. simpl in Hx. destruct (decide (k = f)) as [->|Hne].
    + rewrite list_lookup_alter_eq in Hx. apply fmap_Some in Hx as (y & Hy & ->). by apply Hg'.
    + rewrite list_lookup_alter_ne in Hx by done. apply (Hno k x Hx). by rewrite holds_pos, <- Ho, <- holds_pos.
Qed.

Lemma fil_lookup s h f : counted s h → (f < NFILE)%nat → files s !! f = Some (fil f s).
Proof. intros Hc Hf. apply list_lookup_lookup_total_lt. by rewrite (ct_len _ _ Hc). Qed.

Lemma held_ref s h f : counted s h → f ∈ h → f_ref (fil f s) = Z.of_nat (holds f h) ∧ 1 ≤ f_ref (fil f s) ∧ f_ref (fil f s) ≤ Z.of_nat (length h) ∧ (f < NFILE)%nat.
Proof.
  intros Hc Hin. pose proof (ct_held _ _ Hc _ Hin) as Hf. rewrite (ct_ref _ _ Hc _ _ (fil_lookup _ _ _ Hc Hf)).
  apply holds_pos in Hin. pose proof (holds_le f h). lia.
Qed.

(** Unlocking after an update. *)
Lemma unlock_upd f g (s : filest U) : ft_lock s = false → set_held false (upd_file f g (set_held true s)) = upd_file f g s.
Proof. intros Hl. destruct s; simpl in *. by subst. Qed.

Lemma filealloc_run s h : counted s h → Z.of_nat (length h) < INT_MAX →
  (∃ f, filealloc s = Done (Some f) (upd_file f (set_f_ref 1) s) [] ∧ f ∉ h ∧ (f < NFILE)%nat ∧ counted (upd_file f (set_f_ref 1) s) (f :: h)) ∨
  (filealloc s = Done None s [] ∧ ∀ f, (f < NFILE)%nat → f ∈ h).
Proof.
  intros Hc Hm. pose proof (ct_lock _ _ Hc) as Hlk. unfold filealloc. rewrite bind_lock by done. rewrite bind_gets. change (files (set_held true s)) with (files s).
  pose proof (find_unused_spec (files s) 0) as Hs. destruct (find_unused (files s) 0) as [f|].
  - left. destruct Hs as (x & _ & Hx & H0). rewrite Nat.sub_0_r in Hx. exists f.
    pose proof (lookup_lt_Some _ _ _ Hx) as Hf. rewrite (ct_len _ _ Hc) in Hf.
    pose proof (ct_ref _ _ Hc _ _ Hx) as Hr. assert (f ∉ h) as Hn by (rewrite holds_pos; lia).
    split_and!; [|done|done|].
    + mrun. rewrite bind_unlock by done. by rewrite unlock_upd.
    + eapply counted_upd; [exact Hc|done| | | | |].
      * intros y _. rewrite holds_cons, decide_True by done. unfold holds in *. simpl. lia.
      * intros y _ []. left.
      * intros k Hk. by rewrite holds_cons, decide_False.
      * intros k [->|Hk]%elem_of_cons; [done|]. by apply (ct_held _ _ Hc).
      * cbn [length]. lia.
  - right. split.
    + rewrite bind_unlock by done. destruct s; simpl in *. by subst.
    + intros f Hf. apply holds_pos. pose proof (fil_lookup _ _ _ Hc Hf) as Hx. pose proof (ct_ref _ _ Hc _ _ Hx). specialize (Hs _ _ Hx). lia.
Qed.

Lemma filedup_run s h f : counted s h → f ∈ h → Z.of_nat (length h) < INT_MAX →
  filedup f s = Done f (upd_file f (set_f_ref (f_ref (fil f s) + 1)) s) [] ∧
  counted (upd_file f (set_f_ref (f_ref (fil f s) + 1)) s) (f :: h).
Proof.
  intros Hc Hin Hm. destruct (held_ref _ _ _ Hc Hin) as (Hr & Hr1 & Hr2 & Hf). pose proof (ct_lock _ _ Hc) as Hlk. split.
  - unfold filedup. rewrite bind_lock by done. rewrite bind_gets. change (fil f (set_held true s)) with (fil f s).
    destruct (Z.ltb_spec (f_ref (fil f s)) 1); [lia|]. mrun. rewrite bind_unlock by done. rewrite unlock_upd by done.
    unfold INT_MAX in Hm. by rewrite i32_small by (unfold is_i32, INT_MIN, INT_MAX; lia).
  - eapply counted_upd; [exact Hc|done| | | | |].
    + intros y _. rewrite holds_cons, decide_True by done. simpl. lia.
    + intros y _ []. left.
    + intros k Hk. by rewrite holds_cons, decide_False.
    + intros k [->|Hk]%elem_of_cons; [done|]. by apply (ct_held _ _ Hc).
    + cbn [length]. lia.
Qed.

(** The state after one reference of [f] is dropped. *)
Definition dropped (f : nat) (s : filest U) : filest U :=
  upd_file f (λ x, if f_ref x =? 1 then set_f_type FD_NONE (set_f_ref 0 x) else set_f_ref (f_ref x - 1) x) s.

Lemma fileclose_ref_run s h1 h2 f : counted s (h1 ++ f :: h2) →
  fileclose_ref f s = Done (if decide (f ∈ h1 ++ h2) then None else Some (set_f_ref 0 (fil f s))) (dropped f s) [] ∧
  counted (dropped f s) (h1 ++ h2).
Proof.
  intros Hc. assert (f ∈ h1 ++ f :: h2) as Hin by (apply elem_of_app; right; left).
  destruct (held_ref _ _ _ Hc Hin) as (Hr & Hr1 & Hr2 & Hf). pose proof (ct_max _ _ Hc) as Hm.
  assert (holds f (h1 ++ f :: h2) = S (holds f (h1 ++ h2))) as Hh by (rewrite !holds_app, holds_cons, decide_True by done; lia).
  pose proof (fil_lookup _ _ _ Hc Hf) as Hlk. split.
  - pose proof (ct_lock _ _ Hc) as Hlk'. unfold fileclose_ref. rewrite bind_lock by done. rewrite bind_gets. change (fil f (set_held true s)) with (fil f s).
    destruct (Z.ltb_spec (f_ref (fil f s)) 1); [lia|]. unfold INT_MAX in Hm. rewrite i32_small by (unfold is_i32, INT_MIN, INT_MAX; lia).
    rewrite bind_modify.
    destruct (decide (f ∈ h1 ++ h2)) as [Hin'|Hin'].
    + apply holds_pos in Hin'. destruct (Z.ltb_spec 0 (f_ref (fil f s) - 1)); [|lia]. rewrite bind_unlock by done. rewrite unlock_upd by done.
      unfold ret, dropped, upd_file. f_equal. f_equal. apply list_alter_ext; [|done].
      intros x Hx. rewrite Hlk in Hx. injection Hx as <-. destruct (Z.eqb_spec (f_ref (fil f s)) 1); [lia|done].
    + rewrite holds_pos in Hin'. destruct (Z.ltb_spec 0 (f_ref (fil f s) - 1)); [lia|]. mrun.
      rewrite bind_unlock by done. unfold ret. f_equal.
      * f_equal. unfold fil at 1. simpl files. rewrite (list_lookup_total_correct _ _ (set_f_ref 0 (fil f s))); [done|].
        rewrite list_lookup_alter_eq, Hlk. simpl. do 2 f_equal. lia.
      * destruct s as [lk fs ps ff]; simpl in *. subst lk. rewrite !alter_alter. unfold dropped, upd_file, set_files; simpl. f_equal.
        apply list_alter_ext; [|done]. intros x Hx. rewrite Hlk in Hx. injection Hx as <-. simpl.
        destruct (Z.eqb_spec (f_ref (fil f (mkfilest false fs ps ff))) 1); [done|lia].
  - eapply counted_upd; [exact Hc|done| | | | |].
    + intros x Hx. rewrite Hlk in Hx. injection Hx as <-. destruct (Z.eqb_spec (f_ref (fil f s)) 1); simpl; lia.
    + intros x Hx Hn. rewrite Hlk in Hx. injection Hx as <-. rewrite holds_pos in Hn.
      destruct (Z.eqb_spec (f_ref (fil f s)) 1); [done|lia].
    + intros k Hk. by rewrite !holds_app, holds_cons, decide_False.
    + intros k Hk. apply (ct_held _ _ Hc). apply elem_of_app in Hk as [?|?]; apply elem_of_app; [by left|right; by right].
    + rewrite length_app in Hm |- *. cbn [length] in Hm. lia.
Qed.

(** Clients that allocate, duplicate and close; [h] are the references they
    hold. *)
Inductive fstep : filest U * list nat → filest U * list nat → Prop :=
| fs_alloc s h f s' t : Z.of_nat (length h) < INT_MAX → filealloc s = Done (Some f) s' t → fstep (s, h) (s', f :: h)
| fs_full s h s' t : filealloc s = Done None s' t → fstep (s, h) (s', h)
| fs_dup s h f s' t : Z.of_nat (length h) < INT_MAX → f ∈ h → filedup f s = Done f s' t → fstep (s, h) (s', f :: h)
| fs_close s h1 f h2 r s' t : fileclose_ref f s = Done r s' t → fstep (s, h1 ++ f :: h2) (s', h1 ++ h2)
(** What the code does with the other fields of a file it holds. *)
| fs_fields s h f g : f ∈ h → (∀ x, f_ref (g x) = f_ref x) → fstep (s, h) (upd_file f g s, h).

Lemma fstep_counted c c' : counted c.1 c.2 → fstep c c' → counted c'.1 c'.2.
Proof.
  intros Hc Hstep. destruct Hstep as [s h f s' t Hm Hrun|s h s' t Hrun|s h f s' t Hm Hin Hrun|s h1 f h2 r s' t Hrun|s h f g Hin Hg]; simpl in *.
  - destruct (filealloc_run s h Hc Hm) as [(f' & Hrun' & _ & _ & Hc')|[Hrun' _]]; rewrite Hrun in Hrun'; [by injection Hrun' as <- -> _|done].
  - destruct (decide (Z.of_nat (length h) < INT_MAX)) as [Hm|Hm].
    + destruct (filealloc_run s h Hc Hm) as [(f' & Hrun' & _ & _ & Hc')|[Hrun' _]]; rewrite Hrun in Hrun'; [done|by injection Hrun' as -> _].
    + enough (s' = s) as -> by done. revert Hrun. pose proof (ct_lock _ _ Hc) as Hlk. unfold filealloc. rewrite bind_lock by done. rewrite bind_gets.
      destruct (find_unused _ _); [mrun; rewrite bind_unlock by done; done|]. rewrite bind_unlock by done. intros [= <- _]. destruct s; simpl in *. by subst.
  - destruct (filedup_run s h f Hc Hin Hm) as [Hrun' Hc']. rewrite Hrun in Hrun'. by injection Hrun' as -> _.
  - destruct (fileclose_ref_run s h1 h2 f Hc) as [Hrun' Hc']. rewrite Hrun in Hrun'. by injection Hrun' as _ -> _.
  - destruct (held_ref _ _ _ Hc Hin) as (_ & _ & _ & Hf). eapply counted_upd; [exact Hc|done| |done|done|apply Hc|apply Hc].
    intros x Hx. rewrite Hg. by apply (ct_ref _ _ Hc).
Qed.
End refs.

(** [ftable] at boot. *)
Definition files0 {U} (fs : fsst U) : filest U := mkfilest false (replicate NFILE file0) ∅ fs.

Lemma files0_counted {U} (fs : fsst U) : counted (files0 fs) [].
Proof.
  split; try done.
  - intros f x Hx. change (files (files0 fs)) with (replicate NFILE file0) in Hx. by apply lookup_replicate in Hx as [-> _].
  - intros f x Hx _. change (files (files0 fs)) with (replicate NFILE file0) in Hx. by apply lookup_replicate in Hx as [-> _].
  - intros f Hf. by apply not_elem_of_nil in Hf.
Qed.

(** C14. Open files are reference counted correctly. However clients allocate,
    duplicate, use and close the files they hold, the count of every file is
    the number of references held; nobody's file is handed out again;
    allocation fails only when all files are held; [filedup] and [fileclose]
    return, without a panic, for every file held; and [fileclose] disposes of
    the file exactly when the reference was the last. *)
Theorem file_refcounts {U} (fs : fsst U) s h : rtc fstep (files0 fs, []) (s, h) →
  (∀ f, (f < NFILE)%nat → f_ref (fil f s) = Z.of_nat (holds f h)) ∧
  (Z.of_nat (length h) < INT_MAX →
    (∃ f s', filealloc s = Done (Some f) s' [] ∧ f ∉ h) ∨ (filealloc s = Done None s [] ∧ ∀ f, (f < NFILE)%nat → f ∈ h)) ∧
  (∀ f, f ∈ h → Z.of_nat (length h) < INT_MAX → ∃ s', filedup f s = Done f s' []) ∧
  (∀ f, f ∈ h → ∃ r s', fileclose_ref f s = Done r s' [] ∧ (r = None ↔ (1 < holds f h)%nat) ∧
     ∀ ff, r = Some ff → ff = set_f_ref 0 (fil f s)).
Proof.
  intros Hr. assert (counted s h) as Hc.
  { change (counted (s, h).1 (s, h).2). eapply (rtc_invariant (λ c, counted c.1 c.2) fstep (files0 fs, [])); [apply fstep_counted|apply files0_counted|exact Hr]. }
  split_and!.
  - intros f Hf. by apply (ct_ref _ _ Hc), (fil_lookup _ _ _ Hc).
  - intros Hm. destruct (filealloc_run s h Hc Hm) as [(f & Hrun & Hn & _)|?]; eauto.
  - intros f Hin Hm. destruct (filedup_run s h f Hc Hin Hm) as [Hrun _]. eauto.
  - intros f Hin. apply list_elem_of_split in Hin as (h1 & h2 & ->). destruct (fileclose_ref_run s h1 h2 f Hc) as [Hrun _].
    assert (holds f (h1 ++ f :: h2) = S (holds f (h1 ++ h2))) as -> by (rewrite !holds_app, holds_cons, decide_True by done; lia).
    eexists _, _. split; [exact Hrun|]. case_decide as Hd; [apply holds_pos in Hd|rewrite holds_pos in Hd]; split; try done.
    + split; [intros; lia|done].
    + split; [done|intros; lia].
    + by intros ? [= <-].
Qed.

Definition blank_fs : fsst unit := mkfsst (mklogsys log0 (mkbcache false [] ∅)) false [] (mksuperblock 0 0 0 0 0 0 0 0) tt.
Lemma file_refcounts_witness : let s := upd_file 0 (set_f_ref 2) (upd_file 0 (set_f_ref 1) (files0 blank_fs)) in
  rtc fstep (files0 blank_fs, []) (s, [0%nat; 0%nat]) ∧ f_ref (fil 0 s) = Z.of_nat (holds 0 [0%nat; 0%nat]).
Proof.
  intros s. assert (rtc fstep (files0 blank_fs, []) (s, [0%nat; 0%nat])) as Hr.
  { eapply rtc_l; [by apply (fs_alloc _ [] 0%nat (upd_file 0 (set_f_ref 1) (files0 blank_fs)) [])|].
    eapply rtc_l; [|apply rtc_refl]. apply (fs_dup _ [0%nat] 0%nat _ []); [done|left|reflexivity]. }
  split; [exact Hr|]. apply (file_refcounts blank_fs s [0%nat; 0%nat] Hr). unfold NFILE. lia.
Defined.

(** ** The life of a pipe *)

Section pipe_life.
Context (kend root pid : Z).
#[local] Instance life_user : UserMem kmem := vm_user root.
#[local] Instance life_pages : PageAlloc kmem := vm_pages kend.

Lemma pipeclose_run pi (w : bool) p (u : kmem) : pi_lock p = false →
  let p' := if w then set_writeopen 0 p else set_readopen 0 p in
  ∃ t, pipeclose pi w (mkpst p u) = Done ((readopen p' =? 0) && (writeopen p' =? 0)) (mkpst p' u) t.
Proof.
  intros Hl p'. subst p'. destruct p as [lk d nr nw ro wo]; simpl in Hl; subst lk. unfold pipeclose. rewrite bind_lock by done.
  destruct w; mrun; (rewrite (bind_unlock (S:=pst kmem)) by done); eexists; reflexivity.
Qed.

(** What is true of the files, the pipes and the free pages. *)
Record pinv3 (s : filest kmem) (h : list nat) (l : list Z) : Prop := {
  p3_count : counted s h;
  p3_free : kinv kend (um (ffs s)) l;
  p3_pipes : ∀ pi, pi ∈ l → pipes s !! pi = None
}.

(** [s] with another [ftable], other pipes and other memory. *)
Definition moved (s : filest kmem) (fs : list file) (ps : gmap Z pipe) (m : kmem) : filest kmem :=
  mkfilest (ft_lock s) fs ps (set_um m (ffs s)).

Lemma fpages_done {A} (m : M event kmem A) s a k t : m (um (ffs s)) = Done a k t →
  fpages m s = Done a (moved s (files s) (pipes s) k) t.
Proof. intros Hm. unfold fpages, ffs_, fum, lift. by rewrite Hm. Qed.

Lemma fileclose_none s h1 h2 f : counted s (h1 ++ f :: h2) → f ∉ h1 ++ h2 → f_type (fil f s) = FD_NONE →
  fileclose pid f s = Done tt (dropped f s) [] ∧ counted (dropped f s) (h1 ++ h2).
Proof.
  intros Hc Hn Ht. destruct (fileclose_ref_run s h1 h2 f Hc) as [Hrun Hc']. split; [|done].
  unfold fileclose. rewrite (bind_done _ _ _ _ _ Hrun), decide_False by done. simpl. by rewrite Ht.
Qed.

(** Closing the last reference to one end of a pipe: the other end stays, or
    the page is freed. *)
Lemma fileclose_pipe s h1 h2 f pi p l : counted s (h1 ++ f :: h2) → f ∉ h1 ++ h2 → f_type (fil f s) = FD_PIPE → f_pipe (fil f s) = pi →
  pipes s !! pi = Some p → pi_lock p = false → kinv kend (um (ffs s)) l → page_ok kend pi → pi ∉ l →
  let p' := if negb (f_writable (fil f s) =? 0) then set_writeopen 0 p else set_readopen 0 p in
  ∃ s' t, fileclose pid f s = Done tt s' t ∧ counted s' (h1 ++ h2) ∧ files s' = files (dropped f s) ∧
    if (readopen p' =? 0) && (writeopen p' =? 0)
    then pipes s' = delete pi (pipes s) ∧ kinv kend (um (ffs s')) (pi :: l)
    else pipes s' = <[pi := p']> (pipes s) ∧ kinv kend (um (ffs s')) l.
Proof.
  intros Hc Hn Ht Hpi Hp Hlk Hk Hpage Hnl p'. destruct (fileclose_ref_run s h1 h2 f Hc) as [Hrun Hc'].
  unfold fileclose. rewrite (bind_done _ _ _ _ _ Hrun), decide_False by done. simpl. rewrite Ht, Hpi. unfold pipeclose_free.
  destruct (pipeclose_run pi (negb (f_writable (fil f s) =? 0)) p (um (ffs s)) Hlk) as [t Hclose]. fold p' in Hclose.
  assert (with_pipe pi (pipeclose pi (negb (f_writable (fil f s) =? 0))) (dropped f s) =
    Done ((readopen p' =? 0) && (writeopen p' =? 0)) (moved (dropped f s) (files (dropped f s)) (<[pi := p']> (pipes s)) (um (ffs s))) t) as Hw.
  { unfold with_pipe, lift. simpl. rewrite lookup_total_alt, Hp. simpl. by rewrite Hclose. }
  rewrite (bind_run _ _ _ _ _ _ Hw). destruct ((readopen p' =? 0) && (writeopen p' =? 0)).
  - rewrite bind_modify. destruct (kfree_run (E:=event) kend _ pi l Hk Hpage Hnl) as [Hf Hk'].
    set (s1 := set_pipes _ _). assert (um (ffs s1) = um (ffs s)) as Hum by done.
    change (u_kfree pi) with (kfree (E:=event) kend pi). rewrite (fpages_done _ s1 tt _ [] (eq_trans (f_equal _ Hum) Hf)).
    eexists _, _. split; [reflexivity|]. split_and!; [by destruct Hc'; split|done| |done].
    simpl. by rewrite delete_insert_eq.
  - eexists _, _. split; [reflexivity|]. split_and!; [by destruct Hc'; split|done|done|done].
Qed.

Definition pipe_file (pi r w : Z) (x : file) : file := set_f_pipe pi (set_f_mode r w (set_f_type FD_PIPE x)).

(** The state of a new pipe with the files [f0] and [f1]. *)
Record new_pipe (s s' : filest kmem) (h : list nat) (f0 f1 : nat) (pi : Z) (l : list Z) : Prop := {
  np_ne : f0 ≠ f1;
  np_new : f0 ∉ h ∧ f1 ∉ h;
  np_count : counted s' (f1 :: f0 :: h);
  np_free : kinv kend (um (ffs s')) l;
  np_pipes : pipes s' = <[pi := pipe_init (replicate (Z.to_nat PIPESIZE) 5)]> (pipes s);
  np_read : ∃ x, fil f0 s' = pipe_file pi 1 0 x;
  np_write : ∃ x, fil f1 s' = pipe_file pi 0 1 x
}.

Lemma counted_moved s h fs ps m : counted s h → fs = files s → counted (moved s fs ps m) h.
Proof. intros [] ->. by split. Qed.

Lemma fil_upd (s : filest kmem) h f g : counted s h → (f < NFILE)%nat → fil f (upd_file f g s) = g (fil f s).
Proof.
  intros Hc Hf. unfold fil at 1. simpl. apply list_lookup_total_correct. rewrite list_lookup_alter_eq. by rewrite (fil_lookup s h f).
Qed.
Lemma fil_upd_ne (s : filest kmem) f f' g : f ≠ f' → fil f' (upd_file f g s) = fil f' s.
Proof. intros Hne. unfold fil. simpl. rewrite !list_lookup_total_alt. by rewrite list_lookup_alter_ne. Qed.

Lemma pipealloc_run s h l : pinv3 s h l → Z.of_nat (length h) + 2 ≤ INT_MAX →
  (∃ f0 f1 pi l' s', l = pi :: l' ∧ pipealloc pid s = Done (Some (f0, f1)) s' [] ∧ new_pipe s s' h f0 f1 pi l') ∨
  (∃ s', pipealloc pid s = Done None s' [] ∧ counted s' h ∧ pipes s' = pipes s ∧ kinv kend (um (ffs s')) l ∧
     (l = [] ∨ ∃ f, ∀ k, (k < NFILE)%nat → k ≠ f → k ∈ h)).
Proof.
  intros [Hc Hk Hp] Hm. unfold pipealloc.
  destruct (filealloc_run s h Hc) as [(f0 & Hrun0 & Hn0 & Hf0 & Hc0)|[Hrun0 Hall]]; [lia| |].
  2:{ right. rewrite (bind_done _ _ _ _ _ Hrun0). exists s. split_and!; try done. right. exists 0%nat. auto. }
  rewrite (bind_done _ _ _ _ _ Hrun0). set (s0 := upd_file f0 (set_f_ref 1) s) in *.
  assert (f_type (fil f0 s0) = FD_NONE) as Ht0.
  { subst s0. rewrite (fil_upd s h) by done. simpl. by apply (ct_none _ _ Hc f0 _ (fil_lookup _ _ _ Hc Hf0)). }
  destruct (filealloc_run s0 (f0 :: h) Hc0) as [(f1 & Hrun1 & Hn1 & Hf1 & Hc1)|[Hrun1 Hall]]; [cbn [length]; lia| |].
  2:{ right. rewrite (bind_done _ _ _ _ _ Hrun1). destruct (fileclose_none s0 [] h f0 Hc0 Hn0 Ht0) as [Hcl Hc'].
      rewrite (bind_done _ _ _ _ _ Hcl). eexists. split; [done|]. split_and!; try done. right. exists f0. intros k Hlt Hne.
      specialize (Hall k Hlt). by apply elem_of_cons in Hall as [?|?]. }
  apply not_elem_of_cons in Hn1 as [Hne Hn1]. rewrite (bind_done _ _ _ _ _ Hrun1). set (s1 := upd_file f1 (set_f_ref 1) s0) in *.
  assert (f_type (fil f1 s1) = FD_NONE ∧ f_type (fil f0 s1) = FD_NONE) as [Ht1 Ht0'].
  { subst s1. rewrite (fil_upd s0 (f0 :: h)), fil_upd_ne by done. split; [|done]. simpl. subst s0. rewrite fil_upd_ne by done.
    by apply (ct_none _ _ Hc f1 _ (fil_lookup _ _ _ Hc Hf1)). }
  assert (um (ffs s1) = um (ffs s)) as Hum by done. change u_kalloc with (kalloc (E:=event)).
  destruct l as [|pi l].
  - right. rewrite (bind_done _ _ _ _ _ (fpages_done _ s1 0 _ [] (eq_trans (f_equal _ Hum) (kalloc_nil (E:=event) kend _ Hk)))). change (0 =? 0) with true. cbv iota.
    assert (moved s1 (files s1) (pipes s1) (um (ffs s)) = s1) as -> by (destruct s as [? ? ? []]; done).
    destruct (fileclose_none s1 [f1] h f0 Hc1) as [Hcl0 Hc']; [by apply not_elem_of_cons|done|]. rewrite (bind_done _ _ _ _ _ Hcl0).
    destruct (fileclose_none (dropped f0 s1) [] h f1) as [Hcl1 Hc'']; [done|done|by unfold dropped; rewrite fil_upd_ne|].
    rewrite (bind_done _ _ _ _ _ Hcl1). eexists. split; [done|]. split_and!; try done. by left.
  - left. destruct (kalloc_cons (E:=event) kend _ pi l Hk) as [Hka Hk']. exists f0, f1, pi, l.
    rewrite (bind_done _ _ _ _ _ (fpages_done _ s1 pi _ [] (eq_trans (f_equal _ Hum) Hka))).
    destruct (page_ok_u64 kend pi) as [_ Hpi0]; [apply Hk|apply (Forall_cons_1 _ _ _ (ki_pages _ _ _ Hk))|].
    rewrite (proj2 (Z.eqb_neq pi 0) Hpi0). mrun. eexists. split; [done|]. split; [done|].
    set (s2 := moved s1 _ _ _). set (s3 := set_pipes _ s2).
    assert (counted s3 (f1 :: f0 :: h)) as Hc3 by (by apply (counted_moved s1)).
    split; try done.
    + destruct Hc3 as [A1 A2 A3 A4 A5 A6].
      assert (counted s3 (f1 :: f0 :: h)) as Hc3 by (by split).
      eapply fstep_counted with (c := (upd_file f0 (pipe_file pi 1 0) s3, f1 :: f0 :: h)) (c' := (_, f1 :: f0 :: h)).
      * eapply fstep_counted with (c := (s3, f1 :: f0 :: h)) (c' := (_, f1 :: f0 :: h)); [done|]. apply fs_fields; [right; left|done].
      * apply fs_fields; [left|done].
    + exists (fil f0 s3). rewrite fil_upd_ne by done. by rewrite (fil_upd s3 (f1 :: f0 :: h)).
    + exists (fil f1 s3). rewrite (fil_upd _ (f1 :: f0 :: h)); [by rewrite fil_upd_ne| |done].
      eapply fstep_counted with (c := (s3, f1 :: f0 :: h)) (c' := (_, f1 :: f0 :: h)); [done|]. apply fs_fields; [right; left|done].
Qed.

(** Closing one end after the other, [a] being the end that [wa] says. *)
Lemma close_both s s1 h f0 f1 pi l a b : pinv3 s h (pi :: l) → new_pipe s s1 h f0 f1 pi l →
  (a = f0 ∧ b = f1 ∨ a = f1 ∧ b = f0) →
  ∃ sa ta sb tb, fileclose pid a s1 = Done tt sa ta ∧ fileclose pid b sa = Done tt sb tb ∧
    pinv3 sb h (pi :: l) ∧ pipes sb = pipes s.
Proof.
  intros [Hc Hk Hp] [Hne [Hn0 Hn1] Hc1 Hk1 Hps [x0 Hx0] [x1 Hx1]] Hab.
  pose proof (ki_pages _ _ _ Hk) as Hpg. apply Forall_cons in Hpg as [Hpage _].
  pose proof (ki_nodup _ _ _ Hk) as Hnd. apply NoDup_cons in Hnd as [Hnl _].
  assert (∃ h1 h2, f1 :: f0 :: h = h1 ++ a :: h2 ∧ h1 ++ h2 = b :: h ∧ a ∉ h1 ++ h2 ∧ b ∉ h ∧ a ≠ b) as (h1 & h2 & Hh & Hh' & Hna & Hnb & Hneab).
  { destruct Hab as [[-> ->]|[-> ->]]; [exists [f1], h|exists [], (f0 :: h)]; split_and!; try done; apply not_elem_of_cons; split; congruence. }
  assert (∃ xa ra wa xb, fil a s1 = pipe_file pi ra wa xa ∧ fil b s1 = pipe_file pi (1 - ra) (1 - wa) xb ∧ ra = 1 - wa ∧ (wa = 0 ∨ wa = 1)) as (xa & ra & wa & xb & Hxa & Hxb & -> & Hwa).
  { destruct Hab as [[-> ->]|[-> ->]]; [exists x0, 1, 0, x1|exists x1, 0, 1, x0]; auto. }
  set (p := pipe_init _) in Hps. rewrite Hh in Hc1.
  destruct (fileclose_pipe s1 h1 h2 a pi p l) as (sa & ta & Ha & Hca & Hfa & Hra); try done; [by rewrite Hxa|by rewrite Hxa|by rewrite Hps, lookup_insert_eq|].
  rewrite Hxa in Hra. cbn [pipe_file f_writable set_f_pipe set_f_mode] in Hra. rewrite Hh' in Hca.
  exists sa, ta.
  assert (fil b sa = fil b s1) as Hba by (unfold fil; rewrite Hfa; change (files (dropped a s1) !!! b) with (fil b (dropped a s1)); unfold dropped; by rewrite fil_upd_ne).
  set (pa := if negb (wa =? 0) then set_writeopen 0 p else set_readopen 0 p) in *.
  assert ((readopen pa =? 0) && (writeopen pa =? 0) = false) as Hopen by (destruct Hwa as [-> | ->]; done). rewrite Hopen in Hra.
  destruct Hra as [Hpa Hka].
  destruct (fileclose_pipe sa [] h b pi pa l) as (sb & tb & Hb & Hcb & _ & Hrb); try done.
  - by rewrite Hba, Hxb.
  - by rewrite Hba, Hxb.
  - by rewrite Hpa, lookup_insert_eq.
  - by destruct Hwa as [-> | ->].
  - exists sb, tb. split; [done|]. split; [done|]. rewrite Hba, Hxb in Hrb. cbn [pipe_file f_writable set_f_pipe set_f_mode] in Hrb.
    assert (pipes sb = pipes s ∧ kinv kend (um (ffs sb)) (pi :: l)) as [Hpb Hkb].
    { assert (pipes s !! pi = None) as Hnone by (apply Hp; left).
      destruct Hwa as [-> | ->]; cbn in Hrb; destruct Hrb as [-> ?]; (split; [|done]); rewrite Hpa, delete_insert_eq, Hps, delete_insert_eq; by apply delete_id. }
    split; [|done]. split; [done|done|]. by rewrite Hpb.
Qed.
End pipe_life.

(** C21. Pipes do not leak: [pipealloc] returns two distinct unused files for the
    two ends of an empty pipe in a page of its own, or fails, when there are not
    two unused files or no page, and leaves everything as it was; and when both
    files have been closed, in either order, each end has been closed once, the
    page is free again and the files are unused. *)
Theorem pipe_lifecycle kend pid s h l : pinv3 kend s h l → Z.of_nat (length h) + 2 ≤ INT_MAX →
  ∃ r s1, @pipealloc kmem (vm_pages kend) pid s = Done r s1 [] ∧
    match r with
    | Some (f0, f1) => ∃ pi l', l = pi :: l' ∧ new_pipe kend s s1 h f0 f1 pi l' ∧
        ∀ a b, a = f0 ∧ b = f1 ∨ a = f1 ∧ b = f0 →
          ∃ sa ta sb tb, @fileclose kmem (vm_pages kend) pid a s1 = Done tt sa ta ∧ @fileclose kmem (vm_pages kend) pid b sa = Done tt sb tb ∧
            pinv3 kend sb h l ∧ pipes sb = pipes s
    | None => pinv3 kend s1 h l ∧ pipes s1 = pipes s ∧ (l = [] ∨ ∃ f, ∀ k, (k < NFILE)%nat → k ≠ f → k ∈ h)
    end.
Proof.
  intros Hi Hm. destruct (pipealloc_run kend pid s h l Hi Hm) as [(f0 & f1 & pi & l' & s' & -> & Hrun & Hnp)|(s' & Hrun & Hc & Hps & Hk & Hwhy)].
  - exists (Some (f0, f1)), s'. split; [done|]. exists pi, l'. split; [done|]. split; [done|]. intros a b Hab. by eapply close_both.
  - exists None, s'. split; [done|]. split_and!; try done. split; [done|done|]. rewrite Hps. apply Hi.
Qed.

(** All pages free and all files unused. *)
Lemma pipe_lifecycle_witness : ∃ s l f0 f1 s1, pinv3 kend0 s [] l ∧ @pipealloc kmem (vm_pages kend0) 1 s = Done (Some (f0, f1)) s1 [] ∧ f0 ≠ f1.
Proof.
  destruct (kinit_run (E:=unit) kend0 (mkkmem false 0 ∅) kend0_ok eq_refl) as (m & _ & Hk).
  set (s := files0 (set_um m (mkfsst (mklogsys log0 (mkbcache false [] ∅)) false [] (mksuperblock 0 0 0 0 0 0 0 0) m))).
  assert (pinv3 kend0 s [] (reverse (all_pages kend0))) as Hi by (split; [apply files0_counted|done|done]).
  destruct (pipe_lifecycle kend0 1 s [] (reverse (all_pages kend0)) Hi) as (r & s1 & Hrun & Hr); [done|].
  destruct r as [[f0 f1]|].
  - destruct Hr as (pi & l' & _ & Hnp & _). exists s, (reverse (all_pages kend0)), f0, f1, s1. split_and!; [done|done|apply Hnp].
  - exfalso. destruct Hr as (_ & _ & [Hl|[f Hf]]).
    + assert (all_pages kend0 = []) as Hnil by (rewrite <- (reverse_involutive (all_pages kend0)), Hl; done).
      assert (kend0 ∈ all_pages kend0) as Hin by (apply elem_of_all_pages; [exact kend0_ok|]; vm_compute; intuition congruence).
      rewrite Hnil in Hin. by apply not_elem_of_nil in Hin.
    + destruct (decide (f = 0%nat)) as [->|Hne]; [specialize (Hf 1%nat)|specialize (Hf 0%nat)]; apply not_elem_of_nil in Hf; unfold NFILE; (done || lia).
Defined.
