(* ===== verification/ForkMem.v ===== *)
(** What [fork] does to memory: the child's address space, the parent's, and
    the free pages. *)
From Stdlib Require Import ZArith Lia.
From stdpp Require Import base list gmap strings.
From S2P Require Import Prelude Machine Mem Str Kalloc Vm Pagetable Uvm Uvmfree Copy.

Section forkmem.
Context (kend : Z) (kend_pos : 0 < kend).

Lemma kinv_frame s s' l : kinv kend s l → km_lock s' = km_lock s → freelist s' = freelist s →
  (∀ p x, p ∈ l → in_page p x → rd (pm s') x = rd (pm s) x) → kinv kend s' l.
Proof.
  intros [H1 H2 H3 H4 H5] Hl Hf Hx. split; try done; [by rewrite Hl|]. rewrite Hf. eapply chain_ext; [|done].
  intros p x Hp Hin. symmetry. apply (Hx p); [done|]. unfold in_page, PGSIZE. lia.
Qed.

(** An address space survives what happens in pages that are not its own. *)
Lemma pspace_other s nodes root l ds tr tf s' l' W : pspace kend s nodes root l ds tr tf → kinv kend s' l' →
  Forall (page_ok kend) W → (∀ p, p ∈ node_pages nodes ++ ds.*1 → p ∉ W) → (∀ p, p ∈ l' → p ∈ W) →
  same_outside W (pm s) (pm s') →
  pspace kend s' nodes root l' ds tr tf ∧ (∀ d x, d ∈ ds.*1 → in_page d x → rd (pm s') x = rd (pm s) x).
Proof.
  intros [Hu H1 H2 H3 H4] Hk HW Hd Hl Hx.
  destruct (uspace_other kend s nodes root l ds s' l' W Hu Hk HW Hd Hl Hx) as (Hu' & Hleaf & Hb). split; [|done].
  split; try done; [by rewrite Hleaf..|]. intros va Hva. rewrite Hleaf. by apply H3.
Qed.

(** The pages of an address space are not free. *)
Lemma pspace_sep s nodes root l ds tr tf p : pspace kend s nodes root l ds tr tf → p ∈ node_pages nodes ++ ds.*1 → p ∉ l.
Proof.
  intros [Hu _ _ _ _] [[k Hk]%elem_of_node_pages|Hin]%elem_of_app.
  - by eapply (vm_sep _ _ _ _ _ (us_vm _ _ _ _ _ _ Hu)).
  - by destruct (mapped_out _ _ _ _ _ _ _ (us_map _ _ _ _ _ _ Hu) Hin) as (_ & ? & _).
Qed.
Lemma pspace_kinv s nodes root l ds tr tf : pspace kend s nodes root l ds tr tf → kinv kend s l.
Proof. intros H. apply H. Qed.

(** The state [fork] starts from: the parent's address space, with [l] free, and
    a new empty one made of pages of [l]. *)
Record forking (m0 m1 : kmem) (l : list Z) (onodes : nodemap) (oroot : Z) (ods : list upage) (otf : Z)
    (nodes : nodemap) (root : Z) (l1 : list Z) (tf tr : Z) : Prop := {
  fk_parent : pspace kend m0 onodes oroot l ods tr otf;
  fk_child : pspace kend m1 nodes root l1 [] tr tf;
  fk_pages : tf :: l1 ++ node_pages nodes ≡ₚ l;
  fk_mem : same_outside l (pm m0) (pm m1)
}.

Section one.
Context (m0 m1 : kmem) (l : list Z) (onodes : nodemap) (oroot : Z) (ods : list upage) (otf : Z).
Context (nodes : nodemap) (root : Z) (l1 : list Z) (tf tr : Z).
Context (Hf : forking m0 m1 l onodes oroot ods otf nodes root l1 tf tr).

Lemma fk_sep p : p ∈ node_pages onodes ++ ods.*1 → p ∉ l.
Proof. apply (pspace_sep m0 onodes oroot l ods tr otf), Hf. Qed.
Lemma fk_free : kinv kend m0 l.
Proof. eapply pspace_kinv, Hf. Qed.
Lemma fk_tf : page_ok kend tf ∧ tf ∉ l1 ++ node_pages nodes ∧ Forall (page_ok kend) l.
Proof.
  pose proof fk_free as Hk. split_and!.
  - pose proof (ki_pages _ _ _ Hk) as Hp. rewrite <- (fk_pages _ _ _ _ _ _ _ _ _ _ _ _ Hf) in Hp. by apply Forall_cons in Hp as [? _].
  - pose proof (ki_nodup _ _ _ Hk) as Hn. rewrite <- (fk_pages _ _ _ _ _ _ _ _ _ _ _ _ Hf) in Hn. by apply NoDup_cons in Hn as [? _].
  - apply Hk.
Qed.

(** The parent at a later state in which the free pages are among [l]. *)
Lemma fk_parent_later m l' : kinv kend m l' → (∀ p, p ∈ l' → p ∈ l) → same_outside l (pm m0) (pm m) →
  pspace kend m onodes oroot l' ods tr otf ∧ (∀ d x, d ∈ ods.*1 → in_page d x → rd (pm m) x = rd (pm m0) x).
Proof.
  intros Hk Hl Hx. eapply pspace_other; [apply Hf|done|apply fk_tf|apply fk_sep|done|done].
Qed.

Lemma fork_copy sz : 0 ≤ sz ≤ TRAPFRAME → length ods = npages sz →
  ∃ r m2 nodes' l2 new, uvmcopy (E:=event) kend oroot root sz m1 = Done r m2 [] ∧
    same_outside l (pm m0) (pm m2) ∧ pspace kend m2 nodes' root l2 new tr tf ∧
    tf :: l2 ++ node_pages nodes' ++ new.*1 ≡ₚ l ∧
    (r = 0 ∧ length new = length ods ∧ copies (pm m2) ods new ∨ r = -1 ∧ new = [] ∧ (length l1 < 3 * length ods)%nat).
Proof.
  intros Hsz Hlen. destruct Hf as [Hpar [Hcu Htr Htf Hno Hpg] Hpages Hmem].
  assert (∀ p, p ∈ l1 ++ node_pages nodes → p ∈ l) as Hsub by (intros p Hp; rewrite <- Hpages; by right).
  destruct (fk_parent_later m1 l1) as [Hpar1 _]; [apply Hcu|intros p Hp; apply Hsub, elem_of_app; by left|done|].
  destruct (uvmcopy_loop_run (E:=event) kend kend_pos (length ods) (Z.to_nat ((sz + PGSIZE - 1) / PGSIZE))
    m1 nodes root l1 [] onodes oroot ods sz (l1 ++ node_pages nodes))
    as (r & m2 & nodes' & l2 & new & Hr & Hu' & Ho' & Hp & Hx & Hleaf & Hres); try done.
  - apply Hpar1.
  - by rewrite app_nil_r.
  - intros p Hp Hin. eapply fk_sep; [exact Hp|]. by apply Hsub.
  - rewrite Hlen. unfold npages. apply Z2Nat.inj_le; unfold PGSIZE; mach_lia.
  - exists r, m2, nodes', l2, new. split_and!.
    + exact Hr.
    + eapply same_outside_trans; [exact Hmem|]. eapply same_outside_mono; [|exact Hx]. done.
    + pose proof TRAMPOLINE_eq. pose proof TRAPFRAME_eq. pose proof MAXVA_eq. split; try done.
      * by rewrite Hleaf by lia.
      * by rewrite Hleaf by lia.
      * intros va Hva. rewrite Hleaf by lia. by apply Hno.
    + by rewrite Hp, Hpages.
    + destruct Hres as [?|(? & ? & ?)]; [by left|by right].
Qed.

(** Giving the child's pages back: [freeproc] frees the trapframe, then the page
    table. *)
Lemma fork_undo m2 nodes' l2 : pspace kend m2 nodes' root l2 [] tr tf → tf :: l2 ++ node_pages nodes' ≡ₚ l →
  same_outside l (pm m0) (pm m2) →
  ∃ m3 m4 l4, kfree (E:=event) kend tf m2 = Done tt m3 [] ∧ proc_freepagetable (E:=event) kend root 0 m3 = Done tt m4 [] ∧
    l4 ≡ₚ l ∧ same_outside l (pm m0) (pm m4) ∧ pspace kend m4 onodes oroot l4 ods tr otf ∧
    (∀ d x, d ∈ ods.*1 → in_page d x → rd (pm m4) x = rd (pm m0) x).
Proof.
  intros Hc Hp Hx. destruct fk_tf as (Htfp & _ & HW).
  pose proof (ki_nodup _ _ _ fk_free) as Hnd. rewrite <- Hp in Hnd. apply NoDup_cons in Hnd as [Htfn Hnd].
  assert (tf ∉ l2) as Htf2 by (intros ?; apply Htfn, elem_of_app; by left).
  destruct (kfree_run (E:=event) kend m2 tf l2 (pspace_kinv _ _ _ _ _ _ _ Hc) Htfp Htf2) as [Hkf Hk3]. set (m3 := mkkmem false tf _) in *.
  assert (same_outside [tf] (pm m2) (pm m3)) as Hx3 by (intros x H; apply kfree_mem, H; left).
  assert (Forall (page_ok kend) (tf :: l2)) as HW3.
  { rewrite <- Hp in HW. apply Forall_cons in HW as [? HW]. apply Forall_app in HW as [? _]. by constructor. }
  destruct (pspace_other m2 nodes' root l2 [] tr tf m3 (tf :: l2) (tf :: l2) Hc Hk3 HW3) as [Hc3 _].
  { intros p Hp'. rewrite app_nil_r in Hp'. apply NoDup_app in Hnd as (_ & Hd & _). apply not_elem_of_cons. split.
    - intros ->. apply Htfn, elem_of_app. by right.
    - intros Hin. by apply (Hd p Hin). }
  { done. }
  { eapply same_outside_mono; [|exact Hx3]. intros p ->%list_elem_of_singleton. left. }
  destruct (proc_freepagetable_run (E:=event) kend kend_pos m3 nodes' root (tf :: l2) [] 0 tr tf Hc3) as (m4 & l4 & Hfp & Hk4 & Hl4 & Hx4);
    [rewrite TRAPFRAME_eq; lia|done|].
  exists m3, m4, l4. assert (l4 ≡ₚ l) as Hl4' by (rewrite Hl4, <- Hp, app_nil_r; done).
  assert (same_outside l (pm m0) (pm m4)) as Hx04.
  { eapply same_outside_trans; [exact Hx|]. eapply same_outside_trans.
    - eapply same_outside_mono; [|exact Hx3]. intros p ->%list_elem_of_singleton. rewrite <- Hp. left.
    - eapply same_outside_mono; [|exact Hx4]. intros p Hin. rewrite app_nil_r in Hin. rewrite <- Hp. right. apply elem_of_app. by right. }
  destruct (fk_parent_later m4 l4 Hk4) as [Hpar Hown]; [intros p; by rewrite Hl4'|exact Hx04|].
  split; [exact Hkf|]. split; [exact Hfp|]. split; [exact Hl4'|]. split; [exact Hx04|]. split; [exact Hpar|exact Hown].
Qed.

(** Copying the parent's trapframe: only the child's trapframe page changes. *)
Definition tf_copied (m : kmem) : kmem :=
  upd_pm (store64 (tf + 112) 0) (upd_pm (λ m, write_bytes tf (bytes_at m otf 288) m) m).

Lemma tf_copied_frame m x : ¬ in_page tf x → rd (pm (tf_copied m)) x = rd (pm m) x.
Proof.
  intros Hx. unfold tf_copied. cbn [pm upd_pm set_pm]. unfold in_page, PGSIZE in Hx. rewrite rd_store64_ne by lia. rewrite rd_write_out; [done|].
  rewrite bytes_at_length. lia.
Qed.
Lemma tf_copied_bytes m (o : Z) : 0 ≤ o < 288 →
  rd (pm (tf_copied m)) (tf + o) = if decide (112 ≤ o < 120) then 0 else rd (pm m) (otf + o).
Proof.
  intros Ho. unfold tf_copied. cbn [pm upd_pm set_pm]. case_decide as Hd.
  - unfold store64. rewrite rd_write. rewrite le_bytes_length. rewrite decide_True by lia.
    replace (tf + o - (tf + 112)) with (o - 112) by lia.
    assert (o = 112 ∨ o = 113 ∨ o = 114 ∨ o = 115 ∨ o = 116 ∨ o = 117 ∨ o = 118 ∨ o = 119) as Hcase by lia.
    by destruct Hcase as [-> |[-> |[-> |[-> |[-> |[-> |[-> | ->]]]]]]].
  - rewrite rd_store64_ne by lia.
    replace (tf + o) with (tf + Z.of_nat (Z.to_nat o)) by lia. apply rd_write_in.
    rewrite bytes_at_lookup by lia. do 2 f_equal. lia.
Qed.

Lemma fork_tf m2 nodes' l2 new : page_ok kend otf → otf ∉ l → pspace kend m2 nodes' root l2 new tr tf →
  tf :: l2 ++ node_pages nodes' ++ new.*1 ≡ₚ l → same_outside l (pm m0) (pm m2) → copies (pm m2) ods new →
  let m3 := tf_copied m2 in
  same_outside l (pm m0) (pm m3) ∧ pspace kend m3 nodes' root l2 new tr tf ∧ pspace kend m3 onodes oroot l2 ods tr otf ∧
  copies (pm m3) ods new ∧ (∀ d x, d ∈ ods.*1 → in_page d x → rd (pm m3) x = rd (pm m0) x) ∧
  (∀ o, 0 ≤ o < 288 → rd (pm m3) (tf + o) = if decide (112 ≤ o < 120) then 0 else rd (pm m0) (otf + o)).
Proof.
  intros Hotf Hotfl Hc Hp Hx Hcp m3. destruct fk_tf as (Htfp & _ & HW).
  pose proof (ki_nodup _ _ _ fk_free) as Hnd. rewrite <- Hp in Hnd. apply NoDup_cons in Hnd as [Htfn Hnd].
  assert (tf ∈ l) as Htfl by (rewrite <- Hp; left).
  assert (∀ p x, page_ok kend p → p ≠ tf → in_page p x → rd (pm m3) x = rd (pm m2) x) as Hother.
  { intros p x Hpo Hne Hin. apply tf_copied_frame. intros Hin'. apply Hne. by apply (page_sep kend p tf x). }
  assert (kinv kend m3 l2) as Hk3.
  { eapply kinv_frame; [by eapply pspace_kinv|done|done|]. intros p x Hpl. apply Hother.
    - rewrite Forall_forall in HW. apply HW. rewrite <- Hp. right. apply elem_of_app. by left.
    - intros ->. apply Htfn, elem_of_app. by left. }
  assert (same_outside l (pm m0) (pm m3)) as Hx3.
  { eapply same_outside_trans; [exact Hx|]. intros x Hn. apply tf_copied_frame. by apply Hn. }
  destruct (fk_parent_later m3 l2) as [Hpar Hown]; [done|intros p Hp'; rewrite <- Hp; right; apply elem_of_app; by left|done|].
  assert (Forall (page_ok kend) (tf :: l2)) as HW'.
  { rewrite Forall_forall in HW. apply Forall_forall. intros p Hin. apply HW. rewrite <- Hp, app_comm_cons. apply elem_of_app. by left. }
  destruct (pspace_other m2 nodes' root l2 new tr tf m3 l2 (tf :: l2) Hc Hk3 HW') as [Hc3 Hnew].
  { intros p Hin. apply not_elem_of_cons. split.
    - intros ->. apply Htfn, elem_of_app. by right.
    - apply NoDup_app in Hnd as (_ & Hd & _). intros Hl2. by apply (Hd p Hl2). }
  { intros p Hin. by right. }
  { intros x Hn. apply tf_copied_frame, Hn. left. }
  split; [done|]. split; [done|]. split; [done|]. split; [|split; [done|]].
  - eapply copies_ext; [done|]. intros p x [Hin|Hin]%elem_of_app Hinp; [|by apply (Hnew p)].
    rewrite (Hown p x Hin Hinp). symmetry. destruct (fk_parent_later m2 l2) as [_ Hown2]; [by eapply pspace_kinv| |done|by apply (Hown2 p)].
    intros q Hq. rewrite <- Hp. right. apply elem_of_app. by left.
  - intros o Ho. unfold m3. rewrite tf_copied_bytes by done. case_decide; [done|]. apply Hx. intros p Hpl Hin.
    assert (p = otf) as ->; [|done]. rewrite Forall_forall in HW. apply (page_sep kend p otf (otf + o)); [by apply HW|done|done|].
    unfold in_page. split; [lia|]. unfold PGSIZE. lia.
Qed.
End one.
End forkmem.
