(* ===== verification/Life.v ===== *)
(** The life of processes ([allocproc], [freeproc], [userinit], [growproc],
    [fork], [exit] and [wait] of [proc.c]), on the process table together with
    the memory, the files and the file system below it. *)
From Stdlib Require Import ZArith Lia.
From stdpp Require Import base list gmap strings.
From S2P Require Import Prelude Machine Random Spinlock Proc Mem Str Kalloc Vm Sleeplock Bio Blk Log UserMem Fs Pipe File.

(** ** The kernel's state *)

Record sys := mksys { sp : pstate; sf : filest kmem }.
Definition set_sp (v : pstate) (s : sys) : sys := mksys v (sf s).
Definition set_sf (v : filest kmem) (s : sys) : sys := mksys (sp s) v.
Definition km (s : sys) : kmem := um (ffs (sf s)).
Definition set_km (v : kmem) (s : sys) : sys := set_sf (set_ffs (set_um v (ffs (sf s))) (sf s)) s.

(** What is observed: the lines of [procdump], disk writes, console output. *)
Inductive kev : Type := EvProc (e : pevent) | EvDev (e : event).

Abbreviation K := (M kev sys).

(** Run a routine of [proc.c] on the process table. *)
Definition on_procs {A} (m : P A) : K A := λ s,
  match m (sp s) with
  | Done a x t => Done a (set_sp x s) (EvProc <$> t)
  | Panic msg x t => Panic msg (set_sp x s) (EvProc <$> t)
  | Asleep c x t => Asleep c (set_sp x s) (EvProc <$> t)
  | Spin x t => Spin (set_sp x s) (EvProc <$> t)
  end.
Definition on_mem {A} (m : M event kmem A) : K A := λ s,
  match m (km s) with
  | Done a x t => Done a (set_km x s) (EvDev <$> t)
  | Panic msg x t => Panic msg (set_km x s) (EvDev <$> t)
  | Asleep c x t => Asleep c (set_km x s) (EvDev <$> t)
  | Spin x t => Spin (set_km x s) (EvDev <$> t)
  end.

Section life.
(** The running hart, the end of the kernel image, and the addresses of
    [trampoline.S] and [forkret]. *)
Context (me : nat) (kend trampoline forkret_pc : Z).

(** The [wakeup] calls a component below made act on the process table. *)
Fixpoint dispatch (t : list event) : K unit :=
  match t with
  | [] => ret tt
  | Wakeup c :: t' => on_procs (wakeup me c) ;; dispatch t'
  | e :: t' => emit (EvDev e) ;; dispatch t'
  end.
(** Run a routine of the files and the file system. *)
Definition on_files {A} (m : M event (filest kmem) A) : K A := λ s,
  match m (sf s) with
  | Done a x t => bind (dispatch t) (λ _, ret a) (set_sf x s)
  | Panic msg x t => Panic msg (set_sf x s) (EvDev <$> t)
  | Asleep c x t => Asleep c (set_sf x s) (EvDev <$> t)
  | Spin x t => Spin (set_sf x s) (EvDev <$> t)
  end.
Definition on_fs {A} (m : M event (fsst kmem) A) : K A := on_files (ffs_ m).

Definition pr (i : nat) : K proc := on_procs (gets (proc_at i)).
Definition upd (i : nat) (f : proc → proc) : K unit := on_procs (modify (upd_proc i f)).
Definition lock_p (i : nat) : K unit := on_procs (acquire_lk me (L_proc i)).
Definition unlock_p (i : nat) : K unit := on_procs (release_lk me (L_proc i)).

(** ** Allocation *)

Definition freeproc (i : nat) : K unit :=
  let! p := pr i in
  (if negb (p_trapframe p =? 0) then on_mem (kfree kend (p_trapframe p)) else ret tt) ;;
  upd i (set_p_trapframe 0) ;;
  (if negb (p_pagetable p =? 0) then on_mem (proc_freepagetable kend (p_pagetable p) (p_sz p)) else ret tt) ;;
  upd i (set_p_pagetable 0) ;;
  upd i (set_p_sz 0) ;;
  upd i (set_p_pid 0) ;;
  upd i (set_p_parent None) ;;
  upd i (λ p, set_p_name (<[0%nat := 0]> (p_name p)) p) ;;
  upd i (set_p_chan A_null) ;;
  upd i (set_p_killed 0) ;;
  upd i (set_p_xstate 0) ;;
  upd i (set_p_state UNUSED).

(** The search of [allocproc]; the lock of the process found is held. *)
Definition find_unused_proc : K (option nat) :=
  on_procs (for_find NPROC (λ i,
    acquire_lk me (L_proc i) ;;
    let! p := gets (proc_at i) in
    if bool_decide (p_state p = UNUSED) then ret (Some i)
    else release_lk me (L_proc i) ;; ret None)).

Definition allocproc : K (option nat) :=
  let! found := find_unused_proc in
  match found with
  | None => ret None
  | Some i =>
      let! pid := on_procs (allocpid me) in
      upd i (set_p_pid pid) ;;
      upd i (set_p_state USED) ;;
      upd i (set_p_tickets 10) ;;
      let! tf := on_mem kalloc in
      upd i (set_p_trapframe tf) ;;
      if tf =? 0 then freeproc i ;; unlock_p i ;; ret None else
      let! pt := on_mem (proc_pagetable kend trampoline tf) in
      upd i (set_p_pagetable pt) ;;
      if pt =? 0 then freeproc i ;; unlock_p i ;; ret None else
      upd i (λ p, set_p_context (mkcontext forkret_pc (u64 (p_kstack p + PGSIZE)) 0 0 0 0 0 0 0 0 0 0 0 0) p) ;;
      ret (Some i)
  end.

(** A null pointer dereferenced in the kernel. *)
Definition deref (p : option nat) : K nat :=
  match p with Some i => ret i | None => panic "kerneltrap" end.

(** [safestrcpy(dst, src, 16)] on the name fields. *)
Definition copy_name (src dst : list Z) : list Z :=
  bytes_at (safestrcpy 4096 8192 16 (write_bytes 4096 dst (write_bytes 8192 src ∅))) 4096 16.

Definition initcode : list Z :=
  [23; 5; 0; 0; 19; 5; 69; 2; 151; 5; 0; 0; 147; 133; 53; 2; 147; 8; 112; 0; 115; 0; 0; 0; 147; 8; 32; 0; 115; 0; 0; 0;
   239; 240; 159; 255; 47; 105; 110; 105; 116; 0; 0; 36; 0; 0; 0; 0; 0; 0; 0; 0].

(** The offsets of the fields of [struct trapframe]. *)
Definition TF_SIZE : nat := 288.
Definition TF_epc : Z := 24.
Definition TF_sp : Z := 48.
Definition TF_a0 : Z := 112.
Definition TF_a1 : Z := 120.
Definition store_tf (tf off v : Z) : K unit := on_mem (modify (upd_pm (store64 (tf + off) v))).

Definition userinit : K unit :=
  let! p := allocproc in
  on_procs (modify (set_initproc p)) ;;
  let! i := deref p in
  let! x := pr i in
  on_mem (uvmfirst (p_pagetable x) initcode) ;;
  upd i (set_p_sz PGSIZE) ;;
  store_tf (p_trapframe x) TF_epc 0 ;;
  store_tf (p_trapframe x) TF_sp PGSIZE ;;
  upd i (λ p, set_p_name (copy_name [105; 110; 105; 116; 99; 111; 100; 101; 0] (p_name p)) p) ;;
  let! cwd := on_fs (namei (H:=vm_user (p_pagetable x)) (p_pid x) 0 [SLASH]) in
  upd i (set_p_cwd cwd) ;;
  upd i (set_p_state RUNNABLE) ;;
  unlock_p i.

(** ** System calls *)

Definition mine : K nat := on_procs mypr.

Definition growproc (n : Z) : K Z :=
  let! i := mine in
  let! p := pr i in
  if 0 <? n then
    let! sz := on_mem (uvmalloc kend (p_pagetable p) (p_sz p) (u64 (p_sz p + n)) PTE_W) in
    if sz =? 0 then ret (-1) else upd i (set_p_sz sz) ;; ret 0
  else if n <? 0 then
    let! sz := on_mem (uvmdealloc kend (p_pagetable p) (p_sz p) (u64 (p_sz p + n))) in
    upd i (set_p_sz sz) ;; ret 0
  else upd i (set_p_sz (p_sz p)) ;; ret 0.

(** The loop of [fork] that duplicates the open files. *)
Definition dup_files (i np : nat) : K unit :=
  for_upto NOFILE (λ fd,
    let! p := pr i in
    match p_ofile p !!! fd with
    | Some f =>
        let! f' := on_files (filedup f) in
        upd np (λ x, set_p_ofile (<[fd := Some f']> (p_ofile x)) x)
    | None => ret tt
    end).

Definition fork : K Z :=
  let! i := mine in
  let! np := allocproc in
  match np with
  | None => ret (-1)
  | Some np =>
      let! p := pr i in
      let! c := pr np in
      let! r := on_mem (uvmcopy kend (p_pagetable p) (p_pagetable c) (p_sz p)) in
      if r <? 0 then freeproc np ;; unlock_p np ;; ret (-1) else
      upd np (set_p_sz (p_sz p)) ;;
      on_mem (modify (upd_pm (λ m, write_bytes (p_trapframe c) (bytes_at m (p_trapframe p) TF_SIZE) m))) ;;
      store_tf (p_trapframe c) TF_a0 0 ;;
      dup_files i np ;;
      let! p := pr i in
      let! cwd := deref (p_cwd p) in
      let! cwd' := on_fs (idup cwd) in
      upd np (set_p_cwd (Some cwd')) ;;
      upd np (λ x, set_p_name (copy_name (p_name p) (p_name x)) x) ;;
      let! c := pr np in
      unlock_p np ;;
      on_procs (acquire_lk me L_wait) ;;
      upd np (set_p_parent (Some i)) ;;
      on_procs (release_lk me L_wait) ;;
      lock_p np ;;
      upd np (set_p_state RUNNABLE) ;;
      unlock_p np ;;
      ret (p_pid c)
  end.

(** [exit]: up to the switch into the scheduler, from which it does not
    return. *)
Definition close_files (i : nat) : K unit :=
  for_upto NOFILE (λ fd,
    let! p := pr i in
    match p_ofile p !!! fd with
    | Some f =>
        on_files (@fileclose kmem (vm_pages kend) (p_pid p) f) ;;
        upd i (λ x, set_p_ofile (<[fd := None]> (p_ofile x)) x)
    | None => ret tt
    end).

Definition exit (status : Z) : K bool :=
  let! i := mine in
  let! ip := on_procs (gets initproc) in
  if bool_decide (ip = Some i) then panic "init exiting" else
  close_files i ;;
  let! p := pr i in
  on_fs (flog begin_op) ;;
  let! cwd := deref (p_cwd p) in
  on_fs (iput (p_pid p) cwd) ;;
  on_fs (flog (end_op (p_pid p))) ;;
  upd i (set_p_cwd None) ;;
  on_procs (acquire_lk me L_wait) ;;
  on_procs (reparent me i) ;;
  let! p := pr i in
  on_procs (wakeup me (proc_chan (p_parent p))) ;;
  lock_p i ;;
  upd i (set_p_xstate status) ;;
  upd i (set_p_state ZOMBIE) ;;
  on_procs (release_lk me L_wait) ;;
  on_procs (sched me).

(** One pass of [wait] over the table, [wait_lock] held: whether the caller has
    children, and the value it returns, if it does. *)
Fixpoint wait_scan (n j : nat) (i : nat) (addr : Z) (havekids : bool) : K (bool * option Z) :=
  match n with
  | O => ret (havekids, None)
  | S n' =>
      let! pp := pr j in
      if bool_decide (p_parent pp = Some i) then
        lock_p j ;;
        let! pp := pr j in
        if bool_decide (p_state pp = ZOMBIE) then
          let! p := pr i in
          let! r := (if negb (addr =? 0) then on_mem (copyout (p_pagetable p) addr (le_bytes 4 (p_xstate pp))) else ret 0) in
          if r <? 0 then
            unlock_p j ;; on_procs (release_lk me L_wait) ;; ret (true, Some (-1))
          else
            freeproc j ;; unlock_p j ;; on_procs (release_lk me L_wait) ;; ret (true, Some (p_pid pp))
        else
          unlock_p j ;; wait_scan n' (S j) i addr true
      else wait_scan n' (S j) i addr havekids
  end.

(** [wait] from the top of its loop: it returns, or sleeps until a child exits
    ([inr], with what [sleep] needs to resume). *)
Definition wait_loop (i : nat) (addr : Z) : K (Z + bool) :=
  let! (havekids, r) := wait_scan NPROC 0 i addr false in
  match r with
  | Some v => ret (inl v)
  | None =>
      let! k := (if havekids then on_procs (killed me i) else ret 0) in
      if negb havekids || negb (k =? 0) then
        on_procs (release_lk me L_wait) ;; ret (inl (-1))
      else
        let! ie := on_procs (Proc.sleep me (A_proc i) L_wait) in
        ret (inr ie)
  end.
Definition wait (addr : Z) : K (Z + bool) :=
  let! i := mine in
  on_procs (acquire_lk me L_wait) ;;
  wait_loop i addr.
Definition wait_again (i : nat) (addr : Z) (ie : bool) : K (Z + bool) :=
  on_procs (sleep_back me i L_wait ie) ;;
  wait_loop i addr.
End life.
