(* ===== verification/LifeThm.v ===== *)
(** Theorems on the life of processes. *)
From Stdlib Require Import ZArith Lia.
From stdpp Require Import base list gmap strings.
From S2P Require Import Prelude Machine Random Spinlock Proc Mem Str Kalloc Vm Pagetable Uvm Uvmfree Copy Sleeplock Bio Blk Log UserMem Fs Pipe File Life.

(** ** Running the layers *)

Lemma bind_procs {A B} (m : P A) (k : A → K B) s a x : m (sp s) = Done a x [] → bind (on_procs m) k s = k a (set_sp x s).
Proof. intros Hm. apply bind_done. unfold on_procs. by rewrite Hm. Qed.
Lemma bind_mem {A B} (m : M event kmem A) (k : A → K B) s a x : m (km s) = Done a x [] → bind (on_mem m) k s = k a (set_km x s).
Proof. intros Hm. apply bind_done. unfold on_mem. by rewrite Hm. Qed.
Lemma bind_pr {B} i (k : proc → K B) s : bind (pr i) k s = k (proc_at i (sp s)) s.
Proof. unfold pr. rewrite (bind_procs _ _ _ (proc_at i (sp s)) (sp s)) by done. by destruct s. Qed.
Lemma bind_upd {B} i f (k : unit → K B) s : bind (upd i f) k s = k tt (set_sp (upd_proc i f (sp s)) s).
Proof. unfold upd. by rewrite (bind_procs _ _ _ tt (upd_proc i f (sp s))). Qed.
Lemma upd_run i f s : upd i f s = Done tt (set_sp (upd_proc i f (sp s)) s) [].
Proof. done. Qed.

(** Normal form of a state: [set_km m (set_sp x s)]. *)
Lemma sp_set_sp x s : sp (set_sp x s) = x.
Proof. done. Qed.
Lemma sp_set_km m s : sp (set_km m s) = sp s.
Proof. done. Qed.
Lemma km_set_km m s : km (set_km m s) = m.
Proof. done. Qed.
Lemma km_set_sp x s : km (set_sp x s) = km s.
Proof. done. Qed.
Lemma set_sp_sp x y s : set_sp x (set_sp y s) = set_sp x s.
Proof. done. Qed.
Lemma set_sp_km x m s : set_sp x (set_km m s) = set_km m (set_sp x s).
Proof. done. Qed.
Lemma set_km_km m m' s : set_km m (set_km m' s) = set_km m s.
Proof. done. Qed.
Lemma set_km_same s : set_km (km s) s = s.
Proof. by destruct s as [? [? ? ? []]]. Qed.
Lemma set_sp_same s : set_sp (sp s) s = s.
Proof. by destruct s. Qed.
Create Rewrite HintDb sys.
#[export] Hint Rewrite sp_set_sp sp_set_km km_set_km km_set_sp set_sp_sp set_sp_km set_km_km @upd_proc_upd : sys.

Ltac krun := repeat (rewrite ?bind_assoc, ?bind_ret, ?bind_pr, ?bind_upd; cbv beta).

Section life.
Context (me : nat) (kend trampoline forkret_pc : Z).

(** A hart that is not in a critical section, and whose next one leaves nothing
    else changed. *)
Record calm (x : pstate) : Prop := {
  cm_ready : ready x;
  cm_pid : is_free L_pid (lk x);
  cm_wait : is_free L_wait (lk x)
}.
Lemma calm_touch x : calm x → calm (touch x).
Proof. intros [? ? ?]. split; [by apply ready_touch|done|done]. Qed.
Lemma calm_upd i f x : calm x → calm (upd_proc i f x).
Proof. intros [? ? ?]. split; [by apply ready_upd|done|done]. Qed.

(** [x] with the lock of process [j] held. *)
Definition hold (j : nat) (x : pstate) : pstate := set_lk (locked_by me (L_proc j) (lk x)) x.

Lemma lock_run j x : calm x → (j < NPROC)%nat → acquire_lk me (L_proc j) x = Done tt (hold j x) [].
Proof.
  intros [[Hl Hh Hn Hf] _ _] Hj. unfold acquire_lk, lift_lk. rewrite acquire_run; [done|by apply Hf|done|unfold INT_MAX; lia].
Qed.
Lemma unlock_run j x x' : calm x → (j < NPROC)%nat → lk x' = locked_by me (L_proc j) (lk x) →
  release_lk me (L_proc j) x' = Done tt (set_lk (upd_cpu touched (lk x)) x') [].
Proof. intros [Hr _ _] Hj Hlk. by apply (ready_release me j x). Qed.

(** The state after [n] rounds of a search that finds nothing is [x] or
    [touch x]. *)
Definition settled (x x1 : pstate) : Prop := x1 = x ∨ x1 = touch x.
Lemma settled_touch x x1 : settled (touch x) x1 → settled x x1.
Proof. intros [->| ->]; [by right|]. right. apply touch_touch. Qed.
Lemma settled_calm x x1 : calm x → settled x x1 → calm x1.
Proof. intros Hc [->| ->]; [done|by apply calm_touch]. Qed.
Lemma settled_proc x x1 i : settled x x1 → proc_at i x1 = proc_at i x.
Proof. by intros [->| ->]. Qed.

Definition search_body (i : nat) : P (option nat) :=
  acquire_lk me (L_proc i) ;;
  let! p := gets (proc_at i) in
  if bool_decide (p_state p = UNUSED) then ret (Some i)
  else release_lk me (L_proc i) ;; ret None.

Lemma search_run n i x : calm x → (i + n = NPROC)%nat →
  (∃ j x1, for_find_from n i search_body x = Done (Some j) (hold j x1) [] ∧ settled x x1 ∧ (i ≤ j < NPROC)%nat ∧
     p_state (proc_at j x) = UNUSED ∧ ∀ k, (i ≤ k < j)%nat → p_state (proc_at k x) ≠ UNUSED) ∨
  (∃ x1, for_find_from n i search_body x = Done None x1 [] ∧ settled x x1 ∧ ∀ k, (i ≤ k < NPROC)%nat → p_state (proc_at k x) ≠ UNUSED).
Proof.
  revert i x. induction n as [|n IH]; intros i x Hc Hn; cbn [for_find_from].
  { right. exists x. split_and!; [done|by left|intros; lia]. }
  assert (search_body i x = if bool_decide (p_state (proc_at i x) = UNUSED) then Done (Some i) (hold i x) [] else Done None (touch x) []) as Hb.
  { unfold search_body. rewrite (bind_done _ _ _ _ _ (lock_run i x Hc ltac:(lia))). mrun. change (proc_at i (hold i x)) with (proc_at i x).
    case_bool_decide; [done|]. rewrite (bind_done _ _ _ _ _ (unlock_run i x (hold i x) Hc ltac:(lia) eq_refl)). done. }
  case_bool_decide as Hu.
  - left. rewrite (bind_done _ _ _ _ _ Hb). exists i, x. split_and!; [done|by left|lia|lia|done|intros; lia].
  - rewrite (bind_done _ _ _ _ _ Hb). destruct (IH (S i) (touch x)) as [(j & x1 & Hr & Hs & Hj & Hju & Hk)|(x1 & Hr & Hs & Hk)]; [by apply calm_touch|lia| |].
    + left. exists j, x1. split_and!; [done|by apply settled_touch|lia|lia|done|]. intros k Hk'.
      destruct (decide (k = i)) as [->|]; [done|]. apply (Hk k). lia.
    + right. exists x1. split_and!; [done|by apply settled_touch|]. intros k Hk'. destruct (decide (k = i)) as [->|]; [done|]. apply (Hk k). lia.
Qed.

Lemma allocpid_run j x x' : calm x → (j < NPROC)%nat → lk x' = locked_by me (L_proc j) (lk x) →
  allocpid me x' = Done (nextpid x') (set_nextpid (i32 (nextpid x' + 1)) x') [].
Proof.
  intros [[Hl Hh Hn Hf] Hp _] Hj Hlk. destruct (locked_ok me (L_proc j) (lk x) Hh) as [Hh' Hn'].
  assert (is_free L_pid (lk x')) as Hp' by (rewrite Hlk; by apply free_locked).
  unfold allocpid. rewrite bind_acquire; [|done|by rewrite Hlk|rewrite Hlk, Hn'; unfold INT_MAX; lia]. mrun.
  erewrite bind_done; [|apply release_lk_run; [reflexivity|done|by rewrite Hlk|rewrite Hlk, Hn'; unfold INT_MAX; lia]].
  unfold ret. f_equal. rewrite Hlk. rewrite touched_locked by done. rewrite <- Hlk. by destruct x'.
Qed.

(** What [freeproc] leaves of a process. *)
Definition freed (p : proc) : proc :=
  set_p_state UNUSED (set_p_xstate 0 (set_p_killed 0 (set_p_chan A_null
    (set_p_name (<[0%nat := 0]> (p_name p)) (set_p_parent None (set_p_pid 0 (set_p_sz 0 (set_p_pagetable 0 (set_p_trapframe 0 p))))))))).

Lemma freeproc_run j s m1 m2 : (j < length (procs (sp s)))%nat →
  let p := proc_at j (sp s) in
  (if p_trapframe p =? 0 then m1 = km s else kfree (E:=event) kend (p_trapframe p) (km s) = Done tt m1 []) →
  (if p_pagetable p =? 0 then m2 = m1 else proc_freepagetable (E:=event) kend (p_pagetable p) (p_sz p) m1 = Done tt m2 []) →
  freeproc kend j s = Done tt (set_km m2 (set_sp (upd_proc j freed (sp s)) s)) [].
Proof.
  intros Hj p H1 H2. unfold freeproc. rewrite bind_pr. fold p.
  assert (∀ {B} (k : unit → K B), bind (if negb (p_trapframe p =? 0) then on_mem (kfree kend (p_trapframe p)) else ret tt) k s = k tt (set_km m1 s)) as ->.
  { intros B k. destruct (p_trapframe p =? 0); cbn [negb]; [rewrite bind_ret, H1; by destruct s as [? [? ? ? []]]|by rewrite (bind_mem _ _ _ _ _ H1)]. }
  krun. set (s1 := set_sp _ _).
  assert (∀ {B} (k : unit → K B), bind (if negb (p_pagetable p =? 0) then on_mem (proc_freepagetable kend (p_pagetable p) (p_sz p)) else ret tt) k s1 = k tt (set_km m2 s1)) as ->.
  { intros B k. destruct (p_pagetable p =? 0); cbn [negb]; [by rewrite bind_ret, H2|]. by rewrite (bind_mem _ _ s1 tt m2 H2). }
  krun. rewrite upd_run. unfold s1. autorewrite with sys. done.
Qed.

(** What [allocproc] makes of the process it returns. *)
Definition allocated (pid tf pt : Z) (p : proc) : proc :=
  set_p_context (mkcontext forkret_pc (u64 (p_kstack p + PGSIZE)) 0 0 0 0 0 0 0 0 0 0 0 0)
    (set_p_pagetable pt (set_p_trapframe tf (set_p_tickets 10 (set_p_state USED (set_p_pid pid p))))).

(** Unused processes own no memory and no files. *)
Definition unused_clean (x : pstate) : Prop :=
  ∀ i, (i < NPROC)%nat → p_state (proc_at i x) = UNUSED →
    p_trapframe (proc_at i x) = 0 ∧ p_pagetable (proc_at i x) = 0 ∧ p_sz (proc_at i x) = 0 ∧ p_ofile (proc_at i x) = replicate NOFILE None.

(** A successful [allocproc]: the first unused process, with the lock held, and
    its pages taken from the free list [l]. *)
Record alloc_ok (s s' : sys) (j : nat) (l : list Z) (tf root : Z) (nodes : nodemap) (l' : list Z) : Prop := {
  ao_first : (j < NPROC)%nat ∧ p_state (proc_at j (sp s)) = UNUSED ∧ ∀ k, (k < j)%nat → p_state (proc_at k (sp s)) ≠ UNUSED;
  ao_sys : ∃ x1, settled (sp s) x1 ∧ sp s' = upd_proc j (allocated (nextpid (sp s)) tf root) (set_nextpid (i32 (nextpid (sp s) + 1)) (hold j x1));
  ao_rest : s' = set_km (km s') (set_sp (sp s') s);
  ao_space : pspace kend (km s') nodes root l' [] trampoline tf;
  ao_pages : tf :: l' ++ node_pages nodes ≡ₚ l;
  ao_few : (length l ≤ length l' + 6)%nat;
  ao_mem : same_outside l (pm (km s)) (pm (km s'))
}.

Lemma hold_lookup j x k : proc_at k (hold j x) = proc_at k x.
Proof. done. Qed.


(** Giving the process back after a failed allocation. *)
Lemma alloc_fail {B} (v : B) j x1 s f n m m1 m2 : calm x1 → (j < NPROC)%nat →
  let x2 := upd_proc j f (set_nextpid n (hold j x1)) in
  let p := f (proc_at j x1) in
  (if p_trapframe p =? 0 then m1 = m else kfree (E:=event) kend (p_trapframe p) m = Done tt m1 []) →
  (if p_pagetable p =? 0 then m2 = m1 else proc_freepagetable (E:=event) kend (p_pagetable p) (p_sz p) m1 = Done tt m2 []) →
  bind (freeproc kend j) (λ _, bind (unlock_p me j) (λ _, ret v)) (set_km m (set_sp x2 s)) =
  Done v (set_km m2 (set_sp (upd_proc j (λ p, freed (f p)) (set_nextpid n (touch x1))) s)) [].
Proof.
  intros Hc Hj x2 p H1 H2. pose proof (rd_len _ (cm_ready _ Hc)) as Hlen.
  assert (proc_at j x2 = p) as Hp by (unfold x2, p; by rewrite proc_at_upd by (simpl; lia)).
  erewrite bind_done; [|apply (freeproc_run j _ m1 m2); autorewrite with sys; [simpl; rewrite length_alter; lia|rewrite Hp; exact H1|rewrite Hp; exact H2]].
  autorewrite with sys. unfold unlock_p. erewrite bind_procs; [|autorewrite with sys; by apply (unlock_run j x1)].
  autorewrite with sys. unfold ret, x2. by autorewrite with sys.
Qed.

(** The table after a failed allocation. *)
Lemma alloc_fail_table x x1 j f n : (∀ p, p_ofile (f p) = p_ofile p) → calm x → unused_clean x → settled x x1 → (j < NPROC)%nat → p_state (proc_at j x) = UNUSED →
  let x' := upd_proc j (λ p, freed (f p)) (set_nextpid n (touch x1)) in
  calm x' ∧ unused_clean x' ∧
  (∀ k, p_state (proc_at k x) ≠ UNUSED → proc_at k x' = proc_at k x) ∧
  (∀ k, (k < NPROC)%nat → p_state (proc_at k x) = UNUSED → p_state (proc_at k x') = UNUSED).
Proof.
  intros Hof Hc Hu Hs Hj Hju x'. pose proof (settled_calm _ _ Hc Hs) as Hc1. pose proof (rd_len _ (cm_ready _ Hc1)) as Hlen.
  assert (calm x') as Hc' by (apply calm_upd; apply calm_touch in Hc1 as [[] ? ?]; split; [split|..]; done).
  assert (proc_at j x' = freed (f (proc_at j x))) as Hpj.
  { unfold x'. rewrite proc_at_upd by (simpl; lia). change (proc_at j (set_nextpid n (touch x1))) with (proc_at j x1). by rewrite (settled_proc x). }
  assert (∀ k, k ≠ j → proc_at k x' = proc_at k x) as Hpk.
  { intros k Hk. unfold x'. rewrite proc_at_upd_ne by done. change (proc_at k (set_nextpid n (touch x1))) with (proc_at k x1). by apply settled_proc. }
  split_and!; [done| | |].
  - intros i Hi. destruct (decide (i = j)) as [->|]; [|rewrite Hpk by done; by apply Hu].
    rewrite Hpj. intros _. split_and!; try done. simpl. rewrite Hof. by apply Hu.
  - intros k Hk. apply Hpk. congruence.
  - intros k Hk Hku. destruct (decide (k = j)) as [->|]; [by rewrite Hpj|]. by rewrite Hpk.
Qed.

Lemma allocproc_run s l : calm (sp s) → unused_clean (sp s) → kinv kend (km s) l → pte_page trampoline →
  (∃ j s' tf root nodes l', allocproc me kend trampoline forkret_pc s = Done (Some j) s' [] ∧ alloc_ok s s' j l tf root nodes l') ∨
  (∃ s' l', allocproc me kend trampoline forkret_pc s = Done None s' [] ∧ kinv kend (km s') l' ∧ l' ≡ₚ l ∧
     same_outside l (pm (km s)) (pm (km s')) ∧ calm (sp s') ∧ unused_clean (sp s') ∧ s' = set_km (km s') (set_sp (sp s') s) ∧
     (∀ k, p_state (proc_at k (sp s)) ≠ UNUSED → proc_at k (sp s') = proc_at k (sp s)) ∧
     (∀ k, (k < NPROC)%nat → p_state (proc_at k (sp s)) = UNUSED → p_state (proc_at k (sp s')) = UNUSED) ∧
     ((∀ k, (k < NPROC)%nat → p_state (proc_at k (sp s)) ≠ UNUSED) ∨ (length l < 6)%nat)).
Proof.
  intros Hc Hu Hk Htr. unfold allocproc, find_unused_proc. fold search_body.
  destruct (search_run NPROC 0 (sp s) Hc eq_refl) as [(j & x1 & Hr & Hs & Hj & Hju & Hjk)|(x1 & Hr & Hs & Hno)].
  2:{ right. unfold for_find in *. rewrite (bind_procs _ _ _ _ _ Hr). exists (set_sp x1 s), l. split_and!; try done.
      - by apply (settled_calm (sp s)).
      - intros i Hi. by rewrite (settled_proc _ _ _ Hs); apply Hu.
      - by destruct s as [? [? ? ? []]].
      - intros k _. by apply settled_proc.
      - intros k _. by rewrite (settled_proc _ _ _ Hs).
      - left. intros k Hk'. apply Hno. lia. }
  unfold for_find in *. rewrite (bind_procs _ _ _ _ _ Hr). cbv iota.
  pose proof (settled_calm _ _ Hc Hs) as Hc1. assert (nextpid x1 = nextpid (sp s)) as Hnp by (by destruct Hs as [->| ->]).
  rewrite (bind_procs _ _ _ _ _ (allocpid_run j x1 (sp (set_sp (hold j x1) s)) Hc1 ltac:(lia) eq_refl)). krun.
  autorewrite with sys. change (nextpid (hold j x1)) with (nextpid x1). rewrite Hnp.
  destruct (Hu j ltac:(lia) Hju) as (Htf0 & Hpt0 & _). rewrite <- (settled_proc _ _ _ Hs) in Htf0, Hpt0.
  destruct l as [|tf l].
  - (* no page for the trapframe *)
    right. rewrite (bind_mem _ _ _ 0 (km s)) by (autorewrite with sys; by apply (kalloc_nil kend)). krun. change (0 =? 0) with true. cbv iota.
    autorewrite with sys. erewrite (alloc_fail None j x1 s _ _ (km s) (km s) (km s)); [|done|lia|done|by simpl; rewrite Hpt0].
    destruct (alloc_fail_table (sp s) x1 j (λ p, set_p_trapframe 0 (set_p_tickets 10 (set_p_state USED (set_p_pid (nextpid (sp s)) p)))) (i32 (nextpid (sp s) + 1)))
      as (H1 & H2 & H3 & H4); [done..|lia|done|].
    eexists _, []. split; [done|]. autorewrite with sys. split_and!; try done. right. simpl. lia.
  - destruct (kalloc_cons (E:=event) kend (km s) tf l Hk) as [Hka Hk1]. set (m1 := mkkmem _ _ _) in *.
    rewrite (bind_mem _ _ _ tf m1) by (autorewrite with sys; exact Hka). krun.
    pose proof (ki_pages _ _ _ Hk) as Hpg. apply Forall_cons in Hpg as [Htfp _]. pose proof (ki_nodup _ _ _ Hk) as Hnd. apply NoDup_cons in Hnd as [Htfl _].
    destruct (page_ok_u64 kend tf (ki_kend _ _ _ Hk) Htfp) as [_ Htf]. rewrite (proj2 (Z.eqb_neq tf 0) Htf). krun. autorewrite with sys.
    destruct (proc_pagetable_run (E:=event) kend (ki_kend _ _ _ Hk) m1 l trampoline tf Hk1 Htr (page_ok_pte _ _ (ki_kend _ _ _ Hk) Htfp))
      as (root & m2 & l' & Hpt & Hsame & Hres).
    rewrite (bind_mem _ _ _ root m2) by (autorewrite with sys; exact Hpt). krun. autorewrite with sys.
    assert (same_outside (tf :: l) (pm (km s)) (pm m2)) as Hmem.
    { intros x Hx. rewrite (Hsame x) by (intros p Hp; apply Hx; by right). apply (kalloc_mem kend (km s) tf l); [done|]. apply Hx. left. }
    destruct Hres as [(Hr0 & Hfew & nodes & Hps & Hperm)|(-> & Hk2 & Hperm & Hlen)].
    + left. rewrite (proj2 (Z.eqb_neq root 0) Hr0). krun. autorewrite with sys. eexists j, _, tf, root, nodes, l'. split; [done|].
      split; autorewrite with sys; try done.
      * split_and!; [lia|done|]. intros k Hk'. apply Hjk. lia.
      * exists x1. split; [done|]. done.
      * by rewrite Hperm.
      * simpl. lia.
    + right. change (0 =? 0) with true. cbv iota.
      assert (tf ∉ l') as Htfl' by (by rewrite Hperm).
      destruct (kfree_run (E:=event) kend m2 tf l' Hk2 Htfp Htfl') as [Hkf Hk3]. set (m3 := mkkmem false tf _) in *.
      erewrite (alloc_fail None j x1 s _ _ m2 m3 m3); [|done|lia|simpl; rewrite (proj2 (Z.eqb_neq tf 0) Htf); exact Hkf|done].
      destruct (alloc_fail_table (sp s) x1 j (λ p, set_p_pagetable 0 (set_p_trapframe tf (set_p_tickets 10 (set_p_state USED (set_p_pid (nextpid (sp s)) p))))) (i32 (nextpid (sp s) + 1)))
        as (H1 & H2 & H3 & H4); [done..|lia|done|].
      eexists _, (tf :: l'). split; [done|]. autorewrite with sys. split_and!; try done.
      * by rewrite Hperm.
      * intros x Hx. simpl pm. rewrite kfree_mem by (apply Hx; left). by apply Hmem.
      * right. simpl. lia.
Qed.
End life.
