(* ===== verification/ForkThm.v ===== *)
(** [fork], proved from the process table down to the bytes of the child's
    memory. *)
From Stdlib Require Import ZArith Lia.
From stdpp Require Import base list gmap strings.
From S2P Require Import Prelude Machine Random Spinlock Proc Mem Str Kalloc Vm Pagetable Uvm Uvmfree Copy VmThm Sleeplock Bio Blk Log UserMem Fs Pipe File FileThm Life LifeThm ForkMem.

(** ** Files of the child *)

(** The open files of a process. *)
Definition held_by (ol : list (option nat)) : list nat := omap id ol.

Lemma counted_perm {U} (s : filest U) h h' : h ≡ₚ h' → counted s h → counted s h'.
Proof.
  intros Hp [H1 H2 H3 H4 H5 H6].
  assert (∀ f, holds f h = holds f h') as Hh by (intros f; unfold holds; by rewrite Hp).
  split; try done.
  - intros f x Hf. rewrite <- Hh. by apply H3.
  - intros f x Hf. rewrite <- Hp. by apply H4.
  - intros f. rewrite <- Hp. apply H5.
  - by rewrite <- Hp.
Qed.

Section fork.
Context (me : nat) (kend trampoline forkret_pc : Z).

Lemma bind_files {A B} (m : M event (filest kmem) A) (k : A → K B) s a x : m (sf s) = Done a x [] →
  bind (on_files me m) k s = k a (set_sf x s).
Proof. intros Hm. apply bind_done. unfold on_files. by rewrite Hm. Qed.

Lemma dup_files_run n fd i np s h ol : i ≠ np → (fd + n = NOFILE)%nat → length ol = NOFILE → (np < length (procs (sp s)))%nat →
  p_ofile (proc_at i (sp s)) = ol → p_ofile (proc_at np (sp s)) = take fd ol ++ replicate n None →
  counted (sf s) h → (∀ f, f ∈ held_by (drop fd ol) → f ∈ h) → Z.of_nat (length h + n) ≤ INT_MAX →
  ∃ F, for_from n fd (λ fd,
      let! p := pr i in
      match p_ofile p !!! fd with
      | Some f =>
          let! f' := on_files me (filedup f) in
          upd np (λ x, set_p_ofile (<[fd := Some f']> (p_ofile x)) x)
      | None => ret tt
      end) s = Done tt (set_sf F (set_sp (upd_proc np (set_p_ofile ol) (sp s)) s)) [] ∧
    ffs F = ffs (sf s) ∧ pipes F = pipes (sf s) ∧ counted F (held_by (drop fd ol) ++ h).
Proof.
  intros Hne. revert fd s h. induction n as [|n IH]; intros fd s h Hn Hlen Hnp Hol Hcl Hc Hin Hmax; cbn [for_from].
  { exists (sf s). rewrite drop_ge by lia. split_and!; try done. unfold ret. f_equal. rewrite app_nil_r, take_ge in Hcl by lia.
    rewrite (upd_proc_ext np _ (λ p, p) (sp s)); [rewrite upd_proc_id; by destruct s|]. rewrite <- Hcl. by destruct (proc_at np (sp s)). }
  destruct (lookup_lt_is_Some_2 ol fd) as [o Ho]; [lia|]. pose proof (drop_S _ _ _ Ho) as Hdrop.
  assert (take (S fd) ol = take fd ol ++ [o]) as Htake by (by apply take_S_r).
  rewrite bind_assoc, bind_pr, Hol. rewrite (list_lookup_total_correct _ _ _ Ho). destruct o as [f|].
  - assert (f ∈ h) as Hfh by (apply Hin; rewrite Hdrop; left).
    destruct (filedup_run (sf s) h f Hc Hfh ltac:(lia)) as [Hrun Hc']. set (F1 := upd_file f _ (sf s)) in *.
    rewrite bind_assoc, (bind_files _ _ _ _ _ Hrun), bind_upd. set (s1 := set_sp _ (set_sf F1 s)).
    destruct (IH (S fd) s1 (f :: h)) as (F & HF & Hffs & Hpipes & HcF).
    + lia.
    + done.
    + simpl. rewrite length_alter. done.
    + unfold s1. simpl sp. by rewrite proc_at_upd_ne by done.
    + unfold s1. simpl sp. rewrite proc_at_upd by done. cbn [p_ofile set_p_ofile]. rewrite Hcl, Htake, <- app_assoc.
      replace fd with (length (take fd ol) + 0)%nat at 1 by (rewrite length_take; lia). by rewrite insert_app_r.
    + exact Hc'.
    + intros g Hg. right. apply Hin. rewrite Hdrop. by right.
    + simpl. lia.
    + exists F. split; [rewrite HF; unfold s1; autorewrite with sys|split_and!; [done|done|]].
      * done.
      * rewrite Hdrop. change (held_by (Some f :: drop (S fd) ol)) with (f :: held_by (drop (S fd) ol)).
        eapply counted_perm; [|exact HcF]. symmetry. simpl. apply Permutation_middle.
  - rewrite bind_ret. destruct (IH (S fd) s h) as (F & HF & Hffs & Hpipes & HcF); try done.
    + lia.
    + rewrite Hcl, Htake, <- app_assoc. done.
    + intros g Hg. apply Hin. by rewrite Hdrop.
    + lia.
    + exists F. rewrite HF. split_and!; try done. by rewrite Hdrop.
Qed.

(** ** The state of a forking process *)

(** Process [i] runs on this hart, with the address space [nodes]/[root] of the
    user pages [ds]; [h] are the references to open files, [l] the free pages. *)
Record forker (s : sys) (i : nat) (h : list nat) (l : list Z) (nodes : nodemap) (ds : list upage) : Prop := {
  fo_calm : calm (sp s);
  fo_clean : unused_clean (sp s);
  fo_me : c_proc (sp s) = Some i ∧ (i < NPROC)%nat ∧ p_state (proc_at i (sp s)) = RUNNING;
  fo_space : pspace kend (km s) nodes (p_pagetable (proc_at i (sp s))) l ds trampoline (p_trapframe (proc_at i (sp s)));
  fo_size : 0 ≤ p_sz (proc_at i (sp s)) ≤ TRAPFRAME ∧ length ds = npages (p_sz (proc_at i (sp s)));
  fo_tf : page_ok kend (p_trapframe (proc_at i (sp s))) ∧ p_trapframe (proc_at i (sp s)) ∉ l;
  fo_files : counted (sf s) h ∧ length (p_ofile (proc_at i (sp s))) = NOFILE ∧
    (∀ f, f ∈ held_by (p_ofile (proc_at i (sp s))) → f ∈ h) ∧ Z.of_nat (length h + NOFILE) ≤ INT_MAX;
  fo_cwd : it_lock (ffs (sf s)) = false ∧ ∃ c, p_cwd (proc_at i (sp s)) = Some c ∧ is_i32 (i_ref (ino c (ffs (sf s))) + 1)
}.

(** The process [fork] makes of the slot [c] for a parent [p], process [i]. *)
Definition born (i : nat) (p : proc) (pid tf root : Z) (c : proc) : proc :=
  mkproc RUNNABLE (p_chan c) (p_killed c) (p_xstate c) pid 10 (Some i) (p_kstack c) (p_sz p) root tf
    (mkcontext forkret_pc (u64 (p_kstack c + PGSIZE)) 0 0 0 0 0 0 0 0 0 0 0 0)
    (p_ofile p) (p_cwd p) (copy_name (p_name p) (p_name c)).

(** The memory after a successful [fork]. *)
Record cloned (m m' : kmem) (l l' : list Z) (onodes : nodemap) (oroot : Z) (ods : list upage) (otf : Z)
    (nodes : nodemap) (root : Z) (ds : list upage) (tf : Z) : Prop := {
  cl_parent : pspace kend m' onodes oroot l' ods trampoline otf;
  cl_child : pspace kend m' nodes root l' ds trampoline tf;
  cl_same : length ds = length ods ∧ copies (pm m') ods ds ∧ ∀ d x, d ∈ ods.*1 → in_page d x → rd (pm m') x = rd (pm m) x;
  cl_tf : ∀ o, 0 ≤ o < 288 → rd (pm m') (tf + o) = if decide (112 ≤ o < 120) then 0 else rd (pm m) (otf + o);
  cl_pages : tf :: l' ++ node_pages nodes ++ ds.*1 ≡ₚ l;
  cl_mem : same_outside l (pm m) (pm m')
}.

(** What [fork] leaves when it succeeds, with child [j]. *)
Record forked (s s' : sys) (i j : nat) (h : list nat) (l : list Z) (onodes : nodemap) (ods : list upage) : Prop := {
  fd_slot : (j < NPROC)%nat ∧ p_state (proc_at j (sp s)) = UNUSED ∧ ∀ k, (k < j)%nat → p_state (proc_at k (sp s)) ≠ UNUSED;
  fd_mem : ∃ nodes root ds tf l',
    cloned (km s) (km s') l l' onodes (p_pagetable (proc_at i (sp s))) ods (p_trapframe (proc_at i (sp s))) nodes root ds tf ∧
    sp s' = upd_proc j (born i (proc_at i (sp s)) (nextpid (sp s)) tf root) (set_nextpid (i32 (nextpid (sp s) + 1)) (touch (sp s)));
  fd_files : counted (sf s') (held_by (p_ofile (proc_at i (sp s))) ++ h) ∧ pipes (sf s') = pipes (sf s);
  fd_cwd : ∃ c, p_cwd (proc_at i (sp s)) = Some c ∧
    ffs (sf s') = set_um (km s') (upd_ino c (λ x, set_i_ref (i_ref x + 1) x) (ffs (sf s)))
}.

(** What it leaves when it fails: nothing is lost. *)
Record unforked (s s' : sys) (i : nat) (l l' : list Z) (onodes : nodemap) (ods : list upage) : Prop := {
  uf_space : pspace kend (km s') onodes (p_pagetable (proc_at i (sp s))) l' ods trampoline (p_trapframe (proc_at i (sp s)));
  uf_pages : l' ≡ₚ l;
  uf_mem : same_outside l (pm (km s)) (pm (km s'));
  uf_rest : s' = set_km (km s') (set_sp (sp s') s);
  uf_procs : calm (sp s') ∧ unused_clean (sp s') ∧
    (∀ k, p_state (proc_at k (sp s)) ≠ UNUSED → proc_at k (sp s') = proc_at k (sp s)) ∧
    (∀ k, (k < NPROC)%nat → p_state (proc_at k (sp s)) = UNUSED → p_state (proc_at k (sp s')) = UNUSED);
  uf_why : (∀ k, (k < NPROC)%nat → p_state (proc_at k (sp s)) ≠ UNUSED) ∨ (length l < 6 + 3 * length ods)%nat
}.

(** ** The run *)

Lemma mine_run {B} i (k : nat → K B) s : ready (sp s) → c_proc (sp s) = Some i → bind mine k s = k i (set_sp (touch (sp s)) s).
Proof.
  intros Hr Hi. unfold mine. apply bind_procs. unfold mypr. rewrite ready_myproc by done. by rewrite Hi.
Qed.

(** [fork] once the child has its memory. *)
Definition fork_tail (i np : nat) (p c : proc) : K Z :=
  upd np (set_p_sz (p_sz p)) ;;
  on_mem (modify (upd_pm (λ m, write_bytes (p_trapframe c) (bytes_at m (p_trapframe p) TF_SIZE) m))) ;;
  store_tf (p_trapframe c) TF_a0 0 ;;
  dup_files me i np ;;
  let! p := pr i in
  let! cwd := deref (p_cwd p) in
  let! cwd' := on_fs me (idup cwd) in
  upd np (set_p_cwd (Some cwd')) ;;
  upd np (λ x, set_p_name (copy_name (p_name p) (p_name x)) x) ;;
  let! c := pr np in
  unlock_p me np ;;
  on_procs (acquire_lk me L_wait) ;;
  upd np (set_p_parent (Some i)) ;;
  on_procs (release_lk me L_wait) ;;
  lock_p me np ;;
  upd np (set_p_state RUNNABLE) ;;
  unlock_p me np ;;
  ret (p_pid c).

(** The part under [wait_lock] and after. *)
Lemma fork_publish np i (pid : Z) x1 x (s : sys) : calm x1 → (np < NPROC)%nat → length (procs x) = NPROC → lk x = locked_by me (L_proc np) (lk x1) →
  (unlock_p me np ;;
   on_procs (acquire_lk me L_wait) ;;
   upd np (set_p_parent (Some i)) ;;
   on_procs (release_lk me L_wait) ;;
   lock_p me np ;;
   upd np (set_p_state RUNNABLE) ;;
   unlock_p me np ;;
   ret pid : K Z) (set_sp x s) =
  Done pid (set_sp (upd_proc np (λ c, set_p_state RUNNABLE (set_p_parent (Some i) c)) (set_lk (upd_cpu touched (lk x1)) x)) s) [].
Proof.
  intros Hc Hnp Hlen Hlk. unfold unlock_p, lock_p.
  rewrite (bind_procs _ _ (set_sp x s) _ _ (unlock_run me np x1 x Hc Hnp Hlk)). autorewrite with sys.
  pose proof (calm_touch _ Hc) as Hct. set (x2 := set_lk _ x).
  assert (calm x2) as Hc2.
  { destruct Hct as [[H1 H2 H3 H4] H5 H6]. split; [split|..]; done. }
  pose proof (cm_ready _ Hc2) as [_ Hh Hn _].
  erewrite bind_procs; [|autorewrite with sys; unfold acquire_lk, lift_lk; rewrite acquire_run; [reflexivity|apply Hc2|done|unfold INT_MAX; lia]].
  rewrite bind_upd. autorewrite with sys.
  erewrite bind_procs; [|autorewrite with sys; apply release_lk_run; [reflexivity|apply Hc2|done|unfold INT_MAX; lia]].
  autorewrite with sys. set (x3 := set_lk _ _).
  assert (x3 = upd_proc np (set_p_parent (Some i)) x2) as ->.
  { unfold x3, x2, upd_proc, set_procs, set_lk. simpl. f_equal. unfold upd_cpu; simpl. f_equal. apply touched_idemp. }
  assert (calm (upd_proc np (set_p_parent (Some i)) x2)) as Hc3 by (by apply calm_upd).
  rewrite (bind_procs _ _ (set_sp (upd_proc np (set_p_parent (Some i)) x2) s) _ _ (lock_run me np _ Hc3 Hnp)). rewrite bind_upd. autorewrite with sys.
  erewrite bind_procs; [|autorewrite with sys; apply (unlock_run me np _ _ Hc3 Hnp); reflexivity].
  autorewrite with sys. unfold ret. do 2 f_equal. rewrite <- (upd_proc_upd np (set_p_state RUNNABLE) (set_p_parent (Some i))).
  unfold x2, hold, upd_proc, set_procs, set_lk; simpl. f_equal. unfold upd_cpu; simpl. f_equal. apply touched_idemp.
Qed.

Lemma idup_run c (F : fsst kmem) : it_lock F = false → is_i32 (i_ref (ino c F) + 1) →
  idup c F = Done c (upd_ino c (λ x, set_i_ref (i_ref x + 1) x) F) [].
Proof.
  intros Hl Hi. unfold idup. rewrite bind_lock by done. mrun. rewrite bind_unlock by done. unfold ret. f_equal.
  destruct F as [fl' lk inos sb u]; simpl in Hl; subst lk. unfold upd_ino, ino, set_inodes in *; simpl in *. f_equal.
  apply list_eq. intros k. rewrite !list_lookup_alter. case_decide as Hk; [|done]. subst k.
  destruct (inos !! c) as [x|] eqn:Hx; [|done]. rewrite (list_lookup_total_correct _ _ _ Hx) in Hi. simpl. by rewrite i32_small.
Qed.

Lemma fork_tail_run s i j h x1 n m2 tf root pid cwd : calm x1 → (j < NPROC)%nat → i ≠ j →
  let p := proc_at i x1 in
  p_ofile (proc_at j x1) = replicate NOFILE None → length (p_ofile p) = NOFILE → counted (sf s) h →
  (∀ f, f ∈ held_by (p_ofile p) → f ∈ h) → Z.of_nat (length h + NOFILE) ≤ INT_MAX →
  it_lock (ffs (sf s)) = false → p_cwd p = Some cwd → is_i32 (i_ref (ino cwd (ffs (sf s))) + 1) →
  let x2 := upd_proc j (allocated forkret_pc pid tf root) (set_nextpid n (hold me j x1)) in
  ∃ F, fork_tail i j p (proc_at j x2) (set_km m2 (set_sp x2 s)) =
      Done pid (set_sf F (set_sp (upd_proc j (born i p pid tf root) (set_nextpid n (touch x1))) s)) [] ∧
    counted F (held_by (p_ofile p) ++ h) ∧ pipes F = pipes (sf s) ∧
    ffs F = set_um (tf_copied (p_trapframe p) tf m2) (upd_ino cwd (λ x, set_i_ref (i_ref x + 1) x) (ffs (sf s))).
Proof.
  intros Hc Hj Hij p Hcl Hlen Hcnt Hin Hmax Hil Hcwd Hi32 x2.
  pose proof (rd_len _ (cm_ready _ Hc)) as Hlx.
  assert (proc_at j x2 = allocated forkret_pc pid tf root (proc_at j x1)) as Hcj by (unfold x2; by rewrite proc_at_upd by (simpl; lia)).
  unfold fork_tail. rewrite Hcj. rewrite bind_upd. autorewrite with sys. rewrite (bind_mem _ _ _ tt (upd_pm (λ m, write_bytes tf (bytes_at m (p_trapframe p) TF_SIZE) m) m2)) by done.
  unfold store_tf. rewrite (bind_mem _ _ _ tt (tf_copied (p_trapframe p) tf m2)) by done. autorewrite with sys.
  set (x3 := upd_proc j _ x2). set (s3 := set_km _ _).
  assert (proc_at i x3 = p) as Hpi by (unfold x3, x2; by rewrite !proc_at_upd_ne by done).
  assert (length (procs x3) = NPROC) as Hl3 by (unfold x3, x2; simpl; by rewrite !length_alter).
  destruct (dup_files_run NOFILE 0 i j s3 h (p_ofile p)) as (F & HF & Hffs & Hpipes & HcF).
  { done. } { done. } { done. } { change (sp s3) with x3. lia. } { change (sp s3) with x3. by rewrite Hpi. }
  { change (sp s3) with x3. unfold x3. rewrite proc_at_upd by (unfold x2; simpl; rewrite length_alter; lia). by rewrite Hcj. }
  { destruct Hcnt as [H1 H2 H3 H4 H5 H6]. by split. } { done. } { done. }
  unfold dup_files, for_upto. rewrite (bind_done _ _ _ _ _ HF). krun. change (sp s3) with x3. autorewrite with sys.
  change (sp (set_sf F ?y)) with (sp y). autorewrite with sys. rewrite proc_at_upd_ne by done. rewrite Hpi, Hcwd. unfold deref. krun.
  set (s4 := set_sf F _). set (F0 := upd_ino cwd (λ x, set_i_ref (i_ref x + 1) x) (ffs F)).
  assert (ffs F = set_um (tf_copied (p_trapframe p) tf m2) (ffs (sf s))) as HffsF by (rewrite Hffs; by destruct s as [? []]).
  assert (idup cwd (ffs F) = Done cwd F0 []) as Hidup by (apply idup_run; by rewrite HffsF).
  unfold on_fs. rewrite (bind_files _ _ s4 cwd (set_ffs F0 F)) by (by apply lift_done). krun.
  exists (set_ffs F0 F).
  set (x5 := upd_proc j (λ x, set_p_name (copy_name (p_name p) (p_name x)) x) (upd_proc j (set_p_cwd (Some cwd)) (upd_proc j (set_p_ofile (p_ofile p)) x3))).
  match goal with |- context [set_sp _ (set_sp _ ?y)] => change (set_sp _ (set_sp _ y)) with (set_sp x5 (set_sf (set_ffs F0 F) s)) end.
  assert (x5 = upd_proc j (λ c, set_p_parent (p_parent c) (set_p_state USED (born i p pid tf root c))) (set_nextpid n (hold me j x1))) as Hx5.
  { unfold x5, x3, x2. rewrite !upd_proc_upd. apply upd_proc_ext. rewrite <- Hcwd. by destruct (proc_at j (set_nextpid n (hold me j x1))). }
  assert (p_pid (proc_at j x5) = pid) as Hpid by (rewrite Hx5, proc_at_upd by (simpl; lia); done).
  autorewrite with sys. rewrite Hpid. rewrite (fork_publish j i pid x1 x5 (set_sf (set_ffs F0 F) s)); [|done|done| |by rewrite Hx5].
  - split; [|split_and!; [by destruct HcF; split|done|]].
    + f_equal. rewrite Hx5. change (set_lk ?l (upd_proc j ?f ?y)) with (upd_proc j f (set_lk l y)). rewrite upd_proc_upd. done.
    + simpl. unfold F0. rewrite HffsF. done.
  - rewrite Hx5. simpl. by rewrite length_alter.
Qed.

Lemma forker_touch s i h l nodes ds : forker s i h l nodes ds → forker (set_sp (touch (sp s)) s) i h l nodes ds.
Proof. intros [? ? ? ? ? ? ? ?]. split; try done. by apply calm_touch. Qed.

Lemma fork_run s i h l onodes ods : forker s i h l onodes ods →
  (∃ j s', fork me kend trampoline forkret_pc s = Done (nextpid (sp s)) s' [] ∧ forked s s' i j h l onodes ods) ∨
  (∃ s' l', fork me kend trampoline forkret_pc s = Done (-1) s' [] ∧ unforked s s' i l l' onodes ods).
Proof.
  intros Hf. pose proof (forker_touch _ _ _ _ _ _ Hf) as Hf0. destruct Hf as [Hc Hu (Hme & Hi & Hrun) Hsp [Hsz Hnp] [Htfp Htfl] (Hcnt & Hol & Hin & Hmax) (Hil & cwd & Hcwd & Hi32)].
  unfold fork. rewrite (mine_run i) by (done || apply Hc). set (s0 := set_sp (touch (sp s)) s) in *.
  pose proof (pspace_kinv _ _ _ _ _ _ _ _ Hsp) as Hk. pose proof (ki_kend _ _ _ Hk) as Hpos.
  destruct (allocproc_run me kend trampoline forkret_pc s0 l (fo_calm _ _ _ _ _ _ Hf0) (fo_clean _ _ _ _ _ _ Hf0) Hk (proj1 (ps_pages _ _ _ _ _ _ _ _ Hsp)))
    as [(j & s1 & tf & root & nodes & l1 & Hal & [(Hj & Hju & Hjk) (x1 & Hs & Hsp1) Hrest Hcsp Hpg Hfew Hmem])|(s1 & l1 & Hal & Hk1 & Hl1 & Hx1 & Hc1 & Hu1 & Hrest & Hp1 & Hp2 & Hwhy)].
  2:{ right. exists s1, l1. rewrite (bind_done _ _ _ _ _ Hal). split; [done|]. split; try done.
      - eapply pspace_other; [exact Hsp|done|apply (ki_pages _ _ _ Hk)|intros p Hp; by eapply pspace_sep| |done]. intros p. by rewrite Hl1.
      - destruct Hwhy as [Hwhy|Hwhy]; [by left|right; lia]. }
  rewrite (bind_done _ _ _ _ _ Hal). krun.
  assert (∀ k, proc_at k x1 = proc_at k (sp s)) as Hpx by (intros k; by rewrite (settled_proc _ _ _ Hs)).
  assert (calm x1) as Hcx by (eapply settled_calm; [|exact Hs]; by apply calm_touch).
  assert (touch x1 = touch (sp s)) as Htx by (destruct Hs as [->| ->]; simpl; by rewrite ?touch_touch).
  assert (i ≠ j) as Hij by (intros ->; change (sp s0) with (touch (sp s)) in Hju; change (proc_at j (touch (sp s))) with (proc_at j (sp s)) in Hju; congruence).
  pose proof (rd_len _ (cm_ready _ Hcx)) as Hlx.
  set (x2 := upd_proc j _ _) in Hsp1. rewrite Hsp1 in Hrest. rewrite Hsp1.
  assert (proc_at i x2 = proc_at i (sp s)) as Hpi by (unfold x2; rewrite proc_at_upd_ne by done; apply (Hpx i)).
  assert (proc_at j x2 = allocated forkret_pc (nextpid (sp s)) tf root (proc_at j (sp s))) as Hpj.
  { unfold x2. rewrite proc_at_upd by (simpl; lia). f_equal. apply (Hpx j). }
  rewrite Hpi.
  assert (forking kend (km s) (km s1) l onodes (p_pagetable (proc_at i (sp s))) ods (p_trapframe (proc_at i (sp s))) nodes root l1 tf trampoline) as Hfk by done.
  destruct (fork_copy kend Hpos _ _ _ _ _ _ _ _ _ _ _ _ Hfk (p_sz (proc_at i (sp s))) Hsz Hnp) as (r & m2 & nodes' & l2 & new & Hcp & Hx2 & Hc2 & Hpg2 & Hr).
  rewrite Hpj. cbn [p_pagetable allocated set_p_context set_p_pagetable]. rewrite (bind_mem _ _ _ _ _ Hcp). rewrite Hrest. autorewrite with sys.
  destruct (Hu j Hj Hju) as (_ & _ & Hsz0 & Hof0). destruct Hr as [(-> & Hlen & Hcps)|(-> & -> & Hlen)].
  - left. change (0 <? 0) with false. cbv iota. fold (fork_tail i j (proc_at i (sp s)) (allocated forkret_pc (nextpid (sp s)) tf root (proc_at j (sp s)))).
    destruct (fork_tail_run s i j h x1 (i32 (nextpid (sp s) + 1)) m2 tf root (nextpid (sp s)) cwd) as (F & HF & HcF & Hpipes & Hffs);
      rewrite ?Hpx; try done. rewrite Hpx in HF, HcF, Hffs.
    destruct (fork_tf kend _ _ _ _ _ _ _ _ _ _ _ _ Hfk m2 nodes' l2 new) as (Hx3 & Hc3 & Hp3 & Hcp3 & Hown & Htfb); try done.
    exists j. eexists. split; [rewrite <- Hpj; exact HF|]. set (s' := set_sf F _).
    assert (km s' = tf_copied (p_trapframe (proc_at i (sp s))) tf m2) as Hkm by (unfold km; simpl; by rewrite Hffs).
    split; rewrite ?Hkm; [done| |done|by exists cwd].
    exists nodes', root, new, tf, l2. split; [done|]. by rewrite <- Htx.
  - right. change (-1 <? 0) with true. cbv iota.
    destruct (fork_undo kend Hpos _ _ _ _ _ _ _ _ _ _ _ _ Hfk m2 nodes' l2) as (m3 & m4 & l4 & Hkf & Hfp & Hl4 & Hx4 & Hp4 & Hown); [done|by rewrite app_nil_r in Hpg2|done|].
    destruct (page_ok_u64 kend tf Hpos (proj1 (fk_tf kend _ _ _ _ _ _ _ _ _ _ _ _ Hfk))) as [_ Htf0].
    pose proof (vm_pgt _ _ _ _ _ (us_vm _ _ _ _ _ _ (ps_user _ _ _ _ _ _ _ _ Hc2))) as Hpgt.
    assert (0 < root) as Hroot0 by (eapply node_nonzero; [done|exact Hpgt|apply Hpgt]).
    destruct (alloc_fail_table (touch (sp s)) x1 j (allocated forkret_pc (nextpid (sp s)) tf root) (i32 (nextpid (sp s) + 1))) as (H1 & H2 & H3 & H4);
      [done|by apply calm_touch|done..|].
    eexists _, l4. split.
    { eapply (alloc_fail me kend (-1) j x1 s (allocated forkret_pc (nextpid (sp s)) tf root) (i32 (nextpid (sp s) + 1)) m2 m3 m4); [done|done| |].
      - simpl. rewrite (proj2 (Z.eqb_neq tf 0) Htf0). exact Hkf.
      - simpl. rewrite (proj2 (Z.eqb_neq root 0)) by lia. rewrite Hpx, Hsz0. exact Hfp. }
    split; autorewrite with sys; try done. right. lia.
Qed.
End fork.

(** ** Examples *)

(** A machine with 32 free pages. *)
Definition kend1 : Z := PHYSTOP - 32 * 4096.
Lemma kend1_ok : 0 < kend1 ≤ PHYSTOP.
Proof. unfold kend1, PHYSTOP, KERNBASE. lia. Qed.

(** A process's memory, with one page of user memory. *)
Lemma memory_example : ∃ m nodes root l q tf, pspace kend1 m nodes root l [(q, 22)] tramp0 tf ∧ page_ok kend1 tf ∧ tf ∉ l ∧ (9 ≤ length l)%nat.
Proof.
  destruct (kinit_run (E:=unit) kend1 (mkkmem false 0 ∅) kend1_ok eq_refl) as (m0 & _ & Hk).
  assert (length (reverse (all_pages kend1)) = 32%nat) as Hlen by (rewrite length_reverse; reflexivity).
  destruct (reverse (all_pages kend1)) as [|tf l0]; [done|]. destruct (kalloc_cons (E:=unit) kend1 m0 tf l0 Hk) as [_ Hk1]. set (m1 := mkkmem _ _ _) in *.
  pose proof (ki_pages _ _ _ Hk) as Hpg. apply Forall_cons in Hpg as [Htf _]. pose proof (ki_nodup _ _ _ Hk) as Hnd. apply NoDup_cons in Hnd as [Htfl _].
  destruct (proc_pagetable_run (E:=unit) kend1 (proj1 kend1_ok) m1 l0 tramp0 tf Hk1 tramp0_page (page_ok_pte _ _ (proj1 kend1_ok) Htf))
    as (root & m2 & l1 & _ & _ & [(_ & Hl & nodes & Hp & Hperm)|(_ & _ & _ & ?)]); [|simpl in *; lia].
  destruct l1 as [|q l]; [simpl in *; lia|].
  destruct (add_page (E:=unit) kend1 (proj1 kend1_ok) m2 nodes root q l [] zeros 22 (ps_user _ _ _ _ _ _ _ _ Hp))
    as (m3 & r & m4 & nodes' & l' & _ & _ & _ & _ & _ & Hpg & _ & _ & Htop & Hlen' & Hres);
    [apply zeros_length|simpl; rewrite TRAPFRAME_eq; unfold PGSIZE; lia|split; [lia|done]|].
  destruct Hres as [[_ Hu]|(_ & -> & ? & _)]; [|simpl in *; lia].
  exists m4, nodes', root, l', q, tf. split_and!; [by eapply pspace_uspace_kept|done| |simpl in *; lia].
  intros Hin. apply Htfl. rewrite <- Hperm. simpl. right. rewrite <- Hpg. apply elem_of_app. by left.
Qed.

(** A machine on which only process 0, with one open file, runs. *)
Definition runner (root tf : Z) (f : nat) : proc :=
  mkproc RUNNING A_null 0 0 1 10 None 0 4096 root tf context0 (Some f :: replicate (NOFILE - 1) None) (Some 0%nat) (replicate 16 0).
Definition machine (m : kmem) (F : filest kmem) (p : proc) : sys :=
  mksys (set_c_proc (Some 0%nat) (with_procs [p])) (set_ffs (set_um m (ffs F)) F).

Lemma with_procs_at p i : (0 < i)%nat → proc_at i (with_procs [p]) = proc_at i boot_state.
Proof.
  intros Hi. unfold proc_at. change (procs (with_procs [p])) with ([p] ++ drop 1 (procs boot_state)).
  rewrite !list_lookup_total_alt, lookup_app_r by (cbn [length]; lia). rewrite lookup_drop. do 2 f_equal. cbn [length]. lia.
Qed.
Lemma boot_unused i : (i < NPROC)%nat → let c := proc_at i boot_state in
  p_state c = UNUSED ∧ p_pid c = 0 ∧ p_trapframe c = 0 ∧ p_pagetable c = 0 ∧ p_sz c = 0 ∧ p_ofile c = replicate NOFILE None.
Proof.
  intros Hi c. assert (forallb (λ i, let c := proc_at i boot_state in
    bool_decide (p_state c = UNUSED) && (p_pid c =? 0) && (p_trapframe c =? 0) && (p_pagetable c =? 0) && (p_sz c =? 0) &&
    bool_decide (p_ofile c = replicate NOFILE None)) (seq 0 NPROC) = true) as Hall by (vm_compute; reflexivity).
  rewrite forallb_forall in Hall. assert (In i (seq 0 NPROC)) as Hin by (apply in_seq; lia). specialize (Hall i Hin). cbv zeta in Hall. fold c in Hall.
  repeat match type of Hall with _ && _ = true => apply andb_true_iff in Hall as [Hall ?] end.
  repeat match goal with H : (_ =? _) = true |- _ => apply Z.eqb_eq in H | H : bool_decide _ = true |- _ => apply bool_decide_eq_true in H end.
  clearbody c. done.
Qed.

Lemma proc_at_c v r k : proc_at k (set_c_proc v r) = proc_at k r.
Proof. done. Qed.
Lemma boot_calm : calm boot_state.
Proof. split; [exact boot_ready|apply lock_freeb_free; vm_compute; done|apply lock_freeb_free; vm_compute; done]. Qed.
Lemma calm_procs v l x : calm x → length l = NPROC → calm (set_c_proc v (set_procs l x)).
Proof. intros [[H1 H2 H3 H4] H5 H6] Hl. split; [split|..]; done. Qed.
#[local] Opaque boot_state.

Lemma forker_example : ∃ s h l nodes q, forker kend1 tramp0 s 0 h l nodes [(q, 22)] ∧ (9 ≤ length l)%nat ∧
  (∀ k, (k < NPROC)%nat → p_state (proc_at k (sp s)) = UNUSED ↔ k ≠ 0%nat) ∧ (∀ k, (k < NPROC)%nat → p_pid (proc_at k (sp s)) = 0 ↔ k ≠ 0%nat).
Proof.
  destruct memory_example as (m & nodes & root & l & q & tf & Hp & Htf & Htfl & Hlen).
  set (F0 := files0 (mkfsst (mklogsys log0 (mkbcache false [] ∅)) false (replicate 50 (mkinode 1 1 1 (mksleeplock 0 false "inode" 0) 0 0 0 0 0 0 [])) (mksuperblock 0 0 0 0 0 0 0 0) m)).
  destruct (filealloc_run F0 [] (files0_counted _)) as [(f & _ & _ & _ & Hc)|(_ & Hf)]; [done| |].
  2:{ exfalso. specialize (Hf 0%nat ltac:(unfold NFILE; lia)). by apply not_elem_of_nil in Hf. }
  exists (machine m (upd_file f (set_f_ref 1) F0) (runner root tf f)), [f], l, nodes, q.
  set (p := runner root tf f). set (s := machine _ _ _). set (F := upd_file f _ F0) in *.
  assert (proc_at 0 (sp s) = p) as Hp0 by (exact eq_refl).
  assert (∀ k, (0 < k)%nat → proc_at k (sp s) = proc_at k boot_state) as Hpk.
  { intros k Hk. change (sp s) with (set_c_proc (Some 0%nat) (with_procs [p])). rewrite proc_at_c. exact (with_procs_at p k Hk). }
  assert (∀ k, (k < NPROC)%nat → p_state (proc_at k (sp s)) = UNUSED ↔ k ≠ 0%nat) as Hun.
  { intros k Hk. destruct (decide (k = 0%nat)) as [->|Hk0]; [by rewrite Hp0|]. rewrite Hpk by lia. by destruct (boot_unused k Hk) as [-> _]. }
  split; [|split; [exact Hlen|split; [exact Hun|]]].
  2:{ intros k Hk. destruct (decide (k = 0%nat)) as [->|Hk0]; [by rewrite Hp0|]. rewrite Hpk by lia. by destruct (boot_unused k Hk) as (_ & -> & _). }
  split; rewrite ?Hp0.
  - apply calm_procs; [exact boot_calm|]. change (length ([p] ++ drop 1 (procs boot_state)) = NPROC).
    rewrite length_app, length_drop, (rd_len _ boot_ready). unfold NPROC. cbn [length]. lia.
  - intros k Hk Hku. apply Hun in Hku; [|done]. rewrite Hpk by lia. destruct (boot_unused k Hk) as (_ & _ & ?). done.
  - split_and!; [exact eq_refl|unfold NPROC; lia|done].
  - exact Hp.
  - change (p_sz p) with 4096. split; [rewrite TRAPFRAME_eq; lia|done].
  - split; [exact Htf|exact Htfl].
  - split_and!; [by destruct Hc; split|done| |done].
    intros g Hg. change (held_by (p_ofile p)) with [f] in Hg. exact Hg.
  - split; [exact eq_refl|]. exists 0%nat. split; [exact eq_refl|].
    change (i_ref (ino 0 (ffs (sf s)))) with 1. unfold is_i32, INT_MIN, INT_MAX. lia.
Qed.

(** C4. [fork] clones the calling process. It returns the next pid, and the
    first unused slot of the table then holds a runnable child of the caller
    with a private copy of every user page, the caller's trap frame except that
    [a0] is 0, the caller's open files and current directory, each counted once
    more, and its name; the caller and the other processes keep their memory and
    their slots. Or it returns -1, because no slot or too few pages are free,
    and leaves no trace but a pid that is not used again: every page is free
    again, and files, directory and table are as before. It always returns, without a panic. *)
Theorem fork_correct me kend trampoline forkret_pc s i h l nodes ds : forker kend trampoline s i h l nodes ds →
  (∃ j s', fork me kend trampoline forkret_pc s = Done (nextpid (sp s)) s' [] ∧
     forked kend trampoline forkret_pc s s' i j h l nodes ds) ∨
  (∃ s' l', fork me kend trampoline forkret_pc s = Done (-1) s' [] ∧ unforked kend trampoline s s' i l l' nodes ds).
Proof. apply fork_run. Qed.

Lemma fork_correct_witness : ∃ s j h l nodes ds s', fork 0 kend1 tramp0 4096 s = Done (nextpid (sp s)) s' [] ∧
  forked kend1 tramp0 4096 s s' 0 j h l nodes ds.
Proof.
  destruct forker_example as (s & h & l & nodes & q & Hf & Hl & Hun & _).
  destruct (fork_correct 0 kend1 tramp0 4096 s 0 h l nodes [(q, 22)] Hf) as [(j & s' & Hr & Hd)|(s' & l' & _ & [_ _ _ _ _ [Hno|Hfew]])].
  - exists s, j, h, l, nodes, [(q, 22)], s'. done.
  - exfalso. apply (Hno 1%nat); [unfold NPROC; lia|]. apply Hun; [unfold NPROC; lia|lia].
  - simpl in Hfew. lia.
Defined.

(** ** Killing pid 0 *)

(** What [kill] does to the process it finds. *)
Definition struck (p : proc) : proc :=
  (if bool_decide (p_state p = SLEEPING) then set_p_state RUNNABLE else id) (set_p_killed 1 p).

Lemma kill1_run me pid i x : calm x → (i < NPROC)%nat →
  kill1 me pid i x = if p_pid (proc_at i x) =? pid then Done (Some 0) (upd_proc i struck (touch x)) [] else Done None (touch x) [].
Proof.
  intros Hc Hi. pose proof (cm_ready _ Hc) as Hr. unfold kill1. rewrite (ready_acquire me i) by done. mrun. change (proc_at i (set_lk _ x)) with (proc_at i x).
  destruct (p_pid (proc_at i x) =? pid).
  - mrun. rewrite bind_if. case_bool_decide as Hs; mrun; rewrite ?upd_proc_upd;
      (erewrite bind_done; [|by apply section_run]); unfold ret; f_equal; apply upd_proc_ext; unfold struck;
      change (proc_at i (touch x)) with (proc_at i x).
    + by rewrite bool_decide_true.
    + by rewrite bool_decide_false.
  - erewrite bind_done; [|by apply section_run_id]. done.
Qed.

Lemma kill_search me pid n i j x : calm x → (i + n = NPROC)%nat → (i ≤ j < NPROC)%nat →
  p_pid (proc_at j x) = pid → (∀ k, (i ≤ k < j)%nat → p_pid (proc_at k x) ≠ pid) →
  for_find_from n i (kill1 me pid) x = Done (Some 0) (upd_proc j struck (touch x)) [].
Proof.
  revert i x. induction n as [|n IH]; intros i x Hc Hn Hij Hj Hk; [lia|]. cbn [for_find_from].
  pose proof (kill1_run me pid i x Hc ltac:(lia)) as Hrun. destruct (decide (i = j)) as [->|Hne].
  - rewrite Hj, Z.eqb_refl in Hrun. by rewrite (bind_done _ _ _ _ _ Hrun).
  - rewrite (proj2 (Z.eqb_neq _ _) (Hk i ltac:(lia))) in Hrun. rewrite (bind_done _ _ _ _ _ Hrun).
    rewrite (IH (S i) (touch x)); [by rewrite touch_touch|by apply calm_touch|lia|lia|done|]. intros k Hk'. apply (Hk k). lia.
Qed.

(** [kill(0)] hits an unused slot, whose pid is 0, and [allocproc] does not
    reset [killed]: the next process [fork] makes is killed before it runs. *)
Theorem kill_zero_dooms_fork me kend trampoline forkret_pc s i h l nodes ds j : forker kend trampoline s i h l nodes ds →
  (6 + 3 * length ds ≤ length l)%nat → (j < NPROC)%nat → p_state (proc_at j (sp s)) = UNUSED →
  p_pid (proc_at j (sp s)) = 0 → (∀ k, (k < j)%nat → p_state (proc_at k (sp s)) ≠ UNUSED ∧ p_pid (proc_at k (sp s)) ≠ 0) →
  ∃ s1 s2, on_procs (kill me 0) s = Done 0 s1 [] ∧ fork me kend trampoline forkret_pc s1 = Done (nextpid (sp s)) s2 [] ∧
    p_state (proc_at j (sp s2)) = RUNNABLE ∧ p_pid (proc_at j (sp s2)) = nextpid (sp s) ∧ p_killed (proc_at j (sp s2)) = 1.
Proof.
  intros Hf Hl Hj Hju Hpid Hbefore. set (x1 := upd_proc j struck (touch (sp s))). set (s1 := set_sp x1 s).
  assert (on_procs (kill me 0) s = Done 0 s1 []) as Hkill.
  { unfold on_procs, kill, for_find. erewrite bind_done; [|apply (kill_search me 0 NPROC 0 j); [apply Hf|done|lia|done|]]; [done|].
    intros k Hk. apply Hbefore. lia. }
  pose proof (rd_len _ (cm_ready _ (fo_calm _ _ _ _ _ _ _ _ Hf))) as Hlen.
  assert (proc_at j x1 = set_p_killed 1 (proc_at j (sp s))) as Hpj.
  { unfold x1. rewrite proc_at_upd by (simpl; lia). change (proc_at j (touch (sp s))) with (proc_at j (sp s)). unfold struck. by rewrite bool_decide_false by congruence. }
  assert (∀ k, k ≠ j → proc_at k x1 = proc_at k (sp s)) as Hpk by (intros k Hk; unfold x1; by rewrite proc_at_upd_ne by done).
  assert (i ≠ j) as Hij by (intros ->; destruct (fo_me _ _ _ _ _ _ _ _ Hf) as (_ & _ & ?); congruence).
  assert (forker kend trampoline s1 i h l nodes ds) as Hf1.
  { destruct Hf as [H1 H2 (H3 & H3' & H3'') H4 H5 H6 H7 H8]. split; change (sp s1) with x1; rewrite ?(Hpk i) by done; try done.
    - apply calm_upd. by apply calm_touch.
    - intros k Hk Hku. destruct (decide (k = j)) as [->|]; [rewrite Hpj; exact (H2 j Hk Hju)|]. rewrite Hpk in * by done. by apply H2. }
  destruct (fork_run me kend trampoline forkret_pc s1 i h l nodes ds Hf1) as [(j' & s2 & Hr & Hd)|(s2 & l' & _ & Hd)].
  - exists s1, s2. split; [done|]. split; [exact Hr|]. destruct Hd as [(Hj' & Hju' & Hfirst) (nodes' & root & ds' & tf & l' & _ & Hsp) _ _].
    change (sp s1) with x1 in *. assert (j' = j) as ->.
    { destruct (lt_eq_lt_dec j' j) as [[Hlt|]|Hgt]; [|done|].
      - exfalso. rewrite Hpk in Hju' by lia. by destruct (Hbefore j' Hlt).
      - exfalso. apply (Hfirst j Hgt). by rewrite Hpj. }
    assert (proc_at j (sp s2) = born forkret_pc i (proc_at i x1) (nextpid x1) tf root (proc_at j x1)) as ->; [|by rewrite Hpj].
    rewrite Hsp. rewrite proc_at_upd; [done|]. unfold x1. simpl. by rewrite length_alter, Hlen.
  - exfalso. destruct (uf_why _ _ _ _ _ _ _ _ _ Hd) as [Hno|Hfew]; [|lia]. apply (Hno j Hj). change (sp s1) with x1. by rewrite Hpj.
Qed.
