(* ===== verification/Fd.v ===== *)
(** File descriptors: the table [ofile] of a process and its allocation
    ([fdalloc] of [sysfile.c]). *)
From Stdlib Require Import ZArith Lia.
From stdpp Require Import base list gmap strings.
From S2P Require Import Prelude Machine.


Section fd.
Context {X : Type}.

(** The descriptors of a process: what each refers to, if it is open. *)
Abbreviation fds := (list (option X)).

(** [fdalloc(f)]: the descriptor and the new table, if one is free. *)
Fixpoint fdalloc (l : fds) (f : X) : option (nat * fds) :=
  match l with
  | [] => None
  | None :: l' => Some (0%nat, Some f :: l')
  | Some x :: l' => match fdalloc l' f with Some (fd, l'') => Some (S fd, Some x :: l'') | None => None end
  end.

(** [argfd] and the last steps of [sys_close] and [sys_dup]. *)
Definition fdget (l : fds) (n : Z) : option X :=
  if (n <? 0) || (Z.of_nat NOFILE <=? n) then None else mjoin (l !! Z.to_nat n).
Definition fdclose (l : fds) (fd : nat) : fds := <[fd := None]> l.
Definition fddup (l : fds) (n : Z) : option (nat * fds) :=
  match fdget l n with Some f => fdalloc l f | None => None end.

(** [fdalloc] takes the lowest descriptor that is free. *)
Lemma fdalloc_spec l f fd l' : fdalloc l f = Some (fd, l') ↔
  l !! fd = Some None ∧ (∀ k, (k < fd)%nat → ∃ x, l !! k = Some (Some x)) ∧ l' = <[fd := Some f]> l.
Proof.
  revert fd l'. induction l as [|[x|] l IH]; intros fd l'; simpl.
  - split; [done|]. by intros (? & _).
  - destruct (fdalloc l f) as [[fd0 l0]|] eqn:Hl.
    + destruct (IH fd0 l0) as [(H1 & H2 & ->) _]; [done|]. split.
      * intros [= <- <-]. split_and!; [done| |done]. intros [|k] Hk; [by exists x|]. apply H2. lia.
      * intros (H3 & H4 & ->). destruct fd as [|fd]; [done|]. simpl in H3.
        destruct (IH fd (<[fd := Some f]> l)) as [_ Hb].
        assert (Some (fd0, <[fd0 := Some f]> l) = Some (fd, <[fd := Some f]> l)) as Heq.
        { apply Hb. split_and!; [done| |done]. intros k Hk. apply (H4 (S k)). lia. }
        by injection Heq as <-.
    + split; [done|]. intros (H3 & H4 & ->). destruct fd as [|fd]; [done|].
      destruct (IH fd (<[fd := Some f]> l)) as [_ Hb].
      assert (None = Some (fd, <[fd := Some f]> l)) as Heq; [|done]. apply Hb. split_and!; [done| |done]. intros k Hk. apply (H4 (S k)). lia.
  - split.
    + intros [= <- <-]. split_and!; [done|intros; lia|done].
    + intros (H1 & H2 & ->). destruct fd as [|fd]; [done|]. destruct (H2 0%nat ltac:(lia)) as [x Hx]. done.
Qed.

(** It fails exactly when all are open. *)
Lemma fdalloc_none l f : fdalloc l f = None ↔ ∀ k, (k < length l)%nat → ∃ x, l !! k = Some (Some x).
Proof.
  induction l as [|[x|] l IH]; simpl.
  - split; [intros; lia|done].
  - destruct (fdalloc l f) as [[]|].
    + split; [done|]. intros H. destruct IH as [_ IH]. discriminate IH. intros k Hk. apply (H (S k)). lia.
    + split; [|done]. intros _ [|k] Hk; [by exists x|]. apply IH; [done|lia].
  - split; [done|]. intros H. destruct (H 0%nat) as [x Hx]; [lia|done].
Qed.

(** Closing a descriptor and allocating reuses it, when those before are open. *)
Lemma fdalloc_reuse l fd f : (fd < length l)%nat → (∀ k, (k < fd)%nat → ∃ x, l !! k = Some (Some x)) →
  fdalloc (fdclose l fd) f = Some (fd, <[fd := Some f]> l).
Proof.
  intros Hfd Hk. apply fdalloc_spec. unfold fdclose. split_and!.
  - by apply list_lookup_insert_eq.
  - intros k Hlt. rewrite list_lookup_insert_ne by lia. by apply Hk.
  - by rewrite list_insert_insert_eq.
Qed.
End fd.
