(* ===== verification/Syscall.v ===== *)
(** Arguments of system calls ([syscall.c]) and the system calls on processes
    ([sysproc.c]). *)
From Stdlib Require Import ZArith Lia.
From stdpp Require Import base list gmap strings.
From S2P Require Import Prelude Machine Random Spinlock Proc Mem Str Kalloc Vm Sleeplock Bio Blk Log UserMem Fs Pipe File Life.

(** How a system call ends: with a value, asleep on a channel having done [i]
    bytes (a pipe or a device), asleep in [wait] or [sleep] with what resumes
    it, or not at all ([exit]). *)
Inductive sysret : Type := Value (v : Z) | SleepsIO (c : addr) (i : Z) | SleepsProc (ie : bool) | Exited.
Definition of_turn (t : turn) : sysret := match t with Returned v => Value v | Blocked c i => SleepsIO c i end.

Section syscall.
Context (me : nat) (kend trampoline forkret_pc : Z).

(** The calling process. *)
Definition mp : K proc := let! i := mine in pr i.

(** ** Arguments *)

Definition load_tf (tf off : Z) : K Z := on_mem (gets (λ s, load64 (pm s) (tf + off))).
Definition TF_a2 : Z := 128.
Definition TF_a3 : Z := 136.
Definition TF_a4 : Z := 144.
Definition TF_a5 : Z := 152.
Definition TF_a7 : Z := 168.

Definition fetchaddr (addr : Z) : K (option Z) :=
  let! p := mp in
  if (p_sz p <=? addr) || (p_sz p <? u64 (addr + 8)) then ret None else
  let! (bs, r) := on_mem (copyin (p_pagetable p) addr 8) in
  if negb (r =? 0) then ret None else ret (Some (le_value bs)).

(** [strlen] of a buffer that holds a NUL. *)
Fixpoint strlen_bytes (bs : list Z) : nat :=
  match bs with [] => O | c :: bs' => if c =? 0 then O else S (strlen_bytes bs') end.

(** The string in [buf], without its NUL, or -1; [strlen(buf)] is its length. *)
Definition fetchstr (addr max : Z) : K (option (list Z)) :=
  let! p := mp in
  let! (bs, r) := on_mem (copyinstr (p_pagetable p) addr max) in
  if r <? 0 then ret None else ret (Some (take (strlen_bytes bs) bs)).

Definition argraw (n : Z) : K Z :=
  let! p := mp in
  let tf := p_trapframe p in
  if n =? 0 then load_tf tf TF_a0 else if n =? 1 then load_tf tf TF_a1 else if n =? 2 then load_tf tf TF_a2
  else if n =? 3 then load_tf tf TF_a3 else if n =? 4 then load_tf tf TF_a4 else if n =? 5 then load_tf tf TF_a5
  else panic "argraw".
Definition argint (n : Z) : K Z := let! v := argraw n in ret (i32 v).
Definition argaddr (n : Z) : K Z := argraw n.
Definition argstr (n max : Z) : K (option (list Z)) := let! addr := argaddr n in fetchstr addr max.

(** ** System calls on processes *)

Definition sys_exit : K sysret :=
  let! n := argint 0 in
  exit me kend n ;;
  ret Exited.
Definition sys_getpid : K sysret := let! p := mp in ret (Value (p_pid p)).
Definition sys_fork : K sysret := let! r := fork me kend trampoline forkret_pc in ret (Value r).
Definition of_wait (r : Z + bool) : sysret := match r with inl v => Value v | inr ie => SleepsProc ie end.
Definition sys_wait : K sysret := let! p := argaddr 0 in let! r := wait me kend p in ret (of_wait r).
Definition sys_sbrk : K sysret :=
  let! n := argint 0 in
  let! p := mp in
  let! r := growproc kend n in
  if r <? 0 then ret (Value (-1)) else ret (Value (p_sz p)).

(** The loop of [sys_sleep], [tickslock] held; [n] is compared as an unsigned
    number. *)
Definition sleep_loop (n ticks0 : Z) : K sysret :=
  let! now := on_procs (gets ticks) in
  if u32 (now - ticks0) <? u32 n then
    let! i := mine in
    let! k := on_procs (killed me i) in
    if negb (k =? 0) then on_procs (release_lk me L_ticks) ;; ret (Value (-1))
    else let! ie := on_procs (Proc.sleep me A_ticks L_ticks) in ret (SleepsProc ie)
  else on_procs (release_lk me L_ticks) ;; ret (Value 0).
Definition sys_sleep : K sysret :=
  let! n := argint 0 in
  let n := if n <? 0 then 0 else n in
  on_procs (acquire_lk me L_ticks) ;;
  let! ticks0 := on_procs (gets ticks) in
  sleep_loop n ticks0.
(** After a wakeup. *)
Definition sys_sleep_again (i : nat) (n ticks0 : Z) (ie : bool) : K sysret :=
  on_procs (sleep_back me i L_ticks ie) ;;
  sleep_loop n ticks0.

Definition sys_kill : K sysret := let! pid := argint 0 in let! r := on_procs (kill me pid) in ret (Value r).
Definition sys_uptime : K sysret :=
  on_procs (acquire_lk me L_ticks) ;;
  let! xticks := on_procs (gets ticks) in
  on_procs (release_lk me L_ticks) ;;
  ret (Value xticks).
Definition sys_settickets : K sysret :=
  let! n := argint 0 in
  if n <? 1 then ret (Value (-1)) else
  on_procs (settickets me n) ;;
  ret (Value 0).
Definition sys_setsched : K sysret :=
  let! mode := argint 0 in
  if negb (mode =? 0) && negb (mode =? 1) then ret (Value (-1)) else
  on_procs (modify (set_scheduler_mode mode)) ;;
  ret (Value 0).
End syscall.
