(* ===== verification/Exec.v ===== *)
(** [exec] ([exec.c], [elf.h]). *)
From Stdlib Require Import ZArith Lia.
From stdpp Require Import base list gmap strings.
From S2P Require Import Prelude Machine Random Spinlock Proc Mem Str Kalloc Vm Sleeplock Bio Blk Log UserMem Fs Pipe File Life Syscall.

(** ** The ELF format *)

Definition ELF_MAGIC : Z := 0x464C457F.
Definition ELF_PROG_LOAD : Z := 1.
Definition ELFHDR_SIZE : Z := 64.
Definition PROGHDR_SIZE : Z := 56.

(** The fields of [struct elfhdr] and [struct proghdr] that [exec] uses. *)
Record elfhdr := mkelfhdr { elf_magic : Z; elf_entry : Z; elf_phoff : Z; elf_phnum : Z }.
Record proghdr := mkproghdr { ph_type : Z; ph_flags : Z; ph_off : Z; ph_vaddr : Z; ph_filesz : Z; ph_memsz : Z }.
Definition get64 (off : nat) (l : list Z) : Z := le_value (slice off 8 l).
Definition get_elfhdr (l : list Z) : elfhdr := mkelfhdr (get32 0 l) (get64 24 l) (get64 32 l) (get16 56 l).
Definition get_proghdr (l : list Z) : proghdr :=
  mkproghdr (get32 0 l) (get32 4 l) (get64 8 l) (get64 16 l) (get64 32 l) (get64 40 l).

Definition flags2perm (flags : Z) : Z :=
  let perm := if negb (Z.land flags 1 =? 0) then PTE_X else 0 in
  if negb (Z.land flags 2 =? 0) then Z.lor perm PTE_W else perm.

Section exec.
Context (me : nat) (kend trampoline : Z).

(** Run a routine of the file system for the calling process. *)
Definition fs_of {A} (m : UserMem kmem → Z → M event (fsst kmem) A) : K A :=
  let! p := mp in on_fs me (m (vm_user (p_pagetable p)) (p_pid p)).

(** [readi] into the kernel. *)
Definition readk (ip : nat) (off n : Z) : K (Z * list Z) := fs_of (λ _ pid, readi pid ip KDst off n).

(** ** Loading *)

(** The loop of [loadseg] from [i]. *)
Fixpoint loadseg_loop (fuel : nat) (pagetable va : Z) (ip : nat) (offset sz i : Z) : K Z :=
  if negb (i <? sz) then ret 0 else
  match fuel with
  | O => λ s, Spin s []
  | S f =>
      let! pa := on_mem (walkaddr pagetable (u64 (va + i))) in
      if pa =? 0 then panic "loadseg: address should exist" else
      let n := if sz - i <? PGSIZE then sz - i else PGSIZE in
      let! (r, bs) := readk ip (u32 (offset + i)) n in
      on_mem (modify (upd_pm (write_bytes pa bs))) ;;
      if negb (r =? n) then ret (-1) else loadseg_loop f pagetable va ip offset sz (u32 (i + PGSIZE))
  end.
Definition loadseg (pagetable va : Z) (ip : nat) (offset sz : Z) : K Z :=
  loadseg_loop (Z.to_nat (sz / PGSIZE + 1)) pagetable va ip offset sz 0.

(** The loop of [exec] over the program headers: the size it reaches and
    whether it succeeds. *)
Fixpoint load_segments (n : nat) (pagetable : Z) (ip : nat) (off sz : Z) : K (Z * bool) :=
  match n with
  | O => ret (sz, true)
  | S n' =>
      let! (r, bs) := readk ip (u32 off) PROGHDR_SIZE in
      if negb (r =? PROGHDR_SIZE) then ret (sz, false) else
      let ph := get_proghdr bs in
      let next := i32 (off + PROGHDR_SIZE) in
      if negb (ph_type ph =? ELF_PROG_LOAD) then load_segments n' pagetable ip next sz else
      if ph_memsz ph <? ph_filesz ph then ret (sz, false) else
      if u64 (ph_vaddr ph + ph_memsz ph) <? ph_vaddr ph then ret (sz, false) else
      if negb (ph_vaddr ph mod PGSIZE =? 0) then ret (sz, false) else
      let! sz1 := on_mem (uvmalloc kend pagetable sz (u64 (ph_vaddr ph + ph_memsz ph)) (flags2perm (i32 (ph_flags ph)))) in
      if sz1 =? 0 then ret (sz, false) else
      let! r := loadseg pagetable (ph_vaddr ph) ip (u32 (ph_off ph)) (u32 (ph_filesz ph)) in
      if r <? 0 then ret (sz1, false) else
      load_segments n' pagetable ip next sz1
  end.

(** ** The stack *)

(** [sp -= sp % 16]. *)
Definition align16 (sp : Z) : Z := sp - sp mod 16.

(** The loop of [exec] that pushes the argument strings: the stack pointer and
    the pointers for [argv], or an error. *)
Fixpoint push_args (argv : list (list Z)) (pagetable stackbase argc sp : Z) (ustack : list Z) : K (option (Z * list Z)) :=
  match argv with
  | [] => ret (Some (sp, ustack))
  | a :: argv' =>
      if Z.of_nat MAXARG <=? argc then ret None else
      let sp := align16 (u64 (sp - (Z.of_nat (length a) + 1))) in
      if sp <? stackbase then ret None else
      let! r := on_mem (copyout pagetable sp (a ++ [0])) in
      if r <? 0 then ret None else
      push_args argv' pagetable stackbase (argc + 1) sp (ustack ++ [sp])
  end.

(** The part of a path after the last slash. *)
Fixpoint last_elem (path last : list Z) : list Z :=
  match path with [] => last | c :: path' => last_elem path' (if c =? SLASH then path' else last) end.

(** ** exec *)

Definition exec_bad (pagetable sz : Z) (ip : option nat) : K Z :=
  (if negb (pagetable =? 0) then on_mem (proc_freepagetable kend pagetable sz) else ret tt) ;;
  match ip with
  | Some ip => fs_of (λ _ pid, iunlockput pid ip) ;; fs_of (λ _ pid, flog (end_op pid)) ;; ret (-1)
  | None => ret (-1)
  end.

(** From the stack to the end, the program loaded into [pagetable]. *)
Definition exec_stack (path : list Z) (argv : list (list Z)) (entry pagetable sz : Z) : K Z :=
  let! i := mine in
  let! p := pr i in
  let oldsz := p_sz p in
  let sz := PGROUNDUP sz in
  let! sz1 := on_mem (uvmalloc kend pagetable sz (u64 (sz + (USERSTACK + 1) * PGSIZE)) PTE_W) in
  if sz1 =? 0 then exec_bad pagetable sz None else
  let sz := sz1 in
  on_mem (uvmclear pagetable (u64 (sz - (USERSTACK + 1) * PGSIZE))) ;;
  let stackbase := u64 (sz - USERSTACK * PGSIZE) in
  let! pushed := push_args argv pagetable stackbase 0 sz [] in
  match pushed with
  | None => exec_bad pagetable sz None
  | Some (sp, ustack) =>
      let argc := Z.of_nat (length argv) in
      let sp := align16 (u64 (sp - (argc + 1) * 8)) in
      if sp <? stackbase then exec_bad pagetable sz None else
      let! r := on_mem (copyout pagetable sp (concat (le_bytes 8 <$> ustack ++ [0]))) in
      if r <? 0 then exec_bad pagetable sz None else
      store_tf (p_trapframe p) TF_a1 sp ;;
      upd i (λ p, set_p_name (copy_name (last_elem path path ++ [0]) (p_name p)) p) ;;
      upd i (set_p_pagetable pagetable) ;;
      upd i (set_p_sz sz) ;;
      store_tf (p_trapframe p) TF_epc entry ;;
      store_tf (p_trapframe p) TF_sp sp ;;
      on_mem (proc_freepagetable kend (p_pagetable p) oldsz) ;;
      ret argc
  end.

Definition exec (path : list Z) (argv : list (list Z)) : K Z :=
  let! p := mp in
  on_fs me (flog begin_op) ;;
  let! cwd := deref (p_cwd p) in
  let! ip := fs_of (λ H pid, namei (H:=H) pid cwd path) in
  match ip with
  | None => fs_of (λ _ pid, flog (end_op pid)) ;; ret (-1)
  | Some ip =>
      fs_of (λ _ pid, ilock pid ip) ;;
      let! (r, bs) := readk ip 0 ELFHDR_SIZE in
      if negb (r =? ELFHDR_SIZE) then exec_bad 0 0 (Some ip) else
      let elf := get_elfhdr bs in
      if negb (elf_magic elf =? ELF_MAGIC) then exec_bad 0 0 (Some ip) else
      let! pagetable := on_mem (proc_pagetable kend trampoline (p_trapframe p)) in
      if pagetable =? 0 then exec_bad 0 0 (Some ip) else
      let! (sz, ok) := load_segments (Z.to_nat (elf_phnum elf)) pagetable ip (i32 (elf_phoff elf)) 0 in
      if negb ok then exec_bad pagetable sz (Some ip) else
      fs_of (λ _ pid, iunlockput pid ip) ;;
      fs_of (λ _ pid, flog (end_op pid)) ;;
      exec_stack path argv (elf_entry elf) pagetable sz
  end.
End exec.
