(* ===== verification/Sysfile.v ===== *)
(** The system calls on files ([sysfile.c]) and the dispatch of system calls
    ([syscall] of [syscall.c]). *)
From Stdlib Require Import ZArith Lia.
From stdpp Require Import base list gmap strings.
From S2P Require Import Prelude Machine Random Spinlock Proc Mem Str Kalloc Vm Sleeplock Bio Blk Log UserMem Fs Pipe File Life Fd Syscall Exec.

(** [fcntl.h]. *)
Definition O_RDONLY : Z := 0x000.
Definition O_WRONLY : Z := 0x001.
Definition O_RDWR : Z := 0x002.
Definition O_CREATE : Z := 0x200.
Definition O_TRUNC : Z := 0x400.

Section sysfile.
Context (me : nat) (kend trampoline forkret_pc : Z).
(** [devsw], and the padding of [struct stat]. *)
Context (devsw : Z → @devops kmem) (pad : list Z).

Local Abbreviation fso m := (fs_of me m).
Definition end_op' : K unit := fso (λ _ pid, flog (end_op pid)).
Definition begin_op' : K unit := on_fs me (flog begin_op).
(** The fields of an inode, and a change of them. *)
Definition inode_of (ip : nat) : K inode := on_fs me (gets (ino ip)).
Definition upd_inode (ip : nat) (f : inode → inode) : K unit := on_fs me (modify (upd_ino ip f)).
Definition close_file (f : nat) : K unit := let! p := mp in on_files me (@fileclose kmem (vm_pages kend) (p_pid p) f).
Definition namei_of (path : list Z) : K (option nat) :=
  let! p := mp in let! cwd := deref (p_cwd p) in fso (λ H pid, namei (H:=H) pid cwd path).
Definition nameiparent_of (path : list Z) : K (option nat * list Z) :=
  let! p := mp in let! cwd := deref (p_cwd p) in fso (λ H pid, nameiparent (H:=H) pid cwd path (replicate DIRSIZ 0)).
Definition ilock' (ip : nat) : K unit := fso (λ _ pid, ilock pid ip).
Definition iunlock' (ip : nat) : K unit := fso (λ _ pid, iunlock pid ip).
Definition iupdate' (ip : nat) : K unit := fso (λ _ pid, iupdate pid ip).
Definition iput' (ip : nat) : K unit := fso (λ _ pid, iput pid ip).
Definition iunlockput' (ip : nat) : K unit := fso (λ _ pid, iunlockput pid ip).
Definition dirlink' (dp : nat) (name : list Z) (inum : Z) : K Z := fso (λ H pid, dirlink (H:=H) pid dp name inum).
Definition dirlookup' (dp : nat) (name : list Z) : K (option (nat * Z)) := fso (λ H pid, dirlookup (H:=H) pid dp name).

(** ** Descriptors *)

(** The descriptor and its file. *)
Definition argfd (n : Z) : K (option (nat * nat)) :=
  let! fd := argint n in
  let! p := mp in
  match fdget (p_ofile p) fd with Some f => ret (Some (Z.to_nat fd, f)) | None => ret None end.

Definition fdalloc_of (f : nat) : K (option nat) :=
  let! i := mine in
  let! p := pr i in
  match fdalloc (p_ofile p) f with
  | Some (fd, l) => upd i (set_p_ofile l) ;; ret (Some fd)
  | None => ret None
  end.
(** [myproc()->ofile[fd] = 0]. *)
Definition fdclear (fd : nat) : K unit :=
  let! i := mine in upd i (λ p, set_p_ofile (fdclose (p_ofile p) fd) p).

Definition sys_dup : K sysret :=
  let! a := argfd 0 in
  match a with
  | None => ret (Value (-1))
  | Some (_, f) =>
      let! fd := fdalloc_of f in
      match fd with
      | None => ret (Value (-1))
      | Some fd => on_files me (filedup f) ;; ret (Value (Z.of_nat fd))
      end
  end.

Definition sys_read : K sysret :=
  let! p := argaddr 1 in
  let! n := argint 2 in
  let! a := argfd 0 in
  match a with
  | None => ret (Value (-1))
  | Some (_, f) =>
      let! x := mp in
      let! t := on_files me (fileread (H:=vm_user (p_pagetable x)) (p_pid x) (negb (p_killed x =? 0)) devsw f p n) in
      ret (of_turn t)
  end.

Definition sys_write : K sysret :=
  let! p := argaddr 1 in
  let! n := argint 2 in
  let! a := argfd 0 in
  match a with
  | None => ret (Value (-1))
  | Some (_, f) =>
      let! x := mp in
      let! t := on_files me (filewrite (H:=vm_user (p_pagetable x)) (p_pid x) (negb (p_killed x =? 0)) devsw f p n) in
      ret (of_turn t)
  end.

Definition sys_close : K sysret :=
  let! a := argfd 0 in
  match a with
  | None => ret (Value (-1))
  | Some (fd, f) => fdclear fd ;; close_file f ;; ret (Value 0)
  end.

Definition sys_fstat : K sysret :=
  let! st := argaddr 1 in
  let! a := argfd 0 in
  match a with
  | None => ret (Value (-1))
  | Some (_, f) =>
      let! x := mp in
      let! r := on_files me (filestat (H:=vm_user (p_pagetable x)) (p_pid x) pad f st) in
      ret (Value r)
  end.

(** ** Links *)

(** [bad:] of [sys_link]. *)
Definition link_bad (ip : nat) : K sysret :=
  ilock' ip ;;
  upd_inode ip (λ x, set_i_nlink (i16 (i_nlink x - 1)) x) ;;
  iupdate' ip ;;
  iunlockput' ip ;;
  end_op' ;;
  ret (Value (-1)).

Definition sys_link : K sysret :=
  let! old := argstr 0 MAXPATH in
  match old with None => ret (Value (-1)) | Some old =>
  let! new := argstr 1 MAXPATH in
  match new with None => ret (Value (-1)) | Some new =>
  begin_op' ;;
  let! ip := namei_of old in
  match ip with None => end_op' ;; ret (Value (-1)) | Some ip =>
  ilock' ip ;;
  let! x := inode_of ip in
  if i_type x =? T_DIR then iunlockput' ip ;; end_op' ;; ret (Value (-1)) else
  upd_inode ip (λ x, set_i_nlink (i16 (i_nlink x + 1)) x) ;;
  iupdate' ip ;;
  iunlock' ip ;;
  let! (dp, name) := nameiparent_of new in
  match dp with None => link_bad ip | Some dp =>
  ilock' dp ;;
  let! d := inode_of dp in
  let! x := inode_of ip in
  let! r := (if negb (i_dev d =? i_dev x) then ret (-1) else dirlink' dp name (i_inum x)) in
  if r <? 0 then iunlockput' dp ;; link_bad ip else
  iunlockput' dp ;;
  iput' ip ;;
  end_op' ;;
  ret (Value 0)
  end end end end.

(** The loop of [isdirempty] from [off]. *)
Fixpoint isdirempty_loop (fuel : nat) (dp : nat) (off : Z) : K bool :=
  let! d := inode_of dp in
  if negb (u32 off <? i_size d) then ret true else
  match fuel with
  | O => λ s, Spin s []
  | S f =>
      let! (r, de) := readk me dp (u32 off) DIRENT_SIZE in
      if negb (r =? DIRENT_SIZE) then panic "isdirempty: readi" else
      if negb (de_inum de =? 0) then ret false else
      isdirempty_loop f dp (i32 (off + DIRENT_SIZE))
  end.
Definition isdirempty (dp : nat) : K bool :=
  let! d := inode_of dp in
  isdirempty_loop (Z.to_nat (i_size d / DIRENT_SIZE + 1)) dp (2 * DIRENT_SIZE).

(** [bad:] of [sys_unlink]. *)
Definition unlink_bad (dp : nat) : K sysret := iunlockput' dp ;; end_op' ;; ret (Value (-1)).

Definition sys_unlink : K sysret :=
  let! path := argstr 0 MAXPATH in
  match path with None => ret (Value (-1)) | Some path =>
  begin_op' ;;
  let! (dp, name) := nameiparent_of path in
  match dp with None => end_op' ;; ret (Value (-1)) | Some dp =>
  ilock' dp ;;
  if (namecmp name [46; 0] =? 0) || (namecmp name [46; 46; 0] =? 0) then unlink_bad dp else
  let! found := dirlookup' dp name in
  match found with None => unlink_bad dp | Some (ip, off) =>
  ilock' ip ;;
  let! x := inode_of ip in
  if i_nlink x <? 1 then panic "unlink: nlink < 1" else
  let! empty := (if i_type x =? T_DIR then isdirempty ip else ret true) in
  if negb empty then iunlockput' ip ;; unlink_bad dp else
  let! r := fso (λ H pid, writei (H:=H) pid dp (KSrc (replicate 16 0)) off DIRENT_SIZE) in
  if negb (r =? DIRENT_SIZE) then panic "unlink: writei" else
  (if i_type x =? T_DIR then
     upd_inode dp (λ d, set_i_nlink (i16 (i_nlink d - 1)) d) ;; iupdate' dp
   else ret tt) ;;
  iunlockput' dp ;;
  upd_inode ip (λ x, set_i_nlink (i16 (i_nlink x - 1)) x) ;;
  iupdate' ip ;;
  iunlockput' ip ;;
  end_op' ;;
  ret (Value 0)
  end end end.

(** ** Creation *)

(** [fail:] of [create]. *)
Definition create_fail (ip dp : nat) : K (option nat) :=
  upd_inode ip (set_i_nlink 0) ;;
  iupdate' ip ;;
  iunlockput' ip ;;
  iunlockput' dp ;;
  ret None.

(** The inode, locked. *)
Definition create (path : list Z) (type major minor : Z) : K (option nat) :=
  let! (dp, name) := nameiparent_of path in
  match dp with None => ret None | Some dp =>
  ilock' dp ;;
  let! found := dirlookup' dp name in
  match found with
  | Some (ip, _) =>
      iunlockput' dp ;;
      ilock' ip ;;
      let! x := inode_of ip in
      if (type =? T_FILE) && ((i_type x =? T_FILE) || (i_type x =? T_DEVICE)) then ret (Some ip)
      else iunlockput' ip ;; ret None
  | None =>
  let! d := inode_of dp in
  let! ip := fso (λ _ pid, ialloc pid (i_dev d) type) in
  match ip with None => iunlockput' dp ;; ret None | Some ip =>
  ilock' ip ;;
  upd_inode ip (set_i_major_minor (i16 major) (i16 minor)) ;;
  upd_inode ip (set_i_nlink 1) ;;
  iupdate' ip ;;
  let! x := inode_of ip in
  let! r := (if type =? T_DIR then
               let! r := dirlink' ip [46; 0] (i_inum x) in
               if r <? 0 then ret r else dirlink' ip [46; 46; 0] (i_inum d)
             else ret 0) in
  if r <? 0 then create_fail ip dp else
  let! r := dirlink' dp name (i_inum x) in
  if r <? 0 then create_fail ip dp else
  (if type =? T_DIR then
     upd_inode dp (λ d, set_i_nlink (i16 (i_nlink d + 1)) d) ;; iupdate' dp
   else ret tt) ;;
  iunlockput' dp ;;
  ret (Some ip)
  end end end.

(** The locked inode [sys_open] opens. *)
Definition open_inode (path : list Z) (omode : Z) : K (option nat) :=
  if negb (Z.land omode O_CREATE =? 0) then
    let! ip := create path T_FILE 0 0 in
    match ip with None => end_op' ;; ret None | Some ip => ret (Some ip) end
  else
    let! ip := namei_of path in
    match ip with
    | None => end_op' ;; ret None
    | Some ip =>
        ilock' ip ;;
        let! x := inode_of ip in
        if (i_type x =? T_DIR) && negb (omode =? O_RDONLY) then iunlockput' ip ;; end_op' ;; ret None
        else ret (Some ip)
    end.

Definition sys_open : K sysret :=
  let! omode := argint 1 in
  let! path := argstr 0 MAXPATH in
  match path with None => ret (Value (-1)) | Some path =>
  begin_op' ;;
  let! ip := open_inode path omode in
  match ip with None => ret (Value (-1)) | Some ip =>
  let! x := inode_of ip in
  if (i_type x =? T_DEVICE) && ((i_major x <? 0) || (NDEV <=? i_major x)) then
    iunlockput' ip ;; end_op' ;; ret (Value (-1))
  else
  let! f := on_files me filealloc in
  match f with None => iunlockput' ip ;; end_op' ;; ret (Value (-1)) | Some f =>
  let! fd := fdalloc_of f in
  match fd with None => close_file f ;; iunlockput' ip ;; end_op' ;; ret (Value (-1)) | Some fd =>
  (if i_type x =? T_DEVICE then
     on_files me (modify (upd_file f (λ y, set_f_major (i_major x) (set_f_type FD_DEVICE y))))
   else on_files me (modify (upd_file f (λ y, set_f_off 0 (set_f_type FD_INODE y))))) ;;
  on_files me (modify (upd_file f (set_f_ip ip))) ;;
  on_files me (modify (upd_file f (set_f_mode (b2z (Z.land omode O_WRONLY =? 0))
    (b2z (negb (Z.land omode O_WRONLY =? 0) || negb (Z.land omode O_RDWR =? 0)))))) ;;
  (if negb (Z.land omode O_TRUNC =? 0) && (i_type x =? T_FILE) then fso (λ _ pid, itrunc pid ip) else ret tt) ;;
  iunlock' ip ;;
  end_op' ;;
  ret (Value (Z.of_nat fd))
  end end end end.

Definition sys_mkdir : K sysret :=
  begin_op' ;;
  let! path := argstr 0 MAXPATH in
  match path with None => end_op' ;; ret (Value (-1)) | Some path =>
  let! ip := create path T_DIR 0 0 in
  match ip with None => end_op' ;; ret (Value (-1)) | Some ip =>
  iunlockput' ip ;; end_op' ;; ret (Value 0)
  end end.

Definition sys_mknod : K sysret :=
  begin_op' ;;
  let! major := argint 1 in
  let! minor := argint 2 in
  let! path := argstr 0 MAXPATH in
  match path with None => end_op' ;; ret (Value (-1)) | Some path =>
  let! ip := create path T_DEVICE major minor in
  match ip with None => end_op' ;; ret (Value (-1)) | Some ip =>
  iunlockput' ip ;; end_op' ;; ret (Value 0)
  end end.

Definition sys_chdir : K sysret :=
  let! i := mine in
  begin_op' ;;
  let! path := argstr 0 MAXPATH in
  match path with None => end_op' ;; ret (Value (-1)) | Some path =>
  let! ip := namei_of path in
  match ip with None => end_op' ;; ret (Value (-1)) | Some ip =>
  ilock' ip ;;
  let! x := inode_of ip in
  if negb (i_type x =? T_DIR) then iunlockput' ip ;; end_op' ;; ret (Value (-1)) else
  iunlock' ip ;;
  let! p := pr i in
  let! cwd := deref (p_cwd p) in
  iput' cwd ;;
  end_op' ;;
  upd i (set_p_cwd (Some ip)) ;;
  ret (Value 0)
  end end.

(** ** exec and pipe *)

Definition free_args (pages : list Z) : K unit := foldr (λ pg k, on_mem (kfree kend pg) ;; k) (ret tt) pages.

(** The loop of [sys_exec] from [i]: the pages allocated, with the strings, or
    an error. *)
Fixpoint exec_args (fuel : nat) (uargv i : Z) (pages : list Z) (argv : list (list Z)) : K (list Z * option (list (list Z))) :=
  match fuel with
  | O => ret (pages, None)
  | S f =>
      let! uarg := fetchaddr (u64 (uargv + 8 * i)) in
      match uarg with None => ret (pages, None) | Some uarg =>
      if uarg =? 0 then ret (pages, Some argv) else
      let! pg := on_mem kalloc in
      if pg =? 0 then ret (pages, None) else
      let! s := fetchstr uarg PGSIZE in
      match s with
      | None => ret (pages ++ [pg], None)
      | Some s =>
          on_mem (modify (upd_pm (write_bytes pg (s ++ [0])))) ;;
          exec_args f uargv (i + 1) (pages ++ [pg]) (argv ++ [s])
      end end
  end.

Definition sys_exec : K sysret :=
  let! uargv := argaddr 1 in
  let! path := argstr 0 MAXPATH in
  match path with None => ret (Value (-1)) | Some path =>
  let! (pages, argv) := exec_args MAXARG uargv 0 [] [] in
  match argv with
  | None => free_args pages ;; ret (Value (-1))
  | Some argv =>
      let! r := exec me kend trampoline path argv in
      free_args pages ;;
      ret (Value r)
  end end.

Definition sys_pipe : K sysret :=
  let! fdarray := argaddr 0 in
  let! fs := on_files me (@pipealloc kmem (vm_pages kend) 0) in
  match fs with None => ret (Value (-1)) | Some (rf, wf) =>
  let! fd0 := fdalloc_of rf in
  match fd0 with None => close_file rf ;; close_file wf ;; ret (Value (-1)) | Some fd0 =>
  let! fd1 := fdalloc_of wf in
  match fd1 with None => fdclear fd0 ;; close_file rf ;; close_file wf ;; ret (Value (-1)) | Some fd1 =>
  let! p := mp in
  let! r := on_mem (copyout (p_pagetable p) fdarray (le_bytes 4 (Z.of_nat fd0))) in
  let! r := (if r <? 0 then ret r else on_mem (copyout (p_pagetable p) (u64 (fdarray + 4)) (le_bytes 4 (Z.of_nat fd1)))) in
  if r <? 0 then
    fdclear fd0 ;; fdclear fd1 ;; close_file rf ;; close_file wf ;; ret (Value (-1))
  else ret (Value 0)
  end end end.

(** ** Dispatch *)

(** [syscalls], with the numbers of [syscall.h]. *)
Definition syscalls (num : Z) : option (K sysret) :=
  nth (Z.to_nat num)
    [None; Some (sys_fork me kend trampoline forkret_pc); Some (sys_exit me kend); Some (sys_wait me kend); Some sys_pipe; Some sys_read;
     Some (sys_kill me); Some sys_exec; Some sys_fstat; Some sys_chdir; Some sys_dup; Some sys_getpid; Some (sys_sbrk kend);
     Some (sys_sleep me); Some (sys_uptime me); Some sys_open; Some sys_write; Some sys_mknod; Some sys_unlink; Some sys_link;
     Some sys_mkdir; Some sys_close; Some (sys_settickets me); Some sys_setsched] None.

Definition syscall : K sysret :=
  let! i := mine in
  let! p := pr i in
  let! num := load_tf (p_trapframe p) TF_a7 in
  let num := i32 num in
  match (if (0 <? num) && (num <? 24) then syscalls num else None) with
  | Some handler =>
      let! r := handler in
      (match r with
       | Value v => store_tf (p_trapframe p) TF_a0 (u64 v)
       | _ => ret tt
       end) ;;
      ret r
  | None =>
      emit (EvDev (Printf "%d %s: unknown sys call %d\n")) ;;
      store_tf (p_trapframe p) TF_a0 (u64 (-1)) ;;
      ret (Value (-1))
  end.
End sysfile.
