(* ===== verification/FdThm.v ===== *)
(** Descriptor tables are well typed: across all system calls of all processes
    every open descriptor refers to an open file, and the count of a file is
    the number of descriptors that refer to it. *)
From Stdlib Require Import ZArith Lia.
From stdpp Require Import base list gmap strings.
From S2P Require Import Prelude Machine Random Spinlock Proc Mem Str Kalloc Vm Sleeplock Bio Blk Log UserMem Fs Pipe File FileThm Life ForkThm Fd Syscall Exec Sysfile.

(** ** What a computation keeps *)

(** Whenever [m] returns, the states before and after are related. *)
Definition keep {E S A} (R : S → S → Prop) (m : M E S A) : Prop := ∀ s a s' t, m s = Done a s' t → R s s'.

Section keep.
Context {E S : Type} (R : S → S → Prop) {HR : PreOrder R}.

Lemma keep_ret {A} (a : A) : keep (E:=E) R (ret a).
Proof. intros s x s' t [= <- <- <-]. done. Qed.
Lemma keep_bind {A B} (m : M E S A) (k : A → M E S B) : keep R m → (∀ a, keep R (k a)) → keep R (bind m k).
Proof.
  intros Hm Hk s b s' t. unfold bind. destruct (m s) as [a s1 t1|msg s1 t1|c s1 t1|s1 t1] eqn:H1; try done.
  destruct (k a s1) as [b' s2 t2|msg s2 t2|c s2 t2|s2 t2] eqn:H2; try done. intros [= <- <- <-]. transitivity s1; [by eapply Hm|by eapply Hk].
Qed.
Lemma keep_gets {A} (f : S → A) : keep (E:=E) R (gets f).
Proof. intros s x s' t [= <- <- <-]. done. Qed.
Lemma keep_modify (f : S → S) : (∀ s, R s (f s)) → keep (E:=E) R (modify f).
Proof. intros Hf s x s' t [= <- <- <-]. done. Qed.
Lemma keep_emit (e : E) : keep R (emit e).
Proof. intros s x s' t [= <- <- <-]. done. Qed.
Lemma keep_panic {A} msg : keep R (@panic E S A msg).
Proof. by intros s x s' t. Qed.
Lemma keep_spin {A} : keep R (λ s, Spin s [] : outcome E S A).
Proof. by intros s x s' t. Qed.
Lemma keep_for_upto n (body : nat → M E S unit) : (∀ i, keep R (body i)) → keep R (for_upto n body).
Proof. intros Hb. unfold for_upto. generalize 0%nat. induction n as [|n IH]; intros i; simpl; [apply keep_ret|]. apply keep_bind; [done|]. intros _. apply IH. Qed.
Lemma keep_for_find {A} n (body : nat → M E S (option A)) : (∀ i, keep R (body i)) → keep R (for_find n body).
Proof.
  intros Hb. unfold for_find. generalize 0%nat. induction n as [|n IH]; intros i; simpl; [apply keep_ret|]. apply keep_bind; [done|]. intros [a|]; [apply keep_ret|apply IH].
Qed.
End keep.

(** Decomposes the computation; the leaves are closed by the hints. *)
Create HintDb keeps.
Ltac keeps1 :=
  lazymatch goal with
  | |- PreOrder _ => apply _
  | |- keep _ (ret _) => apply keep_ret
  | |- keep _ (gets _) => apply keep_gets
  | |- keep _ (emit _) => apply keep_emit
  | |- keep _ (panic _) => apply keep_panic
  | |- keep _ (λ s, Spin s []) => apply keep_spin
  | |- keep _ (bind _ _) => apply keep_bind; [| |intro; cbv beta]
  | |- keep _ (for_upto _ _) => apply keep_for_upto; [|intro; cbv beta]
  | |- keep _ (for_find _ _) => apply keep_for_find; [|intro; cbv beta]
  | |- keep _ (let '(_, _) := ?x in _) => destruct x
  | |- keep _ (match ?x with _ => _ end) => destruct x
  | |- keep _ _ => solve [eauto 2 with keeps nocore]
  end.
Ltac keeps := repeat keeps1.

(** ** The process table *)

(** A process that holds no files: its slot is free, or it has exited. *)
Definition idle_state (st : procstate) : Prop := st = UNUSED ∨ st = ZOMBIE.
Definition idle (i : nat) (s : pstate) : Prop := idle_state (p_state (proc_at i s)).
Definition ofiles (s : pstate) : list (list (option nat)) := p_ofile <$> procs s.

Definition same_procs (s s' : pstate) : Prop := ofiles s' = ofiles s ∧ c_proc s' = c_proc s ∧ ∀ i, idle i s' → idle i s.
#[export] Instance same_procs_preorder : PreOrder same_procs.
Proof. split; [done|]. intros s1 s2 s3 (H1 & H2 & H3) (H4 & H5 & H6). split_and!; [congruence|congruence|auto]. Qed.

Lemma upd_same i f s : (∀ p, p_ofile (f p) = p_ofile p) → (∀ p, idle_state (p_state (f p)) → idle_state (p_state p)) → same_procs s (upd_proc i f s).
Proof.
  intros Ho Hs. split_and!; [|done|].
  - unfold ofiles, upd_proc. cbn [procs set_procs]. apply list_eq. intros j. rewrite !list_lookup_fmap, list_lookup_alter. case_decide as Hij; [subst j|done]. destruct (procs s !! i); [cbn; by rewrite Ho|done].
  - intros j. unfold idle, proc_at, upd_proc. cbn [procs set_procs]. rewrite list_lookup_total_alter. case_decide as Hij; [destruct Hij as [-> _]; apply Hs|done].
Qed.
Lemma keep_upd_proc i f : (∀ p, p_ofile (f p) = p_ofile p) → (∀ p, idle_state (p_state (f p)) → idle_state (p_state p)) → keep (E:=pevent) same_procs (modify (upd_proc i f)).
Proof. intros Ho Hs. apply keep_modify. intros s. by apply upd_same. Qed.
Lemma keep_lift_lk {A} (m : M pevent lockst A) : keep same_procs (lift_lk m).
Proof. intros s a s' t. unfold lift_lk. destruct (m (lk s)); try done. by intros [= <- <- <-]. Qed.

#[export] Hint Resolve keep_lift_lk : keeps.
#[export] Hint Extern 2 (keep same_procs (modify (upd_proc _ _))) =>
  apply keep_upd_proc; [intros []; reflexivity|first [intros []; exact id|intros ? Hidle; by destruct Hidle]] : keeps.

Section procs.
Context (me : nat).
Lemma keep_acquire_lk l : keep same_procs (acquire_lk me l).
Proof. apply keep_lift_lk. Qed.
Lemma keep_release_lk l : keep same_procs (release_lk me l).
Proof. apply keep_lift_lk. Qed.
Hint Resolve keep_acquire_lk keep_release_lk : keeps.
Lemma keep_myproc : keep same_procs myproc.
Proof. unfold myproc. keeps. Qed.
Hint Resolve keep_myproc : keeps.
Lemma keep_mypr : keep same_procs mypr.
Proof. unfold mypr. keeps. Qed.
Hint Resolve keep_mypr : keeps.
Lemma keep_sched : keep same_procs (sched me).
Proof.
  unfold sched. keeps. apply keep_modify. intros s. assert (same_procs s (upd_proc a (set_p_context (regs s)) s)) as Hu by (apply upd_same; [by intros []|by intros []]). exact Hu.
Qed.
Hint Resolve keep_sched : keeps.
Lemma keep_sleep c l : keep same_procs (Proc.sleep me c l).
Proof. unfold Proc.sleep. keeps. Qed.
Lemma keep_sleep_back i l ie : keep same_procs (sleep_back me i l ie).
Proof. unfold sleep_back, sched_back. keeps. Qed.
Lemma keep_wakeup c : keep same_procs (wakeup me c).
Proof. unfold wakeup, wakeup1. keeps. Qed.
Hint Resolve keep_wakeup : keeps.
Lemma keep_kill pid : keep same_procs (kill me pid).
Proof. unfold kill, kill1. keeps. Qed.
Lemma keep_killed i : keep same_procs (killed me i).
Proof. unfold killed. keeps. Qed.
Lemma keep_reparent i : keep same_procs (reparent me i).
Proof. unfold reparent. keeps. Qed.
Lemma keep_settickets n : keep same_procs (settickets me n).
Proof. unfold settickets. keeps. Qed.
Lemma keep_allocpid : keep same_procs (allocpid me).
Proof. unfold allocpid. keeps. by apply keep_modify. Qed.
End procs.
#[export] Hint Resolve keep_acquire_lk keep_release_lk keep_mypr keep_sched keep_sleep keep_sleep_back keep_wakeup keep_kill keep_killed keep_reparent keep_settickets keep_allocpid : keeps.

(** ** The file table *)

Definition refs (s : filest kmem) : list Z := f_ref <$> files s.
Definition same_refs (s s' : filest kmem) : Prop := refs s' = refs s.
#[export] Instance same_refs_preorder : PreOrder same_refs.
Proof. split; [done|]. intros s1 s2 s3 H1 H2. unfold same_refs in *. congruence. Qed.

Lemma keep_lift {E S S' A} (R : S' → S' → Prop) (get : S' → S) put (m : M E S A) : (∀ x s, R s (put x s)) → keep R (lift get put m).
Proof. intros Hp s a s' t. unfold lift. destruct (m (get s)); try done. intros [= <- <- <-]. apply Hp. Qed.
Lemma keep_ffs {A} (m : M event (fsst kmem) A) : keep same_refs (ffs_ m).
Proof. by apply keep_lift. Qed.
Lemma keep_with_pipe {A} pi (m : M event (pst kmem) A) : keep same_refs (with_pipe pi m).
Proof. by apply keep_lift. Qed.
Lemma keep_fpages {A} (m : M event kmem A) : keep same_refs (fpages m).
Proof. apply keep_ffs. Qed.
Lemma keep_upd_file f g : (∀ x, f_ref (g x) = f_ref x) → keep (E:=event) same_refs (modify (upd_file f g)).
Proof.
  intros Hg. apply keep_modify. intros s. unfold same_refs, refs, upd_file. cbn [files set_files]. apply list_eq. intros j. rewrite !list_lookup_fmap, list_lookup_alter.
  case_decide as Hij; [subst j|done]. destruct (files s !! f); [cbn; by rewrite Hg|done].
Qed.
#[export] Hint Resolve keep_ffs keep_with_pipe keep_fpages : keeps.
#[export] Hint Extern 2 (keep same_refs (modify (upd_file _ _))) => apply keep_upd_file; intros []; reflexivity : keeps.

(** What the table of devices promises: a driver does not touch the file
    table. *)
Class DevOk (devsw : Z → @devops kmem) := {
  dev_read_ok major rd addr n : dev_read (devsw major) = Some rd → keep same_refs (rd addr n);
  dev_write_ok major wr addr n : dev_write (devsw major) = Some wr → keep same_refs (wr addr n)
}.

Section files.
Context (H : UserMem kmem) (pid : Z) (kl : bool) (devsw : Z → @devops kmem) `{!DevOk devsw}.

Lemma keep_fileread f addr n : keep same_refs (fileread (H:=H) pid kl devsw f addr n).
Proof.
  unfold fileread. apply keep_bind; [apply _|keeps|intros x]. keeps1; [keeps|]. destruct (f_type x); [keeps|keeps| |].
  - keeps.
  - destruct (_ || _); [keeps|]. destruct (dev_read (devsw (f_major x))) as [rd|] eqn:Hd; [by eapply dev_read_ok|keeps].
Qed.
Lemma keep_filewrite f addr n : keep same_refs (filewrite (H:=H) pid kl devsw f addr n).
Proof.
  assert (∀ k i, keep same_refs (filewrite_loop (H:=H) pid k f addr n i)) as Hl.
  { induction k as [|k IH]; intros i; cbn [filewrite_loop]; keeps. }
  unfold filewrite. apply keep_bind; [apply _|keeps|intros x]. keeps1; [keeps|]. destruct (f_type x); [keeps|keeps| |].
  - keeps.
  - destruct (_ || _); [keeps|]. destruct (dev_write (devsw (f_major x))) as [wr|] eqn:Hd; [by eapply dev_write_ok|keeps].
Qed.
Lemma keep_filestat pad f addr : keep same_refs (filestat (H:=H) pid pad f addr).
Proof. unfold filestat. keeps. Qed.
End files.
#[export] Hint Resolve keep_fileread keep_filewrite keep_filestat : keeps.

(** ** The kernel *)

Definition same_fds (s s' : sys) : Prop := same_procs (sp s) (sp s') ∧ same_refs (sf s) (sf s').
#[export] Instance same_fds_preorder : PreOrder same_fds.
Proof. split; [done|]. intros s1 s2 s3 [H1 H2] [H3 H4]. split; by etrans. Qed.

Lemma keep_on_procs {A} (m : P A) : keep same_procs m → keep same_fds (on_procs m).
Proof. intros Hm s a s' t. unfold on_procs. destruct (m (sp s)) as [x p u|? ? ?|? ? ?|? ?] eqn:Hr; try done. intros [= <- <- <-]. split; [by eapply Hm|done]. Qed.
Lemma keep_on_mem {A} (m : M event kmem A) : keep same_fds (on_mem m).
Proof. intros s a s' t. unfold on_mem. destruct (m (km s)); try done. by intros [= <- <- <-]. Qed.
Section kernel.
Context (me : nat).
Lemma keep_dispatch t : keep same_fds (dispatch me t).
Proof. induction t as [|[]]; cbn [dispatch]; keeps; try done. apply keep_on_procs. keeps. Qed.
Lemma keep_on_files {A} (m : M event (filest kmem) A) : keep same_refs m → keep same_fds (on_files me m).
Proof.
  intros Hm s a s' t. unfold on_files. destruct (m (sf s)) as [x f u|? ? ?|? ? ?|? ?] eqn:Hr; try done. intros Hd. transitivity (set_sf f s); [split; [done|by eapply Hm]|].
  revert Hd. apply (keep_bind _ (dispatch me u) (λ _, ret x)); [apply keep_dispatch|intros; apply keep_ret; apply _].
Qed.
Lemma keep_on_fs {A} (m : M event (fsst kmem) A) : keep same_fds (on_fs me m).
Proof. apply keep_on_files, keep_ffs. Qed.
End kernel.
Lemma keep_upd i f : (∀ p, p_ofile (f p) = p_ofile p) → (∀ p, idle_state (p_state (f p)) → idle_state (p_state p)) → keep same_fds (upd i f).
Proof. intros Ho Hs. by apply keep_on_procs, keep_upd_proc. Qed.
#[export] Hint Resolve keep_on_mem keep_on_fs : keeps.
#[export] Hint Extern 2 (keep same_fds (on_procs _)) => apply keep_on_procs; solve [keeps | by apply keep_modify] : keeps.
#[export] Hint Extern 2 (keep same_fds (on_files _ _)) => apply keep_on_files; solve [keeps] : keeps.
#[export] Hint Extern 2 (keep same_fds (upd _ _)) => apply keep_upd; [intros []; reflexivity|first [intros []; exact id|intros ? Hidle; by destruct Hidle]] : keeps.

Section calls.
Context (me : nat) (kend trampoline : Z).

Lemma keep_mine : keep same_fds mine.
Proof. unfold mine. keeps. Qed.
Lemma keep_pr i : keep same_fds (pr i).
Proof. unfold pr. keeps. Qed.
Hint Resolve keep_mine keep_pr : keeps.
Lemma keep_mp : keep same_fds mp.
Proof. unfold mp. keeps. Qed.
Lemma keep_lock_p i : keep same_fds (lock_p me i).
Proof. unfold lock_p. keeps. Qed.
Lemma keep_unlock_p i : keep same_fds (unlock_p me i).
Proof. unfold unlock_p. keeps. Qed.
Lemma keep_deref p : keep same_fds (deref p).
Proof. unfold deref. keeps. Qed.
Lemma keep_store_tf tf off v : keep same_fds (store_tf tf off v).
Proof. unfold store_tf. keeps. Qed.
Lemma keep_load_tf tf off : keep same_fds (load_tf tf off).
Proof. unfold load_tf. keeps. Qed.
Hint Resolve keep_mp keep_lock_p keep_unlock_p keep_deref keep_store_tf keep_load_tf : keeps.
Lemma keep_argraw n : keep same_fds (argraw n).
Proof. unfold argraw. keeps. Qed.
Lemma keep_argint n : keep same_fds (argint n).
Proof. unfold argint. keeps. apply keep_argraw. Qed.
Lemma keep_fetchaddr a : keep same_fds (fetchaddr a).
Proof. unfold fetchaddr. keeps. Qed.
Lemma keep_fetchstr a n : keep same_fds (fetchstr a n).
Proof. unfold fetchstr. keeps. Qed.
Hint Resolve keep_argraw keep_argint keep_fetchaddr keep_fetchstr : keeps.
Lemma keep_argstr n max : keep same_fds (argstr n max).
Proof. unfold argstr, argaddr. keeps. Qed.
Lemma keep_argaddr n : keep same_fds (argaddr n).
Proof. unfold argaddr. keeps. Qed.
Lemma keep_fs_of {A} (m : UserMem kmem → Z → M event (fsst kmem) A) : keep same_fds (fs_of me m).
Proof. unfold fs_of. keeps. Qed.
Hint Resolve keep_argstr keep_argaddr keep_fs_of : keeps.

(** *** exec *)

Lemma keep_readk ip off n : keep same_fds (readk me ip off n).
Proof. unfold readk. keeps. Qed.
Hint Resolve keep_readk : keeps.
Lemma keep_loadseg pt va ip off sz : keep same_fds (loadseg me pt va ip off sz).
Proof.
  unfold loadseg. generalize (Z.to_nat (sz / PGSIZE + 1)) as fuel. generalize 0 as i. intros i fuel. revert i. induction fuel as [|fuel IH]; intros i; cbn [loadseg_loop]; keeps.
Qed.
Hint Resolve keep_loadseg : keeps.
Lemma keep_load_segments n pt ip : ∀ off sz, keep same_fds (load_segments me kend n pt ip off sz).
Proof. induction n as [|n IH]; intros off sz; cbn [load_segments]; cbv zeta; keeps. Qed.
Lemma keep_push_args argv pt sb : ∀ argc sp us, keep same_fds (push_args argv pt sb argc sp us).
Proof. induction argv as [|a argv IH]; intros argc sp us; cbn [push_args]; cbv zeta; keeps. Qed.
Lemma keep_exec_bad pt sz ip : keep same_fds (exec_bad me kend pt sz ip).
Proof. unfold exec_bad. keeps. Qed.
Hint Resolve keep_load_segments keep_push_args keep_exec_bad : keeps.
Lemma keep_exec_stack path argv entry pt sz : keep same_fds (exec_stack me kend path argv entry pt sz).
Proof. unfold exec_stack. cbv zeta. keeps. Qed.
Hint Resolve keep_exec_stack : keeps.
Lemma keep_exec path argv : keep same_fds (exec me kend trampoline path argv).
Proof. unfold exec. cbv zeta. keeps. Qed.
Hint Resolve keep_exec : keeps.

(** *** Processes *)

Lemma keep_growproc n : keep same_fds (growproc kend n).
Proof. unfold growproc. keeps. Qed.
Hint Resolve keep_growproc : keeps.
Lemma keep_sys_sbrk : keep same_fds (sys_sbrk kend).
Proof. unfold sys_sbrk. keeps. Qed.
Lemma keep_sys_sleep : keep same_fds (sys_sleep me).
Proof. unfold sys_sleep, sleep_loop. cbv zeta. keeps. Qed.
Lemma keep_sys_kill : keep same_fds (sys_kill me).
Proof. unfold sys_kill. keeps. Qed.
Lemma keep_sys_uptime : keep same_fds (sys_uptime me).
Proof. unfold sys_uptime. keeps. Qed.
Lemma keep_sys_settickets : keep same_fds (sys_settickets me).
Proof. unfold sys_settickets. keeps. Qed.
Lemma keep_sys_setsched : keep same_fds sys_setsched.
Proof. unfold sys_setsched. keeps. Qed.
Lemma keep_sys_getpid : keep same_fds sys_getpid.
Proof. unfold sys_getpid. keeps. Qed.
End calls.
#[export] Hint Resolve keep_mine keep_pr keep_mp keep_lock_p keep_unlock_p keep_deref keep_store_tf keep_load_tf keep_argraw keep_argint keep_fetchaddr keep_fetchstr keep_argstr keep_argaddr keep_fs_of keep_readk keep_exec keep_sys_sbrk keep_sys_sleep keep_sys_kill keep_sys_uptime keep_sys_settickets keep_sys_setsched keep_sys_getpid : keeps.

Section files_calls.
Context (me : nat) (kend trampoline : Z) (devsw : Z → @devops kmem) (pad : list Z) `{!DevOk devsw}.

Lemma keep_begin_op' : keep same_fds (begin_op' me).
Proof. unfold begin_op'. keeps. Qed.
Lemma keep_end_op' : keep same_fds (end_op' me).
Proof. unfold end_op'. keeps. Qed.
Lemma keep_inode_of ip : keep same_fds (inode_of me ip).
Proof. unfold inode_of. keeps. Qed.
Lemma keep_upd_inode ip f : keep same_fds (upd_inode me ip f).
Proof. unfold upd_inode. keeps. Qed.
Lemma keep_ilock' ip : keep same_fds (ilock' me ip).
Proof. unfold ilock'. keeps. Qed.
Lemma keep_iunlock' ip : keep same_fds (iunlock' me ip).
Proof. unfold iunlock'. keeps. Qed.
Lemma keep_iupdate' ip : keep same_fds (iupdate' me ip).
Proof. unfold iupdate'. keeps. Qed.
Lemma keep_iput' ip : keep same_fds (iput' me ip).
Proof. unfold iput'. keeps. Qed.
Lemma keep_iunlockput' ip : keep same_fds (iunlockput' me ip).
Proof. unfold iunlockput'. keeps. Qed.
Lemma keep_namei_of path : keep same_fds (namei_of me path).
Proof. unfold namei_of. keeps. Qed.
Lemma keep_nameiparent_of path : keep same_fds (nameiparent_of me path).
Proof. unfold nameiparent_of. keeps. Qed.
Lemma keep_dirlink' dp name inum : keep same_fds (dirlink' me dp name inum).
Proof. unfold dirlink'. keeps. Qed.
Lemma keep_dirlookup' dp name : keep same_fds (dirlookup' me dp name).
Proof. unfold dirlookup'. keeps. Qed.
Lemma keep_argfd n : keep same_fds (argfd n).
Proof. unfold argfd. keeps. Qed.
Hint Resolve keep_begin_op' keep_end_op' keep_inode_of keep_upd_inode keep_ilock' keep_iunlock' keep_iupdate' keep_iput' keep_iunlockput' keep_namei_of keep_nameiparent_of keep_dirlink' keep_dirlookup' keep_argfd : keeps.

Lemma keep_sys_read : keep same_fds (sys_read me devsw).
Proof. unfold sys_read. keeps. Qed.
Lemma keep_sys_write : keep same_fds (sys_write me devsw).
Proof. unfold sys_write. keeps. Qed.
Lemma keep_sys_fstat : keep same_fds (sys_fstat me pad).
Proof. unfold sys_fstat. keeps. Qed.
Lemma keep_link_bad ip : keep same_fds (link_bad me ip).
Proof. unfold link_bad. keeps. Qed.
Hint Resolve keep_link_bad : keeps.
Lemma keep_sys_link : keep same_fds (sys_link me).
Proof. unfold sys_link. keeps. Qed.
Lemma keep_isdirempty dp : keep same_fds (isdirempty me dp).
Proof.
  unfold isdirempty. keeps. generalize (Z.to_nat (i_size a / DIRENT_SIZE + 1)) as fuel. generalize (2 * DIRENT_SIZE). intros off fuel. revert off. induction fuel as [|fuel IH]; intros off; cbn [isdirempty_loop]; keeps.
Qed.
Lemma keep_unlink_bad dp : keep same_fds (unlink_bad me dp).
Proof. unfold unlink_bad. keeps. Qed.
Hint Resolve keep_isdirempty keep_unlink_bad : keeps.
Lemma keep_sys_unlink : keep same_fds (sys_unlink me).
Proof. unfold sys_unlink. keeps. Qed.
Lemma keep_create path type major minor : keep same_fds (create me path type major minor).
Proof. unfold create, create_fail. keeps. Qed.
Hint Resolve keep_create : keeps.
Lemma keep_open_inode path omode : keep same_fds (open_inode me path omode).
Proof. unfold open_inode. keeps. Qed.
Lemma keep_sys_mkdir : keep same_fds (sys_mkdir me).
Proof. unfold sys_mkdir. keeps. Qed.
Lemma keep_sys_mknod : keep same_fds (sys_mknod me).
Proof. unfold sys_mknod. keeps. Qed.
Lemma keep_sys_chdir : keep same_fds (sys_chdir me).
Proof. unfold sys_chdir. keeps. Qed.
Lemma keep_free_args pages : keep same_fds (free_args kend pages).
Proof. unfold free_args. induction pages; cbn [foldr]; keeps. Qed.
Lemma keep_exec_args fuel uargv : ∀ i pages argv, keep same_fds (exec_args fuel uargv i pages argv).
Proof. induction fuel as [|fuel IH]; intros i pages argv; cbn [exec_args]; keeps. Qed.
Hint Resolve keep_free_args keep_exec_args : keeps.
Lemma keep_sys_exec : keep same_fds (sys_exec me kend trampoline).
Proof. unfold sys_exec. keeps. Qed.
End files_calls.
#[export] Hint Resolve keep_begin_op' keep_end_op' keep_inode_of keep_iunlock' keep_iunlockput' keep_argfd keep_open_inode keep_sys_read keep_sys_write keep_sys_fstat keep_sys_link keep_sys_unlink keep_sys_mkdir keep_sys_mknod keep_sys_chdir keep_sys_exec : keeps.

(** ** Counting descriptors *)

(** How many descriptors of a table, and of all tables, refer to [f]. *)
Definition cnt (f : nat) (l : list (option nat)) : Z := Z.of_nat (length (filter (λ x, x = Some f) l)).
Definition occ (f : nat) (ofs : list (list (option nat))) : Z := foldr (λ l n, cnt f l + n) 0 ofs.

Lemma cnt_cons f x l : cnt f (x :: l) = (if decide (x = Some f) then 1 else 0) + cnt f l.
Proof. unfold cnt. rewrite filter_cons. case_decide; cbn [length]; lia. Qed.
Lemma cnt_insert f l i x y : l !! i = Some x → cnt f (<[i := y]> l) = cnt f l - (if decide (x = Some f) then 1 else 0) + (if decide (y = Some f) then 1 else 0).
Proof.
  revert i. induction l as [|z l IH]; intros [|i] Hi; try done; cbn [lookup list_lookup] in Hi.
  - injection Hi as ->. change (<[0%nat:=y]> (x :: l)) with (y :: l). rewrite !cnt_cons. lia.
  - change (<[S i:=y]> (z :: l)) with (z :: <[i:=y]> l). rewrite !cnt_cons, (IH i) by done. lia.
Qed.
Lemma cnt_bound f l : 0 ≤ cnt f l ≤ Z.of_nat (length l).
Proof. unfold cnt. pose proof (length_filter (λ x, x = Some f) l). lia. Qed.
Lemma cnt_none f n : cnt f (replicate n None) = 0.
Proof. induction n as [|n IH]; [done|]. cbn [replicate]. rewrite cnt_cons, IH. done. Qed.
Lemma cnt_pos f l : Some f ∈ l → 1 ≤ cnt f l.
Proof. intros (l1 & l2 & ->)%list_elem_of_split. unfold cnt. rewrite filter_app, filter_cons, decide_True, length_app by done. cbn [length]. lia. Qed.

Lemma occ_insert f ofs i l l' : ofs !! i = Some l → occ f (<[i := l']> ofs) = occ f ofs - cnt f l + cnt f l'.
Proof.
  revert i. induction ofs as [|k ofs IH]; intros [|i] Hi; try done; cbn [lookup list_lookup] in Hi.
  - injection Hi as ->. change (<[0%nat:=l']> (l :: ofs)) with (l' :: ofs). unfold occ. cbn [foldr]. lia.
  - change (<[S i:=l']> (k :: ofs)) with (k :: <[i:=l']> ofs). unfold occ in *. cbn [foldr]. rewrite (IH i) by done. lia.
Qed.
Lemma occ_bound f ofs n : (∀ l, l ∈ ofs → length l = n) → 0 ≤ occ f ofs ≤ Z.of_nat (length ofs * n).
Proof.
  induction ofs as [|l ofs IH]; intros Hl; [done|]. unfold occ in *. cbn [foldr length]. pose proof (cnt_bound f l). rewrite (Hl l ltac:(by left)) in *.
  specialize (IH ltac:(intros k Hk; apply Hl; by right)). lia.
Qed.
Lemma occ_pos f ofs i l : ofs !! i = Some l → Some f ∈ l → 1 ≤ occ f ofs.
Proof.
  revert i. induction ofs as [|k ofs IH]; intros [|i] Hi Hf; try done; cbn [lookup list_lookup] in Hi; unfold occ in *; cbn [foldr].
  - injection Hi as ->. pose proof (cnt_pos f l Hf). assert (0 ≤ foldr (λ l n, cnt f l + n) 0 ofs); [|lia]. clear. induction ofs as [|k ofs IH]; cbn [foldr]; [done|]. pose proof (cnt_bound f k). lia.
  - specialize (IH i Hi Hf). pose proof (cnt_bound f k). lia.
Qed.

(** ** The invariant *)

(** Every descriptor refers to a file of the table, the count of a file is the
    number of its descriptors plus what is in flight ([e]), and processes that
    are not in use have no descriptors. *)
Record fd_inv (e : nat → Z) (s : sys) : Prop := {
  fi_procs : length (ofiles (sp s)) = NPROC;
  fi_files : length (refs (sf s)) = NFILE;
  fi_table : ∀ i l, ofiles (sp s) !! i = Some l → length l = NOFILE;
  fi_valid : ∀ i l f, ofiles (sp s) !! i = Some l → Some f ∈ l → (f < NFILE)%nat;
  fi_refs : ∀ f r, refs (sf s) !! f = Some r → r = occ f (ofiles (sp s)) + e f;
  fi_idle : ∀ i l, idle i (sp s) → ofiles (sp s) !! i = Some l → l = replicate NOFILE None
}.
Definition fd_ok (s : sys) : Prop := fd_inv (λ _, 0) s.
(** The process that makes the call. *)
Definition cur (i : nat) (s : sys) : Prop := c_proc (sp s) = Some i ∧ (i < NPROC)%nat ∧ ¬ idle i (sp s).
Definition has (i fd f : nat) (s : sys) : Prop := ∃ l, ofiles (sp s) !! i = Some l ∧ l !! fd = Some (Some f).
(** A process that [fork] is making, and its descriptors so far. *)
Definition making (np : nat) (l : list (option nat)) (s : sys) : Prop := ofiles (sp s) !! np = Some l ∧ ¬ idle np (sp s).
Definition no_fds : list (option nat) := replicate NOFILE None.

Lemma fd_inv_same e s s' : fd_inv e s → same_fds s s' → fd_inv e s'.
Proof.
  intros [Hp Hf Ht Hv Hr Hi] [(Ho & _ & Hd) Hrf]. unfold same_refs in Hrf. split; rewrite ?Ho, ?Hrf; eauto.
Qed.
Lemma cur_same i s s' : cur i s → same_procs (sp s) (sp s') → cur i s'.
Proof. intros (Hc & Hl & Hn) (_ & Hc' & Hd). split_and!; [by rewrite Hc'|done|auto]. Qed.
Lemma has_same i fd f s s' : has i fd f s → same_procs (sp s) (sp s') → has i fd f s'.
Proof. intros (l & Hl & Hfd) (Ho & _). exists l. by rewrite Ho. Qed.
Lemma making_same np l s s' : making np l s → same_procs (sp s) (sp s') → making np l s'.
Proof. intros [Hl Hn] (Ho & _ & Hd). split; [by rewrite Ho|auto]. Qed.
Lemma fd_inv_ext e e' s : (∀ g, (g < NFILE)%nat → e g = e' g) → fd_inv e s → fd_inv e' s.
Proof. intros He [Hp Hf Ht Hv Hr Hi]. split; try done. intros f r Hfr. rewrite <- He; [auto|]. rewrite <- Hf. by eapply lookup_lt_Some. Qed.

Definition add (f : nat) (d : Z) (e : nat → Z) : nat → Z := λ g, if decide (g = f) then e g + d else e g.

Lemma has_valid e i fd f s : fd_inv e s → has i fd f s → (f < NFILE)%nat.
Proof. intros Hi (l & Hl & Hfd). eapply (fi_valid _ _ Hi); [exact Hl|]. by eapply list_elem_of_lookup_2. Qed.

(** The count of one file changes. *)
Lemma fd_inv_refs e f r d s s' : fd_inv e s → same_procs (sp s) (sp s') → refs (sf s) !! f = Some r → refs (sf s') = <[f := r + d]> (refs (sf s)) → fd_inv (add f d e) s'.
Proof.
  intros [Hp Hf Ht Hv Hr Hi] (Ho & _ & Hd) Hfr Hrf. split; rewrite ?Ho, ?Hrf, ?length_insert; eauto.
  intros g r'. unfold add. rewrite list_lookup_insert. case_decide as Hg.
  - destruct Hg as [<- _]. intros [= <-]. rewrite decide_True by done. rewrite (Hr _ _ Hfr). lia.
  - intros Hgr. rewrite decide_False; [auto|]. intros ->. apply Hg. split; [done|]. by eapply lookup_lt_Some.
Qed.

(** A process's table changes. *)
Definition set_row (i : nat) (l : list (option nat)) (s : sys) : sys := set_sp (upd_proc i (set_p_ofile l) (sp s)) s.
Lemma row_ofiles i l p : ofiles (upd_proc i (set_p_ofile l) p) = if decide (i < length (ofiles p))%nat then <[i := l]> (ofiles p) else ofiles p.
Proof.
  unfold ofiles, upd_proc. cbn [procs set_procs]. rewrite length_fmap. apply list_eq. intros j. rewrite list_lookup_fmap, list_lookup_alter. case_decide as Hij.
  - subst j. case_decide as Hl; [rewrite list_lookup_insert_eq by (by rewrite length_fmap); destruct (lookup_lt_is_Some_2 _ _ Hl) as [x Hx]; by rewrite Hx|].
    rewrite list_lookup_fmap. by rewrite lookup_ge_None_2 by lia.
  - case_decide; [rewrite list_lookup_insert_ne by done|]; by rewrite list_lookup_fmap.
Qed.
Lemma row_idle i j l p : idle j (upd_proc i (set_p_ofile l) p) ↔ idle j p.
Proof. unfold idle, proc_at, upd_proc. cbn [procs set_procs]. rewrite list_lookup_total_alter. case_decide as Hij; [destruct Hij as [<- _]; by destruct (procs p !!! i)|done]. Qed.

Lemma fd_inv_row e e' i l fd x y s : fd_inv e s → ofiles (sp s) !! i = Some l → l !! fd = Some x → ¬ idle i (sp s) →
  (∀ f, y = Some f → (f < NFILE)%nat) → (∀ g, e' g = e g + (if decide (x = Some g) then 1 else 0) - (if decide (y = Some g) then 1 else 0)) →
  fd_inv e' (set_row i (<[fd := y]> l) s).
Proof.
  intros [Hp Hf Ht Hv Hr Hi] Hl Hx Hni Hy He. assert (ofiles (sp (set_row i (<[fd := y]> l) s)) = <[i := <[fd := y]> l]> (ofiles (sp s))) as Ho.
  { unfold set_row. cbn [sp set_sp]. rewrite row_ofiles, decide_True; [done|]. by eapply lookup_lt_Some. }
  pose proof (lookup_lt_Some _ _ _ Hl) as Hil. split; rewrite ?Ho, ?length_insert; try done.
  - intros j k. rewrite list_lookup_insert. case_decide; [intros [= <-]; rewrite length_insert; by eapply Ht|apply Ht].
  - intros j k f. rewrite list_lookup_insert. case_decide; [|apply Hv]. intros [= <-] (n & Hn)%list_elem_of_lookup. rewrite list_lookup_insert in Hn. case_decide; [injection Hn as Hn; by apply Hy|].
    eapply Hv; [exact Hl|]. by eapply list_elem_of_lookup_2.
  - intros f r Hfr. rewrite (occ_insert _ _ _ l) by done. rewrite (cnt_insert _ _ _ x) by done. rewrite He, (Hr _ _ Hfr). lia.
  - intros j k. unfold set_row. cbn [sp set_sp]. rewrite row_idle, list_lookup_insert. intros Hj. case_decide as Hij; [|by apply Hi]. destruct Hij as [-> _]. done.
Qed.
Lemma cur_row i j l s : cur i s → cur i (set_row j l s).
Proof. intros (Hc & Hl & Hn). split_and!; [done|done|]. unfold set_row. cbn [sp set_sp]. by rewrite row_idle. Qed.

(** ** Operations that move references *)

Lemma bind_inv {E S A B} (m : M E S A) (k : A → M E S B) s b s' t : bind m k s = Done b s' t → ∃ a s1 t1 t2, m s = Done a s1 t1 ∧ k a s1 = Done b s' t2.
Proof.
  unfold bind. destruct (m s) as [a s1 t1|msg s1 t1|c s1 t1|s1 t1]; try done. destruct (k a s1) as [b' s2 t2|msg s2 t2|c s2 t2|s2 t2] eqn:H2; try done.
  intros [= <- <- _]. by eexists _, _, _, _.
Qed.
(** An invariant of a loop. *)
Lemma for_upto_inv {E S} (I : nat → S → Prop) n (body : nat → M E S unit) s a s' t : I 0%nat s → (∀ k s a s' t, (k < n)%nat → I k s → body k s = Done a s' t → I (Datatypes.S k) s') → for_upto n body s = Done a s' t → I n s'.
Proof.
  intros H0 Hb. unfold for_upto. assert (∀ m k s t, (k + m = n)%nat → I k s → for_from m k body s = Done a s' t → I n s') as Hl; [|by apply Hl].
  clear s t H0. induction m as [|m IH]; intros k s t Hk HI H; cbn [for_from] in H; [injection H as _ <- _; by replace n with k by lia|].
  apply bind_inv in H as (u & s1 & t1 & t2 & H1 & H). eapply IH; [|eapply Hb; [|exact HI|exact H1]|exact H]; lia.
Qed.
Tactic Notation "binv" hyp(H) ident(a) ident(s1) ident(H1) := let t1 := fresh "t" in let t2 := fresh "t" in apply bind_inv in H as (a & s1 & t1 & t2 & H1 & H).
(** What is known of [s] holds of [s1]. *)
Ltac moved K s s1 :=
  repeat match goal with
  | I : fd_inv _ s |- _ => apply (fd_inv_same _ _ s1) in I; [|exact K]
  | I : cur _ s |- _ => apply (cur_same _ _ s1) in I; [|exact (proj1 K)]
  | I : has _ _ _ s |- _ => apply (has_same _ _ _ _ s1) in I; [|exact (proj1 K)]
  | I : making _ _ s |- _ => apply (making_same _ _ _ s1) in I; [|exact (proj1 K)]
  | I : ofiles (sp s) !! _ = Some _ |- _ => rewrite <- (proj1 (proj1 K)) in I
  end.
Ltac moved_procs K s s1 :=
  repeat match goal with
  | I : cur _ s |- _ => apply (cur_same _ _ s1) in I; [|exact K]
  | I : has _ _ _ s |- _ => apply (has_same _ _ _ _ s1) in I; [|exact K]
  | I : making _ _ s |- _ => apply (making_same _ _ _ s1) in I; [|exact K]
  end.
(** The first step of the run [H] changes no descriptor. *)
Tactic Notation "skips" hyp(H) ident(a) ident(s1) :=
  let H1 := fresh "Hk" in binv H a s1 H1;
  lazymatch type of H1 with ?m ?s = Done _ _ _ =>
    let K := fresh "K" in assert (keep same_fds m) as K by solve [keeps]; apply K in H1; clear K; moved H1 s s1; clear H1 end.
(** The rest of the run changes no descriptor. *)
Ltac skip_rest H :=
  lazymatch type of H with ?m ?s = Done _ ?s' _ =>
    let K := fresh "K" in assert (keep same_fds m) as K by solve [keeps]; apply K in H; clear K; moved H s s'; clear H end.

(** *** The file table *)

Lemma alter_refs f g (s : filest kmem) x : files s !! f = Some x → refs (upd_file f g s) = <[f := f_ref (g x)]> (refs s).
Proof.
  intros Hx. unfold refs, upd_file. cbn [files set_files]. apply list_eq. intros j. rewrite list_lookup_fmap, list_lookup_alter, list_lookup_insert, length_fmap, list_lookup_fmap.
  pose proof (lookup_lt_Some _ _ _ Hx). case_decide as Hj; [subst j; rewrite decide_True by done; by rewrite Hx|]. by rewrite decide_False by naive_solver.
Qed.
Lemma refs_fil f (s : filest kmem) r : refs s !! f = Some r → files s !! f = Some (fil f s) ∧ f_ref (fil f s) = r.
Proof. unfold refs. rewrite list_lookup_fmap. destruct (files s !! f) as [x|] eqn:Hx; [|done]. intros [= <-]. unfold fil. by rewrite (list_lookup_total_correct _ _ _ Hx). Qed.
Lemma keep_acquire_refs : keep (E:=event) same_refs (@Prelude.acquire event (filest kmem) _).
Proof. intros s a s' t. unfold Prelude.acquire. destruct (held s); [done|]. by intros [= <- <- <-]. Qed.
Lemma keep_release_refs : keep (E:=event) same_refs (@Prelude.release event (filest kmem) _).
Proof. intros s a s' t. unfold Prelude.release. destruct (held s); [|done]. by intros [= <- <- <-]. Qed.
Hint Resolve keep_acquire_refs keep_release_refs : keeps.

(** The reference count of [f] goes from [r] to [r']. *)
Lemma keep_fileclose_rest (pid kend : Z) (l : option file) : keep same_refs (match l with
  | None => ret tt
  | Some ff =>
      match f_type ff with
      | FD_PIPE => @pipeclose_free kmem (vm_pages kend) (f_pipe ff) (negb (f_writable ff =? 0))
      | FD_INODE | FD_DEVICE => ffs_ (flog begin_op) ;; ffs_ (iput pid (f_ip ff)) ;; ffs_ (flog (end_op pid))
      | FD_NONE => ret tt
      end
  end).
Proof. unfold pipeclose_free. keeps. by apply keep_modify. Qed.

Lemma fileclose_refs pid kend f s s' a t r : refs s !! f = Some r → r < 2 ^ 31 → @fileclose kmem (vm_pages kend) pid f s = Done a s' t → 1 ≤ r ∧ refs s' = <[f := r - 1]> (refs s).
Proof.
  intros Hr Hb H. unfold fileclose in H. binv H last s1 H1. apply keep_fileclose_rest in H. unfold same_refs in H. rewrite H. clear H.
  unfold fileclose_ref in H1. binv H1 u1 s2 H2. apply keep_acquire_refs in H2. unfold same_refs in H2. rewrite <- H2 in Hr |- *. clear H2. binv H1 x s3 H2. injection H2 as <- <- _.
  destruct (refs_fil _ _ _ Hr) as [Hx Hfr]. rewrite Hfr in H1. destruct (r <? 1) eqn:Hlt; [done|]. apply Z.ltb_ge in Hlt. split; [done|].
  rewrite (i32_small (r - 1)) in H1 by (wrap_unfold; lia). binv H1 u2 s4 H2. injection H2 as _ <- _.
  assert (refs (upd_file f (set_f_ref (r - 1)) s2) = <[f := r - 1]> (refs s2)) as Hu by (by rewrite (alter_refs _ _ _ _ Hx)).
  destruct (0 <? r - 1) eqn:Hp.
  - binv H1 u3 s5 H2. apply keep_release_refs in H2. injection H1 as _ <- _. by rewrite H2.
  - apply Z.ltb_ge in Hp. assert (r = 1) as -> by lia. binv H1 ff s5 H2. injection H2 as _ <- _. binv H1 u3 s6 H2. injection H2 as _ <- _. binv H1 u4 s7 H2. injection H2 as _ <- _. binv H1 u5 s8 H2. apply keep_release_refs in H2.
    injection H1 as _ <- _. unfold same_refs in H2. rewrite H2.
    match goal with |- context [upd_file f (set_f_type FD_NONE) ?y] => assert (same_refs y (upd_file f (set_f_type FD_NONE) y)) as Ht end.
    { apply (keep_upd_file f (set_f_type FD_NONE) ltac:(by intros []) _ tt _ []). done. }
    unfold same_refs in Ht. rewrite Ht. erewrite (alter_refs f (set_f_ref 0)); [|unfold upd_file; cbn [files set_files]; rewrite list_lookup_alter_eq, Hx; reflexivity].
    rewrite Hu. by rewrite list_insert_insert_eq.
Qed.

Lemma filedup_refs f s s' a t r : refs s !! f = Some r → r < 2 ^ 31 - 1 → filedup f s = Done a s' t → a = f ∧ 1 ≤ r ∧ refs s' = <[f := r + 1]> (refs s).
Proof.
  intros Hr Hb H. unfold filedup in H. binv H u1 s1 H1. apply keep_acquire_refs in H1. unfold same_refs in H1. rewrite <- H1 in Hr |- *. clear H1. binv H x s2 H1. injection H1 as <- <- _.
  destruct (refs_fil _ _ _ Hr) as [Hx Hfr]. rewrite Hfr in H. destruct (r <? 1) eqn:Hlt; [done|]. apply Z.ltb_ge in Hlt.
  rewrite (i32_small (r + 1)) in H by (wrap_unfold; lia). binv H u2 s3 H1. injection H1 as _ <- _. binv H u3 s4 H1. apply keep_release_refs in H1. injection H as <- <- _.
  split_and!; [done|done|]. unfold same_refs in H1. by rewrite H1, (alter_refs _ _ _ _ Hx).
Qed.

Lemma find_unused_refs l : ∀ i f, find_unused l i = Some f → (i ≤ f)%nat ∧ ∃ x, l !! (f - i)%nat = Some x ∧ f_ref x = 0.
Proof.
  induction l as [|x l IH]; intros i f; cbn [find_unused]; [done|]. destruct (f_ref x =? 0) eqn:Hx.
  - intros [= <-]. rewrite Nat.sub_diag. split; [done|]. exists x. split; [done|]. by apply Z.eqb_eq.
  - intros (Hi & y & Hy & H0)%IH. split; [lia|]. exists y. split; [|done]. by replace (f - i)%nat with (S (f - S i)) by lia.
Qed.
Lemma filealloc_refs s s' a t : filealloc s = Done a s' t → match a with Some f => refs s !! f = Some 0 ∧ refs s' = <[f := 1]> (refs s) | None => refs s' = refs s end.
Proof.
  intros H. unfold filealloc in H. binv H u1 s1 H1. apply keep_acquire_refs in H1. unfold same_refs in H1. rewrite <- H1. clear H1. binv H l s2 H1. injection H1 as <- <- _.
  destruct (find_unused (files s1) 0) as [f|] eqn:Hf.
  - apply find_unused_refs in Hf as (_ & x & Hx & H0). rewrite Nat.sub_0_r in Hx. binv H u2 s3 H1. injection H1 as _ <- _. binv H u3 s4 H1. apply keep_release_refs in H1. injection H as <- <- _. unfold same_refs in H1. rewrite H1.
    split; [unfold refs; by rewrite list_lookup_fmap, Hx; cbn; rewrite H0|]. by rewrite (alter_refs _ _ _ _ Hx).
  - binv H u3 s4 H1. apply keep_release_refs in H1. by injection H as <- <- _.
Qed.

Lemma pipealloc_refs pid kend s s' a t : @pipealloc kmem (vm_pages kend) pid s = Done a s' t →
  match a with
  | Some (f0, f1) => f0 ≠ f1 ∧ refs s !! f0 = Some 0 ∧ refs s !! f1 = Some 0 ∧ refs s' = <[f1 := 1]> (<[f0 := 1]> (refs s))
  | None => refs s' = refs s
  end.
Proof.
  intros H. unfold pipealloc in H. binv H f0 s1 H1. apply filealloc_refs in H1. destruct f0 as [f0|]; [|by injection H as <- <- _]. destruct H1 as [Ha Hs1].
  assert (<[f0 := 0]> (refs s) = refs s) as Hid0 by (by apply list_insert_id). pose proof (lookup_lt_Some _ _ _ Ha) as Hl0.
  assert (refs s1 !! f0 = Some 1) as Hf0 by (rewrite Hs1; by rewrite list_lookup_insert_eq).
  binv H f1 s2 H1. apply filealloc_refs in H1. destruct f1 as [f1|].
  2:{ rewrite <- H1 in Hf0. binv H u s3 H2. apply (fileclose_refs _ _ _ _ _ _ _ 1) in H2 as [_ H2]; [|done|lia]. injection H as <- <- _. by rewrite H2, H1, Hs1, list_insert_insert_eq. }
  destruct H1 as [Hb Hs2]. assert (f0 ≠ f1) as Hne by (intros ->; congruence). rewrite Hs1, list_lookup_insert_ne in Hb by done.
  assert (<[f1 := 0]> (refs s) = refs s) as Hid1 by (by apply list_insert_id).
  binv H pi s3 H1. apply keep_fpages in H1. unfold same_refs in H1. rewrite Hs2, Hs1 in H1. destruct (pi =? 0).
  - binv H u s4 H2. apply (fileclose_refs _ _ _ _ _ _ _ 1) in H2 as [_ H2]; [|rewrite H1; rewrite list_lookup_insert_ne, list_lookup_insert_eq by done; done|lia].
    change (1 - 1) with 0 in H2. rewrite H1, (list_insert_insert_ne _ f0 f1), list_insert_insert_eq, Hid0 in H2 by done.
    binv H u2 s5 H3. apply (fileclose_refs _ _ _ _ _ _ _ 1) in H3 as [_ H3]; [|rewrite H2; rewrite list_lookup_insert_eq; [done|by eapply lookup_lt_Some]|lia]. injection H as <- <- _. by rewrite H3, H2, list_insert_insert_eq.
  - binv H u s4 H2. injection H2 as _ <- _. binv H u2 s5 H2. apply keep_upd_file in H2; [|by intros []]. binv H u3 s6 H3. apply keep_upd_file in H3; [|by intros []]. injection H as <- <- _.
    split_and!; [done|done|done|]. rewrite H3, H2. exact H1.
Qed.

(** *** The kernel *)

Lemma on_files_inv me {A} (m : M event (filest kmem) A) s a s' t : on_files me m s = Done a s' t → ∃ x u, m (sf s) = Done a x u ∧ same_procs (sp s) (sp s') ∧ refs (sf s') = refs x.
Proof.
  unfold on_files. destruct (m (sf s)) as [b x u|? ? ?|? ? ?|? ?]; try done. intros H. binv H u1 s1 H1. injection H as -> -> _. apply keep_dispatch in H1 as [Hp Hr]. by eexists _, _.
Qed.
Lemma ref_of e s f : fd_inv e s → (f < NFILE)%nat → ∃ r, refs (sf s) !! f = Some r ∧ r ≤ 1024 + e f.
Proof.
  intros Hi Hf. rewrite <- (fi_files _ _ Hi) in Hf. destruct (lookup_lt_is_Some_2 _ _ Hf) as [r Hr]. exists r. split; [done|]. rewrite (fi_refs _ _ Hi _ _ Hr).
  pose proof (occ_bound f (ofiles (sp s)) NOFILE) as Ho. rewrite (fi_procs _ _ Hi) in Ho. unfold NPROC, NOFILE in Ho.
  assert (∀ l, l ∈ ofiles (sp s) → length l = 16%nat) as Hl; [|specialize (Ho Hl); lia]. intros l (j & Hj)%list_elem_of_lookup. by apply (fi_table _ _ Hi) in Hj.
Qed.

Section moves.
Context (me : nat) (kend : Z).

Lemma fileclose_inv e pid f s a s' t : fd_inv e s → (f < NFILE)%nat → e f ≤ 2 → on_files me (@fileclose kmem (vm_pages kend) pid f) s = Done a s' t → fd_inv (add f (-1) e) s' ∧ same_procs (sp s) (sp s').
Proof.
  intros Hi Hf He (x & u & H & Hp & Hr)%on_files_inv. destruct (ref_of _ _ _ Hi Hf) as (r & Hfr & Hb). apply (fileclose_refs _ _ _ _ _ _ _ r) in H as [_ H]; [|done|lia]. split; [|done].
  eapply (fd_inv_refs _ _ r); [exact Hi|done|done|]. by rewrite Hr, H.
Qed.
Lemma close_file_inv e f s a s' t : fd_inv e s → (f < NFILE)%nat → e f ≤ 2 → close_file me kend f s = Done a s' t → fd_inv (add f (-1) e) s' ∧ same_procs (sp s) (sp s').
Proof.
  intros Hi Hf He H. unfold close_file in H. binv H p s1 H1. apply keep_mp in H1. pose proof (fd_inv_same _ _ _ Hi H1) as Hi1. apply (fileclose_inv e) in H as [H H2]; try done. split; [done|]. etrans; [exact (proj1 H1)|done].
Qed.
Lemma filedup_inv e f s a s' t : fd_inv e s → (f < NFILE)%nat → e f ≤ 2 → on_files me (filedup f) s = Done a s' t → a = f ∧ fd_inv (add f 1 e) s' ∧ same_procs (sp s) (sp s').
Proof.
  intros Hi Hf He (x & u & H & Hp & Hr)%on_files_inv. destruct (ref_of _ _ _ Hi Hf) as (r & Hfr & Hb). apply (filedup_refs _ _ _ _ _ r) in H as (Ha & _ & H); [|done|lia]. split_and!; [done| |done].
  eapply (fd_inv_refs _ _ r); [exact Hi|done|done|]. by rewrite Hr, H.
Qed.
Lemma filealloc_inv e s a s' t : fd_inv e s → on_files me filealloc s = Done a s' t → same_procs (sp s) (sp s') ∧ match a with Some f => (f < NFILE)%nat ∧ fd_inv (add f 1 e) s' | None => fd_inv e s' end.
Proof.
  intros Hi (x & u & H & Hp & Hr)%on_files_inv. split; [done|]. apply filealloc_refs in H. destruct a as [f|].
  - destruct H as [H0 H]. split; [rewrite <- (fi_files _ _ Hi); by eapply lookup_lt_Some|]. eapply (fd_inv_refs _ _ 0); [exact Hi|done|done|]. by rewrite Hr, H.
  - apply (fd_inv_same _ _ _ Hi). split; [done|]. unfold same_refs. congruence.
Qed.
Lemma pipealloc_inv e pid s a s' t : fd_inv e s → on_files me (@pipealloc kmem (vm_pages kend) pid) s = Done a s' t → same_procs (sp s) (sp s') ∧
  match a with Some (f0, f1) => f0 ≠ f1 ∧ (f0 < NFILE)%nat ∧ (f1 < NFILE)%nat ∧ fd_inv (add f1 1 (add f0 1 e)) s' | None => fd_inv e s' end.
Proof.
  intros Hi (x & u & H & Hp & Hr)%on_files_inv. split; [done|]. apply pipealloc_refs in H. destruct a as [[f0 f1]|].
  - destruct H as (Hne & H0 & H1 & H). split_and!; [done|rewrite <- (fi_files _ _ Hi); by eapply lookup_lt_Some|rewrite <- (fi_files _ _ Hi); by eapply lookup_lt_Some|].
    set (mid := mksys (sp s) (set_files (alter (set_f_ref 1) f0 (files (sf s))) (sf s))). assert (refs (sf mid) = <[f0 := 1]> (refs (sf s))) as Hm.
    { destruct (refs_fil _ _ _ H0) as [Hx _]. exact (alter_refs f0 (set_f_ref 1) _ _ Hx). }
    apply (fd_inv_refs _ _ 0 1 mid); [apply (fd_inv_refs _ _ 0 1 s); done|done| |by rewrite Hr, Hm]. by rewrite Hm, list_lookup_insert_ne.
  - apply (fd_inv_same _ _ _ Hi). split; [done|]. unfold same_refs. congruence.
Qed.

Lemma mine_inv s i s' t : mine s = Done i s' t → c_proc (sp s) = Some i ∧ same_fds s s'.
Proof.
  intros H. split; [|by eapply keep_mine]. unfold mine, on_procs in H. destruct (mypr (sp s)) as [j x u|? ? ?|? ? ?|? ?] eqn:Hm; try done. injection H as -> _ _.
  unfold mypr in Hm. binv Hm p s1 H1. unfold myproc in H1. binv H1 u1 s2 H2. apply keep_lift_lk in H2 as (_ & Hc & _). binv H1 q s3 H3. injection H3 as <- <- _. binv H1 u2 s4 H4. injection H1 as <- _ _.
  rewrite Hc in Hm. destruct (c_proc (sp s)); [|done]. by injection Hm as -> _ _.
Qed.
Lemma mine_cur s i j s' t : cur i s → mine s = Done j s' t → j = i ∧ same_fds s s'.
Proof. intros (Hc & _) [Hj Hs]%mine_inv. split; [congruence|done]. Qed.
Lemma pr_inv i s p s' t : pr i s = Done p s' t → p = proc_at i (sp s) ∧ s' = s.
Proof. unfold pr, on_procs, gets. intros [= <- <- _]. by destruct s. Qed.
Lemma mp_cur i s p s' t : cur i s → mp s = Done p s' t → p = proc_at i (sp s') ∧ same_fds s s'.
Proof. intros Hc H. unfold mp in H. binv H j s1 H1. apply (mine_cur _ i) in H1 as [-> H1]; [|done]. apply pr_inv in H as [-> ->]. done. Qed.
Lemma row_of e i s : fd_inv e s → (i < NPROC)%nat → ofiles (sp s) !! i = Some (p_ofile (proc_at i (sp s))).
Proof.
  intros Hi Hl. rewrite <- (fi_procs _ _ Hi) in Hl. unfold ofiles in *. rewrite length_fmap in Hl. rewrite list_lookup_fmap. unfold proc_at. destruct (lookup_lt_is_Some_2 _ _ Hl) as [p Hp]. by rewrite Hp, (list_lookup_total_correct _ _ _ Hp).
Qed.
Lemma upd_row_inv i g s a s' t : upd i (λ p, set_p_ofile (g (p_ofile p)) p) s = Done a s' t → s' = set_row i (g (p_ofile (proc_at i (sp s)))) s.
Proof.
  unfold upd, on_procs, modify. intros [= _ <- _]. unfold set_row. f_equal. unfold upd_proc. f_equal. apply list_eq. intros j. rewrite !list_lookup_alter. case_decide as Hj; [subst j|done].
  unfold proc_at. destruct (procs (sp s) !! i) as [p|] eqn:Hp; [|done]. by rewrite (list_lookup_total_correct _ _ _ Hp).
Qed.

Lemma row_ofiles_set e i l s : fd_inv e s → (i < NPROC)%nat → ofiles (sp (set_row i l s)) = <[i := l]> (ofiles (sp s)).
Proof. intros Hi Hl. unfold set_row. cbn [sp set_sp]. rewrite row_ofiles, decide_True; [done|]. by rewrite (fi_procs _ _ Hi). Qed.
Lemma has_row e i fd fd' f y s : fd_inv e s → (i < NPROC)%nat → has i fd f s → fd ≠ fd' → has i fd f (set_row i (<[fd' := y]> (p_ofile (proc_at i (sp s)))) s).
Proof.
  intros Hi Hl (l & Hr & Hfd) Hne. rewrite (row_of e) in Hr by done. injection Hr as <-. eexists. rewrite (row_ofiles_set e), list_lookup_insert_eq by (done || by rewrite (fi_procs _ _ Hi)). split; [reflexivity|]. by rewrite list_lookup_insert_ne.
Qed.

(** [fdalloc] uses up a reference. *)
Lemma fdalloc_inv e i f s r s' t : fd_inv e s → cur i s → (f < NFILE)%nat → fdalloc_of f s = Done r s' t →
  cur i s' ∧ (∀ fd' f', has i fd' f' s → has i fd' f' s' ∧ r ≠ Some fd') ∧ match r with Some fd => fd_inv (add f (-1) e) s' ∧ has i fd f s' | None => fd_inv e s' end.
Proof.
  intros Hi Hc Hf H. unfold fdalloc_of in H. binv H j s1 H1. apply (mine_cur _ i) in H1 as [-> H1]; [|done].
  assert (∀ fd' f', has i fd' f' s → has i fd' f' s1) as Hh by (intros; by eapply has_same, (proj1 H1)). moved H1 s s1. clear H1.
  binv H p s2 H1. apply pr_inv in H1 as [-> ->]. pose proof Hc as (_ & Hl & Hni). pose proof (row_of _ _ _ Hi Hl) as Hrow.
  destruct (fdalloc (p_ofile (proc_at i (sp s1))) f) as [[fd l]|] eqn:Ha.
  - apply fdalloc_spec in Ha as (Hn & _ & ->). binv H u s3 H1. injection H as <- <- _. injection H1 as _ <- _.
    change (set_sp _ s1) with (set_row i (<[fd := Some f]> (p_ofile (proc_at i (sp s1)))) s1). split_and!; [by apply cur_row| | |].
    + intros fd' f' Hfd%Hh. assert (fd' ≠ fd) as Hne; [|split; [by eapply has_row|congruence]]. intros ->. destruct Hfd as (l & Hl' & Hx). congruence.
    + eapply fd_inv_row; try done; [by intros ? [= <-]|]. intros g. unfold add. rewrite (decide_False (P := None = Some g)) by done. repeat case_decide; try lia; naive_solver.
    + eexists. rewrite (row_ofiles_set e), list_lookup_insert_eq by (done || by rewrite (fi_procs _ _ Hi)). split; [reflexivity|]. apply list_lookup_insert_eq. by eapply lookup_lt_Some.
  - injection H as <- <- _. split_and!; [done| |done]. intros fd' f' Hfd. split; [by apply Hh|done].
Qed.

(** [myproc()->ofile[fd] = 0] gives one back. *)
Lemma fdclear_inv e i fd f s r s' t : fd_inv e s → cur i s → has i fd f s → fdclear fd s = Done r s' t →
  cur i s' ∧ (∀ fd' f', fd' ≠ fd → has i fd' f' s → has i fd' f' s') ∧ fd_inv (add f 1 e) s'.
Proof.
  intros Hi Hc Hfd H. unfold fdclear in H. binv H j s1 H1. apply (mine_cur _ i) in H1 as [-> H1]; [|done].
  assert (∀ fd' f', has i fd' f' s → has i fd' f' s1) as Hh by (intros; by eapply has_same, (proj1 H1)). moved H1 s s1. clear H1.
  apply (upd_row_inv i (λ l, fdclose l fd)) in H. subst s'. unfold fdclose. pose proof Hc as (_ & Hl & Hni). pose proof (row_of _ _ _ Hi Hl) as Hrow.
  destruct Hfd as (l & Hl' & Hx). rewrite Hrow in Hl'. injection Hl' as <-. split_and!; [by apply cur_row| |].
  - intros fd' f' Hne Hfd%Hh. by eapply has_row.
  - eapply fd_inv_row; try done. intros g. unfold add. rewrite (decide_False (P := None = Some g)) by done. repeat case_decide; try lia; naive_solver.
Qed.

Lemma argfd_inv e i n s a s' t : fd_inv e s → cur i s → argfd n s = Done a s' t → same_fds s s' ∧ match a with Some (fd, f) => has i fd f s' | None => True end.
Proof.
  intros Hi Hc H. split; [by eapply keep_argfd|]. unfold argfd in H. skips H fd s1. binv H p s2 H1. apply (mp_cur i) in H1 as [-> H1]; [|done]. moved H1 s1 s2. clear H1.
  destruct (fdget _ fd) as [f|] eqn:Hg; injection H as <- <- _; [|done]. pose proof Hc as (_ & Hl & _). eexists. split; [by eapply row_of|].
  unfold fdget in Hg. destruct (_ || _); [done|]. destruct (p_ofile _ !! Z.to_nat fd); [|done]. cbn in Hg. by subst.
Qed.

(** *** dup, close, open and pipe *)

Ltac flows := let g := fresh "g" in let Hg := fresh "Hg" in intros g Hg; unfold add; repeat case_decide; subst; try done; try lia.

Lemma sys_dup_inv i s r s' t : fd_ok s → cur i s → sys_dup me s = Done r s' t → fd_ok s' ∧ cur i s'.
Proof.
  intros Hi Hc H. unfold sys_dup in H. binv H a s1 H1. apply (argfd_inv _ i _ _ _ _ _ Hi Hc) in H1 as [H1 Ha]. unfold fd_ok in Hi. moved H1 s s1. clear H1. destruct a as [[fd0 f]|]; [|by injection H as _ <- _].
  pose proof (has_valid _ _ _ _ _ Hi Ha) as Hf. binv H fd s2 H1. apply (fdalloc_inv _ _ _ _ _ _ _ Hi Hc Hf) in H1 as (Hc2 & _ & Hi2). destruct fd as [fd|]; [|by injection H as _ <- _]. destruct Hi2 as [Hi2 _].
  binv H u s3 H1. apply (filedup_inv _ _ _ _ _ _ Hi2) in H1 as (_ & Hi3 & H1); [|done|unfold add; case_decide; lia]. moved_procs H1 s2 s3. injection H as _ <- _. split; [|done].
  eapply fd_inv_ext, Hi3. flows.
Qed.

Lemma sys_close_inv i s r s' t : fd_ok s → cur i s → sys_close me kend s = Done r s' t → fd_ok s' ∧ cur i s'.
Proof.
  intros Hi Hc H. unfold sys_close in H. binv H a s1 H1. apply (argfd_inv _ i _ _ _ _ _ Hi Hc) in H1 as [H1 Ha]. unfold fd_ok in Hi. moved H1 s s1. clear H1. destruct a as [[fd f]|]; [|by injection H as _ <- _].
  pose proof (has_valid _ _ _ _ _ Hi Ha) as Hf. binv H u s2 H1. apply (fdclear_inv _ _ _ _ _ _ _ _ Hi Hc Ha) in H1 as (Hc2 & _ & Hi2).
  binv H u' s3 H1. apply (close_file_inv _ _ _ _ _ _ Hi2) in H1 as (Hi3 & H1); [|done|unfold add; case_decide; lia]. moved_procs H1 s2 s3. injection H as _ <- _. split; [|done].
  eapply fd_inv_ext, Hi3. flows.
Qed.

Lemma sys_open_inv i s r s' t : fd_ok s → cur i s → sys_open me kend s = Done r s' t → fd_ok s' ∧ cur i s'.
Proof.
  intros Hi Hc H. unfold fd_ok in Hi. unfold sys_open in H. skips H omode s1. skips H path s2. destruct path as [path|]; [|by injection H as _ <- _]. skips H u1 s3. skips H ip s4.
  destruct ip as [ip|]; [|by injection H as _ <- _]. skips H x s5. destruct (_ && _); [by skip_rest H|].
  binv H f s6 H1. apply (filealloc_inv _ _ _ _ _ Hi) in H1 as [H1 Hf]. moved_procs H1 s5 s6. clear Hi H1. destruct f as [f|]; [|rename Hf into Hi; by skip_rest H]. destruct Hf as [Hf Hi].
  binv H fd s7 H1. apply (fdalloc_inv _ _ _ _ _ _ _ Hi Hc Hf) in H1 as (Hc7 & _ & Hi7). destruct fd as [fd|].
  - destruct Hi7 as [Hi7 _]. skip_rest H. split; [|done]. eapply fd_inv_ext, Hi7. flows.
  - binv H u2 s8 H1. apply (close_file_inv _ _ _ _ _ _ Hi7) in H1 as (Hi8 & H1); [|done|unfold add; case_decide; lia]. moved_procs H1 s7 s8. skip_rest H. split; [|done]. eapply fd_inv_ext, Hi8. flows.
Qed.

(** The failure paths of [pipe] close both files. *)
Lemma close_pair_inv e f0 f1 s (v r : sysret) s' t : fd_inv e s → (f0 < NFILE)%nat → (f1 < NFILE)%nat → e f0 ≤ 2 → e f1 ≤ 2 → (close_file me kend f0 ;; close_file me kend f1 ;; ret v) s = Done r s' t →
  fd_inv (add f1 (-1) (add f0 (-1) e)) s' ∧ same_procs (sp s) (sp s').
Proof.
  intros Hi H0 H1 He0 He1 H. binv H u1 s1 Ha. apply (close_file_inv _ _ _ _ _ _ Hi H0 He0) in Ha as [Hi1 Hp1]. binv H u2 s2 Hb.
  apply (close_file_inv _ _ _ _ _ _ Hi1 H1) in Hb as [Hi2 Hp2]; [|unfold add; case_decide; lia]. injection H as _ <- _. split; [done|]. by etrans.
Qed.
Lemma sys_pipe_inv i s r s' t : fd_ok s → cur i s → sys_pipe me kend s = Done r s' t → fd_ok s' ∧ cur i s'.
Proof.
  intros Hi Hc H. unfold fd_ok in Hi. unfold sys_pipe in H. skips H fdarray s1. binv H fs s2 H1. apply (pipealloc_inv _ _ _ _ _ _ Hi) in H1 as [H1 Hp]. moved_procs H1 s1 s2. clear Hi H1.
  destruct fs as [[rf wf]|]; [|by injection H as _ <- _]. destruct Hp as (Hne & Hrf & Hwf & Hi).
  assert (∀ e s s' (v r : sysret) t, cur i s → fd_inv e s → (∀ g, (g < NFILE)%nat → e g = add wf 1 (add rf 1 (λ _, 0)) g) → (close_file me kend rf ;; close_file me kend wf ;; ret v) s = Done r s' t → fd_ok s' ∧ cur i s') as Hclose.
  { intros e s3 s4 v r3 t4 Hc3 Hi3 He H3. apply (close_pair_inv e) in H3 as [Hi4 Hp4]; [|done..|rewrite He by done; unfold add; repeat case_decide; lia|rewrite He by done; unfold add; repeat case_decide; lia]. split; [|by eapply cur_same].
    eapply fd_inv_ext, Hi4. intros g Hg. specialize (He g Hg). revert He. unfold add. repeat case_decide; subst; lia. }
  binv H fd0 s3 H1. apply (fdalloc_inv _ _ _ _ _ _ _ Hi Hc Hrf) in H1 as (Hc3 & _ & Hi3). destruct fd0 as [fd0|]; [|by eapply (Hclose _ s3)]. destruct Hi3 as [Hi3 Hh0].
  binv H fd1 s4 H1. apply (fdalloc_inv _ _ _ _ _ _ _ Hi3 Hc3 Hwf) in H1 as (Hc4 & Hhas & Hi4). destruct (Hhas _ _ Hh0) as [Hh04 Hfd]. destruct fd1 as [fd1|].
  2:{ binv H u s5 H1. apply (fdclear_inv _ _ _ _ _ _ _ _ Hi4 Hc4 Hh04) in H1 as (Hc5 & _ & Hi5). eapply (Hclose _ s5); [done|done| |exact H]. flows. }
  destruct Hi4 as [Hi4 Hh1]. skips H p s5. skips H r0 s6. skips H r1 s7. destruct (r1 <? 0).
  - binv H u s8 H1. apply (fdclear_inv _ _ _ _ _ _ _ _ Hi4 Hc4 Hh04) in H1 as (Hc5 & Hhas8 & Hi5). apply Hhas8 in Hh1; [|congruence]. binv H u2 s9 H1. apply (fdclear_inv _ _ _ _ _ _ _ _ Hi5 Hc5 Hh1) in H1 as (Hc9 & _ & Hi9).
    eapply (Hclose _ s9); [done|done| |exact H]. flows.
  - injection H as _ <- _. split; [|done]. eapply fd_inv_ext, Hi4. flows.
Qed.

(** *** freeproc and allocproc *)

(** As [same_fds], but process [i] may become idle. *)
Definition same_but (i : nat) (s s' : sys) : Prop :=
  ofiles (sp s') = ofiles (sp s) ∧ c_proc (sp s') = c_proc (sp s) ∧ (∀ j, j ≠ i → idle j (sp s') → idle j (sp s)) ∧ same_refs (sf s) (sf s').
#[local] Instance same_but_preorder i : PreOrder (same_but i).
Proof. split; [done|]. intros s1 s2 s3 (H1 & H2 & H3 & H4) (H5 & H6 & H7 & H8). split_and!; [congruence|congruence|auto|by etrans]. Qed.
Lemma keep_but {A} i (m : K A) : keep same_fds m → keep (same_but i) m.
Proof. intros Hm s a s' t H. apply Hm in H as [(H1 & H2 & H3) H4]. split_and!; auto. Qed.
Hint Extern 3 (keep (same_but _) _) => apply keep_but; solve [keeps] : keeps.

Lemma fd_inv_but e i s s' : fd_inv e s → ofiles (sp s) !! i = Some no_fds → same_but i s s' → fd_inv e s'.
Proof.
  intros [Hp Hf Ht Hv Hr Hi] Hn (Ho & _ & Hd & Hrf). unfold same_refs in Hrf. split; rewrite ?Ho, ?Hrf; eauto.
  intros j l Hj. destruct (decide (j = i)) as [->|Hne]; [rewrite Hn; by intros [= <-]|eauto].
Qed.
Lemma cur_but i j s s' : cur i s → i ≠ j → same_but j s s' → cur i s'.
Proof. intros (Hc & Hl & Hn) Hne (_ & Hc' & Hd & _). split_and!; [congruence|done|auto]. Qed.

Lemma keep_freeproc i : keep (same_but i) (freeproc kend i).
Proof.
  unfold freeproc. keeps. intros s u s' t [= _ <- _]. destruct (upd_same i (set_p_state RUNNABLE) (sp s) ltac:(by intros []) ltac:(intros ? Hidle; by destruct Hidle)) as (H1 & H2 & H3).
  split_and!; [|done| |done]; cbn [sp set_sp].
  - rewrite <- H1. unfold ofiles, upd_proc. cbn [procs set_procs]. apply list_eq. intros j. rewrite !list_lookup_fmap, !list_lookup_alter. case_decide; [by destruct (procs (sp s) !! i) as [[]|]|done].
  - intros j Hne. unfold idle, proc_at, upd_proc. cbn [procs set_procs]. by rewrite list_lookup_total_alter_ne.
Qed.
Hint Resolve keep_freeproc : keeps.

Lemma find_unused_inv s r s' t : find_unused_proc me s = Done r s' t → same_fds s s' ∧ match r with Some np => (np < NPROC)%nat ∧ idle np (sp s') | None => True end.
Proof.
  intros H. split; [revert H; apply keep_on_procs; keeps|]. unfold find_unused_proc, on_procs in H.
  destruct (for_find _ _ (sp s)) as [x p u|? ? ?|? ? ?|? ?] eqn:Hf; try done. injection H as -> <- _. cbn [sp set_sp]. revert Hf. generalize (sp s). unfold for_find.
  assert (∀ n i p0 u0, (i + n ≤ NPROC)%nat → for_find_from n i (λ i, acquire_lk me (L_proc i) ;; let! p := gets (proc_at i) in if bool_decide (p_state p = UNUSED) then ret (Some i) else release_lk me (L_proc i) ;; ret None) p0 = Done r p u0 → match r with Some np => (np < NPROC)%nat ∧ idle np p | None => True end) as Hl.
  { clear. induction n as [|n IH]; intros i p0 u0 Hb H; [by injection H as <- _ _|]. cbn [for_find_from] in H. binv H x p1 H1. destruct x as [np|]; [|eapply IH; [|exact H]; lia]. injection H as <- <- _.
    binv H1 u1 p2 H2. binv H1 q p3 H3. injection H3 as <- <- _. case_bool_decide as Hs; [injection H1 as <- <- _; split; [lia|by left]|]. binv H1 u3 p4 H4. done. }
  intros p0 Hf. by eapply Hl in Hf.
Qed.

(** A process without descriptors is given up. *)
Lemma free_inv {A} e i np (v r : A) s s' t : fd_inv e s → cur i s → i ≠ np → ofiles (sp s) !! np = Some no_fds → (freeproc kend np ;; unlock_p me np ;; ret v) s = Done r s' t → fd_inv e s' ∧ cur i s'.
Proof.
  intros Hi Hc Hne Hm H. binv H u s1 H1. apply keep_freeproc in H1. apply (fd_inv_but _ _ _ _ Hi) in H1 as Hi1; [|done]. apply (cur_but i) in H1 as Hc1; [|done..]. by skip_rest H.
Qed.

Lemma allocproc_inv e i trampoline forkret_pc s r s' t : fd_inv e s → cur i s → allocproc me kend trampoline forkret_pc s = Done r s' t →
  fd_inv e s' ∧ cur i s' ∧ match r with Some np => i ≠ np ∧ (np < NPROC)%nat ∧ making np no_fds s' | None => True end.
Proof.
  intros Hi Hc H. unfold allocproc in H. binv H found s1 H1. apply find_unused_inv in H1 as [H1 Hf]. moved H1 s s1. clear H1. destruct found as [np|]; [|by injection H as <- <- _]. destruct Hf as [Hnp Hidle].
  assert (i ≠ np) as Hne by (intros ->; by destruct Hc as (_ & _ & ?)). pose proof (row_of _ _ _ Hi Hnp) as Hrow. rewrite (fi_idle _ _ Hi _ _ Hidle Hrow) in Hrow. clear Hidle.
  skips H pid s2. skips H u3 s3. binv H u4 s4 H4. assert (keep same_fds (upd np (set_p_state USED))) as K by keeps. pose proof (K _ _ _ _ H4) as K4. clear K. moved K4 s3 s4. clear K4.
  assert (making np no_fds s4) as Hm.
  { split; [done|]. injection H4 as _ <- _. unfold idle, proc_at, upd_proc. cbn [sp set_sp procs set_procs]. apply lookup_lt_Some in Hrow. unfold ofiles in Hrow. cbn [sp set_sp] in Hrow. rewrite length_fmap in Hrow.
    unfold upd_proc in Hrow. cbn [procs set_procs] in Hrow. rewrite length_alter in Hrow. rewrite list_lookup_total_alter_eq by done. by intros []. }
  clear Hrow H4. skips H u5 s5. skips H tf s6. skips H u7 s7. destruct (tf =? 0).
  { assert (r = None) as ->. { binv H v1 s8 H1. binv H v2 s9 H2. by injection H as <- _ _. } destruct (free_inv _ _ _ _ _ _ _ _ Hi Hc Hne (proj1 Hm) H). done. }
  skips H pt s8. skips H u9 s9. destruct (pt =? 0).
  { assert (r = None) as ->. { binv H v1 s10 H1. binv H v2 s11 H2. by injection H as <- _ _. } destruct (free_inv _ _ _ _ _ _ _ _ Hi Hc Hne (proj1 Hm) H). done. }
  skips H u10 s10. injection H as <- <- _. done.
Qed.

(** *** fork *)

Lemma making_row e np fd y s : fd_inv e s → (np < NPROC)%nat → ¬ idle np (sp s) → making np (<[fd := y]> (p_ofile (proc_at np (sp s)))) (set_row np (<[fd := y]> (p_ofile (proc_at np (sp s)))) s).
Proof.
  intros Hi Hl Hn. split; [|unfold set_row; cbn [sp set_sp]; by rewrite row_idle]. rewrite (row_ofiles_set e) by done. apply list_lookup_insert_eq. by rewrite (fi_procs _ _ Hi).
Qed.
Lemma ofile_lookup e i fd s : fd_inv e s → (i < NPROC)%nat → (fd < NOFILE)%nat → p_ofile (proc_at i (sp s)) !! fd = Some (p_ofile (proc_at i (sp s)) !!! fd).
Proof. intros Hi Hl Hfd. apply list_lookup_lookup_total_lt. by rewrite (fi_table _ _ Hi _ _ (row_of _ _ _ Hi Hl)). Qed.

Lemma dup_files_inv e i np s a s' t : fd_inv e s → (∀ f, e f ≤ 2) → cur i s → i ≠ np → (np < NPROC)%nat → making np no_fds s → dup_files me i np s = Done a s' t → fd_inv e s' ∧ cur i s' ∧ ∃ l, making np l s'.
Proof.
  intros Hi He Hc Hne Hl Hm H.
  apply (for_upto_inv (λ k s, fd_inv e s ∧ cur i s ∧ ∃ l, making np l s ∧ ∀ j, (k ≤ j < NOFILE)%nat → l !! j = Some None)) in H as (Hi' & Hc' & l & Hm' & _); [by eauto| |].
  { split_and!; [done|done|]. exists no_fds. split; [done|]. intros j Hj. apply lookup_replicate_2; lia. }
  clear s s' a t Hi Hc Hm H. intros k s a s' t Hk (Hi & Hc & l & Hm & Hnone) H.
  binv H p s2 H2. apply pr_inv in H2 as [-> ->]. pose proof Hc as (_ & Hil & _). pose proof (ofile_lookup _ _ k _ Hi Hil Hk) as Hf.
  destruct (p_ofile (proc_at i (sp s)) !!! k) as [f|]; [|injection H as _ <- _; split_and!; [done|done|]; exists l; split; [done|]; intros; apply Hnone; lia].
  assert (f < NFILE)%nat as Hfl by (eapply (has_valid e i k); [done|]; eexists; split; [by eapply row_of|done]).
  binv H f' s3 H2. apply (filedup_inv _ _ _ _ _ _ Hi Hfl (He f)) in H2 as (-> & Hi3 & H2). moved_procs H2 s s3.
  apply (upd_row_inv np (λ l, <[k := Some f]> l)) in H. destruct Hm as [Hr Hn]. pose proof (row_of _ _ _ Hi3 Hl) as Hr'. rewrite Hr in Hr'. injection Hr' as ->. subst s'. split_and!.
  - eapply fd_inv_row; [exact Hi3|done|apply Hnone; lia|done|by intros ? [= <-]|]. intros g. unfold add. rewrite (decide_False (P := None = Some g)) by done. repeat case_decide; try lia; naive_solver.
  - by apply cur_row.
  - eexists. split; [by eapply making_row|]. intros j Hj. rewrite list_lookup_insert_ne by lia. apply Hnone. lia.
Qed.

Lemma fork_inv i trampoline forkret_pc s r s' t : fd_ok s → cur i s → fork me kend trampoline forkret_pc s = Done r s' t → fd_ok s' ∧ cur i s'.
Proof.
  intros Hi Hc H. unfold fd_ok in *. unfold fork in H. binv H j s1 H1. apply (mine_cur _ i) in H1 as [-> H1]; [|done]. moved H1 s s1. clear H1.
  binv H np s2 H1. apply (allocproc_inv _ i _ _ _ _ _ _ Hi Hc) in H1 as (Hi2 & Hc2 & Hnp). destruct np as [np|]; [|by injection H as _ <- _]. destruct Hnp as (Hne & Hl & Hm).
  skips H p s3. skips H c s4. skips H r5 s5. destruct (r5 <? 0); [by eapply (free_inv _ i np _ _ _ _ _ Hi2 Hc2 Hne (proj1 Hm) H)|].
  skips H u6 s6. skips H u7 s7. skips H u8 s8. binv H u9 s9 H1. apply (dup_files_inv _ i np _ _ _ _ Hi2) in H1 as (Hi9 & Hc9 & _); [|done..]. by skip_rest H.
Qed.

(** *** exit and wait *)

Lemma close_files_inv e i s a s' t : fd_inv e s → (∀ f, e f ≤ 2) → cur i s → close_files me kend i s = Done a s' t → fd_inv e s' ∧ cur i s' ∧ ofiles (sp s') !! i = Some no_fds.
Proof.
  intros Hi He Hc H.
  apply (for_upto_inv (λ k s, fd_inv e s ∧ cur i s ∧ ∃ l, ofiles (sp s) !! i = Some l ∧ ∀ j, (j < k)%nat → l !! j = Some None)) in H as (Hi' & Hc' & l & Hr & Hnone).
  - split_and!; [done|done|]. rewrite Hr. f_equal. pose proof (fi_table _ _ Hi' _ _ Hr) as Hlen. apply list_eq. intros j. unfold no_fds.
    destruct (decide (j < NOFILE)%nat); [rewrite Hnone by done; symmetry; by apply lookup_replicate_2|]. rewrite !lookup_ge_None_2; [done|rewrite length_replicate; lia|lia].
  - split_and!; [done|done|]. eexists. split; [eapply row_of; [done|by destruct Hc as (_ & ? & _)]|lia].
  - clear s s' a t Hi Hc H. intros k s a s' t Hk (Hi & Hc & l & Hrow & Hnone) H. pose proof Hc as (_ & Hl & Hni). binv H p s2 H2. apply pr_inv in H2 as [-> ->].
    pose proof (ofile_lookup _ _ k _ Hi Hl Hk) as Hf. pose proof (row_of _ _ _ Hi Hl) as Hr. rewrite Hrow in Hr. injection Hr as Hr. rewrite <- Hr in Hf, H. clear Hr. destruct (l !!! k) as [f|].
    2:{ injection H as _ <- _. split_and!; [done|done|]. exists l. split; [done|]. intros j Hj. destruct (decide (j = k)) as [->|]; [done|apply Hnone; lia]. }
    assert (f < NFILE)%nat as Hfl by (eapply (has_valid e i k); [done|]; by eexists).
    binv H v s3 H2. apply (fileclose_inv _ _ _ _ _ _ _ Hi Hfl (He f)) in H2 as (Hi3 & H2). moved_procs H2 s s3. apply (upd_row_inv i (λ l, <[k := None]> l)) in H.
    rewrite <- (proj1 H2) in Hrow. pose proof (row_of _ _ _ Hi3 Hl) as Hr3. rewrite Hrow in Hr3. injection Hr3 as ->. subst s'. pose proof Hc as (_ & _ & Hni3). split_and!.
    + eapply fd_inv_row; [exact Hi3|done|exact Hf|done|done|]. intros g. unfold add. rewrite (decide_False (P := None = Some g)) by done. repeat case_decide; try lia; naive_solver.
    + by apply cur_row.
    + eexists. split; [exact (proj1 (making_row _ _ k None _ Hi3 Hl Hni3))|]. intros j Hj. destruct (decide (j = k)) as [->|]; [apply list_lookup_insert_eq; by eapply lookup_lt_Some|]. rewrite list_lookup_insert_ne by done. apply Hnone. lia.
Qed.

Lemma exit_inv i n s r s' t : fd_ok s → cur i s → exit me kend n s = Done r s' t → fd_ok s'.
Proof.
  intros Hi Hc H. unfold fd_ok in *. unfold exit in H. binv H j s1 H1. apply (mine_cur _ i) in H1 as [-> H1]; [|done]. moved H1 s s1. clear H1. skips H ip s2. case_bool_decide; [done|].
  binv H u s3 H1. apply (close_files_inv _ _ _ _ _ _ Hi) in H1 as (Hi3 & Hc3 & Hno); [|done..].
  lazymatch type of H with ?m _ = _ => assert (keep (same_but i) m) as K end.
  { keeps. intros x v x' tx [= _ <- _]. split_and!; [|done| |done]; cbn [sp set_sp].
    - unfold ofiles, upd_proc. cbn [procs set_procs]. apply list_eq. intros j. rewrite !list_lookup_fmap, list_lookup_alter. case_decide; [subst j; by destruct (procs (sp x) !! i) as [[]|]|done].
    - intros j Hne. unfold idle, proc_at, upd_proc. cbn [procs set_procs]. by rewrite list_lookup_total_alter_ne. }
  by eapply fd_inv_but, K.
Qed.

Lemma wait_scan_inv e i addr n : ∀ j hk s r s' t, (j + n ≤ NPROC)%nat → fd_inv e s → cur i s → wait_scan me kend n j i addr hk s = Done r s' t → fd_inv e s' ∧ cur i s'.
Proof.
  induction n as [|n IH]; intros j hk s r s' t Hn Hi Hc H; cbn [wait_scan] in H; [by injection H as _ <- _|].
  skips H pp s1. case_bool_decide; [|eapply IH; [|done..]; lia]. skips H u s2. binv H qq s3 H1. apply pr_inv in H1 as [-> ->]. case_bool_decide as Hz; [|skips H u3 s3; eapply (IH (S j)); [lia|done..]].
  assert (idle j (sp s2)) as Hidle by (by right). assert (j < NPROC)%nat as Hj by lia. pose proof (row_of _ _ _ Hi Hj) as Hrow. rewrite (fi_idle _ _ Hi _ _ Hidle Hrow) in Hrow. change (replicate NOFILE None) with no_fds in Hrow.
  assert (i ≠ j) as Hne by (intros ->; by destruct Hc as (_ & _ & ?)). clear Hidle Hz. skips H p s3. skips H r4 s4. destruct (r4 <? 0); [by skip_rest H|].
  binv H u5 s5 H1. apply keep_freeproc in H1. apply (fd_inv_but _ _ _ _ Hi) in H1 as Hi5; [|done]. apply (cur_but i) in H1 as Hc5; [|done..]. by skip_rest H.
Qed.
#[local] Opaque wait_scan.
Lemma wait_loop_inv i addr s r s' t : fd_ok s → cur i s → wait_loop me kend i addr s = Done r s' t → fd_ok s' ∧ cur i s'.
Proof.
  intros Hi Hc H. unfold fd_ok in *. unfold wait_loop in H. binv H x s1 H1.
  assert (fd_inv (λ _, 0) s1 ∧ cur i s1) as [Hi1 Hc1] by (eapply (wait_scan_inv _ _ _ NPROC 0%nat false); [lia|exact Hi|exact Hc|exact H1]). clear H1. destruct x as [hk [v|]]; by skip_rest H.
Qed.
Lemma wait_inv i addr s r s' t : fd_ok s → cur i s → wait me kend addr s = Done r s' t → fd_ok s' ∧ cur i s'.
Proof.
  intros Hi Hc H. unfold fd_ok in Hi. unfold wait in H. binv H j s1 H1. apply (mine_cur _ i) in H1 as [-> H1]; [|done]. moved H1 s s1. clear H1. skips H u s2. by eapply wait_loop_inv.
Qed.
End moves.

(** ** All system calls *)

Section all_calls.
Context (me : nat) (kend trampoline forkret_pc : Z) (devsw : Z → @devops kmem) (pad : list Z) `{!DevOk devsw}.

Lemma keep_call_inv (h : K sysret) s r s' t : keep same_fds h → fd_ok s → h s = Done r s' t → fd_ok s'.
Proof. intros Hk Hi H. by eapply fd_inv_same, Hk. Qed.
Lemma sys_fork_inv i s r s' t : fd_ok s → cur i s → sys_fork me kend trampoline forkret_pc s = Done r s' t → fd_ok s'.
Proof. intros Hi Hc H. unfold sys_fork in H. binv H v s1 H1. injection H as _ <- _. by apply (fork_inv _ _ i) in H1 as [? _]. Qed.
Lemma sys_exit_inv i s r s' t : fd_ok s → cur i s → sys_exit me kend s = Done r s' t → fd_ok s'.
Proof. intros Hi Hc H. unfold fd_ok in Hi. unfold sys_exit in H. skips H n s1. binv H v s2 H1. injection H as _ <- _. by apply (exit_inv _ _ i) in H1. Qed.
Lemma sys_wait_inv i s r s' t : fd_ok s → cur i s → sys_wait me kend s = Done r s' t → fd_ok s'.
Proof. intros Hi Hc H. unfold fd_ok in Hi. unfold sys_wait in H. skips H n s1. binv H v s2 H1. injection H as _ <- _. by apply (wait_inv _ _ i) in H1 as [? _]. Qed.

Lemma syscalls_inv i num h s r s' t : fd_ok s → cur i s → syscalls me kend trampoline forkret_pc devsw pad num = Some h → h s = Done r s' t → fd_ok s'.
Proof.
  intros Hi Hc. unfold syscalls. generalize (Z.to_nat num) as k. intros k Hh H.
  do 24 (destruct k as [|k]; [cbn [nth] in Hh; first [discriminate Hh|injection Hh as <-];
    first [by eapply keep_call_inv; [|exact Hi|exact H]; keeps|by eapply sys_fork_inv|by eapply sys_exit_inv|by eapply sys_wait_inv
          |by eapply sys_dup_inv|by eapply sys_close_inv|by eapply sys_open_inv|by eapply sys_pipe_inv]|]).
  cbn [nth] in Hh. by destruct k.
Qed.

Lemma syscall_inv i s r s' t : fd_ok s → cur i s → syscall me kend trampoline forkret_pc devsw pad s = Done r s' t → fd_ok s'.
Proof.
  intros Hi Hc H. unfold fd_ok in Hi. unfold syscall in H. skips H j s1. skips H p s2. skips H num s3. destruct (if _ : bool then _ else None) as [h|] eqn:Hh; [|by skip_rest H].
  destruct (_ && _); [|done]. binv H v s4 H1. apply (syscalls_inv i _ _ _ _ _ _ Hi Hc Hh) in H1 as Hi4. clear H1 Hh Hi Hc. unfold fd_ok in Hi4. by skip_rest H.
Qed.
Lemma wait_again_inv i addr ie s r s' t : fd_ok s → cur i s → wait_again me kend i addr ie s = Done r s' t → fd_ok s'.
Proof. intros Hi Hc H. unfold fd_ok in Hi. unfold wait_again in H. skips H u s1. by apply (wait_loop_inv _ _ i) in H as [? _]. Qed.
Lemma sys_sleep_again_inv i n t0 ie s r s' t : fd_ok s → sys_sleep_again me i n t0 ie s = Done r s' t → fd_ok s'.
Proof. intros Hi H. unfold fd_ok in Hi. unfold sys_sleep_again, sleep_loop in H. by skip_rest H. Qed.
End all_calls.

(** ** The kernel as a transition system *)

Section steps.
Context (kend trampoline forkret_pc : Z) (devsw : Z → @devops kmem) (pad : list Z).

(** A process in use makes a system call, resumes one that slept, or something
    else happens (scheduling, interrupts, [read] and [write] that resume) that
    opens and closes no descriptor and ends no process. *)
Inductive kstep : sys → sys → Prop :=
| ks_call me i s r s' t : cur i s → syscall me kend trampoline forkret_pc devsw pad s = Done r s' t → kstep s s'
| ks_wait me i addr ie s r s' t : cur i s → wait_again me kend i addr ie s = Done r s' t → kstep s s'
| ks_sleep me i n t0 ie s r s' t : cur i s → sys_sleep_again me i n t0 ie s = Done r s' t → kstep s s'
| ks_other s s' : ofiles (sp s') = ofiles (sp s) → (∀ j, idle j (sp s') → idle j (sp s)) → same_refs (sf s) (sf s') → kstep s s'.

Lemma kstep_inv `{!DevOk devsw} s s' : fd_ok s → kstep s s' → fd_ok s'.
Proof.
  intros Hi Hs. revert Hi. destruct Hs as [me i x r x' t Hc H|me i addr ie x r x' t Hc H|me i n t0 ie x r x' t Hc H|x x' Ho Hd Hr]; intros Hi; [eapply syscall_inv; [apply _|exact Hi|exact Hc|exact H]|eapply wait_again_inv; [exact Hi|exact Hc|exact H]|eapply sys_sleep_again_inv; [exact Hi|exact H]|].
  destruct Hi as [Hp Hf Ht Hv Hrf Hidle]. unfold same_refs in Hr. split; rewrite ?Ho, ?Hr; eauto.
Qed.
End steps.

(** C7. Descriptors are well typed: whatever system calls processes make, in
    any order, every open descriptor of every process refers to an entry of the
    file table whose count is at least 1 (so no descriptor dangles), the count
    of each file is exactly the number of descriptors of all processes that
    refer to it (so no file leaks), and processes that have exited hold none. *)
Theorem descriptors_typed kend trampoline forkret_pc devsw pad `{!DevOk devsw} s0 s : fd_ok s0 → rtc (kstep kend trampoline forkret_pc devsw pad) s0 s →
  fd_ok s ∧ (∀ i fd f, has i fd f s → (f < NFILE)%nat ∧ ¬ idle i (sp s) ∧ 1 ≤ f_ref (fil f (sf s))).
Proof.
  intros H0 Hr. assert (fd_ok s) as Hi by (eapply (rtc_invariant fd_ok), Hr; [intros; by eapply kstep_inv|done]). split; [done|].
  intros i fd f Hh. pose proof (has_valid _ _ _ _ _ Hi Hh) as Hf. destruct Hh as (l & Hl & Hfd). apply list_elem_of_lookup_2 in Hfd. split_and!; [done| |].
  - intros Hidle. rewrite (fi_idle _ _ Hi _ _ Hidle Hl) in Hfd. by apply elem_of_replicate in Hfd as [? _].
  - destruct (ref_of _ _ _ Hi Hf) as (r & Hr' & _). destruct (refs_fil _ _ _ Hr') as [_ ->]. rewrite (fi_refs _ _ Hi _ _ Hr'). pose proof (occ_pos _ _ _ _ Hl Hfd). lia.
Qed.

(** *** A machine on which process 0 has one file open and calls [dup] *)

Definition no_devices (major : Z) : @devops kmem := mkdevops None None.
#[export, refine] Instance no_devices_ok : DevOk no_devices := {| dev_read_ok := _; dev_write_ok := _ |}.
Proof. all: done. Defined.

Definition dup_mem : kmem := mkkmem false 0 (store64 (8192 + TF_a0) 0 (store64 (8192 + TF_a7) 10 ∅)).
Definition dup_files0 : filest kmem := upd_file 0 (set_f_ref 1) (files0 (mkfsst (mklogsys log0 (mkbcache false [] ∅)) false [] (mksuperblock 0 0 0 0 0 0 0 0) dup_mem)).
Definition dup_machine : sys := machine dup_mem dup_files0 (runner 0 8192 0).
Definition dup_after : sys := match syscall 0 2147622912 2147512320 4096 no_devices [0; 0; 0; 0] dup_machine with Done _ s _ => s | _ => dup_machine end.

Lemma dup_machine_ok : fd_ok dup_machine.
Proof.
  assert (ofiles (sp dup_machine) = (Some 0%nat :: replicate 15 None) :: replicate 63 no_fds) as Ho by (vm_compute; reflexivity).
  assert (refs (sf dup_machine) = 1 :: replicate 99 0) as Hr by (vm_compute; reflexivity).
  split; rewrite ?Ho, ?Hr; [done|done| | | |].
  - intros [|i] l; [by intros [= <-]|]. intros [-> _]%lookup_replicate. done.
  - intros [|i] l f; [intros Hl Hf; change (Some (Some 0%nat :: replicate 15 None) = Some l) in Hl; apply (inj Some) in Hl; subst l; apply elem_of_cons in Hf as [[= ->]|Hf]; [unfold NFILE; lia|by apply elem_of_replicate in Hf as [? _]]|]. intros [-> _]%lookup_replicate Hf. by apply elem_of_replicate in Hf as [? _].
  - intros [|f] r; [intros [= <-]; vm_compute; reflexivity|]. intros [-> _]%lookup_replicate. reflexivity.
  - intros [|i] l Hi; [exfalso; by destruct Hi|]. by intros [-> _]%lookup_replicate.
Qed.

Lemma dup_run : ∃ r t, syscall 0 2147622912 2147512320 4096 no_devices [0; 0; 0; 0] dup_machine = Done r dup_after t.
Proof.
  assert (match syscall 0 2147622912 2147512320 4096 no_devices [0; 0; 0; 0] dup_machine with Done (Value 1) _ [] => true | _ => false end = true) as H by (vm_compute; reflexivity).
  unfold dup_after. destruct (syscall _ _ _ _ _ _ _); try done. by eexists _, _.
Qed.
Lemma dup_cur : cur 0 dup_machine.
Proof. split_and!; [reflexivity|unfold NPROC; lia|intros []; discriminate]. Qed.
Lemma dup_result : has 0 1 0 dup_after ∧ f_ref (fil 0 (sf dup_after)) = 2.
Proof. split; [|vm_compute; reflexivity]. exists (Some 0%nat :: Some 0%nat :: replicate 14 None). split; vm_compute; reflexivity. Qed.

Lemma descriptors_typed_witness : kstep 2147622912 2147512320 4096 no_devices [0; 0; 0; 0] dup_machine dup_after ∧ (has 0 1 0 dup_after ∧ f_ref (fil 0 (sf dup_after)) = 2) ∧ fd_ok dup_after.
Proof.
  destruct dup_run as (r & t & Hrun). pose proof (ks_call 2147622912 2147512320 4096 no_devices [0; 0; 0; 0] 0 0 _ _ _ _ dup_cur Hrun) as Hk. split; [exact Hk|split; [exact dup_result|]].
  exact (proj1 (descriptors_typed 2147622912 2147512320 4096 no_devices [0; 0; 0; 0] dup_machine dup_after dup_machine_ok (rtc_once _ _ Hk))).
Defined.
