(* ===== verification/Mkfs.v ===== *)
(** The program that makes the file system image ([mkfs.c]). *)
From Stdlib Require Import ZArith Lia.
From stdpp Require Import base list gmap strings.
From S2P Require Import Prelude Machine Mem Bio Blk Log UserMem Fs.

(** ** State *)

Definition NINODES : Z := 200.

(** The image file [fsfd] as a list of sectors, and the two counters. *)
Record mkst := mkmkst { dsk : list (list Z); freeinode : Z; freeblock : Z }.
Definition set_dsk (v : list (list Z)) (s : mkst) : mkst := mkmkst v (freeinode s) (freeblock s).
Definition set_freeinode (v : Z) (s : mkst) : mkst := mkmkst (dsk s) v (freeblock s).
Definition set_freeblock (v : Z) (s : mkst) : mkst := mkmkst (dsk s) (freeinode s) v.

(** [die] and a failed [assert] end the program ([Panic]); the progress
    messages are left out. *)
Local Abbreviation W := (M unit mkst).
Definition die {A} (msg : string) : W A := panic msg.
Definition assert (b : bool) : W unit := if b then ret tt else panic "assert".

(** The bytes written through [uchar *a], read back on a little-endian host. *)
Definition xshort (x : Z) : Z := le_value [u8 x; u8 (Z.shiftr x 8)].
Definition xint (x : Z) : Z := le_value [u8 x; u8 (Z.shiftr x 8); u8 (Z.shiftr x 16); u8 (Z.shiftr x 24)].

Definition nbitmap : Z := FSSIZE / BPB + 1.
Definition ninodeblocks : Z := NINODES / IPB + 1.
Definition nlog : Z := LOGSIZE.
Definition nmeta : Z := 2 + nlog + ninodeblocks + nbitmap.
Definition nblocks : Z := FSSIZE - nmeta.
(** [sb], as [main] fills it. *)
Definition mk_sb : superblock :=
  mksuperblock FSMAGIC (xint FSSIZE) (xint nblocks) (xint NINODES) (xint nlog) (xint 2) (xint (2 + nlog)) (xint (2 + nlog + ninodeblocks)).
Definition sb_bytes : list Z :=
  le_bytes 4 (sb_magic mk_sb) ++ le_bytes 4 (sb_size mk_sb) ++ le_bytes 4 (sb_nblocks mk_sb) ++ le_bytes 4 (sb_ninodes mk_sb) ++
  le_bytes 4 (sb_nlog mk_sb) ++ le_bytes 4 (sb_logstart mk_sb) ++ le_bytes 4 (sb_inodestart mk_sb) ++ le_bytes 4 (sb_bmapstart mk_sb).

(** ** Sectors *)

(** The sector at which [lseek] puts the file, [sec * BSIZE] being unsigned. *)
Definition sector (sec : Z) : nat := Z.to_nat (u32 (sec * BSIZE) / BSIZE).
Definition rsect (sec : Z) : W (list Z) :=
  let! d := gets dsk in
  match d !! sector sec with Some b => ret b | None => die "read" end.
(** Writing past the end makes the file longer. *)
Definition wsect (sec : Z) (buf : list Z) : W unit :=
  modify (λ s, set_dsk (<[sector sec := buf]> (dsk s ++ replicate (S (sector sec) - length (dsk s)) zero_block)) s).

(** ** Inodes *)

Definition winode (inum : Z) (ip : dinode) : W unit :=
  let bn := IBLOCK inum mk_sb in
  let! buf := rsect bn in
  wsect bn (put_dinode (dinode_off inum) ip buf).
Definition rinode (inum : Z) : W dinode :=
  let bn := IBLOCK inum mk_sb in
  let! buf := rsect bn in
  ret (get_dinode (dinode_off inum) buf).
Definition mk_ialloc (type : Z) : W Z :=
  let! inum := gets freeinode in
  modify (set_freeinode (u32 (inum + 1))) ;;
  winode inum (mkdinode (xshort type) 0 0 (xshort 1) (xint 0) (replicate 13 0)) ;;
  ret inum.

(** ** Blocks *)

(** [freeblock++]. *)
Definition next_block : W Z :=
  let! b := gets freeblock in
  modify (set_freeblock (u32 (b + 1))) ;;
  ret b.

(** The loop of [balloc]. *)
Definition mark_used (used : Z) : list Z := foldl (λ buf i, set_bit (Z.of_nat i) buf) zero_block (seq 0 (Z.to_nat used)).
Definition mk_balloc (used : Z) : W unit :=
  assert (used <? BPB) ;;
  wsect (sb_bmapstart mk_sb) (mark_used used).

Definition set_addr (i : nat) (v : Z) (d : dinode) : dinode :=
  mkdinode (d_type d) (d_major d) (d_minor d) (d_nlink d) (d_size d) (<[i := v]> (d_addrs d)).
Definition set_d_size (v : Z) (d : dinode) : dinode :=
  mkdinode (d_type d) (d_major d) (d_minor d) (d_nlink d) v (d_addrs d).
Definition addr (i : nat) (d : dinode) : Z := d_addrs d !!! i.

(** [din.addrs[i]], allocated if it is 0. *)
Definition need_addr (i : nat) (din : dinode) : W dinode :=
  if xint (addr i din) =? 0 then let! b := next_block in ret (set_addr i (xint b) din) else ret din.

(** Block [fbn] of the file through the indirect block [ind]. *)
Definition indirect_block (fbn ind : Z) : W Z :=
  let! indirect := rsect ind in
  let off := Z.to_nat (4 * (fbn - NDIRECT)) in
  let! indirect :=
    (if get32 off indirect =? 0 then
       let! b := next_block in
       let indirect := put32 off (xint b) indirect in
       wsect ind indirect ;;
       ret indirect
     else ret indirect) in
  ret (xint (get32 off indirect)).

(** The first part of [iappend]'s loop: block [fbn] of the file, and the inode
    with what was allocated. *)
Definition iappend_block (din : dinode) (fbn : Z) : W (dinode * Z) :=
  if fbn <? NDIRECT then
    let! din := need_addr (Z.to_nat fbn) din in
    ret (din, xint (addr (Z.to_nat fbn) din))
  else
    let! din := need_addr (Z.to_nat NDIRECT) din in
    let! x := indirect_block fbn (xint (addr (Z.to_nat NDIRECT) din)) in
    ret (din, x).

(** The loop: the inode and the size it reaches. *)
Fixpoint iappend_loop (fuel : nat) (din : dinode) (off : Z) (p : list Z) : W (dinode * Z) :=
  match p with
  | [] => ret (din, off)
  | _ =>
    match fuel with
    | O => λ s, Spin s []
    | S f =>
        let fbn := off / BSIZE in
        assert (fbn <? MAXFILE) ;;
        let! (din, x) := iappend_block din fbn in
        let n1 := Z.min (Z.of_nat (length p)) (u32 ((fbn + 1) * BSIZE - off)) in
        let! buf := rsect x in
        wsect x (put (Z.to_nat (off - fbn * BSIZE)) (take (Z.to_nat n1) p) buf) ;;
        iappend_loop f din (u32 (off + n1)) (drop (Z.to_nat n1) p)
    end
  end.
Definition iappend (inum : Z) (xp : list Z) : W unit :=
  let! din := rinode inum in
  let! (din, off) := iappend_loop (length xp) din (xint (d_size din)) xp in
  winode inum (set_d_size (xint off) din).

(** ** main *)

(** An argument: its name, and if the host can open it the results of the reads
    until the end of the file. *)
Record hostfile := mkhostfile { h_name : list Z; h_reads : option (list (list Z)) }.

Definition user_prefix : list Z := [117; 115; 101; 114; 47].
Definition strip_user (name : list Z) : list Z :=
  if bool_decide (take 5 name = user_prefix) then drop 5 name else name.
(** Skip a leading underscore. *)
Definition strip_underscore (name : list Z) : list Z :=
  match name with 95 :: name' => name' | _ => name end.
Definition shortname (name : list Z) : list Z := strip_underscore (strip_user name).

Definition append_reads (inum : Z) (reads : list (list Z)) : W unit := foldr (λ buf k, iappend inum buf ;; k) (ret tt) reads.
(** One iteration of the loop over the arguments. *)
Definition add_file (rootino : Z) (f : hostfile) : W unit :=
  assert (negb (bool_decide (SLASH ∈ strip_user (h_name f)))) ;;
  match h_reads f with
  | None => die "open"
  | Some reads =>
      let name := shortname (h_name f) in
      assert (length name <=? DIRSIZ)%nat ;;
      let! inum := mk_ialloc T_FILE in
      iappend rootino (dirent_bytes (xshort inum) name) ;;
      append_reads inum reads
  end.
Definition add_files (rootino : Z) (files : list hostfile) : W unit := foldr (λ f k, add_file rootino f ;; k) (ret tt) files.

Definition wipe : W unit := for_upto (Z.to_nat FSSIZE) (λ i, wsect (Z.of_nat i) zero_block).

(** [main], given its arguments, the image first, which is truncated;
    [freeinode] is 1 in the program's data. *)
Definition mkfs_main (args : list hostfile) : W unit :=
  match args with
  | [] => die "Usage: mkfs fs.img files..."
  | im :: files =>
      assert (BSIZE mod DINODE_SIZE =? 0) ;;
      assert (BSIZE mod DIRENT_SIZE =? 0) ;;
      (match h_reads im with None => die "open" | Some _ => ret tt end) ;;
      modify (λ _, mkmkst [] 1 nmeta) ;;
      wipe ;;
      wsect 1 (put 0 sb_bytes zero_block) ;;
      let! rootino := mk_ialloc T_DIR in
      assert (rootino =? ROOTINO) ;;
      iappend rootino (dirent_bytes (xshort rootino) [46]) ;;
      iappend rootino (dirent_bytes (xshort rootino) [46; 46]) ;;
      add_files rootino files ;;
      let! din := rinode rootino in
      let off := xint (d_size din) in
      let off := (off / BSIZE + 1) * BSIZE in
      winode rootino (set_d_size (xint off) din) ;;
      let! used := gets freeblock in
      mk_balloc used
  end.
