(* ===== verification/MkfsThm.v ===== *)
(** The image that [mkfs] makes: the files given to it, under their names, on
    disjoint blocks that the bitmap marks as used. *)
From Stdlib Require Import ZArith Lia.
From stdpp Require Import base list gmap strings.
From S2P Require Import Prelude Machine Mem Bio Blk Log UserMem Fs Mkfs.

(** ** Sectors *)

(** Block [b] of an image. *)
Definition blk (d : list (list Z)) (b : Z) : list Z := d !!! Z.to_nat b.

Lemma xint_id x : is_u32 x → xint x = x.
Proof.
  intros H. unfold xint. transitivity (le_value (le_bytes 4 x)); [|rewrite le_value_bytes; change (256 ^ Z.of_nat 4) with 4294967296; by rewrite Z.mod_small].
  f_equal. cbn [le_bytes]. rewrite !Z.shiftr_div_pow2 by lia. rewrite !Z.div_div by lia. done.
Qed.
Lemma xshort_id x : 0 ≤ x < 65536 → xshort x = x.
Proof.
  intros H. unfold xshort. transitivity (le_value (le_bytes 2 x)); [|rewrite le_value_bytes; change (256 ^ Z.of_nat 2) with 65536; by rewrite Z.mod_small].
  f_equal. cbn [le_bytes]. by rewrite !Z.shiftr_div_pow2 by lia.
Qed.
Lemma sector_small b : 0 ≤ b < FSSIZE → sector b = Z.to_nat b.
Proof. unfold FSSIZE. intros H. unfold sector, BSIZE. rewrite u32_small by (wrap_unfold; lia). by rewrite Z.div_mul by lia. Qed.

(** A full image, in which the blocks from [fb] on have never been written. *)
Record img (d : list (list Z)) (fb : Z) : Prop := {
  im_len : length d = Z.to_nat FSSIZE;
  im_blk : ∀ b, 0 ≤ b < FSSIZE → length (blk d b) = Z.to_nat BSIZE;
  im_zero : ∀ b, fb ≤ b < FSSIZE → blk d b = zero_block;
  im_fb : nmeta ≤ fb ≤ FSSIZE
}.
Lemma blk_insert d b b' x : length d = Z.to_nat FSSIZE → 0 ≤ b < FSSIZE → 0 ≤ b' → blk (<[Z.to_nat b := x]> d) b' = if decide (b' = b) then x else blk d b'.
Proof.
  intros Hl Hb Hb'. unfold blk. rewrite list_lookup_total_insert. case_decide as H; [rewrite decide_True by lia; done|]. rewrite decide_False; [done|]. intros ->. apply H. split; [done|]. lia.
Qed.
Lemma rsect_run s b : length (dsk s) = Z.to_nat FSSIZE → 0 ≤ b < FSSIZE → rsect b s = Done (blk (dsk s) b) s [].
Proof.
  intros Hl Hb. unfold rsect. rewrite bind_gets, sector_small by done. unfold blk. destruct (lookup_lt_is_Some_2 (dsk s) (Z.to_nat b)) as [x Hx]; [lia|]. by rewrite Hx, (list_lookup_total_correct _ _ _ Hx).
Qed.
Lemma wsect_run s b x : length (dsk s) = Z.to_nat FSSIZE → 0 ≤ b < FSSIZE → wsect b x s = Done tt (set_dsk (<[Z.to_nat b := x]> (dsk s)) s) [].
Proof.
  intros Hl Hb. unfold wsect, modify. rewrite sector_small by done. replace (S (Z.to_nat b) - length (dsk s))%nat with 0%nat by lia. by rewrite app_nil_r.
Qed.
(** A block in use is written. *)
Lemma img_write d fb b x : img d fb → 0 ≤ b < fb → length x = Z.to_nat BSIZE → img (<[Z.to_nat b := x]> d) fb.
Proof.
  intros [Hl Hb Hz Hf] Hbf Hx. assert (0 ≤ b < FSSIZE) as Hb' by lia. split; [by rewrite length_insert|..|done].
  - intros c Hc. rewrite blk_insert by (done || lia). case_decide; auto.
  - intros c Hc. rewrite blk_insert by (done || unfold nmeta in *; lia). rewrite decide_False by lia. auto.
Qed.
Lemma img_mono d fb fb' : img d fb → fb ≤ fb' ≤ FSSIZE → img d fb'.
Proof. intros [Hl Hb Hz Hf] H. split; [done|done|intros; apply Hz; lia|lia]. Qed.

(** ** Arrays with trailing zeros *)

Definition pad (n : nat) (l : list Z) : list Z := l ++ replicate (n - length l) 0.
Lemma pad_lookup n l j : (j < n)%nat → pad n l !!! j = default 0 (l !! j).
Proof.
  intros Hj. unfold pad. rewrite list_lookup_total_alt. destruct (l !! j) as [x|] eqn:Hl; [by rewrite (lookup_app_l_Some _ _ _ _ Hl)|].
  apply lookup_ge_None in Hl. rewrite lookup_app_r by done. rewrite lookup_replicate_2 by lia. done.
Qed.
Lemma pad_length n l : (length l ≤ n)%nat → length (pad n l) = n.
Proof. intros. unfold pad. rewrite length_app, length_replicate. lia. Qed.
Lemma pad_insert n l v : (length l < n)%nat → <[length l := v]> (pad n l) = pad n (l ++ [v]).
Proof.
  intros Hl. unfold pad. rewrite insert_app_r_alt, Nat.sub_diag, length_app by done. cbn [length]. rewrite <- app_assoc. f_equal. replace (n - length l)%nat with (S (n - (length l + 1))) by lia. done.
Qed.
Lemma array_put j v b : length b = Z.to_nat BSIZE → (j < 256)%nat → is_u32 v → get_array32 0 256 (put32 (4 * j) v b) = <[j := v]> (get_array32 0 256 b).
Proof.
  intros Hb Hj Hv. apply list_eq. intros k. unfold get_array32. rewrite list_lookup_insert, length_fmap, length_seq, !list_lookup_fmap.
  destruct (decide (k < 256)%nat) as [Hk|Hk]; [|rewrite lookup_seq_ge by lia; cbn; rewrite decide_False by lia; done]. rewrite lookup_seq_lt by done. cbn [fmap option_fmap option_map]. rewrite !Nat.add_0_l. case_decide as Hjk.
  - destruct Hjk as [-> _]. rewrite get32_put32 by (rewrite Hb; unfold BSIZE; lia). by rewrite u32_small.
  - unfold put32. rewrite get32_put_ne; [done|]. rewrite le_bytes_length. lia.
Qed.
Lemma array_get j b : (j < 256)%nat → get32 (4 * j) b = get_array32 0 256 b !!! j.
Proof. intros Hj. unfold get_array32. rewrite list_lookup_total_alt, list_lookup_fmap. by rewrite lookup_seq_lt. Qed.
Lemma array_zero : get_array32 0 256 zero_block = pad 256 [].
Proof. vm_compute. reflexivity. Qed.

(** ** The blocks of a file *)

(** The data blocks [bl] and, for a long file, the block [ind] of their
    addresses, as the inode [din] records them. *)
Record faddr (d : list (list Z)) (din : dinode) (bl : list Z) (ind : Z) : Prop := {
  fa_addrs : d_addrs din = pad 12 (take 12 bl) ++ [ind];
  fa_ind0 : (length bl ≤ 12)%nat → ind = 0;
  fa_ind : (12 < length bl)%nat → get_array32 0 256 (blk d ind) = pad 256 (drop 12 bl);
  fa_max : (length bl ≤ 268)%nat
}.
Definition own (bl : list Z) (ind : Z) : list Z := bl ++ (if decide (length bl ≤ 12)%nat then [] else [ind]).
Definition owned (fb : Z) (bl : list Z) (ind : Z) : Prop := NoDup (own bl ind) ∧ ∀ b, b ∈ own bl ind → nmeta ≤ b < fb.

(** What a step may change: blocks the file owns, and new ones. *)
Record grown (d d' : list (list Z)) (fb fb' : Z) (o o' : list Z) : Prop := {
  gr_frame : ∀ b, 0 ≤ b < fb → b ∉ o → blk d' b = blk d b;
  gr_own : ∀ b, b ∈ o' → b ∈ o ∨ fb ≤ b;
  gr_fb : fb ≤ fb'
}.
Lemma grows_refl d fb o : grown d d fb fb o o.
Proof. split; [done|by left|lia]. Qed.
Lemma grows_trans d1 d2 d3 f1 f2 f3 o1 o2 o3 : grown d1 d2 f1 f2 o1 o2 → grown d2 d3 f2 f3 o2 o3 → grown d1 d3 f1 f3 o1 o3.
Proof.
  intros [H1 H2 H3] [H4 H5 H6]. split; [|intros b [Hb|Hb]%H5; [by apply H2|right; lia]|lia].
  intros b Hb Ho. rewrite H4 by (lia || (intros [|]%H2; [done|lia])). auto.
Qed.

Lemma fa_direct d din bl ind (j : nat) : faddr d din bl ind → (j < 12)%nat → addr j din = default 0 (bl !! j).
Proof.
  intros [Ha _ _ _] Hj. unfold addr. rewrite Ha, list_lookup_total_alt, lookup_app_l by (rewrite pad_length; [done|rewrite length_take; lia]).
  rewrite <- list_lookup_total_alt, pad_lookup, lookup_take_lt by done. done.
Qed.
Lemma fa_indirect d din bl ind : faddr d din bl ind → addr 12 din = ind.
Proof.
  intros [Ha _ _ _]. unfold addr. rewrite Ha, list_lookup_total_alt, lookup_app_r; rewrite pad_length by (rewrite length_take; lia); [done|lia].
Qed.
Lemma own_in d din bl ind fb (j : nat) b : faddr d din bl ind → owned fb bl ind → bl !! j = Some b → nmeta ≤ b < fb.
Proof. intros _ [_ Ho] Hb. apply Ho, elem_of_app. left. by eapply list_elem_of_lookup_2. Qed.
Lemma own_ind fb bl ind : owned fb bl ind → (12 < length bl)%nat → nmeta ≤ ind < fb.
Proof. intros [_ Ho] Hl. apply Ho, elem_of_app. right. rewrite decide_False by lia. by left. Qed.

Lemma nmeta_eq : nmeta = 46.
Proof. reflexivity. Qed.
Ltac blk_lia := rewrite ?nmeta_eq in *; unfold FSSIZE, BSIZE, NDIRECT, MAXFILE, NINDIRECT in *; wrap_unfold; lia.

(** *** The block exists *)
Lemma block_old s din bl ind (n : nat) b : img (dsk s) (freeblock s) → faddr (dsk s) din bl ind → owned (freeblock s) bl ind → bl !! n = Some b →
  iappend_block din (Z.of_nat n) s = Done (din, b) s [].
Proof.
  intros Hi Hf Ho Hn. pose proof (own_in _ _ _ _ _ _ _ Hf Ho Hn) as Hb. pose proof (im_fb _ _ Hi) as Hfb. pose proof (lookup_lt_Some _ _ _ Hn) as Hlt. unfold iappend_block, need_addr. destruct (Z.of_nat n <? NDIRECT) eqn:Hd.
  - apply Z.ltb_lt in Hd. assert (n < 12)%nat as H12 by (unfold NDIRECT in Hd; lia). rewrite Nat2Z.id, (fa_direct _ _ _ _ n Hf H12), Hn. cbn [default from_option id]. rewrite xint_id by blk_lia. rewrite (proj2 (Z.eqb_neq _ _)) by blk_lia. rewrite bind_ret.
    rewrite (fa_direct _ _ _ _ n Hf H12), Hn. cbn [default from_option id]. by rewrite xint_id by blk_lia.
  - apply Z.ltb_ge in Hd. unfold NDIRECT in Hd. assert (12 < length bl)%nat as Hl by lia. pose proof (own_ind _ _ _ Ho Hl) as Hind. pose proof (fa_max _ _ _ _ Hf) as Hmax.
    change (Z.to_nat NDIRECT) with 12%nat. rewrite (fa_indirect _ _ _ _ Hf), xint_id by blk_lia. rewrite (proj2 (Z.eqb_neq _ _)) by blk_lia. rewrite bind_ret, (fa_indirect _ _ _ _ Hf), xint_id by blk_lia.
    unfold indirect_block. rewrite bind_assoc, (bind_run _ _ _ _ _ _ (rsect_run s ind (im_len _ _ Hi) ltac:(blk_lia))). cbv zeta. unfold NDIRECT. replace (Z.to_nat (4 * (Z.of_nat n - 12))) with (4 * (n - 12))%nat by lia.
    assert (get32 (4 * (n - 12)) (blk (dsk s) ind) = b) as Hg.
    { rewrite array_get by lia. rewrite (fa_ind _ _ _ _ Hf Hl), pad_lookup by lia. rewrite lookup_drop. replace (12 + (n - 12))%nat with n by lia. by rewrite Hn. }
    rewrite Hg, (proj2 (Z.eqb_neq _ _)) by blk_lia. rewrite bind_assoc, bind_ret, bind_ret, Hg. by rewrite xint_id by blk_lia.
Qed.

(** *** The block is new *)

(** The blocks that [k] data blocks take. *)
Definition cost (k : nat) : Z := Z.of_nat k + (if decide (k ≤ 12)%nat then 0 else 1).

Definition same_meta (x y : dinode) : Prop := d_type y = d_type x ∧ d_major y = d_major x ∧ d_minor y = d_minor x ∧ d_nlink y = d_nlink x ∧ d_size y = d_size x.

Lemma next_block_run s : nmeta ≤ freeblock s < FSSIZE → next_block s = Done (freeblock s) (set_freeblock (freeblock s + 1) s) [].
Proof. intros H. unfold next_block. rewrite bind_gets, bind_modify. by rewrite u32_small by blk_lia. Qed.
Lemma need_addr_run s i din : nmeta ≤ freeblock s < FSSIZE → addr i din = 0 → need_addr i din s = Done (set_addr i (freeblock s) din) (set_freeblock (freeblock s + 1) s) [].
Proof. intros Hf Ha. unfold need_addr. rewrite Ha. cbn [Z.eqb]. change (xint 0 =? 0) with true. cbv iota. rewrite (bind_run _ _ _ _ _ _ (next_block_run s Hf)). rewrite xint_id by blk_lia. done. Qed.

(** The outcome of allocating block [x]. *)
Record allocated (s s' : mkst) (din din' : dinode) (bl : list Z) (ind ind' x : Z) : Prop := {
  al_meta : same_meta din din';
  al_img : img (dsk s') (freeblock s');
  al_addr : faddr (dsk s') din' (bl ++ [x]) ind';
  al_own : owned (freeblock s') (bl ++ [x]) ind';
  al_zero : blk (dsk s') x = zero_block;
  al_data : ∀ b, b ∈ bl → blk (dsk s') b = blk (dsk s) b;
  al_grown : grown (dsk s) (dsk s') (freeblock s) (freeblock s') (own bl ind) (own (bl ++ [x]) ind');
  al_cost : freeblock s' = freeblock s + cost (length bl + 1) - cost (length bl);
  al_ino : freeinode s' = freeinode s
}.

Lemma owned_new fb bl ind : owned fb bl ind → ∀ b, b ∈ own bl ind → b < fb.
Proof. intros [_ Ho] b Hb. apply Ho in Hb. lia. Qed.

Lemma block_direct s din bl ind : img (dsk s) (freeblock s) → faddr (dsk s) din bl ind → owned (freeblock s) bl ind → (length bl < 12)%nat → freeblock s < FSSIZE →
  ∃ din' s' ind' x, iappend_block din (Z.of_nat (length bl)) s = Done (din', x) s' [] ∧ allocated s s' din din' bl ind ind' x.
Proof.
  intros Hi Hf Ho Hl Hfb. pose proof (im_fb _ _ Hi) as Hm. unfold iappend_block. rewrite (proj2 (Z.ltb_lt _ _)) by blk_lia. rewrite Nat2Z.id.
  assert (addr (length bl) din = 0) as Ha by (rewrite (fa_direct _ _ _ _ _ Hf Hl), lookup_ge_None_2 by done; done).
  rewrite (bind_run _ _ _ _ _ _ (need_addr_run s _ _ ltac:(lia) Ha)). set (x := freeblock s). set (din' := set_addr (length bl) x din).
  assert (d_addrs din' = pad 12 (take 12 (bl ++ [x])) ++ [ind]) as Had.
  { unfold din', set_addr. cbn [d_addrs]. rewrite (fa_addrs _ _ _ _ Hf), insert_app_l by (rewrite pad_length; rewrite ?length_take; lia). f_equal. rewrite !take_ge by (rewrite ?length_app; cbn [length]; lia). by apply pad_insert. }
  assert (length (bl ++ [x]) = S (length bl)) as Hlen by (rewrite length_app; cbn [length]; lia).
  assert (own (bl ++ [x]) ind = bl ++ [x]) as Hown' by (unfold own; rewrite decide_True by lia; by rewrite app_nil_r).
  assert (own bl ind = bl) as Hown by (unfold own; rewrite decide_True by lia; by rewrite app_nil_r).
  pose proof (fa_ind0 _ _ _ _ Hf ltac:(lia)) as Hind. assert (faddr (dsk s) din' (bl ++ [x]) ind) as Hf' by (split; [done|intros; done|rewrite Hlen; lia|rewrite Hlen; lia]).
  exists din', (set_freeblock (x + 1) s), ind, x. split.
  { assert (addr (length bl) din' = x) as -> by (rewrite (fa_direct _ _ _ _ _ Hf' Hl), lookup_app_r, Nat.sub_diag by done; done). rewrite xint_id by blk_lia. done. }
  split; cbn [dsk freeblock set_freeblock freeinode]; try done.
  - eapply img_mono; [done|]. unfold x. lia.
  - destruct Ho as [Hnd Hr]. rewrite Hown in Hnd, Hr. split; rewrite Hown'.
    + apply NoDup_app. split_and!; [done|intros b Hb ->%list_elem_of_singleton; apply Hr in Hb; unfold x in Hb; lia|apply NoDup_singleton].
    + intros b [Hb%Hr| ->%list_elem_of_singleton]%elem_of_app; unfold x; lia.
  - apply (im_zero _ _ Hi). unfold x. lia.
  - split; [done| |lia]. rewrite Hown, Hown'. intros b [Hb| ->%list_elem_of_singleton]%elem_of_app; [by left|right; done].
  - unfold cost. rewrite !decide_True by lia. unfold x. lia.
Qed.

(** Allocation through an indirect block [ind] that exists. *)
Lemma indirect_new s bl ind : img (dsk s) (freeblock s) → nmeta ≤ ind < freeblock s → get_array32 0 256 (blk (dsk s) ind) = pad 256 (drop 12 bl) →
  (12 ≤ length bl < 268)%nat → freeblock s < FSSIZE →
  let x := freeblock s in let s' := set_dsk (<[Z.to_nat ind := put32 (4 * (length bl - 12)) x (blk (dsk s) ind)]> (dsk s)) (set_freeblock (x + 1) s) in
  indirect_block (Z.of_nat (length bl)) ind s = Done x s' [] ∧ img (dsk s') (freeblock s') ∧ get_array32 0 256 (blk (dsk s') ind) = pad 256 (drop 12 (bl ++ [x])).
Proof.
  intros Hi Hind Harr Hl Hfb x s'. pose proof (im_fb _ _ Hi) as Hm. pose proof (im_len _ _ Hi) as Hlen. set (j := (length bl - 12)%nat). assert (length (drop 12 bl) = j) as Hj by (rewrite length_drop; lia).
  assert (length (blk (dsk s) ind) = Z.to_nat BSIZE) as Hbl by (apply (im_blk _ _ Hi); blk_lia).
  assert (get32 (4 * j) (blk (dsk s) ind) = 0) as H0 by (rewrite array_get, Harr, pad_lookup, lookup_ge_None_2 by lia; done).
  assert (is_u32 x) as Hx by (unfold x; blk_lia). split_and!.
  - unfold indirect_block. rewrite (bind_run _ _ _ _ _ _ (rsect_run s ind Hlen ltac:(blk_lia))). cbv zeta. unfold NDIRECT. replace (Z.to_nat (4 * (Z.of_nat (length bl) - 12))) with (4 * j)%nat by (unfold j; lia).
    rewrite H0. change (0 =? 0) with true. cbv iota. rewrite bind_assoc, (bind_run _ _ _ _ _ _ (next_block_run s ltac:(lia))). cbv zeta. rewrite (xint_id (freeblock s)) by done.
    rewrite bind_assoc, (bind_run _ _ _ _ _ _ (wsect_run (set_freeblock (freeblock s + 1) s) ind _ Hlen ltac:(blk_lia))). rewrite bind_ret.
    rewrite get32_put32 by (rewrite Hbl; unfold j, BSIZE; lia). by rewrite u32_small, xint_id by done.
  - unfold s'. apply img_write; [|cbn [freeblock set_dsk set_freeblock]; unfold x; blk_lia|unfold put32; by rewrite length_put]. cbn [freeblock set_dsk set_freeblock]. eapply img_mono; [exact Hi|]. unfold x. lia.
  - unfold s'. cbn [dsk set_dsk set_freeblock]. rewrite blk_insert, decide_True by (done || blk_lia). rewrite array_put by (done || lia). rewrite Harr. replace (length bl - 12)%nat with (length (drop 12 bl)) by lia. rewrite pad_insert by lia. by rewrite drop_app_le by lia.
Qed.

(** The indirect block after [need_addr], new or not. *)
Lemma indirect_ready s din bl ind : img (dsk s) (freeblock s) → faddr (dsk s) din bl ind → owned (freeblock s) bl ind → (12 ≤ length bl < 268)%nat →
  freeblock s + cost (length bl + 1) - cost (length bl) ≤ FSSIZE →
  ∃ din1 s1 ind1, need_addr 12 din s = Done din1 s1 [] ∧ same_meta din din1 ∧ dsk s1 = dsk s ∧ freeinode s1 = freeinode s ∧ img (dsk s) (freeblock s1) ∧ freeblock s1 = freeblock s + (if decide (length bl ≤ 12)%nat then 1 else 0) ∧
    d_addrs din1 = pad 12 (take 12 bl) ++ [ind1] ∧ nmeta ≤ ind1 < freeblock s1 ∧ get_array32 0 256 (blk (dsk s) ind1) = pad 256 (drop 12 bl) ∧ (ind1 ∈ own bl ind ∨ freeblock s ≤ ind1) ∧ NoDup (bl ++ [ind1]).
Proof.
  intros Hi Hf Ho Hl Hc. pose proof (im_fb _ _ Hi) as Hm. unfold cost in Hc. rewrite (decide_False (P := (length bl + 1 ≤ 12)%nat)) in Hc by lia.
  destruct Ho as [Hnd Hr]. unfold own in Hnd, Hr. destruct (decide (length bl ≤ 12)%nat) as [Hle|Hgt].
  - rewrite app_nil_r in Hnd, Hr. assert (addr 12 din = 0) as Ha by (rewrite (fa_indirect _ _ _ _ Hf); by apply (fa_ind0 _ _ _ _ Hf)).
    eexists _, _, (freeblock s). split; [apply need_addr_run; [lia|done]|]. cbn [dsk freeblock freeinode set_freeblock]. split_and!; try done; try lia.
    + eapply img_mono; [done|lia].
    + unfold set_addr. cbn [d_addrs]. rewrite (fa_addrs _ _ _ _ Hf). rewrite insert_app_r_alt; rewrite pad_length by (rewrite length_take; lia); [|lia]. done.
    + rewrite (im_zero _ _ Hi) by lia. rewrite array_zero, drop_ge by lia. done.
    + apply NoDup_app. split_and!; [done|intros b Hb ->%list_elem_of_singleton; apply Hr in Hb; lia|apply NoDup_singleton].
  - assert (addr 12 din = ind) as Ha by (by apply (fa_indirect _ _ _ _ Hf)). assert (nmeta ≤ ind < freeblock s) as Hind by (apply Hr, elem_of_app; right; by left).
    exists din, s, ind. split; [unfold need_addr; rewrite Ha, xint_id, (proj2 (Z.eqb_neq _ _)) by blk_lia; done|]. split_and!; try done; try lia.
    + by apply (fa_addrs _ _ _ _ Hf).
    + apply (fa_ind _ _ _ _ Hf). lia.
    + left. unfold own. rewrite decide_False by lia. apply elem_of_app. right. by left.
Qed.
Lemma block_indirect s din bl ind : img (dsk s) (freeblock s) → faddr (dsk s) din bl ind → owned (freeblock s) bl ind → (12 ≤ length bl < 268)%nat →
  freeblock s + cost (length bl + 1) - cost (length bl) ≤ FSSIZE →
  ∃ din' s' ind' x, iappend_block din (Z.of_nat (length bl)) s = Done (din', x) s' [] ∧ allocated s s' din din' bl ind ind' x.
Proof.
  intros Hi Hf Ho Hl Hc. destruct (indirect_ready s din bl ind Hi Hf Ho Hl Hc) as (din1 & s1 & ind1 & Hneed & Hmeta & Hd & Hino & Hi1 & Hfb1 & Had & Hr1 & Harr & Hnew & Hnd).
  pose proof (im_fb _ _ Hi) as Hm. unfold cost in Hc. rewrite (decide_False (P := (length bl + 1 ≤ 12)%nat)) in Hc by lia.
  unfold iappend_block. rewrite (proj2 (Z.ltb_ge _ _)) by blk_lia. change (Z.to_nat NDIRECT) with 12%nat.
  rewrite (bind_run _ _ _ _ _ _ Hneed). assert (addr 12 din1 = ind1) as -> by (unfold addr; rewrite Had, list_lookup_total_alt, lookup_app_r; rewrite pad_length by (rewrite length_take; lia); [done|lia]).
  pose proof (im_fb _ _ Hi1) as Hm1. rewrite xint_id by blk_lia. rewrite <- Hd in Hi1, Harr. destruct (indirect_new s1 bl ind1 Hi1 Hr1 Harr Hl ltac:(case_decide; lia)) as (Hrun & Hi2 & Harr2).
  set (x := freeblock s1) in *. set (s2 := set_dsk _ _) in *. rewrite (bind_run _ _ _ _ _ _ Hrun). exists din1, s2, ind1, x. split; [done|].
  assert (∀ b, b ∈ bl → nmeta ≤ b < freeblock s) as Hbl by (intros b Hb; apply Ho, elem_of_app; by left). apply NoDup_app in Hnd as (Hnd & Hni & _).
  assert (length (bl ++ [x]) = S (length bl)) as Hlen by (rewrite length_app; cbn [length]; lia). assert (own (bl ++ [x]) ind1 = (bl ++ [x]) ++ [ind1]) as Hown by (unfold own; by rewrite decide_False by lia).
  assert (∀ b, 0 ≤ b → b ≠ ind1 → blk (dsk s2) b = blk (dsk s) b) as Hfr.
  { intros b Hb Hne. unfold s2. cbn [dsk set_dsk set_freeblock]. rewrite Hd, blk_insert, decide_False by (done || rewrite <- ?Hd; (apply (im_len _ _ Hi1) || blk_lia)). done. }
  split; try done.
  - split; [|rewrite Hlen; lia|done|rewrite Hlen; lia]. rewrite take_app_le by lia. done.
  - unfold s2. cbn [freeblock set_dsk set_freeblock]. split; rewrite Hown.
    + rewrite <- app_assoc. apply NoDup_app. split_and!; [done| |apply NoDup_cons; split; [intros Heq%list_elem_of_singleton; unfold x in Heq; lia|apply NoDup_singleton]].
      intros b Hb [Heq|Hb']%elem_of_cons; [apply Hbl in Hb; unfold x in Heq; case_decide; lia|by apply (Hni b)].
    + intros b [[Hb%Hbl|Heq%list_elem_of_singleton]%elem_of_app|Heq%list_elem_of_singleton]%elem_of_app; unfold x in *; [case_decide; lia|lia|lia].
  - rewrite Hfr by (unfold x in *; lia || blk_lia). rewrite <- Hd. apply (im_zero _ _ Hi1). unfold x. case_decide; lia.
  - intros b Hb. apply Hfr; [apply Hbl in Hb; blk_lia|]. intros ->. apply (Hni ind1 Hb). by left.
  - split.
    + intros b Hb Hno. apply Hfr; [lia|]. intros ->. destruct Hnew; [done|lia].
    + rewrite Hown. intros b [[Hb|Heq%list_elem_of_singleton]%elem_of_app|Heq%list_elem_of_singleton]%elem_of_app; [left; apply elem_of_app; by left|right; unfold x in Heq; case_decide; lia|by rewrite Heq].
    + unfold s2. cbn [freeblock set_dsk set_freeblock]. unfold x. case_decide; lia.
  - unfold s2, cost. cbn [freeblock set_dsk set_freeblock]. unfold x in *. rewrite (decide_False (P := (length bl + 1 ≤ 12)%nat)) by lia. case_decide; lia.
Qed.

(** ** The contents of a file *)

(** The number of blocks of [n] bytes. *)
Definition nb (n : nat) : nat := ((n + 1023) / 1024)%nat.
Lemma nb_bounds n : (n ≤ 1024 * nb n < n + 1024)%nat.
Proof. unfold nb. pose proof (Nat.div_mod (n + 1023) 1024 ltac:(lia)). pose proof (Nat.mod_upper_bound (n + 1023) 1024 ltac:(lia)). lia. Qed.
Lemma cost_mono j k : (j ≤ k)%nat → cost j ≤ cost k.
Proof. intros. unfold cost. repeat case_decide; lia. Qed.

(** The bytes [c] on the blocks [bl], followed by zeros. *)
Record fdata (d : list (list Z)) (bl : list Z) (c : list Z) : Prop := {
  fd_len : length bl = nb (length c);
  fd_bytes : concat (blk d <$> bl) = c ++ replicate (1024 * length bl - length c) 0
}.
Record fstate (s : mkst) (din : dinode) (bl : list Z) (ind : Z) (c : list Z) : Prop := {
  fs_img : img (dsk s) (freeblock s);
  fs_addr : faddr (dsk s) din bl ind;
  fs_own : owned (freeblock s) bl ind;
  fs_data : fdata (dsk s) bl c
}.

Lemma put_app l1 l2 bs r : length bs = length l2 → put (length l1) bs (l1 ++ l2 ++ r) = l1 ++ bs ++ r.
Proof.
  intros Hl. apply list_eq. intros k. destruct (decide (k < length l1)%nat); [rewrite put_lookup_out by lia; by rewrite !lookup_app_l by lia|].
  destruct (decide (k < length l1 + length bs)%nat).
  - replace k with (length l1 + (k - length l1))%nat at 1 by lia. rewrite put_lookup by (rewrite ?length_app; lia). rewrite lookup_app_r by lia. by rewrite lookup_app_l by lia.
  - rewrite put_lookup_out by lia. rewrite !(lookup_app_r l1) by lia. rewrite !lookup_app_r by lia. f_equal. lia.
Qed.
Lemma concat_length d bl : (∀ b, b ∈ bl → length (blk d b) = 1024%nat) → length (concat (blk d <$> bl)) = (1024 * length bl)%nat.
Proof.
  induction bl as [|b bl IH]; intros H; [done|]. rewrite fmap_cons. cbn [concat length]. rewrite length_app, IH, (H b) by (try (by left); intros; apply H; by right). lia.
Qed.

(** The last block [x] of the file takes the next [m] bytes of [p]. *)
Lemma write_last d d' bl x c p : concat (blk d <$> bl ++ [x]) = c ++ replicate (1024 * S (length bl) - length c) 0 →
  (∀ b, b ∈ bl ++ [x] → length (blk d b) = 1024%nat) → (1024 * length bl ≤ length c)%nat → (length c + length p ≤ 1024 * S (length bl))%nat →
  (∀ b, b ∈ bl → blk d' b = blk d b) → blk d' x = put (length c - 1024 * length bl) p (blk d x) →
  concat (blk d' <$> bl ++ [x]) = (c ++ p) ++ replicate (1024 * S (length bl) - length (c ++ p)) 0.
Proof.
  intros Hc Hlen Hlo Hhi Hsame Hx. rewrite fmap_app, concat_app in Hc |- *. cbn [fmap list_fmap concat] in *. rewrite app_nil_r in *.
  assert (blk d' <$> bl = blk d <$> bl) as -> by (apply list_fmap_ext; intros i b Hb; apply Hsame; by eapply list_elem_of_lookup_2).
  set (A := concat (blk d <$> bl)) in *. assert (length A = 1024 * length bl)%nat as HA by (apply concat_length; intros; apply Hlen, elem_of_app; by left).
  assert (c = A ++ drop (length A) c) as Hsplit.
  { rewrite <- (take_drop (length A) c) at 1. f_equal. transitivity (take (length A) (c ++ replicate (1024 * S (length bl) - length c) 0)); [by rewrite take_app_le by lia|]. rewrite <- Hc. by rewrite take_app_length. }
  set (c1 := drop (length A) c) in *. assert (length c = length A + length c1)%nat as Hl by (unfold c1; rewrite length_drop; lia).
  rewrite Hsplit in Hc at 1. rewrite <- app_assoc in Hc. apply app_inv_head in Hc.
  rewrite Hx, Hc. replace (length c - 1024 * length bl)%nat with (length c1) by lia.
  replace (1024 * S (length bl) - length c)%nat with (length p + (1024 * S (length bl) - length (c ++ p)))%nat by (rewrite length_app; lia). rewrite replicate_add.
  rewrite put_app by (by rewrite length_replicate). rewrite Hsplit at 2. by rewrite <- !app_assoc.
Qed.

(** *** One iteration of [iappend] *)

(** The file [c] with its last block [x] ready for more bytes. *)
Record ready (s s' : mkst) (din din' : dinode) (bl bl0 : list Z) (ind ind' x : Z) (c : list Z) : Prop := {
  re_meta : same_meta din din';
  re_img : img (dsk s') (freeblock s');
  re_addr : faddr (dsk s') din' (bl0 ++ [x]) ind';
  re_own : owned (freeblock s') (bl0 ++ [x]) ind';
  re_len : length bl0 = (length c / 1024)%nat;
  re_bytes : concat (blk (dsk s') <$> bl0 ++ [x]) = c ++ replicate (1024 * S (length bl0) - length c) 0;
  re_grown : grown (dsk s) (dsk s') (freeblock s) (freeblock s') (own bl ind) (own (bl0 ++ [x]) ind');
  re_cost : freeblock s' = freeblock s + cost (S (length bl0)) - cost (length bl);
  re_ino : freeinode s' = freeinode s
}.

Lemma block_ready s din bl ind c : fstate s din bl ind c → (length c < 268 * 1024)%nat → freeblock s + cost (S (length c / 1024)) - cost (length bl) ≤ FSSIZE →
  ∃ din' s' bl0 ind' x, iappend_block din (Z.of_nat (length c / 1024)) s = Done (din', x) s' [] ∧ ready s s' din din' bl bl0 ind ind' x c.
Proof.
  intros [Hi Hf Ho [Hl Hb]] Hmax Hc. pose proof (nb_bounds (length c)) as Hnb. rewrite <- Hl in Hnb. pose proof (Nat.div_mod (length c) 1024 ltac:(lia)) as Hdm. pose proof (Nat.mod_upper_bound (length c) 1024 ltac:(lia)) as Hmod.
  set (fbn := (length c / 1024)%nat) in *. destruct (decide (length bl = fbn)) as [Hn|Hn].
  - (* all blocks are full *)
    rewrite <- Hn in Hc |- *. replace (S (length bl)) with (length bl + 1)%nat in Hc by lia.
    assert (∃ din' s' ind' x, iappend_block din (Z.of_nat (length bl)) s = Done (din', x) s' [] ∧ allocated s s' din din' bl ind ind' x) as (din' & s' & ind' & x & Hrun & [Hme Him Had How Hz Hsm Hgr Hco Hin]).
    { destruct (decide (length bl < 12)%nat); [|apply block_indirect; try done; lia]. apply block_direct; try done. unfold cost in Hc. rewrite !decide_True in Hc by lia. lia. }
    exists din', s', bl, ind', x. split; [done|]. split; try done; [|by replace (S (length bl)) with (length bl + 1)%nat by lia].
    rewrite fmap_app, concat_app. cbn [fmap list_fmap concat]. rewrite app_nil_r, Hz. assert (blk (dsk s') <$> bl = blk (dsk s) <$> bl) as -> by (apply list_fmap_ext; intros i b Hb'; apply Hsm; by eapply list_elem_of_lookup_2).
    rewrite Hb. replace (1024 * length bl - length c)%nat with 0%nat by lia. rewrite app_nil_r. f_equal. unfold zero_block. f_equal. lia.
  - (* the last one is not *)
    assert (length bl ≠ 0%nat) as Hnz by lia. destruct (exists_last (l := bl)) as (bl0 & x & Hbl); [by intros ->|]. assert (length bl = S (length bl0)) as Hl0 by (rewrite Hbl, length_app; cbn [length]; lia). assert (length bl0 = fbn) as Hf0 by lia.
    exists din, s, bl0, ind, x. split; [eapply block_old; try done; rewrite Hbl, lookup_app_r, <- Hf0, Nat.sub_diag by lia; done|].
    split; rewrite <- ?Hbl; try done; [by rewrite Hb, Hl0|apply grows_refl|rewrite Hl0; lia].
Qed.

Definition n1_of (c p : list Z) : nat := Nat.min (length p) (1024 * S (length c / 1024) - length c).

Lemma iappend_loop_S f din off p s : p ≠ [] → iappend_loop (S f) din off p s = (let fbn := off / BSIZE in
  assert (fbn <? MAXFILE) ;;
  let! (din, x) := iappend_block din fbn in
  let n1 := Z.min (Z.of_nat (length p)) (u32 ((fbn + 1) * BSIZE - off)) in
  let! buf := rsect x in
  wsect x (put (Z.to_nat (off - fbn * BSIZE)) (take (Z.to_nat n1) p) buf) ;;
  iappend_loop f din (u32 (off + n1)) (drop (Z.to_nat n1) p)) s.
Proof. by destruct p. Qed.
Lemma MAXFILE_eq : MAXFILE = 268.
Proof. reflexivity. Qed.

(** The addresses of a file do not depend on its data. *)
Lemma faddr_frame d d' din bl ind : faddr d din bl ind → ((12 < length bl)%nat → blk d' ind = blk d ind) → faddr d' din bl ind.
Proof. intros [Ha H0 Hi Hm] Hd. split; [done|done| |done]. intros Hl. rewrite Hd by done. auto. Qed.

Lemma iappend_step s din bl ind c p f : fstate s din bl ind c → p ≠ [] → (length c + length p ≤ 268 * 1024)%nat → freeblock s + cost (S (length c / 1024)) - cost (length bl) ≤ FSSIZE →
  ∃ din' s' bl' ind', iappend_loop (S f) din (Z.of_nat (length c)) p s = iappend_loop f din' (Z.of_nat (length c + n1_of c p)) (drop (n1_of c p) p) s' ∧
    same_meta din din' ∧ fstate s' din' bl' ind' (c ++ take (n1_of c p) p) ∧ grown (dsk s) (dsk s') (freeblock s) (freeblock s') (own bl ind) (own bl' ind') ∧
    freeblock s' = freeblock s + cost (length bl') - cost (length bl) ∧ freeinode s' = freeinode s.
Proof.
  intros Hst Hp Hmax Hc. assert (0 < length p)%nat as Hp0 by (destruct p; [done|cbn; lia]). pose proof (Nat.div_mod (length c) 1024 ltac:(lia)) as Hdm. pose proof (Nat.mod_upper_bound (length c) 1024 ltac:(lia)) as Hmod.
  destruct (block_ready _ _ _ _ _ Hst ltac:(lia) Hc) as (din' & s1 & bl0 & ind' & x & Hrun & [Hme Him Had How Hln Hby Hgr Hco Hin]).
  set (fbn := (length c / 1024)%nat) in *. set (n1 := n1_of c p). assert (n1 = Nat.min (length p) (1024 * S fbn - length c)) as Hn1 by done.
  pose proof (im_fb _ _ Him) as Hm. assert (nmeta ≤ x < freeblock s1) as Hx by (apply How, elem_of_app; left; apply elem_of_app; right; by left).
  set (q := take n1 p). assert (length q = n1) as Hq by (unfold q; rewrite length_take; lia). set (s2 := set_dsk (<[Z.to_nat x := put (length c - 1024 * fbn) q (blk (dsk s1) x)]> (dsk s1)) s1).
  exists din', s2, (bl0 ++ [x]), ind'. assert (Z.of_nat (length c) / BSIZE = Z.of_nat fbn) as Hdiv by (unfold BSIZE, fbn; rewrite Nat2Z.inj_div; done).
  assert (∀ b, 0 ≤ b → b ≠ x → blk (dsk s2) b = blk (dsk s1) b) as Hfr by (intros b H0 Hne; unfold s2; cbn [dsk set_dsk]; rewrite blk_insert, decide_False by (apply (im_len _ _ Him) || done || blk_lia); done).
  assert (blk (dsk s2) x = put (length c - 1024 * fbn) q (blk (dsk s1) x)) as Hbx by (unfold s2; cbn [dsk set_dsk]; by rewrite blk_insert, decide_True by (apply (im_len _ _ Him) || done || blk_lia)).
  assert (NoDup (bl0 ++ [x]) ∧ (∀ b, b ∈ bl0 → nmeta ≤ b < freeblock s1)) as [Hnd Hrng].
  { destruct How as [Hn Hr]. unfold own in Hn, Hr. apply NoDup_app in Hn as (Hn & _). split; [done|]. intros b Hb. apply Hr. apply elem_of_app. left. apply elem_of_app. by left. }
  apply NoDup_app in Hnd as (_ & Hni & _). split_and!; try done.
  - rewrite iappend_loop_S by done. cbv zeta. rewrite Hdiv. unfold assert. rewrite (proj2 (Z.ltb_lt _ _)) by (rewrite MAXFILE_eq; lia). rewrite bind_ret.
    rewrite (bind_run _ _ _ _ _ _ Hrun). rewrite (bind_run _ _ _ _ _ _ (rsect_run s1 x (im_len _ _ Him) ltac:(blk_lia))).
    rewrite u32_small by (unfold BSIZE; wrap_unfold; lia). replace (Z.to_nat (Z.min _ _)) with n1 by (unfold BSIZE; lia). replace (Z.to_nat (Z.of_nat (length c) - Z.of_nat fbn * BSIZE)) with (length c - 1024 * fbn)%nat by (unfold BSIZE; lia).
    rewrite (bind_run _ _ _ _ _ _ (wsect_run s1 x _ (im_len _ _ Him) ltac:(blk_lia))). rewrite !pre_nil. f_equal. rewrite u32_small by (wrap_unfold; unfold BSIZE; lia). unfold BSIZE; lia.
  - split; [|apply (faddr_frame (dsk s1)); [done|]|done|].
    + change (freeblock s2) with (freeblock s1). apply img_write; [done|blk_lia|]. rewrite length_put. apply (im_blk _ _ Him). blk_lia.
    + intros Hl. pose proof (own_ind _ _ _ How Hl) as Hr. apply Hfr; [blk_lia|]. destruct How as [Hn _]. unfold own in Hn. rewrite decide_False in Hn by lia. apply NoDup_app in Hn as (_ & Hn & _). intros ->. apply (Hn x); [apply elem_of_app; right; by left|by left].
    + assert (length (c ++ q) = length c + n1)%nat as Hcq by (rewrite length_app; lia). split; [pose proof (nb_bounds (length (c ++ q))) as Hb; rewrite (length_app bl0); cbn [length]; lia|].
      rewrite length_app. cbn [length]. rewrite Nat.add_1_r. apply (write_last (dsk s1)); [done| |lia|lia| |by rewrite Hln].
      * intros b Hb. change 1024%nat with (Z.to_nat BSIZE). apply (im_blk _ _ Him). apply elem_of_app in Hb as [Hb%Hrng| ->%list_elem_of_singleton]; blk_lia.
      * intros b Hb. apply Hfr; [apply Hrng in Hb; blk_lia|]. intros ->. apply (Hni x Hb). by left.
  - eapply grows_trans; [exact Hgr|]. split; [|by left|done]. intros b Hb Hno. apply Hfr; [lia|]. intros ->. apply Hno, elem_of_app. left. apply elem_of_app. right. by left.
  - rewrite length_app. cbn [length]. rewrite Nat.add_1_r. exact Hco.
Qed.

(** *** All of them *)

(** What [iappend] achieves for the file [c] of the inode [din]. *)
Record appended (s s' : mkst) (din din' : dinode) (bl bl' : list Z) (ind ind' : Z) (c : list Z) : Prop := {
  ap_meta : same_meta din din';
  ap_state : fstate s' din' bl' ind' c;
  ap_grown : grown (dsk s) (dsk s') (freeblock s) (freeblock s') (own bl ind) (own bl' ind');
  ap_cost : freeblock s' = freeblock s + cost (length bl') - cost (length bl);
  ap_ino : freeinode s' = freeinode s
}.
Lemma same_meta_trans x y z : same_meta x y → same_meta y z → same_meta x z.
Proof. intros (H1 & H2 & H3 & H4 & H5) (H6 & H7 & H8 & H9 & H10). repeat split; congruence. Qed.

Lemma iappend_loop_run fuel : ∀ s din bl ind c p, fstate s din bl ind c → (length p ≤ fuel)%nat → (length c + length p ≤ 268 * 1024)%nat →
  freeblock s + cost (nb (length c + length p)) - cost (length bl) ≤ FSSIZE →
  ∃ din' s' bl' ind', iappend_loop fuel din (Z.of_nat (length c)) p s = Done (din', Z.of_nat (length c + length p)) s' [] ∧ appended s s' din din' bl bl' ind ind' (c ++ p).
Proof.
  induction fuel as [|fuel IH]; intros s din bl ind c p Hst Hf Hmax Hc; (destruct (decide (p = [])) as [->|Hp];
    [exists din, s, bl, ind; split; [change (length []) with 0%nat; rewrite Nat.add_0_r; done|rewrite app_nil_r; split; [done|done|apply grows_refl|lia|done]]|]).
  { exfalso. apply Hp, nil_length_inv. lia. }
  assert (0 < length p)%nat as Hp0 by (destruct p; [done|cbn; lia]). pose proof (Nat.div_mod (length c) 1024 ltac:(lia)) as Hdm. pose proof (Nat.mod_upper_bound (length c) 1024 ltac:(lia)) as Hmod. pose proof (nb_bounds (length c + length p)) as Hnb.
  pose proof (cost_mono (S (length c / 1024)) (nb (length c + length p)) ltac:(lia)) as Hcm.
  destruct (iappend_step s din bl ind c p fuel Hst Hp Hmax ltac:(lia)) as (din1 & s1 & bl1 & ind1 & Hrun & Hm1 & Hst1 & Hg1 & Hc1 & Hi1). rewrite Hrun. clear Hrun.
  set (n1 := n1_of c p) in *. assert (1 ≤ n1 ≤ length p)%nat as Hn1 by (unfold n1, n1_of; lia). assert (length (c ++ take n1 p) = length c + n1)%nat as Hl1 by (rewrite length_app, length_take; lia).
  rewrite <- Hl1. destruct (IH s1 din1 bl1 ind1 (c ++ take n1 p) (drop n1 p)) as (din2 & s2 & bl2 & ind2 & Hrun & [Hm2 Hst2 Hg2 Hc2 Hi2]); rewrite ?Hl1, ?length_drop; [done|lia|lia| |].
  { replace (length c + n1 + (length p - n1))%nat with (length c + length p)%nat by lia. lia. }
  rewrite Hl1, length_drop in Hrun. replace (length c + n1 + (length p - n1))%nat with (length c + length p)%nat in Hrun by lia. rewrite Hrun.
  rewrite <- app_assoc, take_drop in Hst2. exists din2, s2, bl2, ind2. split; [done|]. split; [by eapply same_meta_trans|done|by eapply grows_trans|lia|congruence].
Qed.

(** ** Inodes *)

Lemma get16_put16_ne k k' v l : (k + 2 ≤ k' ∨ k' + 2 ≤ k)%nat → get16 k (put16 k' v l) = get16 k l.
Proof. intros H. unfold put16. apply get16_put_ne. by rewrite le_bytes_length. Qed.
Lemma get16_put32_ne k k' v l : (k + 2 ≤ k' ∨ k' + 4 ≤ k)%nat → get16 k (put32 k' v l) = get16 k l.
Proof. intros H. unfold put32. apply get16_put_ne. by rewrite le_bytes_length. Qed.
Lemma get16_array_ne k off vs l : (k + 2 ≤ off ∨ off + 4 * length vs ≤ k)%nat → get16 k (put_array32 off vs l) = get16 k l.
Proof.
  revert off l. induction vs as [|v vs IH]; intros off l H; [done|]. cbn [put_array32 length] in *. rewrite IH by lia. apply get16_put32_ne. lia.
Qed.
Lemma get32_array_ne k off vs l : (k + 4 ≤ off ∨ off + 4 * length vs ≤ k)%nat → get32 k (put_array32 off vs l) = get32 k l.
Proof.
  revert off l. induction vs as [|v vs IH]; intros off l H; [done|]. cbn [put_array32 length] in *. rewrite IH by lia. unfold put32. apply get32_put_ne. rewrite le_bytes_length. lia.
Qed.
Lemma get32_put16_ne k k' v l : (k + 4 ≤ k' ∨ k' + 2 ≤ k)%nat → get32 k (put16 k' v l) = get32 k l.
Proof. intros H. unfold put16. apply get32_put_ne. by rewrite le_bytes_length. Qed.
Lemma get32_put32_ne k k' v l : (k + 4 ≤ k' ∨ k' + 4 ≤ k)%nat → get32 k (put32 k' v l) = get32 k l.
Proof. intros H. unfold put32. apply get32_put_ne. by rewrite le_bytes_length. Qed.
Lemma length_put16 k v l : length (put16 k v l) = length l.
Proof. apply length_put. Qed.
Lemma length_put32 k v l : length (put32 k v l) = length l.
Proof. apply length_put. Qed.
Create HintDb fields.
#[local] Hint Rewrite get16_put16_ne get16_put32_ne get16_array_ne get32_array_ne get32_put16_ne get32_put32_ne using lia : fields.
#[local] Hint Rewrite length_put16 length_put32 length_put_array32 : fields.

(** An inode whose fields are in range. *)
Record dinode_ok (x : dinode) : Prop := {
  do_addrs : length (d_addrs x) = 13%nat;
  do_u32 : Forall is_u32 (d_addrs x);
  do_size : is_u32 (d_size x);
  do_shorts : Forall (λ v, 0 ≤ v < 32768) [d_type x; d_major x; d_minor x; d_nlink x]
}.
Lemma i16_u16 v : 0 ≤ v < 32768 → i16 (u16 v) = v.
Proof. intros H. unfold i16, u16. rewrite (Z.mod_small v) by lia. rewrite Z.mod_small by lia. lia. Qed.
Lemma length_put_dinode off x l : length (put_dinode off x l) = length l.
Proof. unfold put_dinode. by autorewrite with fields. Qed.

Lemma get_dinode_put off x l : (off + 64 ≤ length l)%nat → dinode_ok x → get_dinode off (put_dinode off x l) = x.
Proof.
  intros Hl [Ha Hu Hs Hv]. unfold get_dinode, put_dinode. destruct x as [t mj mn nl sz ad]. cbn [d_type d_major d_minor d_nlink d_size d_addrs] in *.
  rewrite !Forall_cons in Hv. destruct Hv as (H1 & H2 & H3 & H4 & _).
  f_equal; autorewrite with fields; rewrite ?get16_put16, ?get32_put32, ?i16_u16 by (autorewrite with fields; done || lia); try done; [by rewrite u32_small|].
  rewrite <- Ha. apply get_put_array32; [autorewrite with fields; lia|done].
Qed.
Lemma get_dinode_put_ne off off' x l : length (d_addrs x) = 13%nat → (off + 64 ≤ off' ∨ off' + 64 ≤ off)%nat → get_dinode off (put_dinode off' x l) = get_dinode off l.
Proof.
  intros Ha Ho. unfold get_dinode, put_dinode. f_equal; [autorewrite with fields; done..|].
  unfold get_array32. apply list_fmap_ext. intros i k [-> Hk]%lookup_seq. by autorewrite with fields.
Qed.

(** *** Their place on the disk *)

Definition inode_at (d : list (list Z)) (inum : Z) : dinode := get_dinode (dinode_off inum) (blk d (IBLOCK inum mk_sb)).

Lemma IBLOCK_eq inum : 0 ≤ inum < 208 → IBLOCK inum mk_sb = 32 + inum / 16.
Proof.
  intros H. unfold IBLOCK. change (sb_inodestart mk_sb) with 32. change IPB with 16. mach_lia.
Qed.
Lemma IBLOCK_range inum : 0 ≤ inum < 208 → 32 ≤ IBLOCK inum mk_sb < 45.
Proof. intros H. rewrite IBLOCK_eq by done. mach_lia. Qed.
Lemma dinode_off_eq inum : 0 ≤ inum < 208 → dinode_off inum = Z.to_nat (64 * (inum mod 16)).
Proof. intros H. unfold dinode_off. change IPB with 16. unfold DINODE_SIZE. f_equal. lia. Qed.
Lemma dinode_off_fits inum : 0 ≤ inum < 208 → (dinode_off inum + 64 ≤ Z.to_nat BSIZE)%nat.
Proof. intros H. rewrite dinode_off_eq by done. pose proof (Z.mod_pos_bound inum 16 ltac:(lia)). unfold BSIZE. lia. Qed.

Lemma winode_run s inum x : img (dsk s) (freeblock s) → 0 ≤ inum < 208 → dinode_ok x → ∃ s', winode inum x s = Done tt s' [] ∧
  img (dsk s') (freeblock s') ∧ freeblock s' = freeblock s ∧ freeinode s' = freeinode s ∧ inode_at (dsk s') inum = x ∧
  (∀ j, 0 ≤ j < 208 → j ≠ inum → inode_at (dsk s') j = inode_at (dsk s) j) ∧ (∀ b, 0 ≤ b < 32 ∨ 45 ≤ b → blk (dsk s') b = blk (dsk s) b).
Proof.
  intros Hi Hn Hx. pose proof (im_fb _ _ Hi) as Hm. pose proof (IBLOCK_range inum Hn) as Hb. set (b := IBLOCK inum mk_sb) in *. unfold winode. fold b. cbv zeta.
  rewrite (bind_run _ _ _ _ _ _ (rsect_run s b (im_len _ _ Hi) ltac:(blk_lia))). rewrite wsect_run by (apply (im_len _ _ Hi) || blk_lia). eexists. split; [done|]. cbn [dsk freeblock freeinode set_dsk].
  assert (length (blk (dsk s) b) = Z.to_nat BSIZE) as Hlen by (apply (im_blk _ _ Hi); blk_lia). set (d' := <[Z.to_nat b := _]> (dsk s)).
  assert (∀ c, 0 ≤ c → blk d' c = if decide (c = b) then put_dinode (dinode_off inum) x (blk (dsk s) b) else blk (dsk s) c) as Hd by (intros c Hc; unfold d'; apply blk_insert; [apply (im_len _ _ Hi)|blk_lia|done]).
  split_and!; [|done|done| | |].
  - apply img_write; [done|blk_lia|]. by rewrite length_put_dinode.
  - unfold inode_at. fold b. rewrite Hd, decide_True by (done || lia). apply get_dinode_put; [rewrite Hlen; by apply dinode_off_fits|done].
  - intros j Hj Hne. unfold inode_at. pose proof (IBLOCK_range j Hj) as Hbj. rewrite Hd by lia. case_decide as Hjb; [|done]. rewrite Hjb. apply get_dinode_put_ne; [apply Hx|].
    rewrite !dinode_off_eq by done. unfold b in Hjb. rewrite !IBLOCK_eq in Hjb by done. pose proof (Z.div_mod j 16 ltac:(lia)). pose proof (Z.div_mod inum 16 ltac:(lia)). pose proof (Z.mod_pos_bound j 16 ltac:(lia)). pose proof (Z.mod_pos_bound inum 16 ltac:(lia)). lia.
  - intros c Hc. rewrite Hd by lia. rewrite decide_False by lia. done.
Qed.
Lemma rinode_run s inum : img (dsk s) (freeblock s) → 0 ≤ inum < 208 → rinode inum s = Done (inode_at (dsk s) inum) s [].
Proof.
  intros Hi Hn. pose proof (IBLOCK_range inum Hn) as Hb. unfold rinode. cbv zeta. by rewrite (bind_run _ _ _ _ _ _ (rsect_run s (IBLOCK inum mk_sb) (im_len _ _ Hi) ltac:(blk_lia))).
Qed.

(** ** Images *)

(** Inode [inum] holds a file of type [f.1] with the bytes [f.2]. *)
Record file_at (d : list (list Z)) (fb inum : Z) (f : Z * list Z) (bl : list Z) (ind : Z) : Prop := {
  fl_type : d_type (inode_at d inum) = f.1 ∧ 0 ≤ f.1 < 32768;
  fl_meta : d_major (inode_at d inum) = 0 ∧ d_minor (inode_at d inum) = 0 ∧ d_nlink (inode_at d inum) = 1;
  fl_size : d_size (inode_at d inum) = Z.of_nat (length f.2);
  fl_addr : faddr d (inode_at d inum) bl ind;
  fl_own : owned fb bl ind;
  fl_data : fdata d bl f.2
}.
Lemma file_at_frame d d' fb fb' inum f bl ind : file_at d fb inum f bl ind → inode_at d' inum = inode_at d inum → (∀ b, b ∈ own bl ind → blk d' b = blk d b) → fb ≤ fb' → file_at d' fb' inum f bl ind.
Proof.
  intros [Ht Hm Hs Ha [Hn Hr] [Hl Hb]] Hi Hd Hf. split; rewrite ?Hi; [exact Ht|exact Hm|exact Hs|..].
  - eapply faddr_frame; [done|]. intros Hg. apply Hd, elem_of_app. right. rewrite decide_False by lia. by left.
  - split; [done|]. intros b Hb'%Hr. lia.
  - split; [done|]. rewrite <- Hb. f_equal. apply list_fmap_ext. intros i b Hi'. apply Hd, elem_of_app. left. by eapply list_elem_of_lookup_2.
Qed.

(** The blocks that files take. *)
Definition total (cs : list (Z * list Z)) : Z := foldr (λ f n, cost (nb (length f.2)) + n) 0 cs.
Lemma total_blocks_app cs cs' : total (cs ++ cs') = total cs + total cs'.
Proof. unfold total. induction cs as [|f cs IH]; cbn [app foldr]; [done|]. rewrite IH. lia. Qed.
Lemma total_insert cs k f f' : cs !! k = Some f → total (<[k := f']> cs) = total cs - cost (nb (length f.2)) + cost (nb (length f'.2)).
Proof.
  revert k. induction cs as [|g cs IH]; intros [|k] Hk; try done.
  - injection Hk as ->. change (<[0%nat:=f']> (f :: cs)) with (f' :: cs). unfold total. cbn [foldr]. lia.
  - change (<[S k:=f']> (g :: cs)) with (g :: <[k:=f']> cs). unfold total in *. cbn [foldr]. rewrite (IH k) by done. lia.
Qed.

Definition sb_block : list Z := put 0 sb_bytes zero_block.

(** The image holds the files [cs], inode 1 first. *)
Record repr (s : mkst) (cs : list (Z * list Z)) (bls : list (list Z * Z)) : Prop := {
  rp_img : img (dsk s) (freeblock s);
  rp_ino : freeinode s = Z.of_nat (length cs) + 1;
  rp_len : length bls = length cs;
  rp_max : (length cs < 200)%nat;
  rp_file : ∀ k f bi, cs !! k = Some f → bls !! k = Some bi → file_at (dsk s) (freeblock s) (Z.of_nat k + 1) f bi.1 bi.2;
  rp_disj : ∀ k k' bi bi' b, bls !! k = Some bi → bls !! k' = Some bi' → b ∈ own bi.1 bi.2 → b ∈ own bi'.1 bi'.2 → k = k';
  rp_cost : freeblock s = nmeta + total cs;
  rp_low : ∀ b, 0 ≤ b < 32 → blk (dsk s) b = if decide (b = 1) then sb_block else zero_block
}.

Lemma own_u32 d din bl ind fb : faddr d din bl ind → owned fb bl ind → fb ≤ FSSIZE → Forall is_u32 (d_addrs din).
Proof.
  intros Hf [_ Hr] Hfb. rewrite (fa_addrs _ _ _ _ Hf). assert (∀ b, b ∈ own bl ind → is_u32 b) as Hu by (intros b Hb; apply Hr in Hb; blk_lia).
  apply Forall_app. split; [unfold pad; apply Forall_app; split|].
  - apply Forall_forall. intros b Hb. apply Hu, elem_of_app. left. by eapply elem_of_take in Hb as (i & Hi & _); eapply list_elem_of_lookup_2.
  - apply Forall_replicate. wrap_unfold. lia.
  - apply Forall_singleton. destruct (decide (length bl ≤ 12)%nat) as [Hl|Hl]; [rewrite (fa_ind0 _ _ _ _ Hf Hl); wrap_unfold; lia|]. apply Hu, elem_of_app. right. rewrite decide_False by done. by left.
Qed.

(** One file changes, on its own and on new blocks. *)
Lemma repr_update s s' cs bls k f f' bl ind bl' ind' : repr s cs bls → cs !! k = Some f → bls !! k = Some (bl, ind) →
  img (dsk s') (freeblock s') → freeinode s' = freeinode s → freeblock s' = freeblock s + cost (nb (length f'.2)) - cost (nb (length f.2)) →
  file_at (dsk s') (freeblock s') (Z.of_nat k + 1) f' bl' ind' → (∀ j, 0 ≤ j < 208 → j ≠ Z.of_nat k + 1 → inode_at (dsk s') j = inode_at (dsk s) j) →
  (∀ b, 0 ≤ b < 32 ∨ 45 ≤ b < freeblock s → b ∉ own bl ind → blk (dsk s') b = blk (dsk s) b) → (∀ b, b ∈ own bl' ind' → b ∈ own bl ind ∨ freeblock s ≤ b) → freeblock s ≤ freeblock s' →
  repr s' (<[k := f']> cs) (<[k := (bl', ind')]> bls).
Proof.
  intros [Hi Hino Hlen Hmx Hfile Hdisj Hcost Hlow] Hk Hbl Hi' Hn' Hc' Hnew Hin Hfr Hown Hmono. pose proof (lookup_lt_Some _ _ _ Hk) as Hkl. pose proof (im_fb _ _ Hi) as Hm. pose proof (Hfile _ _ _ Hk Hbl) as Hold.
  assert (∀ b bi k', bls !! k' = Some bi → k' ≠ k → b ∈ own bi.1 bi.2 → b ∉ own bl ind ∧ nmeta ≤ b < freeblock s) as Hothers.
  { intros b bi k' Hk' Hne Hb. split; [intros Hb2'; apply Hne; by eapply (Hdisj k' k _ (bl, ind))|]. pose proof (lookup_lt_Some _ _ _ Hk') as Hlt. destruct (lookup_lt_is_Some_2 cs k') as [g Hg]; [by rewrite <- Hlen|]. by apply (fl_own _ _ _ _ _ _ (Hfile _ _ _ Hg Hk')). }
  split; rewrite ?length_insert; try done; [by rewrite Hn'| | | |].
  - intros k' g bi. rewrite !list_lookup_insert. destruct (decide (k = k' ∧ _)) as [[<- _]|Hne]; [rewrite decide_True by lia; by intros [= <-] [= <-]|].
    intros Hk'. pose proof (lookup_lt_Some _ _ _ Hk') as Hlt. rewrite decide_False by lia. intros Hbi. assert (k' ≠ k) as Hnk by lia. eapply file_at_frame; [by apply Hfile|apply Hin; lia| |lia].
    intros b Hb. destruct (Hothers _ _ _ Hbi Hnk Hb) as [Hno Hrg]. apply Hfr; [blk_lia|done].
  - assert (∀ k1 bi b, bls !! k1 = Some bi → k1 ≠ k → b ∈ own bi.1 bi.2 → b ∉ own bl' ind') as Hno.
    { intros k1 bi b H1 Hne Hb [Hb'|Hb']%Hown; destruct (Hothers _ _ _ H1 Hne Hb); [done|lia]. }
    intros k1 k2 b1 b2 b. rewrite !list_lookup_insert. repeat case_decide; intros H1 H2 Hb1 Hb2; [lia| | |by eapply Hdisj].
    + injection H1 as <-. exfalso. eapply (Hno k2); [done|lia|done|done].
    + injection H2 as <-. exfalso. eapply (Hno k1); [done|lia|done|done].
  - rewrite (total_insert _ _ _ _ Hk). lia.
  - intros b Hb. rewrite Hfr; [by apply Hlow|lia|]. intros Hb'. apply (fl_own _ _ _ _ _ _ Hold) in Hb'. blk_lia.
Qed.

Lemma meta_frame d d' fb fb' bl ind o' : grown d d' fb fb' (own bl ind) o' → owned fb bl ind → nmeta ≤ fb → ∀ b, 0 ≤ b < nmeta → blk d' b = blk d b.
Proof. intros Hg [_ Hr] Hm b Hb. apply (gr_frame _ _ _ _ _ _ Hg); [lia|]. intros Hb'%Hr. lia. Qed.

(** [iappend] appends. *)
Lemma iappend_run s cs bls k ty c p : repr s cs bls → cs !! k = Some (ty, c) → (length c + length p ≤ 268 * 1024)%nat →
  nmeta + total (<[k := (ty, c ++ p)]> cs) ≤ FSSIZE → ∃ s' bls', iappend (Z.of_nat k + 1) p s = Done tt s' [] ∧ repr s' (<[k := (ty, c ++ p)]> cs) bls'.
Proof.
  intros Hr Hk Hmax Hc. pose proof (lookup_lt_Some _ _ _ Hk) as Hkl. pose proof (rp_max _ _ _ Hr) as Hmx. destruct (lookup_lt_is_Some_2 bls k) as [[bl ind] Hbl]; [rewrite (rp_len _ _ _ Hr); done|].
  pose proof (rp_img _ _ _ Hr) as Hi. pose proof (rp_cost _ _ _ Hr) as Hcost. destruct (rp_file _ _ _ Hr _ _ _ Hk Hbl) as [[Hty Htr] (Hj1 & Hj2 & Hj3) Hsz Had How Hda]. cbn [fst snd] in *. set (inum := Z.of_nat k + 1) in *. assert (0 ≤ inum < 208) as Hin by lia. pose proof (im_fb _ _ Hi) as Hm.
  unfold iappend. rewrite (bind_run _ _ _ _ _ _ (rinode_run s inum Hi Hin)). rewrite Hsz, xint_id by blk_lia.
  rewrite (total_insert _ _ _ _ Hk) in Hc. cbn [snd] in Hc. rewrite length_app in Hc. pose proof (fd_len _ _ _ Hda) as Hbln. rewrite <- Hbln in Hc.
  destruct (iappend_loop_run (length p) s (inode_at (dsk s) inum) bl ind c p (Build_fstate _ _ _ _ _ Hi Had How Hda) (le_n _) Hmax ltac:(lia)) as (din & s1 & bl' & ind' & Hrun & [(Hx1 & Hx2 & Hx3 & Hx4 & _) [Hi1 Ha1 Ho1 Hd1] Hg1 Hc1 Hn1]).
  rewrite (bind_run _ _ _ _ _ _ Hrun). clear Hrun. pose proof (im_fb _ _ Hi1) as Hfb1. pose proof (gr_fb _ _ _ _ _ _ Hg1) as Hmono. rewrite xint_id by blk_lia. set (x := set_d_size _ din).
  pose proof (own_u32 _ _ _ _ _ Ha1 Ho1 ltac:(lia)) as Hu. assert (faddr (dsk s1) x bl' ind') as Hax by (destruct Ha1; split; done).
  destruct (winode_run s1 inum x Hi1 Hin) as (s2 & Hrun & Hi2 & Hb2 & Hn2 & Hself & Hother & Hrest).
  { split; [unfold x; cbn [d_addrs set_d_size]; rewrite (fa_addrs _ _ _ _ Ha1), length_app, pad_length by (rewrite length_take; lia); done|done|unfold x; cbn [d_size set_d_size]; blk_lia|].
    unfold x; cbn [d_type d_major d_minor d_nlink set_d_size]. rewrite Hx1, Hx2, Hx3, Hx4, Hj1, Hj2, Hj3, Hty. repeat constructor; lia. }
  rewrite Hrun, !pre_nil. exists s2, (<[k := (bl', ind')]> bls). split; [done|]. pose proof (meta_frame _ _ _ _ _ _ _ Hg1 How ltac:(lia)) as Hmetab.
  eapply (repr_update s s2 cs bls k (ty, c) (ty, c ++ p) bl ind bl' ind' Hr Hk Hbl Hi2); cbn [snd].
  - by rewrite Hn2, Hn1.
  - rewrite Hb2, Hc1, (fd_len _ _ _ Hd1), Hbln. done.
  - fold inum. rewrite Hb2. split; rewrite ?Hself; try done; cbn [fst snd].
    + by cbn [d_type x set_d_size]; rewrite Hx1.
    + cbn [d_major d_minor d_nlink x set_d_size]. by rewrite Hx2, Hx3, Hx4.
    + cbn [d_size x set_d_size snd]. by rewrite length_app.
    + eapply faddr_frame; [done|]. intros Hl. apply Hrest. pose proof (own_ind _ _ _ Ho1 Hl). blk_lia.
    + destruct Hd1 as [Hdl Hdb]. split; [done|]. rewrite <- Hdb. f_equal. apply list_fmap_ext. intros i b Hb. apply Hrest. pose proof (own_in _ _ _ _ _ _ _ Ha1 Ho1 Hb). blk_lia.
  - fold inum. intros j Hj Hne. rewrite Hother by done. unfold inode_at. rewrite Hmetab; [done|]. pose proof (IBLOCK_range j Hj). blk_lia.
  - intros b Hb Hno. rewrite Hrest by lia. apply (gr_frame _ _ _ _ _ _ Hg1); [blk_lia|done].
  - exact (gr_own _ _ _ _ _ _ Hg1).
  - lia.
Qed.

(** [ialloc] adds an empty file. *)
Lemma ialloc_run s cs bls ty : repr s cs bls → (length cs < 199)%nat → 0 ≤ ty < 32768 → ∃ s' bls', mk_ialloc ty s = Done (Z.of_nat (length cs) + 1) s' [] ∧ repr s' (cs ++ [(ty, [])]) bls'.
Proof.
  intros [Hi Hino Hlen Hmx Hfile Hdisj Hcost Hlow] Hl Hty. set (inum := Z.of_nat (length cs) + 1) in *. assert (0 ≤ inum < 208) as Hin by lia. unfold mk_ialloc. rewrite bind_gets, bind_modify, Hino. fold inum.
  rewrite xshort_id, xshort_id, xint_id, u32_small by (wrap_unfold; lia). set (s0 := set_freeinode (inum + 1) s). set (x := mkdinode _ _ _ _ _ _).
  destruct (winode_run s0 inum x Hi Hin) as (s' & Hrun & Hi' & Hb' & Hn' & Hself & Hother & Hrest).
  { split; [done|apply Forall_replicate; wrap_unfold; lia|wrap_unfold; cbn; lia|repeat constructor; cbn; lia]. }
  rewrite (bind_run _ _ _ _ _ _ Hrun). exists s', (bls ++ [([], 0)]). split; [done|]. cbn [dsk freeblock freeinode set_freeinode s0] in *. split; rewrite ?length_app; cbn [length]; try done; try lia.
  - intros k f bi Hk Hbi. destruct (decide (k < length cs)%nat) as [Hlt|Hge].
    + rewrite lookup_app_l in Hk by done. rewrite lookup_app_l in Hbi by lia. pose proof (Hfile _ _ _ Hk Hbi) as Hf. eapply file_at_frame; [done|apply Hother; lia| |lia].
      intros b Hb. apply Hrest. apply (fl_own _ _ _ _ _ _ Hf) in Hb. blk_lia.
    + pose proof (lookup_lt_Some _ _ _ Hk) as Hkl. rewrite length_app in Hkl. cbn [length] in Hkl. assert (k = length cs) as -> by lia. rewrite lookup_app_r, Nat.sub_diag in Hk by done. rewrite lookup_app_r, Hlen, Nat.sub_diag in Hbi by lia.
      injection Hk as <-. injection Hbi as <-. fold inum. cbn [fst snd]. split; rewrite ?Hself; try done; [split; try done; cbn [length]; lia|split; [apply NoDup_nil_2|by intros b ?%elem_of_nil]].
  - intros k k' bi bi' b Hk Hk' Hb Hb2. assert (∀ j y, (bls ++ [([], 0)]) !! j = Some y → b ∈ own y.1 y.2 → bls !! j = Some y) as Hold.
    { intros j y Hj Hy. destruct (decide (j < length bls)%nat); [by rewrite lookup_app_l in Hj|]. rewrite lookup_app_r in Hj by lia. apply list_lookup_singleton_Some in Hj as [_ <-]. by apply elem_of_nil in Hy. }
    by eapply Hdisj; eauto.
  - rewrite total_blocks_app. change (total [(ty, [])]) with 0. lia.
  - intros b Hb. rewrite Hrest by lia. auto.
Qed.

(** ** main *)

Lemma wipe_from n : ∀ i a b, (Z.of_nat (i + n) ≤ FSSIZE) → for_from n i (λ i, wsect (Z.of_nat i) zero_block) (mkmkst (replicate i zero_block) a b) = Done tt (mkmkst (replicate (i + n) zero_block) a b) [].
Proof.
  induction n as [|n IH]; intros i a b Hn; cbn [for_from]; [by rewrite Nat.add_0_r|]. assert (wsect (Z.of_nat i) zero_block (mkmkst (replicate i zero_block) a b) = Done tt (mkmkst (replicate (S i) zero_block) a b) []) as Hw.
  { unfold wsect, modify, set_dsk. cbn [dsk freeinode freeblock]. rewrite sector_small by lia. rewrite Nat2Z.id, length_replicate. replace (S i - i)%nat with 1%nat by lia. rewrite insert_app_r_alt by (rewrite length_replicate; lia).
    rewrite length_replicate, Nat.sub_diag. change (<[0%nat:=zero_block]> (replicate 1 zero_block)) with (replicate 1 zero_block). do 2 f_equal. rewrite <- replicate_add. f_equal. lia. }
  rewrite (bind_run _ _ _ _ _ _ Hw), pre_nil, IH by lia. do 3 f_equal. lia.
Qed.
Lemma blk_wiped b : 0 ≤ b < FSSIZE → blk (replicate (Z.to_nat FSSIZE) zero_block) b = zero_block.
Proof. intros H. unfold blk. apply list_lookup_total_correct, lookup_replicate_2. lia. Qed.

(** The image before the first inode. *)
Lemma empty_run : ∃ s1 s, wipe (mkmkst [] 1 nmeta) = Done tt s1 [] ∧ wsect 1 (put 0 sb_bytes zero_block) s1 = Done tt s [] ∧ repr s [] [].
Proof.
  unfold wipe, for_upto. pose proof (wipe_from (Z.to_nat FSSIZE) 0 1 nmeta ltac:(unfold FSSIZE; lia)) as Hw. rewrite Nat.add_0_l in Hw. eexists _, _. split; [exact Hw|]. clear Hw. set (d := replicate _ _).
  assert (length d = Z.to_nat FSSIZE) as Hl by apply length_replicate. rewrite wsect_run by (done || unfold FSSIZE; lia). split; [done|]. assert (length (put 0 sb_bytes zero_block) = Z.to_nat BSIZE) as Hsb by (rewrite length_put; done).
  assert (∀ b, 0 ≤ b < FSSIZE → blk (<[Z.to_nat 1 := put 0 sb_bytes zero_block]> d) b = if decide (b = 1) then put 0 sb_bytes zero_block else zero_block) as Hb.
  { intros b Hb. rewrite blk_insert by (done || unfold FSSIZE; lia). case_decide; [done|]. by apply blk_wiped. }
  split; cbn [dsk freeblock freeinode set_dsk length]; try done; try lia.
  - split; [by rewrite length_insert| | |unfold FSSIZE; rewrite nmeta_eq; lia].
    + intros b Hb'. rewrite Hb by done. case_decide; [done|]. reflexivity.
    + intros b Hb'. rewrite nmeta_eq in Hb'. rewrite Hb by lia. by rewrite decide_False by lia.
  - intros b Hb'. apply Hb. unfold FSSIZE. lia.
Qed.

Lemma nb_mono m n : (m ≤ n)%nat → (nb m ≤ nb n)%nat.
Proof. intros H. pose proof (nb_bounds m). pose proof (nb_bounds n). lia. Qed.
Lemma cost_nb_mono m n : (m ≤ n)%nat → cost (nb m) ≤ cost (nb n).
Proof. intros. by apply cost_mono, nb_mono. Qed.

(** Appending the reads of a file one by one. *)
Lemma append_reads_run reads : ∀ s cs bls k ty c, repr s cs bls → cs !! k = Some (ty, c) → (length c + length (concat reads) ≤ 268 * 1024)%nat →
  nmeta + total (<[k := (ty, c ++ concat reads)]> cs) ≤ FSSIZE → ∃ s' bls', append_reads (Z.of_nat k + 1) reads s = Done tt s' [] ∧ repr s' (<[k := (ty, c ++ concat reads)]> cs) bls'.
Proof.
  induction reads as [|p reads IH]; intros s cs bls k ty c Hr Hk Hm Hc; cbn [concat append_reads foldr] in *.
  { exists s, bls. split; [done|]. rewrite app_nil_r, list_insert_id by done. done. }
  rewrite length_app in Hm. pose proof (lookup_lt_Some _ _ _ Hk) as Hkl. destruct (iappend_run s cs bls k ty c p Hr Hk ltac:(lia)) as (s1 & bls1 & H1 & Hr1).
  { rewrite (total_insert _ _ _ _ Hk) in Hc. rewrite (total_insert _ _ _ _ Hk). cbn [snd] in *. pose proof (cost_nb_mono (length (c ++ p)) (length (c ++ p ++ concat reads)) ltac:(rewrite !length_app; lia)). lia. }
  rewrite (bind_run _ _ _ _ _ _ H1), pre_nil. destruct (IH s1 _ bls1 k ty (c ++ p) Hr1) as (s2 & bls2 & H2 & Hr2).
  - by apply list_lookup_insert_eq.
  - rewrite length_app. lia.
  - by rewrite list_insert_insert_eq, <- app_assoc.
  - rewrite list_insert_insert_eq, <- app_assoc in Hr2. by exists s2, bls2.
Qed.

(** *** What the image should hold *)

Definition bytes_of (f : hostfile) : list Z := concat (default [] (h_reads f)).
(** The directory entries of files whose inode numbers start at [i]. *)
Fixpoint entries (i : nat) (files : list hostfile) : list Z :=
  match files with [] => [] | f :: files' => dirent_bytes (Z.of_nat i) (shortname (h_name f)) ++ entries (S i) files' end.
Definition with_root (r : list Z) (fs : list (list Z)) : list (Z * list Z) := (T_DIR, r) :: ((λ c, (T_FILE, c)) <$> fs).

(** An argument that [mkfs] accepts. *)
Record file_ok (f : hostfile) : Prop := {
  fo_open : h_reads f ≠ None;
  fo_slash : SLASH ∉ strip_user (h_name f);
  fo_name : (length (shortname (h_name f)) ≤ DIRSIZ)%nat;
  fo_size : (length (bytes_of f) ≤ 268 * 1024)%nat
}.

Lemma length_strncpy n l : length (strncpy_bytes n l) = n.
Proof. revert l. induction n as [|n IH]; intros l; [done|]. cbn [strncpy_bytes]. destruct (_ =? 0); [apply length_replicate|]. cbn [length]. by rewrite IH. Qed.
Lemma length_dirent i l : length (dirent_bytes i l) = 16%nat.
Proof. unfold dirent_bytes. by rewrite length_app, le_bytes_length, length_strncpy. Qed.
Lemma total_root r fs : total (with_root r fs) = cost (nb (length r)) + total ((λ c, (T_FILE, c)) <$> fs).
Proof. done. Qed.

Lemma add_file_run s r fs bls f : repr s (with_root r fs) bls → file_ok f → (length fs < 198)%nat → (length r + 16 ≤ 268 * 1024)%nat →
  nmeta + total (with_root (r ++ dirent_bytes (Z.of_nat (length fs + 2)) (shortname (h_name f))) (fs ++ [bytes_of f])) ≤ FSSIZE →
  ∃ s' bls', add_file 1 f s = Done tt s' [] ∧ repr s' (with_root (r ++ dirent_bytes (Z.of_nat (length fs + 2)) (shortname (h_name f))) (fs ++ [bytes_of f])) bls'.
Proof.
  intros Hr [Hop Hsl Hnm Hsz] Hfs Hrl Hc. unfold add_file, assert. rewrite bool_decide_false by done. cbn [negb]. rewrite bind_ret. unfold bytes_of in *. destruct (h_reads f) as [reads|]; [|done]. cbn [default from_option id] in *.
  rewrite (proj2 (Nat.leb_le _ _)) by done. rewrite bind_ret. set (e := dirent_bytes (Z.of_nat (length fs + 2)) (shortname (h_name f))) in *. assert (length e = 16%nat) as He by apply length_dirent.
  destruct (ialloc_run s _ bls T_FILE Hr) as (s1 & bls1 & H1 & Hr1); [unfold with_root; cbn [length]; rewrite length_fmap; lia|unfold T_FILE; lia|].
  rewrite (bind_run _ _ _ _ _ _ H1), pre_nil. replace (Z.of_nat (length (with_root r fs)) + 1) with (Z.of_nat (length fs + 2)) by (unfold with_root; cbn [length]; rewrite length_fmap; lia).
  assert (with_root r fs ++ [(T_FILE, [])] = with_root r (fs ++ [[]])) as Heq by (unfold with_root; by rewrite fmap_app). rewrite Heq in Hr1. rewrite total_root in Hc. rewrite fmap_app, total_blocks_app in Hc.
  change (total ((λ c, (T_FILE, c)) <$> [concat reads])) with (cost (nb (length (concat reads))) + 0) in Hc. assert (0 ≤ cost (nb (length (concat reads)))) as Hpos by (unfold cost; case_decide; lia).
  destruct (iappend_run s1 _ bls1 0 T_DIR r e Hr1 eq_refl ltac:(lia)) as (s2 & bls2 & H2 & Hr2); [change (<[0%nat := (T_DIR, r ++ e)]> (with_root r (fs ++ [[]]))) with (with_root (r ++ e) (fs ++ [[]])); rewrite total_root, fmap_app, total_blocks_app; change (total ((λ c, (T_FILE, c)) <$> [[]])) with 0; lia|].
  change (<[0%nat := (T_DIR, r ++ e)]> (with_root r (fs ++ [[]]))) with (with_root (r ++ e) (fs ++ [[]])) in Hr2. rewrite xshort_id by lia. change (Z.of_nat 0 + 1) with 1 in H2. rewrite (bind_run _ _ _ _ _ _ H2), pre_nil.
  assert (with_root (r ++ e) (fs ++ [[]]) !! S (length fs) = Some (T_FILE, [])) as Hk by (change (((λ c, (T_FILE, c)) <$> fs ++ [[]]) !! length fs = Some (T_FILE, [])); rewrite list_lookup_fmap, lookup_app_r, Nat.sub_diag by done; done).
  assert (<[S (length fs) := (T_FILE, [] ++ concat reads)]> (with_root (r ++ e) (fs ++ [[]])) = with_root (r ++ e) (fs ++ [concat reads])) as Hins.
  { unfold with_root. change (<[S (length fs) := ?x]> (?y :: ?l)) with (y :: <[length fs := x]> l). f_equal. rewrite !fmap_app, insert_app_r_alt; rewrite length_fmap; [|done]. by rewrite Nat.sub_diag. }
  destruct (append_reads_run reads s2 _ bls2 (S (length fs)) T_FILE [] Hr2 Hk ltac:(cbn [length]; lia)) as (s3 & bls3 & H3 & Hr3); [rewrite Hins, total_root, fmap_app, total_blocks_app; change (total ((λ c, (T_FILE, c)) <$> [concat reads])) with (cost (nb (length (concat reads))) + 0); lia|].
  rewrite Hins in Hr3. replace (Z.of_nat (S (length fs)) + 1) with (Z.of_nat (length fs + 2)) in H3 by lia. exists s3, bls3. split; [done|exact Hr3].
Qed.

Lemma total_mono r r' fs fs' : (length r ≤ length r')%nat → total (with_root r fs) ≤ total (with_root r' (fs ++ fs')).
Proof.
  intros Hl. rewrite !total_root, fmap_app, total_blocks_app. pose proof (cost_nb_mono _ _ Hl). assert (∀ l, 0 ≤ total l) as Hp; [|specialize (Hp ((λ c, (T_FILE, c)) <$> fs')); lia].
  induction l as [|g l IH]; [done|]. unfold total in *. cbn [foldr]. pose proof (cost_mono 0 (nb (length g.2)) ltac:(lia)) as H0. change (cost 0) with 0 in H0. lia.
Qed.

Lemma add_files_run files : ∀ s r fs bls, repr s (with_root r fs) bls → Forall file_ok files → (length fs + length files < 199)%nat → (length r + 16 * length files ≤ 268 * 1024)%nat →
  nmeta + total (with_root (r ++ entries (length fs + 2) files) (fs ++ (bytes_of <$> files))) ≤ FSSIZE →
  ∃ s' bls', add_files 1 files s = Done tt s' [] ∧ repr s' (with_root (r ++ entries (length fs + 2) files) (fs ++ (bytes_of <$> files))) bls'.
Proof.
  induction files as [|f files IH]; intros s r fs bls Hr Hok Hn Hrl Hc; cbn [entries add_files foldr] in *; rewrite ?fmap_cons in *.
  { rewrite !app_nil_r in *. by exists s, bls. }
  apply Forall_cons in Hok as [Hf Hok]. cbn [length] in *. set (e := dirent_bytes _ _) in *. assert (length e = 16%nat) as He by apply length_dirent.
  rewrite (app_assoc r), (cons_middle (bytes_of f)), (app_assoc fs) in Hc |- *. destruct (add_file_run s r fs bls f Hr Hf ltac:(lia) ltac:(lia)) as (s1 & bls1 & H1 & Hr1).
  { fold e. eapply Z.le_trans; [|exact Hc]. apply Zplus_le_compat_l, total_mono. rewrite !length_app. lia. }
  fold e in Hr1. rewrite (bind_run _ _ _ _ _ _ H1), pre_nil. destruct (IH s1 (r ++ e) (fs ++ [bytes_of f]) bls1 Hr1 Hok) as (s2 & bls2 & H2 & Hr2).
  - rewrite length_app. cbn [length]. lia.
  - rewrite length_app. lia.
  - rewrite length_app. cbn [length]. by replace (length fs + 1 + 2)%nat with (S (length fs + 2)) by lia.
  - rewrite length_app in Hr2. cbn [length] in Hr2. replace (length fs + 1 + 2)%nat with (S (length fs + 2)) in Hr2 by lia. by exists s2, bls2.
Qed.

(** The size of the root directory is rounded up to whole blocks. *)
Definition whole (r : list Z) : list Z := r ++ replicate (1024 * nb (length r) - length r) 0.
Lemma round_root s r fs bls : repr s (with_root r fs) bls → (length r mod 1024 ≠ 0)%nat → (length r ≤ 268 * 1024)%nat → ∃ s',
  let din := inode_at (dsk s) 1 in rinode 1 s = Done din s [] ∧ winode 1 (set_d_size (xint ((xint (d_size din) / BSIZE + 1) * BSIZE)) din) s = Done tt s' [] ∧ repr s' (with_root (whole r) fs) bls ∧ freeblock s' = freeblock s.
Proof.
  intros Hr Hnz Hmax. pose proof (rp_img _ _ _ Hr) as Hi. destruct (lookup_lt_is_Some_2 bls 0) as [[bl ind] Hbl]; [rewrite (rp_len _ _ _ Hr); cbn; lia|].
  destruct (rp_file _ _ _ Hr 0 (T_DIR, r) (bl, ind) eq_refl Hbl) as [[Hty Htr] (Hj1 & Hj2 & Hj3) Hsz Had How Hda]. cbn [fst snd] in *. change (Z.of_nat 0 + 1) with 1 in *.
  cbv zeta. rewrite Hsz. pose proof (nb_bounds (length r)) as Hnb. pose proof (Nat.div_mod (length r) 1024 ltac:(lia)) as Hdm. pose proof (Nat.mod_upper_bound (length r) 1024 ltac:(lia)).
  assert (nb (length r) = S (length r / 1024)) as Hnb' by lia. assert (length (whole r) = 1024 * nb (length r))%nat as Hw by (unfold whole; rewrite length_app, length_replicate; lia).
  assert ((Z.of_nat (length r) / BSIZE + 1) * BSIZE = Z.of_nat (length (whole r))) as Heq by (rewrite Hw, Hnb'; unfold BSIZE; change 1024 with (Z.of_nat 1024); rewrite <- Nat2Z.inj_div; lia).
  rewrite (xint_id (Z.of_nat (length r))) by blk_lia. rewrite Heq, xint_id by blk_lia. set (x := set_d_size _ _). pose proof (im_fb _ _ Hi) as Hm. pose proof (fa_addrs _ _ _ _ Had) as Haddr.
  destruct (winode_run s 1 x Hi ltac:(lia)) as (s' & Hrun & Hi' & Hb' & Hn' & Hself & Hother & Hrest).
  { split; [unfold x; cbn [d_addrs set_d_size]; rewrite Haddr, length_app, pad_length by (rewrite length_take; lia); done|exact (own_u32 _ _ _ _ _ Had How ltac:(lia))|unfold x; cbn [d_size set_d_size]; blk_lia|].
    unfold x; cbn [d_type d_major d_minor d_nlink set_d_size]. rewrite Hj1, Hj2, Hj3, Hty. repeat constructor; (unfold T_DIR; lia). }
  exists s'. split; [by apply rinode_run|]. split; [done|]. split; [|done]. assert (nb (length (whole r)) = nb (length r)) as Hnw by (pose proof (nb_bounds (length (whole r))); lia).
  pose proof (repr_update s s' _ bls 0 (T_DIR, r) (T_DIR, whole r) bl ind bl ind Hr eq_refl Hbl Hi' Hn') as Hup. cbn [snd] in Hup. rewrite Hnw, (list_insert_id bls) in Hup by done. apply Hup; [lia| | | |by left|lia]; clear Hup.
  - change (Z.of_nat 0 + 1) with 1. rewrite Hb'. assert (faddr (dsk s') x bl ind) as Hax.
    { apply (faddr_frame (dsk s)); [destruct Had; by split|]. intros Hl. apply Hrest. pose proof (own_ind _ _ _ How Hl). blk_lia. }
    split; rewrite ?Hself; cbn [fst snd]; try done. destruct Hda as [Hdl Hdb]. split; [by rewrite Hnw|]. rewrite Hw, Hdl, Nat.sub_diag, app_nil_r. unfold whole. rewrite Hdl in Hdb. rewrite <- Hdb. f_equal. apply list_fmap_ext. intros i b Hb. apply Hrest. pose proof (own_in _ _ _ _ _ _ _ Had How Hb). blk_lia.
  - change (Z.of_nat 0 + 1) with 1. exact Hother.
  - intros b Hb _. apply Hrest. lia.
Qed.

(** ** The bitmap *)

Lemma get_bit_testbit bi d : 0 ≤ bi → get_bit bi d = Z.testbit (d !!! Z.to_nat (bi / 8)) (bi mod 8).
Proof.
  intros Hb. unfold get_bit. set (x := d !!! _). pose proof (Z.mod_pos_bound bi 8 ltac:(lia)) as Hk. set (k := bi mod 8) in *. rewrite Z.shiftl_mul_pow2, Z.mul_1_l by lia.
  destruct (Z.testbit x k) eqn:Ht.
  - apply negb_true_iff, Z.eqb_neq. intros H0. assert (Z.testbit (Z.land x (2 ^ k)) k = false) as Hf by (rewrite H0; apply Z.bits_0). rewrite Z.land_spec, Ht, Z.pow2_bits_true in Hf by lia. done.
  - apply negb_false_iff, Z.eqb_eq. apply Z.bits_inj'. intros j Hj. rewrite Z.land_spec, Z.bits_0. destruct (decide (j = k)) as [->|Hne]; [by rewrite Ht|]. rewrite Z.pow2_bits_false by lia. apply andb_false_r.
Qed.
Lemma get_set_bit i j d : 0 ≤ i → 0 ≤ j → (Z.to_nat (i / 8) < length d)%nat → get_bit j (set_bit i d) = (j =? i) || get_bit j d.
Proof.
  intros Hi Hj Hl. rewrite !get_bit_testbit by done. unfold set_bit. rewrite list_lookup_total_alter. pose proof (Z.mod_pos_bound i 8 ltac:(lia)). pose proof (Z.mod_pos_bound j 8 ltac:(lia)). pose proof (Z.div_mod i 8 ltac:(lia)). pose proof (Z.div_mod j 8 ltac:(lia)).
  assert (0 ≤ i / 8 ∧ 0 ≤ j / 8) as [? ?] by (split; apply Z.div_pos; lia). case_decide as Hd.
  - destruct Hd as [Hd _]. rewrite <- Hd. unfold u8. change 256 with (2 ^ 8). rewrite Z.mod_pow2_bits_low by lia. rewrite Z.lor_spec, Z.shiftl_mul_pow2, Z.mul_1_l by lia. rewrite orb_comm. f_equal.
    destruct (Z.eqb_spec j i) as [->|Hne]; [apply Z.pow2_bits_true; lia|]. apply Z.pow2_bits_false. lia.
  - destruct (Z.eqb_spec j i) as [->|Hne]; [|done]. exfalso. by apply Hd.
Qed.
Lemma byte_of_bit i : 0 ≤ i < 8192 → (Z.to_nat (i / 8) < 1024)%nat.
Proof. intros H. pose proof (Z.div_pos i 8). pose proof (Z.div_lt_upper_bound i 8 1024). lia. Qed.
Lemma mark_used_from n : Z.of_nat n ≤ 8192 → length (foldl (λ buf i, set_bit (Z.of_nat i) buf) zero_block (seq 0 n)) = 1024%nat ∧
  ∀ j, 0 ≤ j < 8192 → get_bit j (foldl (λ buf i, set_bit (Z.of_nat i) buf) zero_block (seq 0 n)) = (j <? Z.of_nat n).
Proof.
  induction n as [|n IH]; intros Hn.
  - split; [reflexivity|]. intros j Hj. cbn [seq foldl]. rewrite get_bit_testbit by lia. unfold zero_block. rewrite lookup_total_replicate_2, Z.bits_0 by (by apply byte_of_bit). symmetry. apply Z.ltb_ge. lia.
  - destruct IH as [Hl Hb]; [lia|]. rewrite seq_S, foldl_app. cbn [foldl]. rewrite Nat.add_0_l. split; [unfold set_bit; by rewrite length_alter|].
    intros j Hj. rewrite get_set_bit, Hb by (try lia; rewrite Hl; apply byte_of_bit; lia).
    destruct (Z.eqb_spec j (Z.of_nat n)); [subst j; cbn [orb]; symmetry; apply Z.ltb_lt; lia|]. cbn [orb]. destruct (Z.ltb_spec j (Z.of_nat n)), (Z.ltb_spec j (Z.of_nat (S n))); (done || lia).
Qed.
Lemma mark_used_spec used : 0 ≤ used < BPB → length (mark_used used) = Z.to_nat BSIZE ∧ ∀ b, 0 ≤ b < BPB → get_bit b (mark_used used) = (b <? used).
Proof.
  change BPB with 8192. intros Hu. destruct (mark_used_from (Z.to_nat used) ltac:(lia)) as [Hl Hb]. split; [exact Hl|]. intros b Hb'. unfold mark_used. rewrite Hb by done. by rewrite Z2Nat.id by lia.
Qed.

(** ** Reading the image *)

(** Block [n] of the file of inode [x], its blocks, and its contents, as the
    kernel finds them. *)
Definition bmap_of (d : list (list Z)) (x : dinode) (n : nat) : Z :=
  if (n <? 12)%nat then addr n x else get32 (4 * (n - 12)) (blk d (addr 12 x)).
Definition blocks_of (d : list (list Z)) (inum : Z) : list Z :=
  let x := inode_at d inum in bmap_of d x <$> seq 0 (nb (Z.to_nat (d_size x))).
Definition read_file (d : list (list Z)) (inum : Z) : list Z :=
  take (Z.to_nat (d_size (inode_at d inum))) (concat (blk d <$> blocks_of d inum)).

Lemma file_at_blocks d fb inum f bl ind : file_at d fb inum f bl ind → blocks_of d inum = bl ∧ read_file d inum = f.2.
Proof.
  intros [_ _ Hsz Had _ [Hl Hb]]. assert (blocks_of d inum = bl) as Hbl.
  { unfold blocks_of. rewrite Hsz, Nat2Z.id, <- Hl. apply list_eq. intros j. rewrite list_lookup_fmap. destruct (decide (j < length bl)%nat) as [Hj|Hj]; [|by rewrite lookup_seq_ge, lookup_ge_None_2 by lia].
    rewrite lookup_seq_lt by done. destruct (lookup_lt_is_Some_2 _ _ Hj) as [b Hb']. rewrite Hb'. cbn [fmap option_fmap option_map]. f_equal. unfold bmap_of. pose proof (fa_max _ _ _ _ Had). destruct (Nat.ltb_spec (0 + j) 12).
    - rewrite (fa_direct _ _ _ _ _ Had) by lia. by rewrite Nat.add_0_l, Hb'.
    - rewrite array_get, (fa_indirect _ _ _ _ Had), (fa_ind _ _ _ _ Had) by lia. rewrite pad_lookup, lookup_drop by lia. replace (12 + (0 + j - 12))%nat with j by lia. by rewrite Hb'. }
  split; [done|]. unfold read_file. rewrite Hbl, Hsz, Nat2Z.id, Hb. apply take_app_length.
Qed.

(** ** The theorem *)

Definition dots : list Z := dirent_bytes 1 [46] ++ dirent_bytes 1 [46; 46].
(** The root directory, then the files in the order of the arguments. *)
Definition image (files : list hostfile) : list (Z * list Z) := with_root (whole (dots ++ entries 2 files)) (bytes_of <$> files).

(** A file system that holds [cs] in its inodes from 1 on, with [used] blocks. *)
Record good_image (cs : list (Z * list Z)) (d : list (list Z)) (used : Z) : Prop := {
  gi_size : length d = Z.to_nat FSSIZE;
  gi_sb : get_superblock (blk d 1) = mk_sb;
  gi_log : get32 0 (blk d (sb_logstart mk_sb)) = 0;
  gi_files : ∀ k f, cs !! k = Some f → let x := inode_at d (Z.of_nat k + 1) in
    d_type x = f.1 ∧ d_nlink x = 1 ∧ d_size x = Z.of_nat (length f.2) ∧ read_file d (Z.of_nat k + 1) = f.2;
  gi_blocks : ∀ k, (k < length cs)%nat → NoDup (blocks_of d (Z.of_nat k + 1)) ∧ ∀ b, b ∈ blocks_of d (Z.of_nat k + 1) → nmeta ≤ b < used;
  gi_disj : ∀ j k b, (j < length cs)%nat → (k < length cs)%nat → b ∈ blocks_of d (Z.of_nat j + 1) → b ∈ blocks_of d (Z.of_nat k + 1) → j = k;
  gi_bitmap : ∀ b, 0 ≤ b < FSSIZE → get_bit b (blk d (BBLOCK b mk_sb)) = (b <? used)
}.

Lemma sb_roundtrip : get_superblock sb_block = mk_sb.
Proof. vm_compute. reflexivity. Qed.
Lemma BBLOCK_eq b : 0 ≤ b < FSSIZE → BBLOCK b mk_sb = 45.
Proof. intros H. unfold BBLOCK. change (sb_bmapstart mk_sb) with 45. change BPB with 8192. unfold FSSIZE in H. rewrite Z.div_small by lia. reflexivity. Qed.

(** The bitmap completes an image. *)
Lemma balloc_run s cs bls : repr s cs bls → ∃ s', mk_balloc (freeblock s) s = Done tt s' [] ∧ good_image cs (dsk s') (nmeta + total cs).
Proof.
  intros [Hi Hino Hlen Hmx Hfile Hdisj Hcost Hlow]. pose proof (im_fb _ _ Hi) as Hm. pose proof (im_len _ _ Hi) as Hl. rewrite nmeta_eq in Hm. destruct (mark_used_spec (freeblock s)) as [Hml Hmb]; [change BPB with 8192; unfold FSSIZE in Hm; lia|].
  unfold mk_balloc, assert. rewrite (proj2 (Z.ltb_lt _ _)) by (change BPB with 8192; unfold FSSIZE in Hm; lia). rewrite bind_ret. change (sb_bmapstart mk_sb) with 45. rewrite wsect_run by (done || unfold FSSIZE; lia). eexists. split; [done|]. cbn [dsk set_dsk].
  set (d' := <[Z.to_nat 45 := _]> (dsk s)). assert (∀ b, 0 ≤ b → blk d' b = if decide (b = 45) then mark_used (freeblock s) else blk (dsk s) b) as Hd by (intros b Hb; apply blk_insert; [done|unfold FSSIZE; lia|done]).
  assert (∀ k f, cs !! k = Some f → ∃ bi, bls !! k = Some bi ∧ file_at d' (freeblock s) (Z.of_nat k + 1) f bi.1 bi.2) as Hf.
  { intros k f Hk. pose proof (lookup_lt_Some _ _ _ Hk) as Hkl. destruct (lookup_lt_is_Some_2 bls k) as [bi Hbi]; [lia|]. exists bi. split; [done|]. pose proof (Hfile _ _ _ Hk Hbi) as Hf. eapply file_at_frame; [done| | |lia].
    - unfold inode_at. pose proof (IBLOCK_range (Z.of_nat k + 1) ltac:(lia)). rewrite Hd, decide_False by lia. done.
    - intros b Hb. apply (fl_own _ _ _ _ _ _ Hf) in Hb. rewrite nmeta_eq in Hb. rewrite Hd, decide_False by lia. done. }
  assert (∀ k, (k < length cs)%nat → ∃ bi, bls !! k = Some bi ∧ blocks_of d' (Z.of_nat k + 1) = bi.1 ∧ owned (freeblock s) bi.1 bi.2) as Hb.
  { intros k Hk. destruct (lookup_lt_is_Some_2 _ _ Hk) as [f Hkf]. destruct (Hf _ _ Hkf) as (bi & Hbi & Hat). exists bi. split_and!; [done|by eapply file_at_blocks|by apply Hat]. }
  split.
  - by unfold d'; rewrite length_insert.
  - rewrite Hd, decide_False, Hlow, decide_True by lia. apply sb_roundtrip.
  - change (sb_logstart mk_sb) with 2. rewrite Hd, decide_False, Hlow, decide_False by lia. reflexivity.
  - intros k f Hk. destruct (Hf _ _ Hk) as (bi & Hbi & Hat). pose proof (file_at_blocks _ _ _ _ _ _ Hat) as [_ Hrd]. destruct Hat as [[Ht _] (_ & _ & Hn) Hs _ _ _]. done.
  - intros k Hk. destruct (Hb _ Hk) as (bi & _ & -> & [Hnd Hr]). unfold own in Hnd. apply NoDup_app in Hnd as [Hnd _]. split; [done|]. intros b Hb'. rewrite <- Hcost. apply Hr, elem_of_app. by left.
  - intros j k b Hj Hk H1 H2. destruct (Hb _ Hj) as (bi & Hbi & Heq & _). destruct (Hb _ Hk) as (bi' & Hbi' & Heq' & _). rewrite Heq in H1. rewrite Heq' in H2. eapply Hdisj; [exact Hbi|exact Hbi'|apply elem_of_app; by left|apply elem_of_app; by left].
  - intros b Hb'. rewrite BBLOCK_eq by done. rewrite Hd, decide_True by lia. rewrite Hmb by (change BPB with 8192; unfold FSSIZE in Hb'; lia). by rewrite Hcost.
Qed.

Lemma length_entries i files : length (entries i files) = (16 * length files)%nat.
Proof. revert i. induction files as [|f files IH]; intros i; [done|]. cbn [entries length]. rewrite length_app, length_dirent, IH. lia. Qed.

(** C9. Given an image file it can open and files that fit ([file_ok], enough blocks and inodes, and a root
    directory that does not end exactly at a block), [mkfs] ends without an
    error and the image is a file system with exactly these files: the
    superblock reads back as written, the log is empty, every inode has its
    type and one link, reading it through its direct and indirect blocks gives
    the root directory (the entries, padded to whole blocks) or the bytes of
    the file, blocks of different files are different, and the bitmap marks
    the blocks in use and no others. *)
Theorem mkfs_correct im files s0 : h_reads im ≠ None → Forall file_ok files → (length files < 199)%nat → ((length files + 2) mod 64 ≠ 0)%nat → nmeta + total (image files) ≤ FSSIZE →
  ∃ s', mkfs_main (im :: files) s0 = Done tt s' [] ∧ good_image (image files) (dsk s') (nmeta + total (image files)).
Proof.
  intros Him Hok Hn Hmod Hc. destruct (h_reads im) as [rd|] eqn:Hrd; [|done]. assert (length (dots ++ entries 2 files) = 16 * (length files + 2))%nat as Hlr by (rewrite length_app, length_entries; change (length dots) with 32%nat; lia).
  assert (nb (length (whole (dots ++ entries 2 files))) = nb (length (dots ++ entries 2 files))) as Hnw.
  { unfold whole. rewrite length_app, length_replicate. pose proof (nb_bounds (length (dots ++ entries 2 files))) as Hb. set (m := nb _) in *. match goal with |- nb ?k = _ => pose proof (nb_bounds k) end. lia. }
  unfold image in Hc. rewrite total_root, Hnw, <- total_root in Hc.
  destruct empty_run as (s1 & s2 & Hw & Hsb & Hr). unfold mkfs_main. change (assert (BSIZE mod DINODE_SIZE =? 0)) with (@ret unit mkst unit tt). change (assert (BSIZE mod DIRENT_SIZE =? 0)) with (@ret unit mkst unit tt). rewrite Hrd, !bind_ret, bind_modify, (bind_run _ _ _ _ _ _ Hw), pre_nil, (bind_run _ _ _ _ _ _ Hsb), pre_nil. clear Hw Hsb.
  destruct (ialloc_run _ _ _ T_DIR Hr) as (s3 & bls3 & H3 & Hr3); [cbn; lia|unfold T_DIR; lia|]. change (Z.of_nat (length []) + 1) with 1 in H3. rewrite (bind_run _ _ _ _ _ _ H3), pre_nil. change (assert (1 =? ROOTINO)) with (@ret unit mkst unit tt). rewrite bind_ret. change (xshort 1) with 1.
  change ([] ++ [(T_DIR, [])]) with (with_root [] []) in Hr3. assert (total (with_root dots []) ≤ total (with_root (dots ++ entries 2 files) (bytes_of <$> files))) as Hmono by (apply (total_mono _ _ []); rewrite length_app; lia).
  destruct (iappend_run s3 _ bls3 0 T_DIR [] (dirent_bytes 1 [46]) Hr3 eq_refl) as (s4 & bls4 & H4 & Hr4); [rewrite length_dirent; change (@length Z []) with 0%nat; lia|change (total (with_root dots [])) with 1 in Hmono; change (nmeta + 1 ≤ FSSIZE); lia|].
  change (Z.of_nat 0 + 1) with 1 in H4. rewrite (bind_run _ _ _ _ _ _ H4), pre_nil.
  destruct (iappend_run s4 _ bls4 0 T_DIR (dirent_bytes 1 [46]) (dirent_bytes 1 [46; 46]) Hr4 eq_refl) as (s5 & bls5 & H5 & Hr5); [rewrite !length_dirent; lia|change (total (with_root dots [])) with 1 in Hmono; change (nmeta + 1 ≤ FSSIZE); lia|].
  change (Z.of_nat 0 + 1) with 1 in H5. rewrite (bind_run _ _ _ _ _ _ H5), pre_nil. change (repr s5 (with_root dots []) bls5) in Hr5.
  destruct (add_files_run files s5 dots [] bls5 Hr5 Hok) as (s6 & bls6 & H6 & Hr6); [cbn [length]; lia|change (length dots) with 32%nat; lia|exact Hc|]. change (repr s6 (with_root (dots ++ entries 2 files) (bytes_of <$> files)) bls6) in Hr6. rewrite (bind_run _ _ _ _ _ _ H6), pre_nil.
  destruct (round_root s6 _ _ bls6 Hr6) as (s7 & Hri & Hwr & Hr7 & Hfb); [rewrite Hlr; intros H0; apply Hmod; change 1024%nat with (16 * 64)%nat in H0; rewrite Nat.Div0.mul_mod_distr_l in H0; lia|lia|]. rewrite (bind_run _ _ _ _ _ _ Hri), pre_nil. cbv zeta. rewrite (bind_run _ _ _ _ _ _ Hwr), pre_nil, bind_gets.
  apply (balloc_run _ _ _ Hr7).
Qed.

(** [fs.img]. *)
Definition img_file : hostfile := mkhostfile [102; 115; 46; 105; 109; 103] (Some []).
(** [user/_a] with the bytes 1 2 3 4, read in two parts. *)
Definition file_a : hostfile := mkhostfile [117; 115; 101; 114; 47; 95; 97] (Some [[1; 2; 3]; [4]]).
Lemma file_a_ok : file_ok file_a.
Proof.
  split; [done| | |].
  - intros H. change (strip_user (h_name file_a)) with [95; 97] in H. by repeat (apply elem_of_cons in H as [H|H]; [by discriminate H|]); apply elem_of_nil in H.
  - change (shortname (h_name file_a)) with [97]. unfold DIRSIZ. cbn [length]. lia.
  - change (length (bytes_of file_a)) with 4%nat. lia.
Qed.
Lemma mkfs_correct_witness : ∃ s', mkfs_main [img_file; file_a] (mkmkst [] 0 0) = Done tt s' [] ∧ good_image (image [file_a]) (dsk s') 48.
Proof.
  apply (mkfs_correct img_file [file_a] (mkmkst [] 0 0)); [done|apply Forall_singleton, file_a_ok|cbn; lia|cbn; lia|].
  change (nmeta + total (image [file_a])) with 48. unfold FSSIZE. lia.
Defined.

(** When the entries of the root directory fill its blocks exactly, here with 62
    files, its size is rounded up past them: the last block of the directory
    has no address. *)
Definition empty_file (i : nat) : hostfile := mkhostfile [65 + Z.of_nat i] (Some []).
Lemma mkfs_root_hole : match mkfs_main (img_file :: (empty_file <$> seq 0 62)) (mkmkst [] 0 0) with
  | Done _ s _ => d_size (inode_at (dsk s) ROOTINO) = 2048 ∧ blocks_of (dsk s) ROOTINO = [46; 0]
  | _ => False
  end.
Proof. vm_compute. done. Qed.
