(* ===== verification/Trap.v ===== *)
(** Traps ([trap.c], [forkret] of [proc.c]), the interrupt controller
    ([plic.c]) and the control registers they use ([riscv.h]). *)
From Stdlib Require Import ZArith Lia.
From stdpp Require Import base list gmap strings.
From S2P Require Import Prelude Machine Random Spinlock Proc Mem Str Kalloc Vm Sleeplock Bio Blk Log UserMem Fs Uart Console Virtio Pipe File Life Fd Syscall Exec Sysfile.

(** ** Registers *)

Definition SSTATUS_SPP : Z := Z.shiftl 1 8.
Definition SSTATUS_SPIE : Z := Z.shiftl 1 5.
Definition SSTATUS_SIE : Z := Z.shiftl 1 1.
Definition SATP_SV39 : Z := Z.shiftl 8 60.
Definition MAKE_SATP (pagetable : Z) : Z := Z.lor SATP_SV39 (Z.shiftr pagetable 12).

Definition UART0_IRQ : Z := 10.
Definition VIRTIO0_IRQ : Z := 1.
Definition PLIC_SENABLE (hart : Z) : Z := PLIC + 0x2080 + hart * 0x100.
Definition PLIC_SPRIORITY (hart : Z) : Z := PLIC + 0x201000 + hart * 0x2000.
Definition PLIC_SCLAIM (hart : Z) : Z := PLIC + 0x201004 + hart * 0x2000.

(** The supervisor's registers of the running hart. [SIE], bit 1 of [sstatus],
    is kept with the hart of [spinlock.c]. *)
Record csr := mkcsr {
  stvec : Z;
  sepc : Z;
  scause : Z;
  stval : Z;
  sstatus : Z;
  satp : Z;
  stimecmp : Z;
  time : Z
}.
Definition set_stvec (v : Z) (c : csr) : csr := mkcsr v (sepc c) (scause c) (stval c) (sstatus c) (satp c) (stimecmp c) (time c).
Definition set_sepc (v : Z) (c : csr) : csr := mkcsr (stvec c) v (scause c) (stval c) (sstatus c) (satp c) (stimecmp c) (time c).
Definition set_sstatus (v : Z) (c : csr) : csr := mkcsr (stvec c) (sepc c) (scause c) (stval c) v (satp c) (stimecmp c) (time c).
Definition set_satp (v : Z) (c : csr) : csr := mkcsr (stvec c) (sepc c) (scause c) (stval c) (sstatus c) v (stimecmp c) (time c).
Definition set_stimecmp (v : Z) (c : csr) : csr := mkcsr (stvec c) (sepc c) (scause c) (stval c) (sstatus c) (satp c) v (time c).

(** The interrupt controller, as reads and writes of its registers. *)
Class PlicDev (Q : Type) := {
  q_read : Z → Q → Z * Q;
  q_write : Z → Z → Q → Q
}.

(** ** The machine *)

Record trapst (D Q : Type) := mktrapst {
  ts : sys;
  tc : csr;
  tcons : cons;
  tuart : uart D;
  tdisk : vdisk;
  tplic : Q
}.
Arguments mktrapst {D Q}.
Arguments ts {D Q}.
Arguments tc {D Q}.
Arguments tcons {D Q}.
Arguments tuart {D Q}.
Arguments tdisk {D Q}.
Arguments tplic {D Q}.

(** What is observed: events of the kernel, and writes of the disk's
    registers. *)
Inductive tev : Type := EvK (e : kev) | EvMmio (r v : Z).

(** How a trap from user space ends: it jumps to [userret] at [pc] with [satp]
    as argument, gives up the CPU in [yield], sleeps or ends inside a
    system call, or the process exits. *)
Inductive trapret : Type := ToUser (pc satp : Z) | Yields (ie : bool) | InCall (r : sysret) | Exits.

Section trap.
Context {D Q : Type} `{HU : UartDev D} `{HQ : PlicDev Q}.
(** The running hart, the end of the kernel and the addresses of code. *)
Context (me : nat) (kend trampoline forkret_pc kernelvec uservec userret usertrap_pc : Z).
(** Devices, and the padding of [struct stat]. *)
Context (devsw : Z → @devops kmem) (pad : list Z).
(** Polls after which the transmitter is idle, characters that can arrive
    during an interrupt, and the status register of the disk. *)
Context (polls chars : nat) (vstatus : Z).

Local Abbreviation T := (M tev (trapst D Q)).

Definition set_ts (v : sys) (s : trapst D Q) : trapst D Q := mktrapst v (tc s) (tcons s) (tuart s) (tdisk s) (tplic s).
Definition upd_tc (f : csr → csr) (s : trapst D Q) : trapst D Q := mktrapst (ts s) (f (tc s)) (tcons s) (tuart s) (tdisk s) (tplic s).
Definition set_tplic (v : Q) (s : trapst D Q) : trapst D Q := mktrapst (ts s) (tc s) (tcons s) (tuart s) (tdisk s) v.

(** Run a routine of the kernel. *)
Definition on_sys {A} (m : K A) : T A := λ s,
  match m (ts s) with
  | Done a x t => Done a (set_ts x s) (EvK <$> t)
  | Panic msg x t => Panic msg (set_ts x s) (EvK <$> t)
  | Asleep c x t => Asleep c (set_ts x s) (EvK <$> t)
  | Spin x t => Spin (set_ts x s) (EvK <$> t)
  end.
Definition on_proc {A} (m : P A) : T A := on_sys (on_procs m).
(** Run a routine of the console; the [wakeup] calls it makes act on the
    process table. *)
Definition set_tty (x : tty D kmem) (s : trapst D Q) : trapst D Q := mktrapst (set_km (tum x) (ts s)) (tc s) (co x) (ut x) (tdisk s) (tplic s).
Definition on_tty {A} (m : M event (tty D kmem) A) : T A := λ s,
  match m (mktty (tcons s) (tuart s) (km (ts s))) with
  | Done a x t => bind (on_sys (dispatch me t)) (λ _, ret a) (set_tty x s)
  | Panic msg x t => Panic msg (set_tty x s) []
  | Asleep c x t => Asleep c (set_tty x s) []
  | Spin x t => Spin (set_tty x s) []
  end.
(** Run a routine of the disk driver. *)
Fixpoint dispatch_disk (t : list vevent) : T unit :=
  match t with
  | [] => ret tt
  | VWakeup c :: t' => on_proc (wakeup me c) ;; dispatch_disk t'
  | MmioWrite r v :: t' => emit (EvMmio r v) ;; dispatch_disk t'
  end.
Definition set_tdisk (v : vdisk) (s : trapst D Q) : trapst D Q := mktrapst (ts s) (tc s) (tcons s) (tuart s) v (tplic s).
Definition on_disk {A} (m : M vevent vdisk A) : T A := λ s,
  match m (tdisk s) with
  | Done a x t => bind (dispatch_disk t) (λ _, ret a) (set_tdisk x s)
  | Panic msg x t => Panic msg (set_tdisk x s) []
  | Asleep c x t => Asleep c (set_tdisk x s) []
  | Spin x t => Spin (set_tdisk x s) []
  end.

Definition r_csr {A} (f : csr → A) : T A := gets (λ s, f (tc s)).
Definition w_csr (f : csr → csr) : T unit := modify (upd_tc f).
Definition hart_sie : T bool := on_proc (lift_lk intr_get).
Definition r_sstatus : T Z :=
  let! x := r_csr sstatus in
  let! on := hart_sie in
  ret (Z.lor (Z.ldiff x SSTATUS_SIE) (if on then SSTATUS_SIE else 0)).
Definition w_sstatus (x : Z) : T unit :=
  w_csr (set_sstatus x) ;;
  on_proc (lift_lk (if Z.land x SSTATUS_SIE =? 0 then intr_off else intr_on)).

(** ** The interrupt controller *)

Definition plic_store (a v : Z) : T unit := modify (λ s, set_tplic (q_write a (u32 v) (tplic s)) s).
Definition plic_load (a : Z) : T Z :=
  let! r := gets (λ s, q_read a (tplic s)) in
  modify (set_tplic r.2) ;;
  ret (u32 r.1).
Definition cpuid : Z := Z.of_nat me.

Definition plicinit : T unit :=
  plic_store (PLIC + UART0_IRQ * 4) 1 ;;
  plic_store (PLIC + VIRTIO0_IRQ * 4) 1.
Definition plicinithart : T unit :=
  plic_store (PLIC_SENABLE cpuid) (Z.lor (Z.shiftl 1 UART0_IRQ) (Z.shiftl 1 VIRTIO0_IRQ)) ;;
  plic_store (PLIC_SPRIORITY cpuid) 0.
Definition plic_claim : T Z := let! v := plic_load (PLIC_SCLAIM cpuid) in ret (i32 v).
Definition plic_complete (irq : Z) : T unit := plic_store (PLIC_SCLAIM cpuid) irq.

(** ** Interrupts *)

Definition trapinit : T unit := on_proc (lift_lk (modify (initlock L_ticks "time"))).
Definition trapinithart : T unit := w_csr (set_stvec kernelvec).

(** The ticks of the clock, on hart 0. *)
Definition tick : P unit :=
  acquire_lk me L_ticks ;;
  modify (λ s, set_ticks (u32 (ticks s + 1)) s) ;;
  wakeup me A_ticks ;;
  release_lk me L_ticks.
Definition clockintr : T unit :=
  (if (me =? 0)%nat then on_proc tick else ret tt) ;;
  let! now := r_csr time in
  w_csr (set_stimecmp (u64 (now + 1000000))).

Definition devintr : T Z :=
  let! cause := r_csr scause in
  if cause =? 0x8000000000000009 then
    let! irq := plic_claim in
    (if irq =? UART0_IRQ then on_tty (uartintr polls chars)
     else if irq =? VIRTIO0_IRQ then on_disk (virtio_disk_intr vstatus)
     else if negb (irq =? 0) then emit (EvK (EvDev (Printf "unexpected interrupt irq=%d\n")))
     else ret tt) ;;
    (if negb (irq =? 0) then plic_complete irq else ret tt) ;;
    ret 1
  else if cause =? 0x8000000000000005 then clockintr ;; ret 2
  else ret 0.

(** ** Traps from user space *)

Definition TF_kernel_satp : Z := 0.
Definition TF_kernel_sp : Z := 8.
Definition TF_kernel_trap : Z := 16.
Definition TF_kernel_hartid : Z := 32.

(** The return to user space: the jump to [userret] with [satp]. *)
Definition usertrapret : T trapret :=
  let! i := on_sys mine in
  on_proc (lift_lk intr_off) ;;
  w_csr (set_stvec (u64 (TRAMPOLINE + (uservec - trampoline)))) ;;
  let! p := on_sys (pr i) in
  let tf := p_trapframe p in
  let! kpt := r_csr satp in
  on_sys (store_tf tf TF_kernel_satp kpt) ;;
  on_sys (store_tf tf TF_kernel_sp (u64 (p_kstack p + PGSIZE))) ;;
  on_sys (store_tf tf TF_kernel_trap usertrap_pc) ;;
  on_sys (store_tf tf TF_kernel_hartid cpuid) ;;
  let! x := r_sstatus in
  w_sstatus (Z.lor (Z.ldiff x SSTATUS_SPP) SSTATUS_SPIE) ;;
  let! epc := on_sys (load_tf tf TF_epc) in
  w_csr (set_sepc epc) ;;
  ret (ToUser (u64 (TRAMPOLINE + (userret - trampoline))) (MAKE_SATP (p_pagetable p))).

(** The end of [usertrap], from the second test of [killed]. *)
Definition usertrap_end (i : nat) (which_dev : Z) : T trapret :=
  let! k := on_proc (killed me i) in
  if negb (k =? 0) then on_sys (exit me kend (-1)) ;; ret Exits else
  if which_dev =? 2 then let! ie := on_proc (yield me) in ret (Yields ie) else
  usertrapret.
(** After [yield] comes back. *)
Definition usertrap_back (i : nat) (ie : bool) : T trapret :=
  on_proc (yield_back me i ie) ;;
  usertrapret.

Definition usertrap : T trapret :=
  let! st := r_sstatus in
  if negb (Z.land st SSTATUS_SPP =? 0) then panic "usertrap: not from user mode" else
  w_csr (set_stvec kernelvec) ;;
  let! i := on_sys mine in
  let! p := on_sys (pr i) in
  let tf := p_trapframe p in
  let! pc := r_csr sepc in
  on_sys (store_tf tf TF_epc pc) ;;
  let! cause := r_csr scause in
  if cause =? 8 then
    let! k := on_proc (killed me i) in
    if negb (k =? 0) then on_sys (exit me kend (-1)) ;; ret Exits else
    let! epc := on_sys (load_tf tf TF_epc) in
    on_sys (store_tf tf TF_epc (u64 (epc + 4))) ;;
    on_proc (lift_lk intr_on) ;;
    let! r := on_sys (syscall me kend trampoline forkret_pc devsw pad) in
    match r with Value _ => usertrap_end i 0 | _ => ret (InCall r) end
  else
    let! which_dev := devintr in
    if negb (which_dev =? 0) then usertrap_end i which_dev else
    emit (EvK (EvDev (Printf "usertrap(): unexpected scause 0x%lx pid=%d\n"))) ;;
    emit (EvK (EvDev (Printf "            sepc=0x%lx stval=0x%lx\n"))) ;;
    on_proc (setkilled me i) ;;
    usertrap_end i 0.

(** [forkret]: a new process's way to user space; the first one mounts the file
    system. [first] is the static variable, whose new value is returned. *)
Definition forkret (first : bool) : T (bool * trapret) :=
  let! i := on_sys mine in
  on_proc (release_lk me (L_proc i)) ;;
  (if first then on_sys (let! p := pr i in on_fs me (fsinit (p_pid p) ROOTDEV)) else ret tt) ;;
  let! r := usertrapret in
  ret (false, r).

(** ** Traps from the kernel *)

Definition kerneltrap_end (pc st : Z) : T unit :=
  w_csr (set_sepc pc) ;;
  w_sstatus st.
(** [kerneltrap] returns ([None]), or gives up the CPU with the two registers
    it has saved. *)
Definition kerneltrap : T (option (bool * Z * Z)) :=
  let! pc := r_csr sepc in
  let! st := r_sstatus in
  if Z.land st SSTATUS_SPP =? 0 then panic "kerneltrap: not from supervisor mode" else
  let! on := hart_sie in
  if on then panic "kerneltrap: interrupts enabled" else
  let! which_dev := devintr in
  if which_dev =? 0 then
    emit (EvK (EvDev (Printf "scause=0x%lx sepc=0x%lx stval=0x%lx\n"))) ;; panic "kerneltrap"
  else
  let! p := (if which_dev =? 2 then on_proc myproc else ret None) in
  match p with
  | Some _ => let! ie := on_proc (yield me) in ret (Some (ie, pc, st))
  | None => kerneltrap_end pc st ;; ret None
  end.
Definition kerneltrap_back (i : nat) (ie : bool) (pc st : Z) : T unit :=
  on_proc (yield_back me i ie) ;;
  kerneltrap_end pc st.
End trap.
