(* ===== verification/TrapThm.v ===== *)
(** Traps are transparent to user programs: what a timer interrupt and a system
    call leave of the interrupted process. *)
From Stdlib Require Import ZArith Lia.
From stdpp Require Import base list gmap strings.
From S2P Require Import Prelude Machine Random Spinlock Proc Mem Str Kalloc Vm Sleeplock Bio Blk Log UserMem Fs Uart Console ConsoleThm Virtio VirtioThm Pipe File FileThm Life LifeThm ForkThm Fd Syscall Exec Sysfile FdThm Trap.

#[local] Opaque load64 store64 wakeup.

(** ** The process's part: the clock, [killed] and [yield] *)

Section procs.
Context (me : nat).

Definition ticked (x : pstate) : pstate :=
  if (me =? 0)%nat
  then set_procs (imap (woken (c_proc x) A_ticks) (procs x)) (set_ticks (u32 (ticks x + 1)) (touch x))
  else x.

Lemma tick_run x : ready x → is_free L_ticks (lk x) → noff (mycpu (lk x)) = 0 →
  tick me x = Done tt (set_procs (imap (woken (c_proc x) A_ticks) (procs x)) (set_ticks (u32 (ticks x + 1)) (touch x))) [].
Proof.
  intros Hr Hf H0. pose proof Hr as [Hl Hh Hn Hp]. unfold tick.
  rewrite bind_acquire by (done || klia). mrun. set (x1 := set_ticks _ _).
  assert (ready x1) as Hr1.
  { destruct (locked_ok me L_ticks (lk x) Hh) as [Hh1 Hn1]. split; [done|done|..].
    - change (noff (mycpu (lk x1))) with (noff (mycpu (locked_by me L_ticks (lk x)))). klia.
    - intros j Hj. apply (free_locked me (L_proc j) L_ticks); [done|by apply Hp]. }
  rewrite (bind_done _ _ _ _ _ (wakeup_run me A_ticks x1 Hr1)).
  rewrite (release_lk_run me L_ticks (lk x)); [done| |done|done|klia].
  unfold touch; simpl. by apply touched_locked.
Qed.

Lemma killed_run j x : ready x → (j < NPROC)%nat → killed me j x = Done (p_killed (proc_at j x)) (touch x) [].
Proof.
  intros Hr Hj. unfold killed. rewrite ready_acquire by done. mrun.
  by rewrite (bind_done _ _ _ _ _ (section_run_id me j x Hr Hj)).
Qed.

End procs.

(** ** The machine's part *)

(** Bits of [sstatus]. *)
Lemma spp_clear x : Z.land (Z.lor (Z.ldiff x SSTATUS_SPP) SSTATUS_SPIE) SSTATUS_SPP = 0.
Proof.
  apply Z.bits_inj'. intros n Hn. rewrite Z.land_spec, Z.lor_spec, Z.ldiff_spec, Z.bits_0.
  change SSTATUS_SPP with (2 ^ 8). change SSTATUS_SPIE with (2 ^ 5). rewrite !Z.pow2_bits_eqb by lia.
  destruct (Z.eqb_spec 8 n), (Z.eqb_spec 5 n); simpl; rewrite ?andb_false_r; done || lia.
Qed.
Lemma spie_set x : Z.land (Z.lor (Z.ldiff x SSTATUS_SPP) SSTATUS_SPIE) SSTATUS_SPIE = SSTATUS_SPIE.
Proof.
  apply Z.bits_inj'. intros n Hn. rewrite Z.land_spec, Z.lor_spec, Z.ldiff_spec.
  by destruct (Z.testbit SSTATUS_SPIE n); rewrite ?orb_true_r, ?andb_false_r.
Qed.
Lemma sie_clear x : Z.land (Z.lor (Z.ldiff (Z.lor (Z.ldiff x SSTATUS_SIE) 0) SSTATUS_SPP) SSTATUS_SPIE) SSTATUS_SIE = 0.
Proof.
  apply Z.bits_inj'. intros n Hn. rewrite Z.land_spec, Z.lor_spec, !Z.ldiff_spec, Z.lor_spec, Z.ldiff_spec, !Z.bits_0.
  change SSTATUS_SIE with (2 ^ 1). change SSTATUS_SPIE with (2 ^ 5). rewrite !(Z.pow2_bits_eqb _ n) by lia.
  destruct (Z.eqb_spec 1 n), (Z.eqb_spec 5 n); simpl; rewrite ?andb_false_r; done || lia.
Qed.
Lemma spp_sie x : Z.land x SSTATUS_SPP = 0 → Z.land (Z.lor (Z.ldiff x SSTATUS_SIE) 0) SSTATUS_SPP = 0.
Proof.
  intros Hx. rewrite Z.lor_0_r. apply Z.bits_inj'. intros n Hn.
  assert (Z.testbit (Z.land x SSTATUS_SPP) n = Z.testbit 0 n) as Hb by (by rewrite Hx).
  rewrite Z.land_spec, Z.ldiff_spec in *. rewrite Z.bits_0 in *.
  by destruct (Z.testbit x n), (Z.testbit SSTATUS_SPP n); rewrite ?andb_false_r.
Qed.

Section machine.
Context {D Q : Type} `{HU : UartDev D} `{HQ : PlicDev Q}.
Context (kend trampoline forkret_pc kernelvec uservec userret usertrap_pc : Z).
Context (devsw : Z → @devops kmem) (pad : list Z) (polls chars : nat) (vstatus : Z).

Local Abbreviation T := (M tev (trapst D Q)).

(** A machine of which a trap has changed the processes, the memory and the
    registers. *)
Definition cfg (s : trapst D Q) (x : pstate) (m : kmem) (c : csr) : trapst D Q :=
  mktrapst (set_km m (set_sp x (ts s))) c (tcons s) (tuart s) (tdisk s) (tplic s).
Lemma cfg_id s : s = cfg s (sp (ts s)) (km (ts s)) (tc s).
Proof. unfold cfg. rewrite set_sp_same, set_km_same. by destruct s. Qed.

Lemma bind_on_proc {A B} (p : P A) (k : A → T B) s x m c a x' : p x = Done a x' [] →
  bind (on_proc p) k (cfg s x m c) = k a (cfg s x' m c).
Proof. intros Hp. apply bind_done. unfold on_proc, on_sys, on_procs. simpl. by rewrite Hp. Qed.
Lemma on_proc_run {A} (p : P A) s x m c a x' : p x = Done a x' [] →
  on_proc p (cfg s x m c) = Done a (cfg s x' m c) ([] : list tev).
Proof. intros Hp. unfold on_proc, on_sys, on_procs. simpl. by rewrite Hp. Qed.
Lemma bind_store {B} tf off v (k : unit → T B) s x m c :
  bind (on_sys (store_tf tf off v)) k (cfg s x m c) = k tt (cfg s x (upd_pm (store64 (tf + off) v) m) c).
Proof. by apply bind_done. Qed.
Lemma bind_load {B} tf off (k : Z → T B) s x m c :
  bind (on_sys (load_tf tf off)) k (cfg s x m c) = k (load64 (pm m) (tf + off)) (cfg s x m c).
Proof. by apply bind_done. Qed.
Lemma bind_on_pr {B} i (k : proc → T B) s x m c :
  bind (on_sys (pr i)) k (cfg s x m c) = k (proc_at i x) (cfg s x m c).
Proof. by apply bind_done. Qed.
Lemma bind_r_csr {A B} (f : csr → A) (k : A → T B) s x m c :
  bind (r_csr f) k (cfg s x m c) = k (f c) (cfg s x m c).
Proof. by apply bind_done. Qed.
Lemma bind_w_csr {B} f (k : unit → T B) s x m c :
  bind (w_csr f) k (cfg s x m c) = k tt (cfg s x m (f c)).
Proof. by apply bind_done. Qed.
Lemma bind_on_mine {B} i (k : nat → T B) s x m c : hart_ok (mycpu (lk x)) → noff (mycpu (lk x)) < 1000 → c_proc x = Some i →
  bind (on_sys mine) k (cfg s x m c) = k i (cfg s (touch x) m c).
Proof. intros. apply bind_on_proc. by apply mypr_run. Qed.
Lemma bind_r_sstatus {B} (k : Z → T B) s x m c : sie (mycpu (lk x)) = false →
  bind r_sstatus k (cfg s x m c) = k (Z.lor (Z.ldiff (sstatus c) SSTATUS_SIE) 0) (cfg s x m c).
Proof.
  intros Hs. unfold r_sstatus. rewrite bind_assoc, bind_r_csr, bind_assoc. unfold hart_sie.
  rewrite (bind_on_proc _ _ s x m c false x); [by rewrite bind_ret|].
  unfold lift_lk, intr_get, gets. rewrite Hs. by destruct x.
Qed.
End machine.

Ltac trun := repeat first
  [ rewrite bind_assoc | rewrite bind_ret | rewrite bind_store | rewrite bind_load | rewrite bind_on_pr
  | rewrite bind_r_csr | rewrite bind_w_csr ]; cbv beta.

Section transparent.
Context {D Q : Type} `{HU : UartDev D} `{HQ : PlicDev Q}.
Context (kend trampoline forkret_pc kernelvec uservec userret usertrap_pc : Z).
Context (devsw : Z → @devops kmem) (pad : list Z) (polls chars : nat) (vstatus : Z).

Local Abbreviation T := (M tev (trapst D Q)).

Implicit Type s : trapst D Q.

(** *** The return to user space *)

Definition off_hart (x : pstate) : pstate := set_lk (upd_cpu (λ h, mkhart (noff h) (intena h) false) (lk x)) x.
Definition ret_frame (me : nat) (p : proc) (c : csr) (m : kmem) : kmem :=
  let tf := p_trapframe p in
  upd_pm (store64 (tf + TF_kernel_hartid) (cpuid me)) (upd_pm (store64 (tf + TF_kernel_trap) usertrap_pc)
    (upd_pm (store64 (tf + TF_kernel_sp) (u64 (p_kstack p + PGSIZE))) (upd_pm (store64 (tf + TF_kernel_satp) (satp c)) m))).
Definition ret_csr (p : proc) (c : csr) (m : kmem) : csr :=
  set_sepc (load64 (pm m) (p_trapframe p + TF_epc))
    (set_sstatus (Z.lor (Z.ldiff (Z.lor (Z.ldiff (sstatus c) SSTATUS_SIE) 0) SSTATUS_SPP) SSTATUS_SPIE)
      (set_stvec (u64 (TRAMPOLINE + (uservec - trampoline))) c)).

Lemma bind_lk_off {B} (k : unit → T B) s x m c : bind (on_proc (lift_lk intr_off)) k (cfg s x m c) = k tt (cfg s (off_hart x) m c).
Proof. by apply bind_done. Qed.

Lemma usertrapret_run me i s x m c : hart_ok (mycpu (lk x)) → noff (mycpu (lk x)) < 1000 → c_proc x = Some i →
  usertrapret me trampoline uservec userret usertrap_pc (cfg s x m c) =
  Done (ToUser (u64 (TRAMPOLINE + (userret - trampoline))) (MAKE_SATP (p_pagetable (proc_at i x))))
    (cfg s (off_hart (touch x)) (ret_frame me (proc_at i x) c m) (ret_csr (proc_at i x) c m)) ([] : list tev).
Proof.
  intros Hh Hn Hi. unfold usertrapret. rewrite (bind_on_mine i) by done. rewrite bind_lk_off. trun.
  rewrite bind_r_sstatus by done. unfold w_sstatus. trun. rewrite sie_clear. cbn [Z.eqb]. rewrite bind_lk_off. trun.
  unfold ret. change (proc_at i (off_hart (touch x))) with (proc_at i x).
  set (p := proc_at i x). f_equal. unfold cfg. f_equal. unfold ret_csr. f_equal. simpl.
  unfold TF_kernel_hartid, TF_kernel_trap, TF_kernel_sp, TF_kernel_satp, TF_epc. by rewrite !load64_store64_ne by lia.
Qed.

(** The fields of the trap frame the user's registers are in. *)
Definition same_user_regs (tf : Z) (m m' : mem) : Prop :=
  ∀ off, 40 ≤ off → off + 8 ≤ Z.of_nat TF_SIZE → load64 m' (tf + off) = load64 m (tf + off).

(** A machine about to execute [sret] into the program of process [i] at [pc]. *)
Record enters_user (me i : nat) (tf kstack : Z) (c0 : csr) (pc : Z) (s : trapst D Q) : Prop := {
  eu_pc : sepc (tc s) = pc;
  eu_vec : stvec (tc s) = u64 (TRAMPOLINE + (uservec - trampoline));
  eu_spp : Z.land (sstatus (tc s)) SSTATUS_SPP = 0;
  eu_spie : Z.land (sstatus (tc s)) SSTATUS_SPIE = SSTATUS_SPIE;
  eu_noff : noff (mycpu (lk (sp (ts s)))) = 0;
  eu_off : sie (mycpu (lk (sp (ts s)))) = false;
  eu_free : is_free (L_proc i) (lk (sp (ts s)));
  eu_frame : let ld o := load64 (pm (km (ts s))) (tf + o) in
    ld TF_kernel_satp = u64 (satp c0) ∧ ld TF_kernel_sp = u64 (kstack + PGSIZE) ∧
    ld TF_kernel_trap = u64 usertrap_pc ∧ ld TF_kernel_hartid = u64 (cpuid me)
}.

Lemma ret_frame_user me p c m : same_user_regs (p_trapframe p) (pm m) (pm (ret_frame me p c m)).
Proof.
  intros off H1 H2. simpl. unfold TF_kernel_hartid, TF_kernel_trap, TF_kernel_sp, TF_kernel_satp.
  by rewrite !load64_store64_ne by lia.
Qed.

Lemma enters me i s x m c : noff (mycpu (lk x)) = 0 → is_free (L_proc i) (lk x) →
  let p := proc_at i x in
  enters_user me i (p_trapframe p) (p_kstack p) c (load64 (pm m) (p_trapframe p + TF_epc))
    (cfg s (off_hart (touch x)) (ret_frame me p c m) (ret_csr p c m)).
Proof.
  intros Hh Hf p. split; simpl; try done.
  - apply spp_clear.
  - apply spie_set.
  - by rewrite touched_noff.
  - unfold TF_kernel_hartid, TF_kernel_trap, TF_kernel_sp, TF_kernel_satp.
    split_and!; rewrite ?load64_store64_ne by lia; rewrite load64_store64; try done.
    unfold u64. by rewrite Z.mod_mod.
Qed.

(** *** A timer interrupt *)

(** Process [i] runs in user space on hart [me] when the trap comes. *)
Record in_user (i : nat) (s : trapst D Q) : Prop := {
  iu_ready : ready (sp (ts s));
  iu_proc : c_proc (sp (ts s)) = Some i;
  iu_lt : (i < NPROC)%nat;
  iu_noff : noff (mycpu (lk (sp (ts s)))) = 0;
  iu_sie : sie (mycpu (lk (sp (ts s)))) = false;
  iu_ticks : is_free L_ticks (lk (sp (ts s)));
  iu_alive : p_killed (proc_at i (sp (ts s))) = 0;
  iu_spp : Z.land (sstatus (tc s)) SSTATUS_SPP = 0;
  iu_pc : 0 ≤ sepc (tc s) < 2 ^ 64
}.

(** The scheduler of hart [me] has switched to process [i], which gave up the
    CPU in [s1]; its trap frame is untouched. *)
Record resumed (me i : nat) (s1 s2 : trapst D Q) : Prop := {
  rs_proc : c_proc (sp (ts s2)) = Some i;
  rs_lock : own_lock me i (sp (ts s2));
  rs_tf : p_trapframe (proc_at i (sp (ts s2))) = p_trapframe (proc_at i (sp (ts s1)));
  rs_kstack : p_kstack (proc_at i (sp (ts s2))) = p_kstack (proc_at i (sp (ts s1)));
  rs_pt : p_pagetable (proc_at i (sp (ts s2))) = p_pagetable (proc_at i (sp (ts s1)));
  rs_frame : ∀ off, 0 ≤ off → off + 8 ≤ Z.of_nat TF_SIZE →
    let tf := p_trapframe (proc_at i (sp (ts s1))) in
    load64 (pm (km (ts s2))) (tf + off) = load64 (pm (km (ts s1))) (tf + off)
}.

Definition timer_saved (me i : nat) (s : trapst D Q) : trapst D Q :=
  cfg s (yielded me i (ticked me (touch (sp (ts s))))) (upd_pm (store64 (p_trapframe (proc_at i (sp (ts s))) + TF_epc) (sepc (tc s))) (km (ts s)))
    (set_stimecmp (u64 (time (tc s) + 1000000)) (set_stvec kernelvec (tc s))).

Lemma ready_ticked me x : ready x → ready (ticked me x).
Proof.
  intros Hr. unfold ticked. destruct (me =? 0)%nat; [|done]. apply ready_touch in Hr as [Hl Hh Hn Hf].
  split; simpl; [by rewrite length_imap|done..].
Qed.
Lemma ticked_at me i x : c_proc x = Some i → proc_at i (ticked me x) = proc_at i x.
Proof.
  intros Hi. unfold ticked. destruct (me =? 0)%nat; [|done]. unfold proc_at; simpl.
  rewrite !list_lookup_total_alt, list_lookup_imap, Hi. unfold woken. rewrite bool_decide_false by naive_solver.
  by destruct (procs x !! i).
Qed.
Lemma clockintr_run me s x m c : ready x → is_free L_ticks (lk x) → noff (mycpu (lk x)) = 0 →
  clockintr me (cfg s x m c) = Done tt (cfg s (ticked me x) m (set_stimecmp (u64 (time c + 1000000)) c)) ([] : list tev).
Proof.
  intros Hr Hf H0. unfold clockintr, ticked. rewrite bind_if.
  destruct (me =? 0)%nat.
  - rewrite (bind_on_proc _ _ _ _ _ _ _ _ (tick_run me x Hr Hf H0)). trun. done.
  - trun. done.
Qed.

Lemma touch_ticked me x : touch (ticked me (touch x)) = ticked me (touch x).
Proof. unfold ticked. destruct (me =? 0)%nat; [|by rewrite touch_touch].
  unfold touch, set_procs, set_ticks, set_lk, upd_cpu; simpl. by rewrite !touched_idemp. Qed.

Lemma ticked_hart me x : noff (mycpu (lk x)) = 0 → sie (mycpu (lk x)) = false →
  mycpu (lk (ticked me (touch x))) = mkhart 0 false false.
Proof.
  intros H0 Hs. rewrite <- touch_ticked. unfold ticked.
  destruct (me =? 0)%nat; simpl; unfold touched at 1; simpl; rewrite !touched_noff, H0; simpl; by rewrite !touched_sie, Hs.
Qed.

Lemma usertrap_timer me i s : in_user i s → scause (tc s) = 0x8000000000000005 →
  usertrap me kend trampoline forkret_pc kernelvec uservec userret usertrap_pc devsw pad polls chars vstatus s =
  Done (Yields false) (timer_saved me i s) [].
Proof.
  intros [Hr Hi Hlt H0 Hs Hf Hk Hspp Hpc] Hc. rewrite (cfg_id s) at 1. unfold usertrap.
  pose proof Hr as [_ Hh _ _]. set (x := sp (ts s)) in *.
  rewrite bind_r_sstatus by done. rewrite spp_sie by done. change (negb (0 =? 0)) with false. cbv iota. trun.
  rewrite (bind_on_mine i) by (done || lia). trun. simpl. rewrite Hc. change (0x8000000000000005 =? 8) with false. cbv iota.
  unfold devintr. trun. simpl. rewrite Hc. change (0x8000000000000005 =? 0x8000000000000009) with false. change (0x8000000000000005 =? 0x8000000000000005) with true. cbv iota. trun.
  rewrite (bind_done _ _ _ _ _ (clockintr_run me s (touch x) _ _ (ready_touch _ Hr) Hf ltac:(simpl; by rewrite touched_noff))). trun.
  change (negb (2 =? 0)) with true. cbv iota. unfold usertrap_end.
  pose proof (ready_ticked me _ (ready_touch _ Hr)) as Hr1.
  rewrite (bind_on_proc _ _ _ _ _ _ _ _ (killed_run me i _ Hr1 Hlt)), touch_ticked, ticked_at by done.
  change (p_killed (proc_at i (touch x))) with (p_killed (proc_at i x)). rewrite Hk. simpl.
  assert (mycpu (lk (ticked me (touch x))) = mkhart 0 false false) as Hm by (by apply ticked_hart).
  rewrite (bind_on_proc _ _ _ _ _ _ _ _ (yield_run me i _ Hr1 ltac:(unfold ticked; by destruct (me =? 0)%nat) Hlt ltac:(by rewrite Hm))).
  rewrite Hm. done.
Qed.

Lemma saved_at me i s : in_user i s →
  let p := proc_at i (sp (ts s)) in let p1 := proc_at i (sp (ts (timer_saved me i s))) in
  p_trapframe p1 = p_trapframe p ∧ p_kstack p1 = p_kstack p ∧ p_pagetable p1 = p_pagetable p.
Proof.
  intros Hu p p1. pose proof (ready_ticked me _ (ready_touch _ (iu_ready _ _ Hu))) as [Hl _ _ _].
  subst p1. unfold timer_saved, yielded, cfg. cbn [ts sp set_km set_sf set_sp].
  match goal with |- context [proc_at i (set_regs ?r ?y)] => change (proc_at i (set_regs r y)) with (proc_at i y) end.
  rewrite proc_at_upd by (simpl; rewrite Hl; apply (iu_lt _ _ Hu)).
  match goal with |- context [proc_at i (set_lk ?r ?y)] => change (proc_at i (set_lk r y)) with (proc_at i y) end.
  rewrite ticked_at by apply (iu_proc _ _ Hu). done.
Qed.

Lemma saved_state me i s : in_user i s → p_state (proc_at i (sp (ts (timer_saved me i s)))) = RUNNABLE.
Proof.
  intros Hu. pose proof (ready_ticked me _ (ready_touch _ (iu_ready _ _ Hu))) as [Hl _ _ _].
  change (sp (ts (timer_saved me i s))) with (yielded me i (ticked me (touch (sp (ts s))))). unfold yielded.
  match goal with |- context [proc_at i (set_regs ?r ?y)] => change (proc_at i (set_regs r y)) with (proc_at i y) end.
  by rewrite proc_at_upd by (simpl; rewrite Hl; apply (iu_lt _ _ Hu)).
Qed.

Lemma saved_others me i j s : in_user i s → j ≠ i → (j < NPROC)%nat →
  proc_at j (sp (ts (timer_saved me i s))) =
  if (me =? 0)%nat then woken (Some i) A_ticks j (proc_at j (sp (ts s))) else proc_at j (sp (ts s)).
Proof.
  intros Hu Hj Hlt. pose proof (rd_len _ (iu_ready _ _ Hu)) as Hl.
  change (sp (ts (timer_saved me i s))) with (yielded me i (ticked me (touch (sp (ts s))))). unfold yielded.
  match goal with |- context [proc_at j (set_regs ?r ?y)] => change (proc_at j (set_regs r y)) with (proc_at j y) end.
  rewrite proc_at_upd_ne by done.
  match goal with |- context [proc_at j (set_lk ?r ?y)] => change (proc_at j (set_lk r y)) with (proc_at j y) end.
  unfold ticked. destruct (me =? 0)%nat; [|done].
  change (c_proc (touch (sp (ts s)))) with (c_proc (sp (ts s))). rewrite (iu_proc _ _ Hu).
  unfold proc_at. simpl. destruct (lookup_lt_is_Some_2 (procs (sp (ts s))) j ltac:(lia)) as [q Hq].
  rewrite (list_lookup_total_correct _ _ _ Hq). apply list_lookup_total_correct.
  by rewrite list_lookup_imap, Hq.
Qed.

(** C6. A timer interrupt is transparent to the program it interrupts, when
    that has not been killed and no process lock nor the clock's is held:
    [usertrap] gives up the CPU having saved the program counter, advanced the
    clock (on hart 0, waking exactly the processes that sleep on it) and asked
    for the next interrupt; once a scheduler, of whatever hart, has switched
    back to the process, its trap frame, page table and kernel stack being as
    they were, the trap returns to user space at the interrupted instruction
    with the user's registers, in user mode with interrupts enabled, with the
    process's page table, and with the trap vector and the kernel's fields of
    the trap frame ready for the next trap. *)
Theorem timer_interrupt_transparent me i s :
  in_user i s → scause (tc s) = 0x8000000000000005 →
  let p := proc_at i (sp (ts s)) in
  ∃ s1, usertrap me kend trampoline forkret_pc kernelvec uservec userret usertrap_pc devsw pad polls chars vstatus s =
    Done (Yields false) s1 [] ∧
  p_state (proc_at i (sp (ts s1))) = RUNNABLE ∧ own_lock me i (sp (ts s1)) ∧
  ticks (sp (ts s1)) = (if (me =? 0)%nat then u32 (ticks (sp (ts s)) + 1) else ticks (sp (ts s))) ∧
  (∀ j, j ≠ i → (j < NPROC)%nat → proc_at j (sp (ts s1)) =
    if (me =? 0)%nat then woken (Some i) A_ticks j (proc_at j (sp (ts s))) else proc_at j (sp (ts s))) ∧
  stimecmp (tc s1) = u64 (time (tc s) + 1000000) ∧
  sf (ts s1) = sf (set_km (upd_pm (store64 (p_trapframe p + TF_epc) (sepc (tc s))) (km (ts s))) (ts s)) ∧
  ∀ me' s2, resumed me' i s1 s2 →
  ∃ s3, usertrap_back me' trampoline uservec userret usertrap_pc i false s2 =
    Done (ToUser (u64 (TRAMPOLINE + (userret - trampoline))) (MAKE_SATP (p_pagetable p))) s3 [] ∧
  enters_user me' i (p_trapframe p) (p_kstack p) (tc s2) (sepc (tc s)) s3 ∧
  same_user_regs (p_trapframe p) (pm (km (ts s))) (pm (km (ts s3))).
Proof.
  intros Hu Hc p. subst p. exists (timer_saved me i s). split; [by apply usertrap_timer|].
  destruct (saved_at me i s Hu) as (Htf & Hks & Hpt). split_and!.
  - by apply saved_state.
  - apply yielded_own; [apply (iu_lt _ _ Hu)|apply ready_ticked, ready_touch, (iu_ready _ _ Hu)|].
    by rewrite (ticked_hart me _ (iu_noff _ _ Hu) (iu_sie _ _ Hu)).
  - unfold timer_saved, ticked. simpl. by destruct (me =? 0)%nat.
  - intros j Hj Hlt. by apply saved_others.
  - done.
  - done.
  - intros me' s2 [Hrp Hrl Hrt Hrk Hrpt Hrf]. rewrite Htf in Hrf, Hrt. rewrite Hks in Hrk. rewrite Hpt in Hrpt.
    destruct (back_run me' i false _ Hrl) as (ls & Hback & Hcpu & Hfree & _).
    eexists. split.
    { unfold usertrap_back. rewrite (cfg_id s2) at 1. rewrite (bind_on_proc _ _ _ _ _ _ _ _ Hback), <- Hrpt.
      change (proc_at i (sp (ts s2))) with (proc_at i (set_lk ls (sp (ts s2)))).
      apply usertrapret_run; [simpl; by rewrite Hcpu..|done]. }
    change (proc_at i (set_lk ls (sp (ts s2)))) with (proc_at i (sp (ts s2))).
    set (tf := p_trapframe (proc_at i (sp (ts s)))) in *.
    assert (∀ off, 24 ≤ off → off + 8 ≤ Z.of_nat TF_SIZE → load64 (pm (km (ts s2))) (tf + off) = load64 (store64 (tf + TF_epc) (sepc (tc s)) (pm (km (ts s)))) (tf + off)) as Hld.
    { intros off H1 H2. exact (Hrf off ltac:(lia) H2). }
    split.
    + pose proof (enters me' i s2 (set_lk ls (sp (ts s2))) (km (ts s2)) (tc s2) ltac:(simpl; by rewrite Hcpu) Hfree) as He.
      change (proc_at i (set_lk ls (sp (ts s2)))) with (proc_at i (sp (ts s2))) in He. cbv zeta in He.
      rewrite Hrt, Hrk, (Hld TF_epc), load64_store64, u64_small in He by (done || exact (iu_pc _ _ Hu)). exact He.
    + intros off H1 H2. pose proof (ret_frame_user me' (proc_at i (sp (ts s2))) (tc s2) (km (ts s2)) off H1 H2) as Hr.
      rewrite Hrt in Hr. etransitivity; [exact Hr|]. rewrite (Hld off) by lia. rewrite load64_store64_ne by (unfold TF_epc; lia). done.
Qed.

(** *** A system call *)

Definition on_hart (x : pstate) : pstate := set_lk (upd_cpu (λ h, mkhart (noff h) (intena h) true) (lk x)) x.

(** The kernel as a system call of process [i] finds it: the saved program
    counter is that of the instruction after [ecall], interrupts are on. *)
Definition called (i : nat) s : sys :=
  let epc := p_trapframe (proc_at i (sp (ts s))) + TF_epc in
  set_km (upd_pm (store64 epc (u64 (sepc (tc s) + 4))) (upd_pm (store64 epc (sepc (tc s))) (km (ts s))))
    (set_sp (on_hart (touch (sp (ts s)))) (ts s)).
Lemma called_at i s j : proc_at j (sp (called i s)) = proc_at j (sp (ts s)).
Proof. done. Qed.
Lemma called_current i s : c_proc (sp (called i s)) = c_proc (sp (ts s)).
Proof. done. Qed.
Lemma called_noff i s : noff (mycpu (lk (sp (called i s)))) = noff (mycpu (lk (sp (ts s)))).
Proof. simpl. apply touched_noff. Qed.
Lemma called_pm i s : pm (km (called i s)) =
  store64 (p_trapframe (proc_at i (sp (ts s))) + TF_epc) (u64 (sepc (tc s) + 4))
    (store64 (p_trapframe (proc_at i (sp (ts s))) + TF_epc) (sepc (tc s)) (pm (km (ts s)))).
Proof. done. Qed.
Lemma bind_lk_on {B} (k : unit → T B) s x m c : bind (on_proc (lift_lk intr_on)) k (cfg s x m c) = k tt (cfg s (on_hart x) m c).
Proof. by apply bind_done. Qed.

Lemma usertrap_ecall me i s : in_user i s → scause (tc s) = 8 →
  usertrap me kend trampoline forkret_pc kernelvec uservec userret usertrap_pc devsw pad polls chars vstatus s =
  bind (on_sys (syscall me kend trampoline forkret_pc devsw pad)) (λ r,
    match r with
    | Value _ => usertrap_end me kend trampoline uservec userret usertrap_pc i 0
    | _ => ret (InCall r)
    end) (mktrapst (called i s) (set_stvec kernelvec (tc s)) (tcons s) (tuart s) (tdisk s) (tplic s)).
Proof.
  intros [Hr Hi Hlt H0 Hs Hf Hk Hspp Hpc] Hc. rewrite (cfg_id s) at 1. unfold usertrap.
  pose proof Hr as [_ Hh _ _]. set (x := sp (ts s)) in *.
  rewrite bind_r_sstatus by done. rewrite spp_sie by done. change (negb (0 =? 0)) with false. cbv iota. trun.
  rewrite (bind_on_mine i) by (done || lia). trun. simpl. rewrite Hc. change (8 =? 8) with true. cbv iota.
  rewrite (bind_on_proc _ _ _ _ _ _ _ _ (killed_run me i _ (ready_touch _ Hr) Hlt)), touch_touch.
  change (p_killed (proc_at i (touch x))) with (p_killed (proc_at i x)). rewrite Hk. change (negb (0 =? 0)) with false. cbv iota. trun.
  rewrite bind_lk_on. simpl. rewrite load64_store64, (u64_small (sepc (tc s))) by done.
  done.
Qed.

Lemma called_ready i s : ready (sp (ts s)) → noff (mycpu (lk (sp (ts s)))) = 0 → ready (sp (called i s)).
Proof.
  intros Hr H0. apply ready_touch in Hr as [Hl Hh Hn Hf]. split; [done| |done|done].
  split; simpl; rewrite touched_noff, H0; lia.
Qed.

(** The dispatcher leaves the result of the call in [a0]. *)
Lemma syscall_a0 me i x v y t : ready (sp x) → c_proc (sp x) = Some i →
  syscall me kend trampoline forkret_pc devsw pad x = Done (Value v) y t →
  load64 (pm (km y)) (p_trapframe (proc_at i (sp x)) + TF_a0) = u64 v.
Proof.
  intros Hr Hi. unfold syscall. rewrite (mine_run i) by done. rewrite bind_pr. intros Hc.
  binv Hc num s1 Hn. clear Hn. change (proc_at i (sp (set_sp (touch (sp x)) x))) with (proc_at i (sp x)) in Hc.
  set (tf := p_trapframe (proc_at i (sp x))) in *.
  destruct (if _ : bool then _ else _) as [h|].
  - binv Hc r s2 Hh. clear Hh. binv Hc u s3 Hst. injection Hc as -> -> _.
    injection Hst as _ <- _. cbn. rewrite load64_store64. unfold u64. by rewrite Z.mod_mod.
  - binv Hc r s2 Hh. clear Hh. binv Hc u s3 Hst. injection Hc as <- -> _.
    injection Hst as _ <- _. cbn. by rewrite load64_store64.
Qed.

End transparent.

(** ** A machine *)

(** An interrupt controller with a queue of pending interrupts. *)
#[export] Instance queue_plic : PlicDev (list Z) := {|
  q_read _ q := (default 0 (q !! 0%nat), drop 1 q);
  q_write _ _ q := q
|}.

(** Process 0 of [pid] 1 was running at 0x1000 and, in a system call, asks for
    its [pid]. *)
Definition trap_mem : kmem := mkkmem false 0 (store64 (0x86000000 + TF_a7) 11 ∅).
Definition trap_table : pstate :=
  let x := set_c_proc (Some 0%nat) (with_procs [runner 0x87000000 0x86000000 0]) in
  set_lk (initlock L_ticks "time" (lk x)) x.
Definition trap_machine (cause : Z) : trapst sim (list Z) :=
  mktrapst
    (mksys trap_table (files0 (mkfsst (mklogsys log0 (mkbcache false [] ∅)) false [] (mksuperblock 0 0 0 0 0 0 0 0) trap_mem)))
    (mkcsr 0 0x1000 cause 0 SSTATUS_SPIE 0 0 77) cons0 (uart0 (mksim [] false [])) demo_bss [].

Lemma trap_table_facts :
  (readyb trap_table = true ∧ lock_freeb L_ticks (lk trap_table) = true) ∧
  (c_proc trap_table = Some 0%nat ∧ noff (mycpu (lk trap_table)) = 0 ∧ sie (mycpu (lk trap_table)) = false ∧ regs trap_table = context0) ∧
  proc_at 0 trap_table = runner 0x87000000 0x86000000 0.
Proof. split_and!; vm_compute; reflexivity. Qed.
#[local] Opaque trap_table.

Lemma trap_machine_user cause : in_user 0 (trap_machine cause).
Proof.
  destruct trap_table_facts as ((Hr & Ht) & (Hc & Hn & Hs & _) & Hp).
  split; [by apply readyb_ready|exact Hc|unfold NPROC; lia|exact Hn|exact Hs|by apply lock_freeb_free| |reflexivity|].
  - change (sp (ts (trap_machine cause))) with trap_table. by rewrite Hp.
  - simpl. lia.
Qed.

Lemma timer_interrupt_transparent_witness : ∃ s1 s3,
  let s := trap_machine 0x8000000000000005 in
  usertrap 0 kend1 0x80008000 64 128 0x80008000 (0x80008000 + 100) 256 (λ _, mkdevops None None) [] 1 1 1 s = Done (Yields false) s1 [] ∧
  usertrap_back 0 0x80008000 0x80008000 (0x80008000 + 100) 256 0 false s1 = Done (ToUser (TRAMPOLINE + 100) (MAKE_SATP 0x87000000)) s3 [] ∧
  sepc (tc s3) = 0x1000.
Proof.
  pose proof (trap_machine_user 0x8000000000000005) as Hu.
  destruct (timer_interrupt_transparent kend1 0x80008000 64 128 0x80008000 (0x80008000 + 100) 256 (λ _, mkdevops None None) [] 1 1 1 0 0 _ Hu eq_refl)
    as (s1 & He & _ & Hl & _ & _ & _ & _ & Hback).
  rewrite (usertrap_timer _ _ _ _ _ _ _ _ _ _ _ _ 0 0 _ Hu eq_refl) in He. injection He as <-.
  destruct (Hback 0%nat (timer_saved 128 0 0 (trap_machine 0x8000000000000005))) as (s3 & Hr & [Hpc _ _ _ _ _ _ _] & _).
  { split; done. }
  eexists _, s3. split; [by apply usertrap_timer|]. split; [exact Hr|exact Hpc].
Defined.

Lemma syscall_getpid me kend trampoline forkret_pc devsw pad i x : ready (sp x) → c_proc (sp x) = Some i →
  let p := proc_at i (sp x) in
  i32 (load64 (pm (km x)) (p_trapframe p + TF_a7)) = 11 →
  syscall me kend trampoline forkret_pc devsw pad x =
  Done (Value (p_pid p)) (set_km (upd_pm (store64 (p_trapframe p + TF_a0) (u64 (p_pid p))) (km x)) (set_sp (touch (touch (sp x))) x)) [].
Proof.
  intros Hr Hi p Ha. unfold syscall. rewrite (mine_run i) by done. rewrite bind_pr.
  change (proc_at i (sp (set_sp (touch (sp x)) x))) with p. rewrite (bind_done _ _ _ _ _ (eq_refl : load_tf _ _ (set_sp (touch (sp x)) x) = Done _ _ [])).
  change (km (set_sp (touch (sp x)) x)) with (km x). rewrite Ha.
  change (if (0 <? 11) && (11 <? 24) then syscalls me kend trampoline forkret_pc devsw pad 11 else None) with (Some sys_getpid).
  unfold sys_getpid, mp. krun. rewrite (mine_run i); [|by apply ready_touch|done]. krun. done.
Qed.

Definition getpid_mem : mem :=
  store64 (0x86000000 + TF_a0) 1 (store64 (0x86000000 + TF_epc) 0x1004 (store64 (0x86000000 + TF_epc) 0x1000 (pm trap_mem))).
Lemma called_facts : let s := called 0 (trap_machine 8) in
  proc_at 0 (sp s) = runner 0x87000000 0x86000000 0 ∧
  pm (km s) = store64 (0x86000000 + TF_epc) 0x1004 (store64 (0x86000000 + TF_epc) 0x1000 (pm trap_mem)).
Proof.
  intros s. subst s. destruct trap_table_facts as (_ & _ & Hp). rewrite called_at, called_pm.
  change (sp (ts (trap_machine 8))) with trap_table. rewrite Hp. done.
Qed.
Lemma getpid_runs s : ready (sp s) → c_proc (sp s) = Some 0%nat → noff (mycpu (lk (sp s))) = 0 →
  proc_at 0 (sp s) = runner 0x87000000 0x86000000 0 →
  pm (km s) = store64 (0x86000000 + TF_epc) 0x1004 (store64 (0x86000000 + TF_epc) 0x1000 (pm trap_mem)) →
  ∃ y, syscall 0 kend1 0x80008000 64 (λ _, mkdevops None None) [] s = Done (Value 1) y [] ∧
  (ready (sp y) ∧ c_proc (sp y) = Some 0%nat ∧ noff (mycpu (lk (sp y))) = 0) ∧
  proc_at 0 (sp y) = runner 0x87000000 0x86000000 0 ∧ pm (km y) = getpid_mem.
Proof.
  intros Hr Hc Hn Hp Hm.
  pose proof (syscall_getpid 0 kend1 0x80008000 64 (λ _, mkdevops None None) [] 0 s Hr Hc) as Hg. rewrite Hp, Hm in Hg.
  eexists. split; [apply Hg; vm_compute; reflexivity|]. split_and!.
  - apply ready_touch, ready_touch, Hr.
  - exact Hc.
  - simpl. by rewrite !touched_noff.
  - exact Hp.
  - cbn [km sf set_km set_sf ffs set_ffs um set_um pm upd_pm set_pm]. unfold getpid_mem. rewrite <- Hm. reflexivity.
Qed.
Lemma getpid_called : ∃ y,
  syscall 0 kend1 0x80008000 64 (λ _, mkdevops None None) [] (called 0 (trap_machine 8)) = Done (Value 1) y [] ∧
  (ready (sp y) ∧ c_proc (sp y) = Some 0%nat ∧ noff (mycpu (lk (sp y))) = 0) ∧
  proc_at 0 (sp y) = runner 0x87000000 0x86000000 0 ∧ pm (km y) = getpid_mem.
Proof.
  pose proof (trap_machine_user 8) as Hu. destruct called_facts as [Hp Hm].
  exact (getpid_runs _ (called_ready 0 _ (iu_ready _ _ Hu) (iu_noff _ _ Hu)) (eq_trans (called_current 0 _) (iu_proc _ _ Hu))
    (eq_trans (called_noff 0 _) (iu_noff _ _ Hu)) Hp Hm).
Qed.

