(* ===== verification/Boot.v ===== *)
(** Booting: machine mode ([start.c]), turning on paging ([kvminit] and
    [kvminithart] of [vm.c]) and the kernel's [main] ([main.c]). *)
From Stdlib Require Import ZArith Lia.
From stdpp Require Import base list gmap strings.
From S2P Require Import Prelude Machine Random Spinlock Proc Mem Str Kalloc Vm Sleeplock Bio Blk Log UserMem Fs Uart Console Virtio Pipe File Life Fd Syscall Exec Sysfile Trap.

(** ** Machine mode *)

Definition MSTATUS_MPP_MASK : Z := Z.shiftl 3 11.
Definition MSTATUS_MPP_S : Z := Z.shiftl 1 11.
Definition SIE_SEIE : Z := Z.shiftl 1 9.
Definition SIE_STIE : Z := Z.shiftl 1 5.
Definition SIE_SSIE : Z := Z.shiftl 1 1.
Definition MIE_STIE : Z := Z.shiftl 1 5.

(** The registers of machine mode, with [sie] and [tp]. *)
Record mregs := mkmregs {
  mstatus : Z;
  mepc : Z;
  medeleg : Z;
  mideleg : Z;
  sie_reg : Z;
  mie : Z;
  menvcfg : Z;
  mcounteren : Z;
  pmpaddr0 : Z;
  pmpcfg0 : Z;
  mhartid : Z;
  tp : Z
}.
Definition set_mstatus (v : Z) (r : mregs) : mregs := mkmregs v (mepc r) (medeleg r) (mideleg r) (sie_reg r) (mie r) (menvcfg r) (mcounteren r) (pmpaddr0 r) (pmpcfg0 r) (mhartid r) (tp r).
Definition set_mepc (v : Z) (r : mregs) : mregs := mkmregs (mstatus r) v (medeleg r) (mideleg r) (sie_reg r) (mie r) (menvcfg r) (mcounteren r) (pmpaddr0 r) (pmpcfg0 r) (mhartid r) (tp r).
Definition set_medeleg (v : Z) (r : mregs) : mregs := mkmregs (mstatus r) (mepc r) v (mideleg r) (sie_reg r) (mie r) (menvcfg r) (mcounteren r) (pmpaddr0 r) (pmpcfg0 r) (mhartid r) (tp r).
Definition set_mideleg (v : Z) (r : mregs) : mregs := mkmregs (mstatus r) (mepc r) (medeleg r) v (sie_reg r) (mie r) (menvcfg r) (mcounteren r) (pmpaddr0 r) (pmpcfg0 r) (mhartid r) (tp r).
Definition set_sie_reg (v : Z) (r : mregs) : mregs := mkmregs (mstatus r) (mepc r) (medeleg r) (mideleg r) v (mie r) (menvcfg r) (mcounteren r) (pmpaddr0 r) (pmpcfg0 r) (mhartid r) (tp r).
Definition set_mie (v : Z) (r : mregs) : mregs := mkmregs (mstatus r) (mepc r) (medeleg r) (mideleg r) (sie_reg r) v (menvcfg r) (mcounteren r) (pmpaddr0 r) (pmpcfg0 r) (mhartid r) (tp r).
Definition set_menvcfg (v : Z) (r : mregs) : mregs := mkmregs (mstatus r) (mepc r) (medeleg r) (mideleg r) (sie_reg r) (mie r) v (mcounteren r) (pmpaddr0 r) (pmpcfg0 r) (mhartid r) (tp r).
Definition set_mcounteren (v : Z) (r : mregs) : mregs := mkmregs (mstatus r) (mepc r) (medeleg r) (mideleg r) (sie_reg r) (mie r) (menvcfg r) v (pmpaddr0 r) (pmpcfg0 r) (mhartid r) (tp r).
Definition set_pmpaddr0 (v : Z) (r : mregs) : mregs := mkmregs (mstatus r) (mepc r) (medeleg r) (mideleg r) (sie_reg r) (mie r) (menvcfg r) (mcounteren r) v (pmpcfg0 r) (mhartid r) (tp r).
Definition set_pmpcfg0 (v : Z) (r : mregs) : mregs := mkmregs (mstatus r) (mepc r) (medeleg r) (mideleg r) (sie_reg r) (mie r) (menvcfg r) (mcounteren r) (pmpaddr0 r) v (mhartid r) (tp r).
Definition set_tp (v : Z) (r : mregs) : mregs := mkmregs (mstatus r) (mepc r) (medeleg r) (mideleg r) (sie_reg r) (mie r) (menvcfg r) (mcounteren r) (pmpaddr0 r) (pmpcfg0 r) (mhartid r) v.

Definition timerinit (m : mregs) (c : csr) : mregs * csr :=
  let m := set_mie (Z.lor (mie m) MIE_STIE) m in
  let m := set_menvcfg (Z.lor (menvcfg m) (Z.shiftl 1 63)) m in
  let m := set_mcounteren (Z.lor (mcounteren m) 2) m in
  (m, set_stimecmp (u64 (time c + 1000000)) c).

(** [start()] up to [mret]; [main] is the address of the function. *)
Definition start (main : Z) (m : mregs) (c : csr) : mregs * csr :=
  let x := Z.lor (Z.ldiff (mstatus m) MSTATUS_MPP_MASK) MSTATUS_MPP_S in
  let m := set_mepc main (set_mstatus x m) in
  let c := set_satp 0 c in
  let m := set_mideleg 0xffff (set_medeleg 0xffff m) in
  let m := set_sie_reg (Z.lor (Z.lor (Z.lor (sie_reg m) SIE_SEIE) SIE_STIE) SIE_SSIE) m in
  let m := set_pmpcfg0 0xf (set_pmpaddr0 0x3fffffffffffff m) in
  let (m, c) := timerinit m c in
  (set_tp (i32 (mhartid m)) m, c).

(** ** The kernel's [main] *)

Section boot.
Context {D Q : Type} `{HU : UartDev D} `{HQ : PlicDev Q}.
Context (me : nat) (kend etext trampoline forkret_pc kernelvec : Z).
(** What the registers of the disk read during its initialisation. *)
Context (mmio : Z → Z) (vstatus : Z).
(** [printfinit] of the kernel's [printf.c]. *)
Context (printfinit : M tev (trapst D Q) unit).

Local Abbreviation T := (M tev (trapst D Q)).

Definition kmem_ {A} (m : M event kmem A) : T A := on_sys (on_mem m).
Definition kprint (msg : string) : T unit := emit (EvK (EvDev (Printf msg))).

Definition kvminit : T Z := kmem_ (kvmmake etext trampoline).
Definition kvminithart (kernel_pagetable : Z) : T unit := w_csr (set_satp (MAKE_SATP kernel_pagetable)).

(** [virtio_disk_init()] with the pages it allocates. *)
Definition disk_page : T Z :=
  let! p := kmem_ kalloc in
  (if negb (p =? 0) then kmem_ (zero_page p) else ret tt) ;;
  ret p.
Definition disk_init : T unit :=
  let! desc := disk_page in
  let! avail := disk_page in
  let! used := disk_page in
  on_disk me (virtio_disk_init mmio vstatus desc avail used).

(** [main()] up to the call of [scheduler()]: hart 0, whose result is the
    static variable [kernel_pagetable], and the other harts, which wait for
    [started]. *)
Definition main_first : T Z :=
  on_tty me consoleinit ;;
  printfinit ;;
  kprint "\n" ;;
  kprint "xv6 kernel is booting\n" ;;
  kprint "\n" ;;
  kmem_ (kinit kend) ;;
  let! kernel_pagetable := kvminit in
  kvminithart kernel_pagetable ;;
  on_proc procinit ;;
  trapinit ;;
  trapinithart kernelvec ;;
  plicinit ;;
  plicinithart me ;;
  on_sys (on_fs me (fbio binit)) ;;
  on_sys (on_fs me iinit) ;;
  on_sys (on_files me fileinit) ;;
  disk_init ;;
  on_sys (userinit me kend trampoline forkret_pc) ;;
  ret kernel_pagetable.
Definition main_other (started : bool) (kernel_pagetable : Z) : T unit :=
  if negb started then λ s, Spin s [] else
  kprint "hart %d starting\n" ;;
  kvminithart kernel_pagetable ;;
  trapinithart kernelvec ;;
  plicinithart me.
End boot.
