(* ===== verification/BootThm.v ===== *)
(** The machine boots: [main] of hart 0 reaches the scheduler with paging on and
    the first process ready to run. *)
From Stdlib Require Import ZArith Lia.
From stdpp Require Import base list gmap strings.
From S2P Require Import Prelude Machine Random Spinlock Proc Mem Str Kalloc Vm Pagetable Uvm Uvmfree KvmThm Sleeplock Bio Blk Log UserMem Fs Uart Console Virtio VirtioThm Pipe File ForkMem Life LifeThm ForkThm Fd Syscall Exec Sysfile Trap TrapThm Boot.

#[local] Opaque load64 store64.

(** ** Machine mode *)

(** [mret] will enter [main] in supervisor mode, with paging off, every trap
    delegated, the hart's number in [tp] and a timer interrupt to come. *)
Lemma start_enters_main main m c : let r := start main m c in
  Z.land (mstatus r.1) MSTATUS_MPP_MASK = MSTATUS_MPP_S ∧ mepc r.1 = main ∧ tp r.1 = i32 (mhartid m) ∧
  medeleg r.1 = 0xffff ∧ mideleg r.1 = 0xffff ∧ satp r.2 = 0 ∧ stimecmp r.2 = u64 (time c + 1000000).
Proof.
  split_and!; try reflexivity. simpl. rewrite Z.land_lor_distr_l.
  assert (Z.land (Z.ldiff (mstatus m) MSTATUS_MPP_MASK) MSTATUS_MPP_MASK = 0) as ->; [|reflexivity].
  apply Z.bits_inj'. intros n Hn. rewrite Z.land_spec, Z.ldiff_spec, Z.bits_0. by destruct (Z.testbit _ n), (Z.testbit MSTATUS_MPP_MASK n).
Qed.

(** ** The first address space *)

Definition first_flags : Z := Z.lor (Z.lor (Z.lor PTE_W PTE_R) PTE_X) PTE_U.

Section first.
Context (kend : Z) (kend_pos : 0 < kend).

Lemma uvmfirst_run m nodes root q l tr tf src : pspace kend m nodes root (q :: l) [] tr tf → (2 ≤ length l)%nat →
  Z.of_nat (length src) < PGSIZE →
  ∃ m' nodes' l', uvmfirst root src m = Done tt m' ([] : list event) ∧
    pspace kend m' nodes' root l' [(q, first_flags)] tr tf ∧ l' ++ node_pages nodes' ≡ₚ l ++ node_pages nodes ∧
    (∀ k, 0 ≤ k < PGSIZE → rd (pm m') (q + k) = default 0 (src !! Z.to_nat k)) ∧
    same_outside (q :: l ++ node_pages nodes) (pm m) (pm m').
Proof.
  intros [Hu Htr Htf Hno Hpg] Hl Hsrc.
  destruct (add_page (E:=event) kend kend_pos m nodes root q l [] (replicate PGN 0) first_flags Hu)
    as (m1 & r & m2 & nodes2 & l2 & Ha & Hq0 & _ & _ & Hmp & Hp & Hx & Hpage & Hlf & Hlen & Hres);
    [by rewrite length_replicate|rewrite TRAPFRAME_eq; unfold PGSIZE; simpl; lia|split; [unfold first_flags; done|done]|].
  destruct Hres as [[-> Hu2]|(_ & _ & ? & _)]; [|lia]. simpl in Hu2.
  destruct (mapped_out _ _ _ _ _ _ q (us_map _ _ _ _ _ _ Hu2) ltac:(left)) as (Hok & Hql & Hqn).
  destruct (uspace_write kend _ _ _ _ _ q q src Hu2 (conj Hok (conj Hql Hqn))) as [Hu3 Hlf3]; [lia|lia|].
  exists (upd_pm (write_bytes q src) m2), nodes2, l2. split; [|split; [split; [done|..]|split; [done|split]]].
  - unfold uvmfirst. destruct (Z.leb_spec PGSIZE (Z.of_nat (length src))); [lia|]. rewrite (bind_done _ _ _ _ _ Ha).
    unfold zero_page. rewrite bind_modify. change (Z.of_nat (length []) * PGSIZE) with 0 in Hmp. fold first_flags.
    assert (upd_pm (memset q 0 PGSIZE) m1 = upd_pm (write_bytes q (replicate PGN 0)) m1) as -> by (unfold upd_pm; by rewrite memset_spec).
    by rewrite (bind_done _ _ _ _ _ Hmp).
  - cbn [pm upd_pm set_pm]. rewrite Hlf3, Hlf; [done|]. rewrite TRAPFRAME_eq, TRAMPOLINE_eq. lia.
  - cbn [pm upd_pm set_pm]. rewrite Hlf3, Hlf; [done|lia].
  - intros va Hva. cbn [pm upd_pm set_pm]. rewrite Hlf3, Hlf; [by apply Hno|]. rewrite MAXVA_eq in Hva. rewrite TRAPFRAME_eq. lia.
  - done.
  - intros k Hk. cbn [pm upd_pm set_pm]. rewrite rd_write. destruct (decide (k < Z.of_nat (length src))) as [Hlt|Hlt].
    + rewrite decide_True by lia. replace (q + k - q) with k by lia.
      destruct (lookup_lt_is_Some_2 src (Z.to_nat k) ltac:(lia)) as [v Hv]. rewrite Hv. by apply list_lookup_total_correct.
    + rewrite decide_False by lia. rewrite lookup_ge_None_2 by lia. pose proof (Hpage (Z.to_nat k)) as Hz.
      rewrite Z2Nat.id in Hz by lia. rewrite Hz by (pose proof PGN_eq; lia). apply list_lookup_total_correct, lookup_replicate. split; [done|pose proof PGN_eq; lia].
  - eapply same_outside_trans; [exact Hx|]. intros x Hn. cbn [pm upd_pm set_pm]. apply rd_write_out.
    assert (¬ in_page q x) as Hq by (apply Hn; left). unfold in_page in Hq. lia.
Qed.

Definition entry_frame (tf : Z) (m : kmem) : kmem :=
  upd_pm (store64 (tf + TF_sp) PGSIZE) (upd_pm (store64 (tf + TF_epc) 0) m).

Lemma entry_frame_out tf m x : ¬ in_page tf x → rd (pm (entry_frame tf m)) x = rd (pm m) x.
Proof. unfold in_page, TF_sp, TF_epc, PGSIZE. intros Hx. simpl. unfold TF_sp, TF_epc. by rewrite !rd_store64_ne by lia. Qed.

Lemma entry_frame_ok m nodes root l ds tr tf : pspace kend m nodes root l ds tr tf → page_ok kend tf →
  tf ∉ l ++ node_pages nodes ++ ds.*1 →
  pspace kend (entry_frame tf m) nodes root l ds tr tf ∧
  (∀ d x, d ∈ ds.*1 → in_page d x → rd (pm (entry_frame tf m)) x = rd (pm m) x).
Proof.
  intros Hp Htf Hn. pose proof (pspace_kinv _ _ _ _ _ _ _ _ Hp) as Hk. pose proof (ki_pages _ _ _ Hk) as Hpg.
  assert (same_outside [tf] (pm m) (pm (entry_frame tf m))) as Hx by (intros x Hx; apply entry_frame_out, Hx; left).
  rewrite !not_elem_of_app in Hn. destruct Hn as (Hn1 & Hn2 & Hn3).
  apply (pspace_other kend m nodes root l ds tr tf (entry_frame tf m) l (tf :: l)); [done| |by constructor| |by right|].
  - eapply kinv_frame; [done|done|done|]. intros p x Hin Hpx. apply entry_frame_out. intros Hc. apply Hn1.
    assert (p = tf) as <-; [|done]. eapply page_sep; [|done|done|done]. by eapply Forall_forall in Hpg.
  - intros p Hin. apply not_elem_of_cons. split; [intros ->|by eapply pspace_sep]. apply elem_of_app in Hin as [?|?]; done.
  - eapply same_outside_mono; [|exact Hx]. intros p ->%list_elem_of_singleton. left.
Qed.

Lemma entry_frame_loads tf m : load64 (pm (entry_frame tf m)) (tf + TF_epc) = 0 ∧ load64 (pm (entry_frame tf m)) (tf + TF_sp) = PGSIZE.
Proof.
  unfold entry_frame, TF_sp, TF_epc. cbn [pm upd_pm set_pm]. rewrite load64_store64_ne by lia. rewrite !load64_store64. done.
Qed.

(** [namei("/")] on an inode table without references. *)
Lemma iget_scan_free l i dev inum e : Forall (λ x, i_ref x = 0) l → iget_scan l i dev inum (Some e) = (None, Some e).
Proof. revert i. induction l as [|x l IH]; intros i Hl; [done|]. apply Forall_cons in Hl as [Hx Hl]. simpl. rewrite Hx. simpl. by apply IH. Qed.

Definition root_taken (fs : fsst kmem) : fsst kmem := upd_ino 0 (set_i_key ROOTDEV ROOTINO 1 0) fs.
Lemma namei_root (HU : UserMem kmem) pid fs x l : it_lock fs = false → inodes fs = x :: l → Forall (λ x, i_ref x = 0) (x :: l) →
  namei (H:=HU) pid 0 [SLASH] fs = Done (Some 0%nat) (root_taken fs) [].
Proof.
  intros Hl Hi Hf. apply Forall_cons in Hf as [Hx Hf].
  assert (iget (U:=kmem) ROOTDEV ROOTINO fs = Done 0%nat (root_taken fs) []) as Hg.
  { destruct fs as [f lk ins sb u]; simpl in Hl, Hi; subst lk ins. unfold iget. erewrite bind_done by reflexivity; rewrite bind_gets.
    cbn [inodes set_held fsst_locked iget_scan]. rewrite Hx. cbn [Z.ltb Z.compare andb Z.eqb]. by rewrite iget_scan_free. }
  unfold namei, namex. change (SLASH =? SLASH) with true. cbv iota. rewrite bind_assoc, (bind_done _ _ _ _ _ Hg). done.
Qed.

(** *** [userinit] *)

Context (me : nat) (trampoline forkret_pc : Z).

Definition init_name (p : proc) : proc := set_p_name (copy_name [105; 110; 105; 116; 99; 111; 100; 101; 0] (p_name p)) p.
Definition first_proc (pid tf root : Z) (p : proc) : proc :=
  set_p_state RUNNABLE (set_p_cwd (Some 0%nat) (init_name (set_p_sz PGSIZE (allocated forkret_pc pid tf root p)))).

(** What [userinit] leaves: process 0 is ready to run [initcode] at address 0 in
    an address space of one page, [q], and of its trap frame. *)
Record user_started (s s' : sys) (l : list Z) (q tf root : Z) (nodes : nodemap) (l' : list Z) : Prop := {
  us_first : proc_at 0 (sp s') = first_proc (nextpid (sp s)) tf root (proc_at 0 (sp s));
  us_others : ∀ j, j ≠ 0%nat → proc_at j (sp s') = proc_at j (sp s);
  us_init : initproc (sp s') = Some 0%nat;
  us_calm : calm (sp s');
  us_ticks : is_free L_ticks (lk (sp s)) → is_free L_ticks (lk (sp s'));
  us_space : pspace kend (km s') nodes root l' [(q, first_flags)] trampoline tf;
  us_code : ∀ k, 0 ≤ k < PGSIZE → rd (pm (km s')) (q + k) = default 0 (initcode !! Z.to_nat k);
  us_frame : load64 (pm (km s')) (tf + TF_epc) = 0 ∧ load64 (pm (km s')) (tf + TF_sp) = PGSIZE;
  us_mem : same_outside l (pm (km s)) (pm (km s'))
}.

Lemma calm_released x1 x5 : calm x1 → length (procs x5) = NPROC → calm (set_lk (upd_cpu touched (lk x1)) x5).
Proof. intros Hc Hl. apply calm_touch in Hc as [[H1 H2 H3 H4] H5 H6]. split; [split|..]; done. Qed.

Lemma userinit_tail (HU : UserMem kmem) pid tf m2 x x1 y ins s : calm x1 → lk x = locked_by me (L_proc 0) (lk x1) →
  it_lock (ffs (sf s)) = false → inodes (ffs (sf s)) = y :: ins → Forall (λ x, i_ref x = 0) (y :: ins) →
  (store_tf tf TF_epc 0 ;; store_tf tf TF_sp PGSIZE ;; upd 0 init_name ;;
   let! cwd := on_fs me (namei (H:=HU) pid 0 [SLASH]) in
   upd 0 (set_p_cwd cwd) ;; upd 0 (set_p_state RUNNABLE) ;; unlock_p me 0) (set_km m2 (set_sp x s)) =
  Done tt (mksys (set_lk (upd_cpu touched (lk x1)) (upd_proc 0 (λ p, set_p_state RUNNABLE (set_p_cwd (Some 0%nat) (init_name p))) x))
    (set_ffs (root_taken (set_um (entry_frame tf m2) (ffs (sf s)))) (sf s))) [].
Proof.
  intros Hc Hlk Hl Hi Hf. unfold store_tf. do 2 (erewrite bind_mem by reflexivity). krun.
  unfold on_fs. set (s2 := set_sp _ _). set (F0 := set_um (entry_frame tf m2) (ffs (sf s))).
  assert (ffs (sf s2) = F0) as HF by done.
  rewrite (bind_files _ _ _ s2 (Some 0%nat) (set_ffs (root_taken F0) (sf s2)));
    [|apply lift_done; rewrite HF; by apply (namei_root HU pid F0 y ins)].
  krun. unfold unlock_p, on_procs. erewrite (unlock_run me 0 x1); [|done|unfold NPROC; lia|exact Hlk].
  cbn [fmap list_fmap]. f_equal. cbn [sp set_sp set_sf sf s2 set_km].
  rewrite !upd_proc_upd. reflexivity.
Qed.

Lemma userinit_run s l x ins : calm (sp s) → unused_clean (sp s) → kinv kend (km s) l → pte_page trampoline → (12 ≤ length l)%nat →
  p_state (proc_at 0 (sp s)) = UNUSED →
  it_lock (ffs (sf s)) = false → inodes (ffs (sf s)) = x :: ins → Forall (λ x, i_ref x = 0) (x :: ins) →
  ∃ s' q tf root nodes l', userinit me kend trampoline forkret_pc s = Done tt s' [] ∧ user_started s s' l q tf root nodes l'.
Proof.
  intros Hc Hu Hk Htr Hlen H0 Hl Hi Hf. unfold userinit.
  destruct (allocproc_run me kend trampoline forkret_pc s l Hc Hu Hk Htr) as
    [(j & s1 & tf & root & nodes & l1 & Hal & [(Hj & Hju & Hjk) (x1 & Hs & Hsp1) Hrest Hcsp Hpg Hfew Hmem])|(s1 & l1 & _ & _ & _ & _ & _ & _ & _ & _ & _ & [Hno|Hfew])];
    [|by destruct (Hno 0%nat); [unfold NPROC; lia|]|lia].
  assert (j = 0%nat) as -> by (destruct j; [done|by destruct (Hjk 0%nat); [lia|]]).
  rewrite (bind_done _ _ _ _ _ Hal). erewrite bind_procs by reflexivity. unfold deref. krun. autorewrite with sys.
  destruct l1 as [|q l1]; [simpl in Hfew; lia|].
  pose proof (settled_calm _ _ Hc Hs) as Hcx. pose proof (rd_len _ (cm_ready _ Hcx)) as Hlx.
  assert (∀ k, proc_at k x1 = proc_at k (sp s)) as Hpx by (intros k; by rewrite (settled_proc _ _ _ Hs)).
  set (p := allocated forkret_pc (nextpid (sp s)) tf root (proc_at 0 (sp s))).
  assert (proc_at 0 (set_initproc (Some 0%nat) (sp s1)) = p) as Hp.
  { change (proc_at 0 (set_initproc (Some 0%nat) (sp s1))) with (proc_at 0 (sp s1)). rewrite Hsp1, proc_at_upd by (simpl; rewrite Hlx; unfold NPROC; lia). unfold p. by rewrite <- (Hpx 0%nat). }
  rewrite Hp. change (p_pagetable p) with root. change (p_trapframe p) with tf.
  destruct (uvmfirst_run (km s1) nodes root q l1 trampoline tf initcode Hcsp) as (m2 & nodes2 & l2 & Hm2 & Hsp2 & Hp2 & Hcode & Hx2);
    [simpl in Hfew; lia|done|].
  assert (tf ∉ l2 ++ node_pages nodes2 ++ [q] ∧ page_ok kend tf) as [Htfn Htf].
  { pose proof (ki_nodup _ _ _ Hk) as Hnd. pose proof (ki_pages _ _ _ Hk) as Hok. rewrite <- Hpg in Hnd, Hok.
    apply NoDup_cons in Hnd as [Hn _]. apply Forall_cons in Hok as [Hok _]. split; [|done].
    rewrite (assoc_L (++)), Hp2, <- Permutation_cons_append. exact Hn. }
  destruct (entry_frame_ok m2 nodes2 root l2 _ trampoline tf Hsp2 Htf Htfn) as [Hsp3 Hq3].
  rewrite (bind_mem _ _ _ tt m2) by (by autorewrite with sys). krun. autorewrite with sys.
  assert (∀ m' x', set_km m' (set_sp x' s1) = set_km m' (set_sp x' s)) as -> by (intros m' x'; by rewrite Hrest).
  set (y := upd_proc 0 (set_p_sz PGSIZE) (set_initproc (Some 0%nat) (sp s1))).
  eexists _, q, tf, root, nodes2, l2. split.
  { apply (userinit_tail _ (p_pid p) tf m2 y x1 x ins s); try done. by unfold y; simpl; rewrite Hsp1. }
  assert (length (procs (sp s1)) = NPROC) as Hls by (rewrite Hsp1; simpl; by rewrite length_alter).
  split; cbn [sp].
  - unfold proc_at at 1. cbn [procs set_lk]. fold (proc_at 0 (upd_proc 0 (λ p0, set_p_state RUNNABLE (set_p_cwd (Some 0%nat) (init_name p0))) y)).
    unfold y. rewrite !proc_at_upd by (simpl; rewrite ?length_alter, ?Hls; unfold NPROC; lia). by rewrite Hp.
  - intros j Hj0. change (proc_at j (upd_proc 0 (λ p0, set_p_state RUNNABLE (set_p_cwd (Some 0%nat) (init_name p0))) y) = proc_at j (sp s)).
    unfold y. rewrite !proc_at_upd_ne by done. change (proc_at j (sp s1) = proc_at j (sp s)). rewrite Hsp1, proc_at_upd_ne by done. apply Hpx.
  - done.
  - apply calm_released; [done|]. unfold y. simpl. by rewrite !length_alter.
  - intros Ht. change (is_free L_ticks (lk x1)). by destruct Hs as [->| ->].
  - exact Hsp3.
  - intros k Hk'. rewrite <- Hcode by done. apply (Hq3 q); [left|]. unfold in_page. lia.
  - apply entry_frame_loads.
  - eapply same_outside_trans; [exact Hmem|]. eapply same_outside_trans.
    + eapply same_outside_mono; [|exact Hx2]. intros r Hr. rewrite <- Hpg. right. exact Hr.
    + intros r Hr. apply entry_frame_out, Hr. rewrite <- Hpg. left.
Qed.
End first.

(** ** Boot, stage by stage *)

(** The routine returns, in a state that satisfies [Post]. *)
Definition reaches {E S A} (m : M E S A) (s : S) (Post : A → S → Prop) : Prop := ∃ a s' t, m s = Done a s' t ∧ Post a s'.

Lemma reaches_bind {E S A B} (m : M E S A) (k : A → M E S B) s Post :
  reaches m s (λ a s', reaches (k a) s' Post) → reaches (bind m k) s Post.
Proof.
  intros (a & s1 & t & Hm & b & s2 & t' & Hk & HP). exists b, s2, (t ++ t'). split; [|done]. unfold bind. by rewrite Hm, Hk.
Qed.
Lemma reaches_done {E S A} (m : M E S A) s a s' t Post : m s = Done a s' t → Post a s' → reaches m s Post.
Proof. intros Hm HP. by exists a, s', t. Qed.

Section stages.
Context {D Q : Type} `{HU : UartDev D} `{HQ : PlicDev Q}.
Context (me : nat).
Local Abbreviation T := (M tev (trapst D Q)).

(** The machine, with all its parts. *)
Definition parts x b fi pi lg bc il ins sb m c co u d q : trapst D Q :=
  mktrapst (mksys x (mkfilest b fi pi (mkfsst (mklogsys lg bc) il ins sb m))) c co u d q.

Section at_state.
Context (x : pstate) (b : bool) (fi : list file) (pi : gmap Z pipe) (lg : log) (bc : bcache) (il : bool) (ins : list inode).
Context (sb : superblock) (m : kmem) (c : csr) (co : cons) (u : uart D) (d : vdisk) (q : Q).
Local Abbreviation here := (parts x b fi pi lg bc il ins sb m c co u d q).

Lemma at_console (Post : unit → trapst D Q → Prop) : (∀ co u, Post tt (parts x b fi pi lg bc il ins sb m c co u d q)) →
  reaches (on_tty me consoleinit) here Post.
Proof. intros HP. eapply reaches_done; [reflexivity|apply HP]. Qed.
Lemma at_mem {A} (p : M event kmem A) a m' (Post : A → trapst D Q → Prop) : p m = Done a m' [] →
  Post a (parts x b fi pi lg bc il ins sb m' c co u d q) → reaches (kmem_ p) here Post.
Proof. intros Hp HP. eapply reaches_done; [|exact HP]. unfold kmem_, on_sys, on_mem, parts, km. simpl. by rewrite Hp. Qed.
Lemma at_proc {A} (p : P A) a x' (Post : A → trapst D Q → Prop) : p x = Done a x' [] →
  Post a (parts x' b fi pi lg bc il ins sb m c co u d q) → reaches (on_proc p) here Post.
Proof. intros Hp HP. eapply reaches_done; [|exact HP]. unfold on_proc, on_sys, on_procs, parts. simpl. by rewrite Hp. Qed.
Lemma at_csr f (Post : unit → trapst D Q → Prop) : Post tt (parts x b fi pi lg bc il ins sb m (f c) co u d q) → reaches (w_csr f) here Post.
Proof. intros HP. by eapply reaches_done. Qed.
Lemma at_plic a v (Post : unit → trapst D Q → Prop) : (∀ q, Post tt (parts x b fi pi lg bc il ins sb m c co u d q)) → reaches (plic_store a v) here Post.
Proof. intros HP. eapply reaches_done; [reflexivity|apply HP]. Qed.
Lemma at_bio bc' (p : M event bcache unit) (Post : unit → trapst D Q → Prop) : p bc = Done tt bc' [] →
  Post tt (parts x b fi pi lg bc' il ins sb m c co u d q) → reaches (on_sys (on_fs me (fbio p))) here Post.
Proof.
  intros Hp HP. eapply reaches_done; [|exact HP]. unfold on_sys, on_fs, on_files, ffs_, fbio, flog, bio, lift, parts. simpl. by rewrite Hp.
Qed.
Lemma at_files (Post : unit → trapst D Q → Prop) : Post tt (parts x false fi pi lg bc il ins sb m c co u d q) →
  reaches (on_sys (on_files me fileinit)) here Post.
Proof. intros HP. by eapply reaches_done. Qed.
Lemma at_printf msg (Post : unit → trapst D Q → Prop) : Post tt here → reaches (kprint msg) here Post.
Proof. intros HP. by eapply reaches_done. Qed.

(** [iinit] takes no reference. *)
Lemma iinit_run n i (fs : fsst kmem) : Forall (λ x, i_ref x = 0) (inodes fs) →
  ∃ ins', for_from n i (λ i, modify (upd_ino i (set_i_lock (initsleeplock "inode")))) fs = Done (E:=event) tt (mkfsst (fl fs) (it_lock fs) ins' (fsb fs) (um fs)) [] ∧
    length ins' = length (inodes fs) ∧ Forall (λ x, i_ref x = 0) ins'.
Proof.
  revert i fs. induction n as [|n IH]; intros i fs Hf.
  - exists (inodes fs). by destruct fs.
  - cbn [for_from]. rewrite bind_modify.
    destruct (IH (S i) (upd_ino i (set_i_lock (initsleeplock "inode")) fs)) as (ins' & Hr & Hl & Hf').
    { simpl. by apply Forall_alter. }
    exists ins'. split; [exact Hr|]. split; [|done]. rewrite Hl. simpl. by rewrite length_alter.
Qed.
Lemma at_inodes (Post : unit → trapst D Q → Prop) : Forall (λ x, i_ref x = 0) ins → (0 < length ins)%nat →
  (∀ y ins', Forall (λ x, i_ref x = 0) (y :: ins') → Post tt (parts x b fi pi lg bc false (y :: ins') sb m c co u d q)) →
  reaches (on_sys (on_fs me iinit)) here Post.
Proof.
  intros Hf Hl HP. destruct (iinit_run NINODE 0 (mkfsst (mklogsys lg bc) false ins sb m) Hf) as ([|y ins'] & Hr & Hlen & Hf'); [simpl in *; lia|].
  eapply reaches_done; [|exact (HP y ins' Hf')]. unfold on_sys, on_fs, on_files, ffs_, lift, iinit, parts. cbn [ffs sf ts].
  rewrite bind_modify. cbn [set_held fsst_locked fl it_lock inodes fsb um]. unfold for_upto. rewrite Hr. done.
Qed.

(** The pages of the disk's queue. *)
Lemma at_disk_page kend p l (Post : Z → trapst D Q → Prop) : kinv kend m (p :: l) →
  (∀ m', kinv kend m' l → same_outside [p] (pm m) (pm m') → Post p (parts x b fi pi lg bc il ins sb m' c co u d q)) →
  reaches disk_page here Post.
Proof.
  intros Hk HP. destruct (kalloc_cons (E:=event) _ _ _ _ Hk) as [Hr Hk1]. pose proof (ki_kend _ _ _ Hk) as Hpos.
  pose proof (ki_pages _ _ _ Hk) as [Hok Hoks]%Forall_cons. pose proof (ki_nodup _ _ _ Hk) as [Hn _]%NoDup_cons.
  destruct (page_ok_u64 _ _ Hpos Hok) as [_ Hp0]. set (m1 := mkkmem _ _ _) in *.
  assert (∀ y, ¬ in_page p y → rd (pm (upd_pm (memset p 0 PGSIZE) m1)) y = rd (pm m1) y ∧ rd (pm m1) y = rd (pm m) y) as Hx.
  { intros y Hy. unfold m1; cbn [pm upd_pm set_pm]. unfold in_page in Hy. by rewrite !rd_memset, !decide_False by done. }
  eapply reaches_done; [|apply (HP (upd_pm (memset p 0 PGSIZE) m1))].
  - unfold disk_page, kmem_. erewrite bind_done; [|unfold on_sys, on_mem, parts, km; simpl; rewrite Hr; reflexivity].
    rewrite (proj2 (Z.eqb_neq p 0) Hp0). reflexivity.
  - eapply kinv_frame; [exact Hk1|reflexivity|reflexivity|]. intros r y Hin Hry. refine (proj1 (Hx y _)). intros Hpy. apply Hn.
    assert (r = p) as <-; [|exact Hin]. eapply page_sep; [|exact Hok|exact Hry|exact Hpy]. by eapply Forall_forall in Hoks.
  - intros y Hy. assert (¬ in_page p y) as Hpy by (apply Hy; left). destruct (Hx y Hpy) as [-> ->]. done.
Qed.

(** A disk as [virtio_disk_init] wants it. *)
Definition disk_ok (mmio : Z → Z) (status : Z) : Prop :=
  (mmio VIRTIO_MMIO_MAGIC_VALUE = 0x74726976 ∧ mmio VIRTIO_MMIO_VERSION = 2 ∧ mmio VIRTIO_MMIO_DEVICE_ID = 2 ∧ mmio VIRTIO_MMIO_VENDOR_ID = 0x554d4551) ∧
  Z.land status VIRTIO_CONFIG_S_FEATURES_OK ≠ 0 ∧ mmio VIRTIO_MMIO_QUEUE_READY = 0 ∧ Z.of_nat NUM ≤ mmio VIRTIO_MMIO_QUEUE_NUM_MAX.

Definition is_mmio (e : vevent) : Prop := match e with MmioWrite _ _ => True | _ => False end.
Lemma dispatch_mmio t (s : trapst D Q) : Forall is_mmio t → ∃ t', dispatch_disk me t s = Done tt s t'.
Proof.
  induction t as [|e t IH]; intros Ht; [by exists []|]. apply Forall_cons in Ht as [He Ht]. destruct e as [|r v]; [done|].
  destruct (IH Ht) as [t' Ht']. exists (EvMmio r v :: t'). cbn [dispatch_disk]. rewrite bind_emit, Ht'. done.
Qed.
Lemma disk_init_run mmio status p1 p2 p3 : disk_ok mmio status → length (v_free d) = NUM → p1 ≠ 0 → p2 ≠ 0 → p3 ≠ 0 →
  ∃ d' t, virtio_disk_init mmio status p1 p2 p3 d = Done tt d' t ∧ Forall is_mmio t.
Proof.
  intros ((H1 & H2 & H3 & H4) & H5 & H6 & H7) Hl Hp1 Hp2 Hp3. unfold virtio_disk_init. rewrite bind_modify, H1, H2, H3, H4. cbn [Z.eqb Pos.eqb negb orb].
  rewrite !bind_emit. destruct (Z.eqb_spec (Z.land status VIRTIO_CONFIG_S_FEATURES_OK) 0); [done|]. rewrite !bind_emit, H6. cbn [Z.eqb negb].
  destruct (Z.eqb_spec (mmio VIRTIO_MMIO_QUEUE_NUM_MAX) 0) as [H0|]; [rewrite H0 in H7; unfold NUM in H7; lia|].
  destruct (Z.ltb_spec (mmio VIRTIO_MMIO_QUEUE_NUM_MAX) (Z.of_nat NUM)); [lia|].
  destruct (Z.eqb_spec p1 0); [done|]. destruct (Z.eqb_spec p2 0); [done|]. destruct (Z.eqb_spec p3 0); [done|]. cbn [orb].
  rewrite !bind_modify, !bind_emit.
  match goal with |- context [bind (for_upto _ _) _ ?s'] => rewrite (bind_done _ _ _ _ _ (free_all_run s' Hl)) end. unfold emit. cbn [pre app].
  eexists _, _. split; [reflexivity|]. repeat (constructor; [done|]). constructor.
Qed.
Lemma at_disk mmio status p1 p2 p3 (Post : unit → trapst D Q → Prop) : disk_ok mmio status → length (v_free d) = NUM →
  p1 ≠ 0 → p2 ≠ 0 → p3 ≠ 0 → (∀ d', Post tt (parts x b fi pi lg bc il ins sb m c co u d' q)) →
  reaches (on_disk me (virtio_disk_init mmio status p1 p2 p3)) here Post.
Proof.
  intros Hd Hl H1 H2 H3 HP. destruct (disk_init_run mmio status p1 p2 p3 Hd Hl H1 H2 H3) as (d' & t & Hr & Ht).
  destruct (dispatch_mmio t (parts x b fi pi lg bc il ins sb m c co u d' q) Ht) as [t' Ht'].
  eapply reaches_done; [|apply (HP d')]. unfold on_disk. change (tdisk here) with d. rewrite Hr.
  change (set_tdisk d' here) with (parts x b fi pi lg bc il ins sb m c co u d' q). rewrite (bind_run _ _ _ _ _ _ Ht'). reflexivity.
Qed.
End at_state.
End stages.

(** ** The whole of [main] on hart 0 *)

Definition boot_table : pstate := set_lk (initlock L_ticks "time" (lk boot_state)) boot_state.
Lemma procinit_run : procinit zero_state = Done tt boot_state [].
Proof.
  assert (match procinit zero_state with Done tt _ [] => true | _ => false end = true) as Hr by (vm_compute; reflexivity).
  unfold boot_state. destruct (procinit zero_state) as [[] x [|]| | |]; done.
Qed.
Lemma boot_table_facts : readyb boot_table = true ∧ lock_freeb L_pid (lk boot_table) = true ∧ lock_freeb L_wait (lk boot_table) = true ∧
  lock_freeb L_ticks (lk boot_table) = true ∧ nextpid boot_table = 1 ∧ p_kstack (proc_at 0 boot_table) = KSTACK 0.
Proof. split_and!; vm_compute; reflexivity. Qed.
#[local] Opaque boot_state.

Lemma boot_table_calm : calm boot_table ∧ is_free L_ticks (lk boot_table).
Proof.
  destruct boot_table_facts as (H1 & H2 & H3 & H4 & _).
  split; [split; [by apply readyb_ready|by apply lock_freeb_free..]|by apply lock_freeb_free].
Qed.
Lemma set_lk_at ls x i : proc_at i (set_lk ls x) = proc_at i x.
Proof. done. Qed.
Lemma boot_table_procs i : proc_at i boot_table = proc_at i boot_state.
Proof. unfold boot_table. apply set_lk_at. Qed.
Lemma boot_table_clean : unused_clean boot_table ∧ ∀ i, (i < NPROC)%nat → p_state (proc_at i boot_table) = UNUSED.
Proof.
  split; intros i Hi; rewrite boot_table_procs; destruct (boot_unused i Hi) as (H1 & _ & H3 & H4 & H5 & H6).
  - intros _. exact (conj H3 (conj H4 (conj H5 H6))).
  - exact H1.
Qed.
#[local] Opaque boot_table.

Section boot.
Context {D Q : Type} `{HU : UartDev D} `{HQ : PlicDev Q}.
Context (kend etext trampoline forkret_pc kernelvec : Z) (mmio : Z → Z) (vstatus : Z) (printfinit : M tev (trapst D Q) unit).

(** The kernel is loaded below [kend], with code up to [etext] and two hundred
    pages of memory left at least. *)
Record loaded : Prop := {
  ld_kend : 0 < kend ∧ kend + 200 * PGSIZE ≤ PHYSTOP;
  ld_etext : etext mod PGSIZE = 0 ∧ KERNBASE < etext < PHYSTOP;
  ld_tramp : pte_page trampoline
}.

(** The machine when [main] starts: static storage is zero. *)
Definition powered (s : trapst D Q) : Prop := ∃ b fi pi lg dsk il sb m c co u d q,
  s = parts zero_state b fi pi lg (boot_cache dsk) il (replicate NINODE inode0) sb m c co u d q ∧
  freelist m = 0 ∧ length (v_free d) = NUM.

(** The machine when hart 0 calls [scheduler]: paging and traps are set up, the
    kernel's page table is as intended, and process 0, whose pid is 1, is ready to
    enter user space through [forkret] and run [initcode]. *)
Record booted (kpt : Z) (s : trapst D Q) : Prop := {
  bt_satp : satp (tc s) = MAKE_SATP kpt;
  bt_stvec : stvec (tc s) = kernelvec;
  bt_kernel : ∃ nodes stacks, length stacks = NPROC ∧ NoDup stacks ∧ pgt kend (pm (km (ts s))) nodes kpt ∧
    ∀ va, 0 ≤ va < MAXVA → leaf (pm (km (ts s))) nodes va = kernel_map etext trampoline stacks va;
  bt_locks : calm (sp (ts s)) ∧ is_free L_ticks (lk (sp (ts s)));
  bt_first : ∃ tf root q nodes l,
    let p := proc_at 0 (sp (ts s)) in
    (p_state p = RUNNABLE ∧ p_pid p = 1 ∧ p_sz p = PGSIZE ∧ p_trapframe p = tf ∧ p_pagetable p = root ∧ p_cwd p = Some 0%nat) ∧
    (ctx_ra (p_context p) = forkret_pc ∧ ctx_sp (p_context p) = KSTACK 0 + PGSIZE) ∧
    pspace kend (km (ts s)) nodes root l [(q, first_flags)] trampoline tf ∧
    (∀ k, 0 ≤ k < PGSIZE → rd (pm (km (ts s))) (q + k) = default 0 (initcode !! Z.to_nat k)) ∧
    load64 (pm (km (ts s))) (tf + TF_epc) = 0 ∧ load64 (pm (km (ts s))) (tf + TF_sp) = PGSIZE;
  bt_init : initproc (sp (ts s)) = Some 0%nat;
  bt_others : ∀ j, (0 < j < NPROC)%nat → p_state (proc_at j (sp (ts s))) = UNUSED
}.

(** The pages left when [userinit] runs are not of the kernel's page table. *)
Lemma kernel_kept m0 m1 m2 nodes kpt l stacks p1 p2 p3 l' :
  vmst kend m0 nodes kpt l → (∀ va, 0 ≤ va < MAXVA → leaf (pm m0) nodes va = kernel_map etext trampoline stacks va) →
  l = p1 :: p2 :: p3 :: l' → same_outside [p1; p2; p3] (pm m0) (pm m1) → same_outside l' (pm m1) (pm m2) →
  pgt kend (pm m2) nodes kpt ∧ ∀ va, 0 ≤ va < MAXVA → leaf (pm m2) nodes va = kernel_map etext trampoline stacks va.
Proof.
  intros Hv Hm -> H1 H2. pose proof (vm_pgt _ _ _ _ _ Hv) as Hpg.
  assert (∀ x, in_nodes nodes x → rd (pm m2) x = rd (pm m0) x) as Hx.
  { intros x (k & r & Hk & Hin). assert (∀ p, p ∈ p1 :: p2 :: p3 :: l' → ¬ in_page p x) as Hn.
    { intros p Hp Hpx. assert (p = r) as ->; [|by eapply (vm_sep _ _ _ _ _ Hv)].
      eapply page_sep; [| |exact Hpx|exact Hin]; [|by eapply pg_page]. eapply (proj1 (Forall_forall _ _)); [apply (ki_pages _ _ _ (vm_kinv _ _ _ _ _ Hv))|done]. }
    rewrite H2, H1; [done|..]; intros p Hp; apply Hn; set_solver. }
  split; [by eapply pgt_ext|]. intros va Hva. rewrite <- Hm by done. by eapply leaf_ext.
Qed.

Lemma pages_from_length p n : length (pages_from p n) = n.
Proof. revert p. induction n as [|n IH]; intros p; [done|]. simpl. by rewrite IH. Qed.
Lemma all_pages_length : 0 < kend → kend + 200 * PGSIZE ≤ PHYSTOP → (199 ≤ length (all_pages kend))%nat.
Proof.
  intros H1 H2. unfold all_pages. rewrite pages_from_length. unfold PHYSTOP, KERNBASE, PGSIZE in *. rewrite PGROUNDUP_div by lia. unfold PGSIZE.
  assert (199 ≤ (2147483648 + 128 * 1024 * 1024 - (kend + 4095) / 4096 * 4096) / 4096) by mach_lia. lia.
Qed.

(** From the end of [disk_init] to the scheduler. *)
Lemma boot_user kpt x b fi pi lg bc sb m0 m c co u d q nodes l stacks p1 p2 p3 y ins :
  loaded → x = boot_table → vmst kend m0 nodes kpt (p1 :: p2 :: p3 :: l) → length stacks = NPROC → NoDup stacks →
  (∀ va, 0 ≤ va < MAXVA → leaf (pm m0) nodes va = kernel_map etext trampoline stacks va) →
  same_outside [p1; p2; p3] (pm m0) (pm m) → kinv kend m l → (12 ≤ length l)%nat →
  satp c = MAKE_SATP kpt → stvec c = kernelvec → Forall (λ x, i_ref x = 0) (y :: ins) →
  reaches (on_sys (userinit 0 kend trampoline forkret_pc) ;; ret kpt)
    (parts x b fi pi lg bc false (y :: ins) sb m c co u d q : trapst D Q) booted.
Proof.
  intros [[Hk1 Hk2] He Htr] -> Hv Hls Hnd Hmap Hx Hk Hl Hsatp Hstvec Hf. set (s := parts _ _ _ _ _ _ _ _ _ _ _ _ _ _ _).
  destruct boot_table_calm as [Hc Ht]. destruct boot_table_clean as [Hcl Hun]. destruct boot_table_facts as (_ & _ & _ & _ & Hpid & Hks).
  destruct (userinit_run kend Hk1 0 trampoline forkret_pc (ts s) l y ins Hc Hcl Hk Htr Hl) as (s' & r & tf & root & n' & l' & Hr & Hst);
    [apply Hun; unfold NPROC; lia|done|done|done|].
  destruct Hst as [H1 H2 H3 H4 H5 H6 H7 H8 H9]. change (sp (ts s)) with boot_table in *. rewrite Hpid in H1.
  apply reaches_bind. apply (reaches_done _ _ tt (set_ts s' s) []); [unfold on_sys; rewrite Hr; done|].
  apply (reaches_done _ _ kpt (set_ts s' s) []); [done|].
  destruct (kernel_kept m0 m (km s') nodes kpt _ stacks p1 p2 p3 l Hv Hmap eq_refl Hx H9) as [Hpg Hleaf].
  split; [exact Hsatp|exact Hstvec|exists nodes, stacks; exact (conj Hls (conj Hnd (conj Hpg Hleaf)))|exact (conj H4 (H5 Ht))| |exact H3|].
  - exists tf, root, r, n', l'. change (ts (set_ts s' s)) with s'. rewrite H1. split; [|split; [|exact (conj H6 (conj H7 H8))]].
    + split_and!; reflexivity.
    + split; [reflexivity|]. change (u64 (p_kstack (proc_at 0 boot_table) + PGSIZE) = KSTACK 0 + PGSIZE). by rewrite Hks.
  - intros j Hj. change (ts (set_ts s' s)) with s'. rewrite H2 by lia. apply Hun. lia.
Qed.

Lemma page_nonzero p : 0 < kend → page_ok kend p → p ≠ 0.
Proof. intros Hk [_ Hp] ->. lia. Qed.
Lemma Forall_cons_three {A} (P : A → Prop) x y z l : Forall P (x :: y :: z :: l) → P x ∧ P y ∧ P z ∧ Forall P l.
Proof. by rewrite !Forall_cons. Qed.

(** From [binit] to the scheduler. *)
Lemma boot_disk kpt b fi pi lg dsk il sb m c co u d q nodes l stacks :
  loaded → disk_ok mmio vstatus → length (v_free d) = NUM → vmst kend m nodes kpt l → (15 ≤ length l)%nat → length stacks = NPROC → NoDup stacks →
  (∀ va, 0 ≤ va < MAXVA → leaf (pm m) nodes va = kernel_map etext trampoline stacks va) →
  satp c = MAKE_SATP kpt → stvec c = kernelvec →
  reaches (on_sys (on_fs 0 (fbio binit)) ;; on_sys (on_fs 0 iinit) ;; on_sys (on_files 0 fileinit) ;; disk_init 0 mmio vstatus ;;
           on_sys (userinit 0 kend trampoline forkret_pc) ;; ret kpt)
    (parts boot_table b fi pi lg (boot_cache dsk) il (replicate NINODE inode0) sb m c co u d q : trapst D Q) booted.
Proof.
  intros Hld Hd Hfree Hv Hl Hls Hnd Hmap Hsatp Hstvec. pose proof (proj1 (ld_kend Hld)) as Hk0.
  destruct l as [|p1 [|p2 [|p3 l]]]; [simpl in Hl; lia..|]. pose proof (vm_kinv _ _ _ _ _ Hv) as Hk.
  pose proof (ki_pages _ _ _ Hk) as (Hp1 & Hp2 & Hp3 & _)%Forall_cons_three.
  apply reaches_bind. destruct (binit_links zero_block dsk) as (bc & Hbi & _). eapply at_bio; [exact Hbi|].
  apply reaches_bind, at_inodes; [apply Forall_replicate; reflexivity|rewrite length_replicate; unfold NINODE; lia|]. intros y ins Hf.
  apply reaches_bind, at_files. apply reaches_bind. unfold disk_init.
  apply reaches_bind. apply (at_disk_page _ _ _ _ _ _ _ _ _ _ _ _ _ _ _ kend p1 (p2 :: p3 :: l)); [done|]. intros m1 Hk1 Hx1.
  apply reaches_bind. apply (at_disk_page _ _ _ _ _ _ _ _ _ _ _ _ _ _ _ kend p2 (p3 :: l)); [done|]. intros m2 Hk2 Hx2.
  apply reaches_bind. apply (at_disk_page _ _ _ _ _ _ _ _ _ _ _ _ _ _ _ kend p3 l); [done|]. intros m3 Hk3 Hx3.
  apply at_disk; [done|done|by eapply page_nonzero..|]. intros d'.
  eapply (boot_user kpt boot_table _ _ _ _ _ _ m m3);
    [exact Hld|reflexivity|exact Hv|exact Hls|exact Hnd|exact Hmap| |exact Hk3|simpl in Hl; lia|exact Hsatp|exact Hstvec|exact Hf].
  intros z Hz. rewrite Hx3, Hx2, Hx1; [reflexivity|..]; intros p ->%list_elem_of_singleton; apply Hz; rewrite !elem_of_cons; tauto.
Qed.

End boot.

Definition boot_machine : trapst sim (list Z) :=
  parts zero_state false [] ∅ log0 (boot_cache ∅) false (replicate NINODE inode0) (mksuperblock 0 0 0 0 0 0 0 0) (mkkmem false 0 ∅)
    (mkcsr 0 0 0 0 0 0 0 0) (mkcons false [] 0 0 0) (uart0 (mksim [] false [])) demo_bss [].
