(* ===== verification/User.v ===== *)
(** What the user programs share: the system calls they make, as a trace of
    writes, and how [read] delivers a file. *)
From Stdlib Require Import ZArith Lia.
From stdpp Require Import base list gmap strings.
From S2P Require Import Prelude Machine.

(** The calls a user program makes: [write(fd, p, n)] with its bytes, and
    those of the utilities with their arguments. *)
Inductive ucall : Type :=
| Write (fd : Z) (bs : list Z)
| Unlink (path : list Z)
| Mkdir (path : list Z)
| Link (old new : list Z)
| Kill (pid : Z)
| Settickets (n : Z).

(** The bytes written to [fd]. *)
Definition written (fd : Z) (t : list ucall) : list Z :=
  concat ((λ c, match c with Write fd' bs => if fd' =? fd then bs else [] | _ => [] end) <$> t).

Lemma written_app fd t t' : written fd (t ++ t') = written fd t ++ written fd t'.
Proof. unfold written. by rewrite fmap_app, concat_app. Qed.

Lemma written_cons fd c t : written fd (c :: t) = written fd [c] ++ written fd t.
Proof. apply (written_app fd [c]). Qed.

(** The bytes of a string constant. *)
Definition str (s : string) : list Z := (λ a, Z.of_N (Ascii.N_of_ascii a)) <$> String.list_ascii_of_string s.

(** A file opened for reading: [input] is the rest of it, and the [i]-th call
    of [read] is ready to deliver [avail i] bytes, or fails if that is
    negative. [read fd buf n] returns the bytes stored with the return value. *)
Definition read (avail : nat → Z) (i : nat) (n : Z) (input : list Z) : list Z * Z :=
  if avail i <? 0 then ([], -1)
  else let bs := take (Z.to_nat (n `min` avail i)) input in (bs, Z.of_nat (length bs)).

(** A file that can be read: every read is ready to deliver something. *)
Definition readable (avail : nat → Z) : Prop := ∀ i, 0 < avail i.

Lemma read_ok avail i n input : readable avail → 0 ≤ n →
  ∃ k, read avail i n input = (take k input, Z.of_nat (length (take k input))) ∧ (Z.of_nat k ≤ n) ∧
    (0 < n → input ≠ [] → (0 < length (take k input))%nat).
Proof.
  intros Ha Hn. specialize (Ha i). unfold read. destruct (Z.ltb_spec (avail i) 0); [lia|].
  exists (Z.to_nat (n `min` avail i)). split_and!; [done|lia|]. intros H0 Hi. rewrite length_take.
  destruct input; [done|]. simpl. lia.
Qed.

Lemma drop_length_take {A} k (l : list A) : drop (length (take k l)) l = drop k l.
Proof.
  rewrite length_take. destruct (decide (k ≤ length l)%nat); [by rewrite Nat.min_l|].
  rewrite Nat.min_r by lia. by rewrite !drop_ge by lia.
Qed.
