(* ===== verification/Grep.v ===== *)
(** The pattern matcher and the line loop of [grep.c]. *)
From Stdlib Require Import ZArith Lia.
From stdpp Require Import base list gmap strings.
From S2P Require Import Prelude Machine User.

Definition CARET : Z := 94.
Definition STAR : Z := 42.
Definition DOT : Z := 46.
Definition DOLLAR : Z := 36.
Definition NL : Z := 10.

(** ** The matcher

    A C string is the list of its bytes before the NUL. *)

(** [matchstar(c, re, text)], with [here text] for [matchhere(re, text)]. *)
Fixpoint matchstar (c : Z) (here : list Z → bool) (text : list Z) : bool :=
  if here text then true
  else match text with
       | [] => false
       | t :: text' => if (t =? c) || (c =? DOT) then matchstar c here text' else false
       end.

Fixpoint matchhere (re text : list Z) {struct re} : bool :=
  match re with
  | [] => true
  | c :: re1 =>
      let plain :=
        if (c =? DOLLAR) && (match re1 with [] => true | _ => false end)
        then match text with [] => true | _ => false end
        else match text with
             | t :: text' => if (c =? DOT) || (c =? t) then matchhere re1 text' else false
             | [] => false
             end in
      match re1 with
      | r1 :: re2 => if r1 =? STAR then matchstar c (matchhere re2) text else plain
      | [] => plain
      end
  end.

(** The loop of [match], over the suffixes of [text] down to the empty one. *)
Fixpoint match_from (re text : list Z) : bool :=
  if matchhere re text then true
  else match text with [] => false | _ :: text' => match_from re text' end.

Definition match_ (re text : list Z) : bool :=
  match re with
  | c :: re' => if c =? CARET then matchhere re' text else match_from re text
  | [] => match_from re text
  end.

(** ** The line loop *)

(** [strchr(p, '\n')]: the bytes of [p] before the newline and those after it,
    if one comes before the first NUL. *)
Fixpoint split_nl (p : list Z) : option (list Z * list Z) :=
  match p with
  | [] => None
  | c :: p' =>
      if c =? 0 then None
      else if c =? NL then Some ([], p')
      else match split_nl p' with Some (line, rest) => Some (c :: line, rest) | None => None end
  end.

(** The inner [while] of [grep]: what it writes, and the bytes from [p] on. *)
Fixpoint grep_lines (fuel : nat) (pattern p : list Z) : list ucall * list Z :=
  match fuel with
  | O => ([], p)
  | S f =>
      match split_nl p with
      | None => ([], p)
      | Some (line, rest) =>
          let (out, p') := grep_lines f pattern rest in
          ((if match_ pattern line then [Write 1 (line ++ [NL])] else []) ++ out, p')
      end
  end.

(** [grep]: [buf] holds the [m] bytes kept from the last round, [input] is what
    has not been read; the number of reads is bounded by [fuel]. *)
Fixpoint grep (fuel : nat) (pattern : list Z) (avail : nat → Z) (i : nat) (buf input : list Z) : option (list ucall) :=
  match fuel with
  | O => None
  | S f =>
      let (bs, n) := read avail i (1024 - Z.of_nat (length buf) - 1) input in
      if n <=? 0 then Some []
      else
        let (out, p) := grep_lines (length (buf ++ bs)) pattern (buf ++ bs) in
        match grep f pattern avail (S i) p (drop (length bs) input) with
        | Some out' => Some (out ++ out')
        | None => None
        end
  end.

(** [main]: what it writes and the argument of [exit]; [open] is the contents
    of a file, if it can be opened. *)
Fixpoint grep_files (pattern : list Z) (open : list Z → option (list Z)) (avail : nat → Z) (files : list (list Z)) : option (list ucall * Z) :=
  match files with
  | [] => Some ([], 0)
  | name :: files' =>
      match open name with
      | None => Some ([Write 1 (str "grep: cannot open " ++ name ++ [NL])], 1)
      | Some content =>
          match grep (S (length content)) pattern avail 0 [] content with
          | None => None
          | Some out =>
              match grep_files pattern open avail files' with
              | Some (out', st) => Some (out ++ out', st)
              | None => None
              end
          end
      end
  end.
Definition grep_main (open : list Z → option (list Z)) (stdin : list Z) (avail : nat → Z) (argv : list (list Z)) : option (list ucall * Z) :=
  match argv with
  | _ :: pattern :: [] =>
      match grep (S (length stdin)) pattern avail 0 [] stdin with Some out => Some (out, 0) | None => None end
  | _ :: pattern :: files => grep_files pattern open avail files
  | _ => Some ([Write 2 (str "usage: grep pattern [file ...]" ++ [NL])], 1)
  end.

(** ** The language of a pattern *)

(** A pattern is a sequence of characters ([.] for any), each possibly starred,
    possibly anchored at either end. *)
Inductive item : Type := One (c : Z) | Star (c : Z).

Definition accepts (c x : Z) : Prop := c = DOT ∨ c = x.

Inductive in_lang : list item → list Z → Prop :=
| il_nil : in_lang [] []
| il_one c x l w : accepts c x → in_lang l w → in_lang (One c :: l) (x :: w)
| il_star c l w1 w2 : Forall (accepts c) w1 → in_lang l w2 → in_lang (Star c :: l) (w1 ++ w2).

(** The items of a pattern and whether it ends in the anchor [$]. *)
Fixpoint items (re : list Z) : list item * bool :=
  match re with
  | [] => ([], false)
  | c :: re1 =>
      match re1 with
      | [] => if c =? DOLLAR then ([], true) else ([One c], false)
      | r1 :: re2 =>
          if r1 =? STAR then let (l, e) := items re2 in (Star c :: l, e)
          else let (l, e) := items re1 in (One c :: l, e)
      end
  end.

Definition pattern_of (re : list Z) : bool * (list item * bool) :=
  match re with c :: re' => if c =? CARET then (true, items re') else (false, items re) | [] => (false, items re) end.

(** [text] has a part the pattern describes, at the ends it is anchored to. *)
Definition matches (re text : list Z) : Prop :=
  let '(b, (l, e)) := pattern_of re in
  ∃ pre w post, text = pre ++ w ++ post ∧ in_lang l w ∧ (b = true → pre = []) ∧ (e = true → post = []).

(** A prefix of [text] is described. *)
Definition starts (p : list item * bool) (text : list Z) : Prop :=
  ∃ w post, text = w ++ post ∧ in_lang p.1 w ∧ (p.2 = true → post = []).

(** Induction on patterns the way [matchhere] walks them. *)
Lemma pattern_ind (P : list Z → Prop) :
  P [] → (∀ c, P [c]) → (∀ c re2, P re2 → P (c :: STAR :: re2)) →
  (∀ c r1 re2, r1 ≠ STAR → P (r1 :: re2) → P (c :: r1 :: re2)) → ∀ re, P re.
Proof.
  intros H0 H1 H2 H3 re. enough (P re ∧ ∀ c, P (c :: re)) by tauto.
  induction re as [|r re [IH1 IH2]]; [auto|]. split; [apply IH2|]. intros c.
  destruct (decide (r = STAR)) as [->|]; auto.
Qed.

Lemma starts_one c l e text : starts (One c :: l, e) text ↔ ∃ x text', text = x :: text' ∧ accepts c x ∧ starts (l, e) text'.
Proof.
  unfold starts; simpl. split.
  - intros (w & post & -> & Hw & He). inversion Hw as [|? x ? w' Hx Hw'|]; subst. simpl. eauto 10.
  - intros (x & text' & -> & Hx & w & post & -> & Hw & He). exists (x :: w), post. split_and!; [done|by constructor|done].
Qed.

Lemma starts_star c l e text : starts (Star c :: l, e) text ↔
  ∃ w text', text = w ++ text' ∧ Forall (accepts c) w ∧ starts (l, e) text'.
Proof.
  unfold starts; simpl. split.
  - intros (w & post & -> & Hw & He). inversion Hw as [| |? ? w1 w2 H1 H2]; subst. rewrite <- app_assoc. eauto 10.
  - intros (w1 & text' & -> & H1 & w & post & -> & Hw & He). exists (w1 ++ w), post. split_and!; [by rewrite app_assoc|by constructor|done].
Qed.

Lemma matchstar_correct c here text : matchstar c here text = true ↔
  ∃ w text', text = w ++ text' ∧ Forall (accepts c) w ∧ here text' = true.
Proof.
  induction text as [|t text IH]; simpl.
  - destruct (here []) eqn:Hh; split; try done.
    + intros _. by exists [], [].
    + intros (w & text' & Hw & _ & He). symmetry in Hw. apply app_nil in Hw as [-> ->]. congruence.
  - destruct (here (t :: text)) eqn:Hh.
    { split; [|done]. intros _. by exists [], (t :: text). }
    destruct ((t =? c) || (c =? DOT)) eqn:Ha.
    + rewrite IH. split.
      * intros (w & text' & -> & Hw & He). exists (t :: w), text'. split_and!; [done| |done]. constructor; [|done].
        apply orb_true_iff in Ha. unfold accepts. lia.
      * intros ([|x w] & text' & Hw & Hf & He); [simpl in Hw; subst; congruence|]. injection Hw as <- ->.
        exists w, text'. apply Forall_cons in Hf as [_ Hf]. done.
    + split; [done|]. intros ([|x w] & text' & Hw & Hf & He); [simpl in Hw; subst; congruence|]. injection Hw as <- ->.
      apply Forall_cons in Hf as [Hx _]. apply orb_false_iff in Ha. unfold accepts in Hx. lia.
Qed.

Lemma starts_plain c re1 text : (∀ text', matchhere re1 text' = true ↔ starts (items re1) text') →
  match text with t :: text' => if (c =? DOT) || (c =? t) then matchhere re1 text' else false | [] => false end = true ↔
  starts (One c :: (items re1).1, (items re1).2) text.
Proof.
  intros IH. rewrite starts_one. destruct text as [|t text].
  - split; [done|]. by intros (? & ? & ? & _).
  - destruct ((c =? DOT) || (c =? t)) eqn:Ha.
    + rewrite IH. apply orb_true_iff in Ha. destruct (items re1) as [l e]. simpl. split.
      * intros Hs. exists t, text. split_and!; [done|unfold accepts; lia|done].
      * intros (x & text' & Hx & _ & Hs). by injection Hx as <- <-.
    + split; [done|]. apply orb_false_iff in Ha. intros (x & text' & Hx & Hacc & _). injection Hx as <- <-.
      unfold accepts in Hacc. lia.
Qed.

Lemma matchhere_correct re : ∀ text, matchhere re text = true ↔ starts (items re) text.
Proof.
  induction re as [|c|c re2 IH|c r1 re2 Hr1 IH] using pattern_ind; intros text.
  - split; [|done]. intros _. exists [], text. split_and!; [done|constructor|done].
  - cbn [matchhere items]. destruct (Z.eqb_spec c DOLLAR) as [->|Hc]; cbn [andb].
    + unfold starts; simpl. destruct text as [|t text].
      * split; [|done]. intros _. exists [], []. split_and!; [done|constructor|done].
      * split; [done|]. intros (w & post & Ht & Hw & He). inversion Hw; subst. rewrite He in Ht by done. done.
    + apply (starts_plain c []). intros text'. split; [|done]. intros _. exists [], text'. split_and!; [done|constructor|done].
  - cbn [matchhere items]. change (STAR =? STAR) with true. cbv iota. rewrite matchstar_correct.
    destruct (items re2) as [l e]. rewrite starts_star. split; intros (w & text' & -> & Hw & Hs); exists w, text'; by rewrite ?IH in *.
  - remember (r1 :: re2) as re1 eqn:Hre. cbn [matchhere items]. subst re1.
    destruct (Z.eqb_spec r1 STAR); [done|]. rewrite andb_false_r. cbv iota.
    rewrite starts_plain by done. by destruct (items (r1 :: re2)).
Qed.

Lemma match_from_correct re text : match_from re text = true ↔ ∃ pre text', text = pre ++ text' ∧ starts (items re) text'.
Proof.
  induction text as [|t text IH]; simpl.
  - destruct (matchhere re []) eqn:Hm; split; try done.
    + intros _. exists [], []. by rewrite <- matchhere_correct.
    + intros (pre & text' & Hp & Hs). symmetry in Hp. apply app_nil in Hp as [-> ->]. apply matchhere_correct in Hs. congruence.
  - destruct (matchhere re (t :: text)) eqn:Hm.
    { split; [|done]. intros _. exists [], (t :: text). by rewrite <- matchhere_correct. }
    rewrite IH. split.
    + intros (pre & text' & -> & Hs). by exists (t :: pre), text'.
    + intros ([|x pre] & text' & Hp & Hs); simpl in Hp; [subst; apply matchhere_correct in Hs; congruence|].
      injection Hp as <- ->. eauto.
Qed.

(** C23. [match] is the matcher of the pattern language it documents ([^], [.],
    [*], [$]): it accepts a line exactly when some part of the line, at the end
    the pattern is anchored to, is in the language of the pattern. *)
Theorem grep_match_correct re text : match_ re text = true ↔ matches re text.
Proof.
  assert (match_from re text = true ↔ let (l, e) := items re in
    ∃ pre w post, text = pre ++ w ++ post ∧ in_lang l w ∧ (false = true → pre = []) ∧ (e = true → post = [])) as Hfrom.
  { rewrite match_from_correct. unfold starts. destruct (items re) as [l e]. simpl. split.
    - intros (pre & ? & -> & w & post & -> & ? & ?). by exists pre, w, post.
    - intros (pre & w & post & -> & ? & ? & ?). eauto 10. }
  unfold match_, matches, pattern_of. destruct re as [|c re']; [exact Hfrom|].
  destruct (c =? CARET); [|exact Hfrom]. rewrite matchhere_correct. unfold starts. destruct (items re') as [l e]. simpl. split.
  - intros (w & post & -> & ? & ?). by exists [], w, post.
  - intros (pre & w & post & -> & ? & Hp & ?). rewrite Hp by done. by exists w, post.
Qed.

(** ** The line loop *)

(** The lines of a file that end in a newline, [cur] being the line read so
    far. *)
Fixpoint lines (cur input : list Z) : list (list Z) :=
  match input with
  | [] => []
  | c :: input' => if c =? NL then cur :: lines [] input' else lines (cur ++ [c]) input'
  end.

Lemma lines_line cur line rest : NL ∉ line → lines cur (line ++ NL :: rest) = (cur ++ line) :: lines [] rest.
Proof.
  revert cur. induction line as [|c line IH]; intros cur Hl; simpl; [by rewrite app_nil_r|].
  apply not_elem_of_cons in Hl as [Hc Hl]. destruct (Z.eqb_spec c NL); [congruence|].
  rewrite IH by done. by rewrite <- app_assoc.
Qed.
Lemma lines_partial cur line : NL ∉ line → lines cur line = [].
Proof.
  revert cur. induction line as [|c line IH]; intros cur Hl; simpl; [done|].
  apply not_elem_of_cons in Hl as [Hc Hl]. destruct (Z.eqb_spec c NL); [congruence|]. by apply IH.
Qed.
Lemma lines_concat ls rest : Forall (λ l, NL ∉ l) ls → lines [] (concat ((.++ [NL]) <$> ls) ++ rest) = ls ++ lines [] rest.
Proof.
  induction 1 as [|l ls Hl _ IH]; [done|]. rewrite fmap_cons. simpl. rewrite <- !app_assoc. simpl.
  rewrite lines_line by done. by rewrite IH.
Qed.

Lemma split_nl_spec p : 0 ∉ p →
  match split_nl p with Some (line, rest) => p = line ++ NL :: rest ∧ NL ∉ line | None => NL ∉ p end.
Proof.
  induction p as [|c p IH]; intros Hp; simpl; [set_solver|]. apply not_elem_of_cons in Hp as [Hc Hp].
  destruct (Z.eqb_spec c 0); [congruence|]. destruct (Z.eqb_spec c NL) as [->|]; [split; [done|set_solver]|].
  specialize (IH Hp). destruct (split_nl p) as [[line rest]|].
  - destruct IH as [-> Hl]. split; [done|]. by apply not_elem_of_cons.
  - by apply not_elem_of_cons.
Qed.

(** What [grep] should write for the lines [ls]. *)
Definition matching (pattern : list Z) (ls : list (list Z)) : list ucall :=
  (λ l, Write 1 (l ++ [NL])) <$> filter (λ l, match_ pattern l = true) ls.

Lemma grep_lines_run fuel pattern p : (length p ≤ fuel)%nat → 0 ∉ p → ∃ ls p',
  grep_lines fuel pattern p = (matching pattern ls, p') ∧ p = concat ((.++ [NL]) <$> ls) ++ p' ∧ Forall (λ l, NL ∉ l) ls ∧ NL ∉ p'.
Proof.
  revert p. induction fuel as [|fuel IH]; intros p Hf Hp; simpl.
  { destruct p; [|simpl in Hf; lia]. exists [], []. split_and!; [done|done|done|set_solver]. }
  pose proof (split_nl_spec p Hp) as Hs. destruct (split_nl p) as [[line rest]|]; [|by exists [], p].
  destruct Hs as [-> Hl]. rewrite length_app in Hf. simpl in Hf.
  destruct (IH rest) as (ls & p' & -> & -> & Hls & Hp'); [lia|set_solver|].
  exists (line :: ls), p'. split_and!; [|by rewrite fmap_cons; simpl; rewrite <- !app_assoc|by constructor|done].
  f_equal. unfold matching. rewrite filter_cons. by destruct (match_ pattern line).
Qed.

Lemma grep_run pattern avail fuel i buf input : readable avail → (length input < fuel)%nat → 0 ∉ buf ++ input → NL ∉ buf →
  (∀ l, l ∈ lines [] (buf ++ input) → (length l ≤ 1022)%nat) → (length buf ≤ 1023)%nat →
  grep fuel pattern avail i buf input = Some (matching pattern (lines [] (buf ++ input))).
Proof.
  intros Ha. revert i buf input. induction fuel as [|fuel IH]; intros i buf input Hf H0 Hb Hlen Hbuf; [lia|]. cbn [grep].
  destruct (read_ok avail i (1024 - Z.of_nat (length buf) - 1) input Ha) as (k & -> & Hk & Hpos); [lia|].
  destruct (Z.leb_spec (Z.of_nat (length (take k input))) 0) as [Hn|Hn].
  - assert (lines [] (buf ++ input) = []) as ->; [|done].
    destruct input as [|c input]; [rewrite app_nil_r; by apply lines_partial|].
    apply lines_partial. intros (l1 & l2 & Heq & Hl1)%list_elem_of_split_l.
    assert (length buf = 1023)%nat as Hbl by (destruct (decide (length buf = 1023)%nat); [done|specialize (Hpos ltac:(lia) ltac:(done)); lia]).
    rewrite Heq, lines_line in Hlen by done. specialize (Hlen l1 ltac:(left)).
    assert ((buf ++ c :: input) !! length l1 = Some NL) as Hat by (rewrite Heq; by apply list_lookup_middle).
    rewrite lookup_app_l in Hat by lia. apply Hb. by eapply list_elem_of_lookup_2.
  - assert (∃ bs rest, take k input = bs ∧ input = bs ++ rest) as (bs & rest & Hbs & ->)
      by (exists (take k input), (drop k input); by rewrite take_drop).
    rewrite Hbs in *. assert (Z.of_nat (length bs) ≤ 1023 - Z.of_nat (length buf)) by (rewrite <- Hbs, length_take in *; lia).
    rewrite drop_app_length.
    destruct (grep_lines_run (length (buf ++ bs)) pattern (buf ++ bs)) as (ls & p' & -> & Hp & Hls & Hp'); [done|set_solver|].
    rewrite app_assoc, Hp in H0, Hlen |- *. rewrite <- app_assoc, lines_concat in Hlen |- * by done.
    rewrite IH.
    + unfold matching. by rewrite filter_app, fmap_app.
    + rewrite length_app in Hf. lia.
    + set_solver.
    + done.
    + intros l Hl. apply Hlen, elem_of_app. by right.
    + apply (f_equal length) in Hp. rewrite !length_app in Hp. lia.
Qed.

(** C24. [grep] writes exactly the lines that match, in order and each once,
    however the reads of the file are split, and terminates: for a file without
    NUL bytes whose lines fit the buffer. *)
Theorem grep_prints_matching_lines pattern avail input : readable avail → 0 ∉ input →
  (∀ l, l ∈ lines [] input → (length l ≤ 1022)%nat) →
  grep (S (length input)) pattern avail 0 [] input = Some (matching pattern (lines [] input)).
Proof. intros Ha H0 Hl. apply grep_run; [done|lia|done|apply not_elem_of_nil|done|simpl; lia]. Qed.

Lemma grep_prints_matching_lines_witness :
  grep (S (length (str "ab" ++ [NL] ++ str "cd" ++ [NL]))) (str "b$") (λ _, 2) 0 [] (str "ab" ++ [NL] ++ str "cd" ++ [NL]) =
  Some [Write 1 (str "ab" ++ [NL])].
Proof.
  apply (grep_prints_matching_lines (str "b$") (λ _, 2) (str "ab" ++ [NL] ++ str "cd" ++ [NL])).
  - intros i. lia.
  - vm_compute. set_solver.
  - intros l Hl. change (lines [] _) with [str "ab"; str "cd"] in Hl.
    apply elem_of_cons in Hl as [->|Hl%list_elem_of_singleton]; [|subst l]; vm_compute; lia.
Defined.

(** A longer line makes [read] be called with no room left, which [grep] takes
    for the end of the file: what follows is not searched. *)
Theorem grep_stops_at_long_line :
  grep 10 (str "a") (λ _, 1024) 0 [] (replicate 1023 98 ++ [NL] ++ str "a" ++ [NL]) = Some [].
Proof. by vm_compute. Qed.
