(* ===== verification/Uprintf.v ===== *)
(** Formatted output of user programs ([printf.c]). *)
From Stdlib Require Import ZArith Lia.
From stdpp Require Import base list gmap strings.
From S2P Require Import Prelude Machine Mem Str Ulib User.

Definition PERCENT : Z := 37.
Definition MINUS : Z := 45.
(** [digits[d]]. *)
Definition digit (d : Z) : Z := if d <? 10 then 48 + d else 55 + d.

(** The [do ... while((x /= base) != 0)] of [printint]: the digits in the order
    they go into [buf]. *)
Fixpoint digits_loop (fuel : nat) (x base : Z) : list Z :=
  match fuel with
  | O => []
  | S f => digit (x mod base) :: (if x / base =? 0 then [] else digits_loop f (x / base) base)
  end.
(** [printint(fd, xx, base, sgn)]: the bytes it writes. [x] is a 32-bit
    [uint], which has at most 32 digits. *)
Definition printint_buf (xx base : Z) (sgn : bool) : list Z :=
  let neg := sgn && (xx <? 0) in
  let x := if neg then u32 (- xx) else u32 xx in
  digits_loop 32 x base ++ (if neg then [MINUS] else []).
Definition printint (xx base : Z) (sgn : bool) : list Z := reverse (printint_buf xx base sgn).

(** [for(i = 0; i < 16; i++, x <<= 4) putc(fd, digits[x >> 60]);] *)
Fixpoint printptr_loop (n : nat) (x : Z) : list Z :=
  match n with
  | O => []
  | S n' => digit (Z.shiftr x 60) :: printptr_loop n' (u64 (Z.shiftl x 4))
  end.
Definition printptr (x : Z) : list Z := str "0x" ++ printptr_loop 16 (u64 x).

(** The arguments of a call: a 64-bit register, or a pointer to a string. *)
Inductive arg : Type := AInt (v : Z) | AStr (s : option (list Z)).

(** The conversions [vprintf] knows. [l] is the number of [l] modifiers. *)
Inductive conv : Type := ConvInt (base : Z) (sgn : bool) (l : nat) | ConvPtr | ConvStr | ConvPercent | ConvUnknown.

(** The [else if] chain on [c0], [c1] and [c2]: the conversion, and by how much
    [i] is incremented. *)
Definition int_conv (c : Z) : option (Z * bool) :=
  if c =? 100 then Some (10, true) else if c =? 117 then Some (10, false)
  else if c =? 120 then Some (16, false) else None.
Definition conversion (c0 c1 c2 : Z) : conv :=
  match int_conv c0 with
  | Some (b, s) => ConvInt b s 0
  | None =>
      if c0 =? 108 then
        match int_conv c1 with
        | Some (b, s) => ConvInt b s 1
        | None =>
            if c1 =? 108 then
              match int_conv c2 with Some (b, s) => ConvInt b s 2 | None => ConvUnknown end
            else ConvUnknown
        end
      else if c0 =? 112 then ConvPtr
      else if c0 =? 115 then ConvStr
      else if c0 =? PERCENT then ConvPercent
      else ConvUnknown
  end.

(** [va_arg(ap, int)] and [va_arg(ap, uint64)], converted to the [long long]
    parameter. *)
Definition int_arg (l : nat) (v : Z) : Z :=
  match l with O => i32 v | _ => (u64 v + 9223372036854775808) mod 18446744073709551616 - 9223372036854775808 end.

(** What one conversion writes, and the arguments left; [None] when the caller
    passes no argument or one of the wrong kind, which C leaves undefined. *)
Definition convert (k : conv) (c0 : Z) (ap : list arg) : option (list Z * list arg) :=
  match k, ap with
  | ConvInt base sgn l, AInt v :: ap' => Some (printint (int_arg l v) base sgn, ap')
  | ConvPtr, AInt v :: ap' => Some (printptr v, ap')
  | ConvStr, AStr s :: ap' => Some (default (str "(null)") s, ap')
  | ConvPercent, _ => Some ([PERCENT], ap)
  | ConvUnknown, _ => Some ([PERCENT; c0], ap)
  | _, _ => None
  end.
Definition conv_skip (k : conv) : nat := match k with ConvInt _ _ l => l | _ => 0%nat end.

(** [vprintf]: the bytes it writes. [percent] is [state == '%'], [skip] how many
    characters an [i += n] still passes over. *)
Fixpoint vprintf_loop (fmt : list Z) (percent : bool) (skip : nat) (ap : list arg) : option (list Z) :=
  match fmt with
  | [] => Some []
  | c0 :: fmt' =>
      match skip with
      | S k => vprintf_loop fmt' percent k ap
      | O =>
          if negb percent then
            if c0 =? PERCENT then vprintf_loop fmt' true 0 ap
            else match vprintf_loop fmt' false 0 ap with Some out => Some (c0 :: out) | None => None end
          else
            let k := conversion c0 (default 0 (fmt' !! 0%nat)) (default 0 (fmt' !! 1%nat)) in
            match convert k c0 ap with
            | Some (out, ap') =>
                match vprintf_loop fmt' false (conv_skip k) ap' with Some out' => Some (out ++ out') | None => None end
            | None => None
            end
      end
  end.
Definition vprintf (fmt : list Z) (ap : list arg) : option (list Z) := vprintf_loop fmt false 0 ap.

(** [fprintf] and [printf]: one [write] per byte. *)
Definition putc (fd c : Z) : ucall := Write fd [c].
Definition fprintf (fd : Z) (fmt : list Z) (ap : list arg) : option (list ucall) := fmap (M:=list) (putc fd) <$> vprintf fmt ap.
Definition printf (fmt : list Z) (ap : list arg) : option (list ucall) := fprintf 1 fmt ap.

(** ** Integers *)

(** The value of a string of digits in a base, as [atoi] reads it. *)
Definition digit_value (c : Z) : Z := if c <? 58 then c - 48 else c - 55.
Fixpoint digits_value (base acc : Z) (s : list Z) : Z :=
  match s with [] => acc | c :: s' => digits_value base (acc * base + digit_value c) s' end.

(** A value as [printint] should print it. *)
Definition digit_of (base c : Z) : Prop := ∃ d, 0 ≤ d < base ∧ c = digit d.

Lemma digit_value_digit d : 0 ≤ d < 16 → digit_value (digit d) = d.
Proof. intros H. unfold digit, digit_value. repeat case_match; lia. Qed.

Lemma digits_value_app base acc s t : digits_value base acc (s ++ t) = digits_value base (digits_value base acc s) t.
Proof. revert acc. induction s as [|c s IH]; intros acc; simpl; [done|]. apply IH. Qed.

Lemma digits_loop_correct fuel x base : 2 ≤ base ≤ 16 → 0 ≤ x < base ^ Z.of_nat fuel → (0 < fuel)%nat →
  digits_value base 0 (reverse (digits_loop fuel x base)) = x ∧
  Forall (digit_of base) (digits_loop fuel x base) ∧
  (∀ c, last (digits_loop fuel x base) = Some c → c = digit 0 → x = 0) ∧
  ∀ k, 0 < x → x < base ^ Z.of_nat k → (length (digits_loop fuel x base) ≤ k)%nat.
Proof.
  intros Hb. revert x. induction fuel as [|fuel IH]; intros x Hx Hf; [lia|]. cbn [digits_loop].
  rewrite Nat2Z.inj_succ, Z.pow_succ_r in Hx by lia.
  assert (0 ≤ x mod base < base) as Hm by (apply Z.mod_pos_bound; lia).
  assert (digit_of base (digit (x mod base))) as Hd by (by exists (x mod base)).
  pose proof (Z.div_mod x base ltac:(lia)) as Hdm.
  destruct (Z.eqb_spec (x / base) 0) as [Hq|Hq].
  - rewrite reverse_singleton. cbn [digits_value]. rewrite digit_value_digit by lia. split_and!; [lia|by constructor| |].
    + intros c [= <-] Hc. assert (x mod base = 0) by (rewrite <- (digit_value_digit (x mod base)), Hc by lia; done). lia.
    + intros k H0 Hk. destruct k; [simpl in Hk; lia|simpl; lia].
  - assert (0 < x / base < base ^ Z.of_nat fuel) as Hxb.
    { split; [assert (0 ≤ x / base) by (apply Z.div_pos; lia); lia|]. apply Z.div_lt_upper_bound; lia. }
    destruct fuel as [|fuel']; [simpl in Hxb; lia|].
    destruct (IH (x / base)) as (Hv & Hds & Hlast & Hlen); [lia|lia|].
    rewrite reverse_cons, digits_value_app, Hv. cbn [digits_value]. rewrite digit_value_digit by lia.
    split_and!; [lia|by constructor| |].
    + intros c Hc Hc0. exfalso. assert (x / base = 0); [|lia].
      apply (Hlast c); [|done]. rewrite <- Hc. destruct (digits_loop (S fuel') (x / base) base) eqn:E; [|done]. by simpl in E.
    + intros k H0 Hk. destruct k as [|k]; [simpl in Hk; lia|]. rewrite Nat2Z.inj_succ, Z.pow_succ_r in Hk by lia.
      cbn [length]. assert (length (digits_loop (S fuel') (x / base) base) ≤ k)%nat; [|lia].
      apply Hlen; [lia|]. apply Z.div_lt_upper_bound; lia.
Qed.

(** [printint] prints the low 32 bits of its argument, as a number if [sgn],
    without leading zeros and within its 20-byte buffer. *)
Lemma printint_spec xx base sgn : base = 10 ∨ base = 16 →
  let neg := sgn && (xx <? 0) in
  ∃ ds, printint xx base sgn = (if neg then [MINUS] else []) ++ ds ∧
    digits_value base 0 ds = u32 (if neg then - xx else xx) ∧ Forall (digit_of base) ds ∧ ds ≠ [] ∧
    (head ds = Some 48 → u32 xx = 0) ∧ (length (printint_buf xx base sgn) ≤ 11)%nat.
Proof.
  intros Hb neg. unfold printint, printint_buf. fold neg.
  set (x := if neg then u32 (- xx) else u32 xx).
  assert (x = u32 (if neg then - xx else xx)) as Hx by (by subst x; destruct neg).
  assert (is_u32 x) as Hr by (rewrite Hx; apply u32_range). unfold is_u32 in Hr.
  assert (2 ^ Z.of_nat 32 ≤ base ^ Z.of_nat 32) by (apply Z.pow_le_mono_l; lia).
  change (2 ^ Z.of_nat 32) with 4294967296 in *.
  destruct (digits_loop_correct 32 x base) as (Hv & Hds & Hlast & Hlen); [lia|lia|lia|].
  assert (∃ c l, digits_loop 32 x base = c :: l) as (c & l & Hl) by (cbn [digits_loop]; eauto).
  exists (reverse (digits_loop 32 x base)). rewrite reverse_app. split_and!.
  - by destruct neg.
  - by rewrite Hv.
  - by apply Forall_reverse.
  - rewrite Hl, reverse_cons. by destruct (reverse l).
  - rewrite head_reverse. intros H48. apply Hlast in H48; [|done]. subst x. destruct neg; [|done]. mach_lia.
  - rewrite length_app. enough (length (digits_loop 32 x base) ≤ 10)%nat as Hle.
    { destruct neg; cbn [length]; lia. }
    destruct (decide (x = 0)) as [->|].
    + destruct Hb as [-> | ->]; vm_compute; lia.
    + apply Hlen; [lia|]. eapply Z.lt_le_trans with 4294967296; [lia|]. destruct Hb as [-> | ->]; by vm_compute.
Qed.

Lemma digit_of_10 c : digit_of 10 c → 48 ≤ c ≤ 57 ∧ digit_value c = c - 48.
Proof. intros (d & Hd & ->). unfold digit, digit_value. destruct (Z.ltb_spec d 10); [|lia]. case_match; lia. Qed.

Lemma digits_value_mono acc ds : Forall (digit_of 10) ds → 0 ≤ acc → acc ≤ digits_value 10 acc ds.
Proof.
  intros Hds. revert acc. induction Hds as [|c ds Hc _ IH]; intros acc Ha; simpl; [done|].
  apply digit_of_10 in Hc as [Hr ->]. specialize (IH (acc * 10 + (c - 48)) ltac:(lia)). lia.
Qed.

Lemma atoi_loop_digits m fuel s acc ds : Forall (digit_of 10) ds → (length ds < fuel)%nat → 0 ≤ acc →
  bytes_at m s (length ds) = ds → rd m (s + Z.of_nat (length ds)) = 0 → digits_value 10 acc ds ≤ INT_MAX →
  atoi_loop fuel s acc m = Some (digits_value 10 acc ds).
Proof.
  intros Hds. revert fuel s acc. induction Hds as [|c ds Hc Hds IH]; intros [|fuel] s acc Hf Ha Hb H0 Hmax; try (simpl in Hf; lia); cbn [atoi_loop].
  - simpl in H0. rewrite Z.add_0_r in H0. by rewrite H0.
  - cbn [length bytes_at] in Hb. injection Hb as Hc0 Hb. rewrite Hc0. apply digit_of_10 in Hc as [Hr Hv].
    destruct (Z.leb_spec 48 c); [|lia]. destruct (Z.leb_spec c 57); [|lia]. cbn [andb].
    cbn [digits_value] in Hmax |- *. rewrite Hv in Hmax |- *.
    pose proof (digits_value_mono (acc * 10 + (c - 48)) ds Hds ltac:(lia)) as Hle. unfold INT_MAX in Hmax.
    replace (i32 (i32 (acc * 10) + c - 48)) with (acc * 10 + (c - 48)) by mach_lia.
    apply IH; [simpl in Hf; lia|lia|done| |done]. rewrite <- H0. f_equal. cbn [length]. lia.
Qed.

(** C39. [printf("%d")] and [atoi] are inverse on the non-negative integers:
    [printint] prints an [int] in decimal, without leading zeros and within the
    bounds of its buffer, such that [atoi] reads the same number back; of a
    negative number, printed with its sign, [atoi] reads 0. *)
Theorem printint_atoi_roundtrip xx a m fuel : is_i32 xx →
  let s := printint xx 10 true in
  bytes_at m a (length s) = s → rd m (a + Z.of_nat (length s)) = 0 → (length s < fuel)%nat →
  atoi fuel a m = Some (Z.max xx 0) ∧ (length (printint_buf xx 10 true) ≤ 20)%nat ∧
  (head s = Some 48 → s = [48]).
Proof.
  intros Hxx s Hb H0 Hf. destruct (printint_spec xx 10 true) as (ds & Hs & Hv & Hds & Hne & Hhead & Hlen); [by left|].
  fold s in Hs. cbn [andb] in Hs, Hv. split_and!; [|lia|].
  - rewrite Hs in Hb, H0, Hf. unfold atoi. destruct (Z.ltb_spec xx 0) as [Hneg|Hpos].
    + destruct fuel as [|fuel]; [simpl in Hf; lia|]. cbn [atoi_loop]. cbn [app length bytes_at] in Hb. injection Hb as -> _.
      cbn. f_equal. lia.
    + rewrite app_nil_l in Hb, H0, Hf. unfold is_i32, INT_MIN in Hxx.
      rewrite u32_small in Hv by (unfold is_u32, INT_MAX in *; lia).
      rewrite (atoi_loop_digits m fuel a 0 ds); try done; [f_equal; lia|rewrite Hv; lia].
  - rewrite Hs. destruct (Z.ltb_spec xx 0) as [Hneg|Hpos]; [done|]. rewrite app_nil_l. intros Hh.
    specialize (Hhead Hh). assert (xx = 0) as -> by (unfold is_i32, INT_MIN in Hxx; mach_lia).
    rewrite app_nil_l in Hs. rewrite <- Hs. reflexivity.
Qed.

Lemma printint_atoi_roundtrip_witness :
  atoi 10 100 (write_bytes 100 (str "4093") ∅) = Some (Z.max 4093 0) ∧ (length (printint_buf 4093 10 true) ≤ 20)%nat ∧
  (head (printint 4093 10 true) = Some 48 → printint 4093 10 true = [48]).
Proof.
  apply (printint_atoi_roundtrip 4093 100 (write_bytes 100 (str "4093") ∅) 10).
  - unfold is_i32, INT_MIN, INT_MAX. lia.
  - by vm_compute.
  - by vm_compute.
  - vm_compute. lia.
Defined.

(** ** Formats *)

(** The pieces a format is made of, and the text, the arguments and the output
    of each. *)
Inductive piece : Type :=
| PText (s : list Z) | PInt (c : Z) (l : nat) (v : Z) | PPtr (v : Z) | PStr (s : option (list Z)) | PPercent.

Definition piece_ok (p : piece) : Prop :=
  match p with
  | PText s => PERCENT ∉ s
  | PInt c l _ => (c = 100 ∨ c = 117 ∨ c = 120) ∧ (l ≤ 2)%nat
  | _ => True
  end.
Definition piece_fmt (p : piece) : list Z :=
  match p with
  | PText s => s
  | PInt c l _ => PERCENT :: replicate l 108 ++ [c]
  | PPtr _ => [PERCENT; 112]
  | PStr _ => [PERCENT; 115]
  | PPercent => [PERCENT; PERCENT]
  end.
Definition piece_args (p : piece) : list arg :=
  match p with PInt _ _ v | PPtr v => [AInt v] | PStr s => [AStr s] | _ => [] end.
Definition piece_out (p : piece) : list Z :=
  match p with
  | PText s => s
  | PInt c l v => printint (int_arg l v) (if c =? 120 then 16 else 10) (c =? 100)
  | PPtr v => printptr v
  | PStr s => default (str "(null)") s
  | PPercent => [PERCENT]
  end.

Lemma vprintf_text s fmt ap : PERCENT ∉ s →
  vprintf_loop (s ++ fmt) false 0 ap = (s ++.) <$> vprintf_loop fmt false 0 ap.
Proof.
  induction s as [|c s IH]; intros Hs; [simpl; by destruct (vprintf_loop fmt false 0 ap)|]. apply not_elem_of_cons in Hs as [Hc Hs].
  cbn [app vprintf_loop negb]. destruct (Z.eqb_spec c PERCENT); [congruence|]. rewrite IH by done.
  by destruct (vprintf_loop fmt false 0 ap).
Qed.

Lemma vprintf_piece p fmt ap : piece_ok p →
  vprintf_loop (piece_fmt p ++ fmt) false 0 (piece_args p ++ ap) = (piece_out p ++.) <$> vprintf_loop fmt false 0 ap.
Proof.
  intros Hp. destruct p as [s|c l v|v|s|]; [by apply vprintf_text| |by cbn; destruct (vprintf_loop fmt false 0 ap)..].
  destruct Hp as [Hc Hl]. cbn [piece_fmt piece_args piece_out].
  destruct l as [|[|[|l]]]; [| | |lia]; destruct Hc as [-> | [-> | ->]]; cbn -[printint int_arg]; by destruct (vprintf_loop fmt false 0 ap).
Qed.

Lemma vprintf_pieces ps : Forall piece_ok ps →
  vprintf (concat (piece_fmt <$> ps)) (concat (piece_args <$> ps)) = Some (concat (piece_out <$> ps)).
Proof.
  unfold vprintf. induction 1 as [|p ps Hp _ IH]; [done|]. rewrite !fmap_cons. cbn [concat].
  by rewrite vprintf_piece, IH.
Qed.

Lemma written_putc fd bs : written fd (putc fd <$> bs) = bs.
Proof. unfold written. induction bs as [|b bs IH]; [done|]. simpl. rewrite Z.eqb_refl. simpl. by f_equal. Qed.

(** C38. [fprintf] interprets every format: text is copied, and each conversion
    consumes one argument and prints it, in order, whatever follows it; the
    bytes are written to the descriptor one at a time. *)
Theorem fprintf_correct fd ps : Forall piece_ok ps →
  ∃ t, fprintf fd (concat (piece_fmt <$> ps)) (concat (piece_args <$> ps)) = Some t ∧
    written fd t = concat (piece_out <$> ps) ∧ Forall (λ c, ∃ b, c = Write fd [b]) t.
Proof.
  intros Hps. unfold fprintf. rewrite vprintf_pieces by done. eexists. split; [done|]. split; [apply written_putc|].
  apply Forall_fmap, Forall_forall. intros b _. by exists b.
Qed.

Lemma fprintf_correct_witness : ∃ t,
  fprintf 2 (str "pid %d: %s") [AInt 42; AStr (Some (str "sh"))] = Some t ∧ written 2 t = str "pid 42: sh" ∧
  Forall (λ c, ∃ b, c = Write 2 [b]) t.
Proof.
  apply (fprintf_correct 2 [PText (str "pid "); PInt 100 0 42; PText (str ": "); PStr (Some (str "sh"))]).
  repeat constructor; vm_compute; set_solver.
Defined.

(** The [long] conversions print only the low 32 bits. *)
Theorem printf_long_truncated : vprintf (str "%ld") [AInt 4294967297] = Some (str "1").
Proof. by vm_compute. Qed.
