(* ===== verification/Utils.v ===== *)
(** The small user programs: [wc.c], [cat.c], [echo.c], [rm.c], [mkdir.c],
    [ln.c], [kill.c], [settickets.c] and the file names of [ls.c]. *)
From Stdlib Require Import ZArith Lia.
From stdpp Require Import base list gmap strings.
From S2P Require Import Prelude Machine Mem Str Ulib User Uprintf.

Definition NEWLINE : Z := 10.
Definition SPACE : Z := 32.

(** ** wc *)

(** The counters of [wc]. *)
Record counts := mkcounts { wl : Z; ww : Z; wc_ : Z; inword : bool }.

(** [strchr(" \r\t\n\v", c)]. *)
Definition is_space (c : Z) : bool := bool_decide (c ∈ [32; 13; 9; 10; 11]).

(** The body of the [for] loop. *)
Definition wc_char (s : counts) (c : Z) : counts :=
  let l := if c =? NEWLINE then i32 (wl s + 1) else wl s in
  let n := i32 (wc_ s + 1) in
  if is_space c then mkcounts l (ww s) n false
  else if negb (inword s) then mkcounts l (i32 (ww s + 1)) n true
  else mkcounts l (ww s) n (inword s).

(** The [while] loop of [wc]: the counters, and the last return value of
    [read]. *)
Fixpoint wc_loop (fuel : nat) (avail : nat → Z) (i : nat) (input : list Z) (s : counts) : option (counts * Z) :=
  match fuel with
  | O => None
  | S f =>
      let (bs, n) := read avail i 512 input in
      if n <=? 0 then Some (s, n)
      else wc_loop f avail (S i) (drop (length bs) input) (foldl wc_char s bs)
  end.
Definition wc (avail : nat → Z) (input name : list Z) : option (list ucall * option Z) :=
  match wc_loop (S (length input)) avail 0 input (mkcounts 0 0 0 false) with
  | None => None
  | Some (s, n) =>
      if n <? 0 then
        match printf (str "wc: read error" ++ [NEWLINE]) [] with Some t => Some (t, Some 1) | None => None end
      else
        match printf (str "%d %d %d %s" ++ [NEWLINE]) [AInt (wl s); AInt (ww s); AInt (wc_ s); AStr (Some name)] with
        | Some t => Some (t, None)
        | None => None
        end
  end.

(** ** cat *)

(** [cat]: the writes, and [Some st] for [exit(st)]; [accept k] is whether the
    [k]-th [write] takes all the bytes. *)
Fixpoint cat_loop (fuel : nat) (avail : nat → Z) (accept : nat → bool) (i : nat) (input : list Z) : option (list ucall * option Z) :=
  match fuel with
  | O => None
  | S f =>
      let (bs, n) := read avail i 512 input in
      if n <=? 0 then
        if n <? 0 then Some ([Write 2 (str "cat: read error" ++ [NEWLINE])], Some 1) else Some ([], None)
      else if negb (accept i) then Some ([Write 1 bs; Write 2 (str "cat: write error" ++ [NEWLINE])], Some 1)
      else match cat_loop f avail accept (S i) (drop (length bs) input) with
           | Some (t, st) => Some (Write 1 bs :: t, st)
           | None => None
           end
  end.
Definition cat (avail : nat → Z) (accept : nat → bool) (input : list Z) : option (list ucall * option Z) :=
  cat_loop (S (length input)) avail accept 0 input.
(** The loop of [main] over the files. *)
Fixpoint cat_files (open : list Z → option (list Z)) (avail : nat → Z) (accept : nat → bool) (files : list (list Z)) : option (list ucall * Z) :=
  match files with
  | [] => Some ([], 0)
  | name :: files' =>
      match open name with
      | None => Some ([Write 2 (str "cat: cannot open " ++ name ++ [NEWLINE])], 1)
      | Some content =>
          match cat avail accept content with
          | Some (t, Some st) => Some (t, st)
          | Some (t, None) =>
              match cat_files open avail accept files' with Some (t', st) => Some (t ++ t', st) | None => None end
          | None => None
          end
      end
  end.
Definition cat_main (open : list Z → option (list Z)) (stdin : list Z) (avail : nat → Z) (accept : nat → bool) (argv : list (list Z)) : option (list ucall * Z) :=
  match argv with
  | [] | [_] => match cat avail accept stdin with Some (t, st) => Some (t, default 0 st) | None => None end
  | _ :: files => cat_files open avail accept files
  end.

(** ** The others *)

Fixpoint echo_args (args : list (list Z)) : list ucall :=
  match args with
  | [] => []
  | a :: args' => Write 1 a :: Write 1 (match args' with [] => [NEWLINE] | _ => [SPACE] end) :: echo_args args'
  end.
Definition echo_main (argv : list (list Z)) : list ucall * Z := (echo_args (tail argv), 0).

(** The loop of [rm] and of [mkdir]: [ok] is whether the call succeeds. *)
Fixpoint until_failure (call : list Z → ucall) (complain : list Z → list Z) (ok : list Z → bool) (args : list (list Z)) : list ucall :=
  match args with
  | [] => []
  | a :: args' => call a :: (if ok a then until_failure call complain ok args' else [Write 2 (complain a)])
  end.
Definition rm_main (unlink : list Z → bool) (argv : list (list Z)) : list ucall * Z :=
  if (length argv <? 2)%nat then ([Write 2 (str "Usage: rm files..." ++ [NEWLINE])], 1)
  else (until_failure Unlink (λ a, str "rm: " ++ a ++ str " failed to delete" ++ [NEWLINE]) unlink (tail argv), 0).
Definition mkdir_main (mkdir : list Z → bool) (argv : list (list Z)) : list ucall * Z :=
  if (length argv <? 2)%nat then ([Write 2 (str "Usage: mkdir files..." ++ [NEWLINE])], 1)
  else (until_failure Mkdir (λ a, str "mkdir: " ++ a ++ str " failed to create" ++ [NEWLINE]) mkdir (tail argv), 0).
Definition ln_main (link : list Z → list Z → bool) (argv : list (list Z)) : list ucall * Z :=
  match argv with
  | [_; old; new] =>
      (Link old new :: (if link old new then [] else [Write 2 (str "link " ++ old ++ [SPACE] ++ new ++ str ": failed" ++ [NEWLINE])]), 0)
  | _ => ([Write 2 (str "Usage: ln old new" ++ [NEWLINE])], 1)
  end.

(** [atoi] on the string [s], placed in memory with its NUL. *)
Definition atoi_str (s : list Z) : Z := default 0 (atoi (S (length s)) 1 (write_bytes 1 (s ++ [0]) ∅)).
Definition kill_main (argv : list (list Z)) : list ucall * Z :=
  if (length argv <? 2)%nat then ([Write 2 (str "usage: kill pid..." ++ [NEWLINE])], 1)
  else ((λ a, Kill (atoi_str a)) <$> tail argv, 0).
Definition settickets_main (argv : list (list Z)) : list ucall * Z :=
  match argv with
  | [_; a] => ([Settickets (atoi_str a)], 0)
  | _ => ([Write 1 (str "Usage: settickets <num>" ++ [NEWLINE])], 1)
  end.

(** [ls]'s [fmtname]: the loop that looks for the last slash, [i] being
    [p - path]; [p++] is done by the caller. *)
Fixpoint last_slash (path : list Z) (n : nat) : nat :=
  match n with
  | O => O
  | S k => if path !!! k =? 47 then S k else last_slash path k
  end.
Definition fmtname (path : list Z) : list Z :=
  let p := drop (last_slash path (length path)) path in
  if (14 <=? length p)%nat then p else p ++ replicate (14 - length p) SPACE.

(** ** What they do *)

Lemma wc_loop_run avail fuel i input s : readable avail → (length input < fuel)%nat →
  wc_loop fuel avail i input s = Some (foldl wc_char s input, 0).
Proof.
  intros Ha. revert i input s. induction fuel as [|fuel IH]; intros i input s Hf; [lia|]. cbn [wc_loop].
  destruct (read_ok avail i 512 input Ha) as (k & -> & _ & Hpos); [lia|].
  destruct input as [|c input]; [by rewrite take_nil|].
  specialize (Hpos ltac:(lia) ltac:(done)). set (inp := c :: input) in *.
  destruct (Z.leb_spec (Z.of_nat (length (take k inp))) 0); [lia|].
  rewrite drop_length_take, IH; [by rewrite <- foldl_app, take_drop|].
  rewrite <- (take_drop k inp), length_app in Hf. lia.
Qed.

(** The maximal runs of characters that are not white space; [cur] is the run
    read so far. *)
Fixpoint words (cur input : list Z) : list (list Z) :=
  match input with
  | [] => match cur with [] => [] | _ => [cur] end
  | c :: input' =>
      if is_space c then match cur with [] => words [] input' | _ => cur :: words [] input' end
      else words (cur ++ [c]) input'
  end.

Lemma wc_fold input s cur : (inword s = true ↔ cur ≠ []) →
  wl s + Z.of_nat (length input) ≤ INT_MAX → ww s + Z.of_nat (length input) ≤ INT_MAX → wc_ s + Z.of_nat (length input) ≤ INT_MAX →
  0 ≤ wl s → 0 ≤ ww s → 0 ≤ wc_ s →
  let s' := foldl wc_char s input in
  wl s' = wl s + Z.of_nat (length (filter (λ c, c = NEWLINE) input)) ∧
  ww s' = ww s + Z.of_nat (length (words cur input)) - b2z (inword s) ∧
  wc_ s' = wc_ s + Z.of_nat (length input).
Proof.
  revert s cur. induction input as [|c input IH]; intros s cur Hin Hl Hw Hc Hl0 Hw0 Hc0 s'; subst s'; cbn [foldl].
  - simpl. destruct cur, (inword s) eqn:E; simpl; try lia; exfalso; naive_solver.
  - cbn [length] in *. rewrite filter_cons. unfold INT_MAX in *.
    assert (∀ x, 0 ≤ x → x + Z.of_nat (S (length input)) ≤ 2147483647 → i32 (x + 1) = x + 1) as Hi by (intros; mach_lia).
    assert (wl (wc_char s c) = wl s + (if decide (c = NEWLINE) then 1 else 0)) as Hwl.
    { unfold wc_char. destruct (Z.eqb_spec c NEWLINE); case_decide; try done; repeat case_match; simpl; rewrite ?Hi by lia; lia. }
    assert (wc_ (wc_char s c) = wc_ s + 1) as Hwc by (unfold wc_char; repeat case_match; simpl; apply Hi; lia).
    cbn [words]. destruct (is_space c) eqn:Hsp.
    + assert (ww (wc_char s c) = ww s ∧ inword (wc_char s c) = false) as [Hww Hiw] by (unfold wc_char; rewrite Hsp; done).
      destruct (IH (wc_char s c) []) as (-> & -> & ->); rewrite ?Hwl, ?Hww, ?Hwc, ?Hiw; try (case_decide; lia); [done|].
      split_and!; [case_decide; simpl; lia| |lia].
      destruct cur, (inword s); simpl; try lia; exfalso; naive_solver.
    + assert (ww (wc_char s c) = ww s + 1 - b2z (inword s) ∧ inword (wc_char s c) = true) as [Hww Hiw].
      { unfold wc_char. rewrite Hsp. destruct (inword s) eqn:E; simpl; rewrite ?Hi by lia; (split; [lia|done]). }
      assert (0 ≤ b2z (inword s) ≤ 1) by (destruct (inword s); simpl; lia).
      destruct (IH (wc_char s c) (cur ++ [c])) as (-> & -> & ->); rewrite ?Hwl, ?Hww, ?Hwc, ?Hiw; try (case_decide; lia); try lia.
      * split; [|done]. intros _. by destruct cur.
      * split_and!; [case_decide; simpl; lia| |lia]. simpl. lia.
Qed.

Lemma words_length cur input : (length (words cur input) ≤ length input + (if cur then 0 else 1))%nat.
Proof.
  revert cur. induction input as [|c input IH]; intros cur; simpl; [destruct cur; simpl; lia|].
  destruct (is_space c).
  - specialize (IH []). simpl in IH. destruct cur; simpl; lia.
  - specialize (IH (cur ++ [c])). destruct cur; simpl in *; lia.
Qed.

(** [wc] prints the number of newlines, of words and of bytes of the file,
    however the reads split it, where a word is a maximal run of bytes that are
    not white space. *)
Theorem wc_counts avail input name : readable avail → Z.of_nat (length input) ≤ INT_MAX →
  ∃ t, wc avail input name = Some (t, None) ∧
    written 1 t = printint (Z.of_nat (length (filter (λ c, c = NEWLINE) input))) 10 true ++ [SPACE] ++
                  printint (Z.of_nat (length (words [] input))) 10 true ++ [SPACE] ++
                  printint (Z.of_nat (length input)) 10 true ++ [SPACE] ++ name ++ [NEWLINE].
Proof.
  intros Ha Hmax. unfold wc. rewrite wc_loop_run by (done || lia).
  destruct (wc_fold input (mkcounts 0 0 0 false) []) as (Hl & Hw & Hc); try (simpl; (done || lia)).
  cbn [wl ww wc_ inword b2z] in Hl, Hw, Hc. rewrite Z.add_0_l in Hl, Hw, Hc. rewrite Z.sub_0_r in Hw. change (0 <? 0) with false. cbv iota.
  pose proof (length_filter (λ c, c = NEWLINE) input) as Hfl. pose proof (words_length [] input) as Hwl. simpl in Hwl.
  assert (∀ n, (n ≤ length input)%nat → int_arg 0 (Z.of_nat n) = Z.of_nat n) as Harg by (intros; apply i32_small; unfold is_i32, INT_MIN; lia).
  rewrite Hl, Hw, Hc. unfold printf, fprintf.
  pose proof (vprintf_pieces [PInt 100 0 (Z.of_nat (length (filter (λ c, c = NEWLINE) input))); PText [SPACE];
    PInt 100 0 (Z.of_nat (length (words [] input))); PText [SPACE]; PInt 100 0 (Z.of_nat (length input)); PText [SPACE];
    PStr (Some name); PText [NEWLINE]]) as Hv.
  simpl fmap in Hv. simpl concat in Hv. rewrite !Harg in Hv by lia.
  change (str "%d %d %d %s" ++ [NEWLINE]) with [PERCENT; 100; SPACE; PERCENT; 100; SPACE; PERCENT; 100; SPACE; PERCENT; 115; NEWLINE].
  rewrite Hv.
  - eexists. split; [done|]. by rewrite written_putc.
  - repeat constructor; vm_compute; set_solver.
Qed.

Lemma wc_counts_witness : ∃ t, wc (λ _, 3) (str "two words" ++ [NEWLINE]) (str "f") = Some (t, None) ∧
  written 1 t = str "1 2 10 f" ++ [NEWLINE].
Proof. apply (wc_counts (λ _, 3) (str "two words" ++ [NEWLINE]) (str "f")); [intros i; lia|vm_compute; done]. Defined.

(** [cat] copies: when the reads and writes succeed, what it writes is the
    contents of the files, in order. *)
Lemma cat_loop_run avail accept fuel i input : readable avail → (∀ k, accept k = true) → (length input < fuel)%nat →
  ∃ t, cat_loop fuel avail accept i input = Some (t, None) ∧ written 1 t = input ∧ written 2 t = [].
Proof.
  intros Ha Hacc. revert i input. induction fuel as [|fuel IH]; intros i input Hf; [lia|]. cbn [cat_loop].
  destruct (read_ok avail i 512 input Ha) as (k & -> & _ & Hpos); [lia|].
  destruct input as [|c input]; [rewrite take_nil; by exists []|].
  specialize (Hpos ltac:(lia) ltac:(done)). set (inp := c :: input) in *.
  destruct (Z.leb_spec (Z.of_nat (length (take k inp))) 0); [lia|]. rewrite Hacc. cbn [negb].
  rewrite drop_length_take.
  destruct (IH (S i) (drop k inp)) as (t & -> & Ht1 & Ht2); [rewrite <- (take_drop k inp), length_app in Hf; lia|].
  eexists. split; [done|]. rewrite (written_cons 1 _ t), (written_cons 2 _ t), Ht1, Ht2. unfold written; simpl.
  by rewrite app_nil_r, take_drop.
Qed.

Theorem cat_concatenates open avail accept files contents : readable avail → (∀ k, accept k = true) →
  Forall2 (λ f c, open f = Some c) files contents →
  ∃ t, cat_files open avail accept files = Some (t, 0) ∧ written 1 t = concat contents ∧ written 2 t = [].
Proof.
  intros Ha Hacc. induction 1 as [|f c files contents Hf _ (t & IH & H1 & H2)]; [by exists []|].
  cbn [cat_files]. rewrite Hf. unfold cat.
  destruct (cat_loop_run avail accept (S (length c)) 0 c) as (t0 & -> & H3 & H4); [done|done|lia|].
  rewrite IH. eexists. split; [done|]. by rewrite !written_app, H1, H2, H3, H4.
Qed.

(** [echo] writes its arguments separated by blanks, with a newline. *)
Theorem echo_writes a args : written 1 (echo_main (str "echo" :: a :: args)).1 =
  a ++ concat ((λ b, SPACE :: b) <$> args) ++ [NEWLINE].
Proof.
  unfold echo_main. simpl tail. cbn [fst]. revert a. induction args as [|b args IH]; intros a.
  - by unfold written; simpl.
  - change (echo_args (a :: b :: args)) with ([Write 1 a; Write 1 [SPACE]] ++ echo_args (b :: args)).
    rewrite written_app, IH. unfold written. simpl. by rewrite <- !app_assoc.
Qed.

(** [fmtname] gives the part of the path after the last slash, padded with
    blanks to the width of a directory entry. *)
Lemma last_slash_spec path n : (n ≤ length path)%nat → let k := last_slash path n in
  (k ≤ n)%nat ∧ (∀ i, (k ≤ i < n)%nat → path !!! i ≠ 47) ∧ (k = 0%nat ∨ path !!! (k - 1)%nat = 47).
Proof.
  induction n as [|n IH]; intros Hn; simpl; [split_and!; [lia|intros; lia|by left]|].
  destruct (Z.eqb_spec (path !!! n) 47) as [He|He].
  - split_and!; [lia|intros; lia|right]. by replace (S n - 1)%nat with n by lia.
  - destruct IH as (H1 & H2 & H3); [lia|]. split_and!; [lia| |done]. intros i Hi.
    destruct (decide (i = n)) as [->|]; [done|]. apply H2. lia.
Qed.
Theorem fmtname_correct path : ∃ dir name, path = dir ++ name ∧ 47 ∉ name ∧ (dir = [] ∨ last dir = Some 47) ∧
  fmtname path = name ++ replicate (14 - length name) SPACE.
Proof.
  destruct (last_slash_spec path (length path)) as (H1 & H2 & H3); [lia|]. set (k := last_slash path (length path)) in *.
  exists (take k path), (drop k path). split_and!.
  - by rewrite take_drop.
  - intros [i Hi]%list_elem_of_lookup_1. rewrite lookup_drop in Hi. pose proof (lookup_lt_Some _ _ _ Hi).
    apply (H2 (k + i)%nat); [lia|]. by apply list_lookup_total_correct.
  - destruct H3 as [H3|H3]; [left; by rewrite H3|]. destruct (decide (k = 0%nat)) as [H0|H0]; [left; by rewrite H0|right].
    rewrite last_lookup, length_take, lookup_take_lt by lia. replace (Init.Nat.pred _) with (k - 1)%nat by lia.
    rewrite list_lookup_lookup_total_lt by lia. by rewrite H3.
  - unfold fmtname. fold k. destruct (Nat.leb_spec 14 (length (drop k path))); [|done].
    replace (14 - _)%nat with 0%nat by lia. by rewrite app_nil_r.
Qed.
