(* ===== verification/Sh.v ===== *)
(** The command parser of the shell ([sh.c]). *)
From Stdlib Require Import ZArith Lia.
From stdpp Require Import base list gmap strings.
From S2P Require Import Prelude Machine User.

Definition O_RDONLY : Z := 0.
Definition O_WRONLY : Z := 1.
Definition O_RDWR : Z := 2.
Definition O_CREATE : Z := 512.
Definition O_TRUNC : Z := 1024.
Definition MAXARGS : nat := 10.

(** [whitespace] and [symbols]. *)
Definition whitespace : list Z := [32; 9; 13; 10; 11].
Definition symbols : list Z := [60; 124; 62; 38; 59; 40; 41].

(** [strchr(s, c)] for a set of characters: no string contains the NUL. *)
Definition chr_in (s : list Z) (c : Z) : bool := bool_decide (c ∈ s).
Definition is_ws (c : Z) : bool := chr_in whitespace c.
Definition is_word (c : Z) : bool := negb (is_ws c) && negb (chr_in symbols c).

(** A parsed command. Words are pointers into the line, as offsets: the first
    byte and the byte after the last. *)
Inductive cmd : Type :=
| EXEC (argv : list (nat * nat))
| REDIR (c : cmd) (file efile : nat) (mode fd : Z)
| PIPE (left right : cmd)
| LIST (left right : cmd)
| BACK (c : cmd).

(** How parsing ends: a value and the offset reached, a call of [panic]
    (after printing [out]), or the bound on the recursion was too small. *)
Inductive pres (A : Type) : Type := Ok (a : A) (i : nat) | Err (out : list Z) (msg : string) | NoFuel.
Arguments Ok {A} a i.
Arguments Err {A} out msg.
Arguments NoFuel {A}.
Definition pbind {A B} (r : pres A) (k : A → nat → pres B) : pres B :=
  match r with Ok a i => k a i | Err out m => Err out m | NoFuel => NoFuel end.

Section parser.
(** The line, without its NUL; [es] is the offset of the NUL. *)
Context (s : list Z).

Definition at_ (i : nat) : Z := default 0 (s !! i).

(** [while(s < es && f]([*s])[) s++], from offset [i]. *)
Fixpoint scan (f : Z → bool) (l : list Z) : nat :=
  match l with [] => O | c :: l' => if f c then S (scan f l') else O end.
Definition skip (f : Z → bool) (i : nat) : nat := i + scan f (drop i s).

(** [gettoken]: the token, [*q], [*eq] and the new [*ps]. *)
Definition gettoken (i : nat) : Z * nat * nat * nat :=
  let q := skip is_ws i in
  let c := at_ q in
  let '(ret, e) :=
    if c =? 0 then (c, q)
    else if chr_in [124; 40; 41; 59; 38; 60] c then (c, S q)
    else if c =? 62 then (if at_ (S q) =? 62 then (43, S (S q)) else (c, S q))
    else (97, skip is_word q) in
  (ret, q, e, skip is_ws e).

Definition peek (i : nat) (toks : list Z) : bool * nat :=
  let j := skip is_ws i in (negb (at_ j =? 0) && chr_in toks (at_ j), j).

(** What a redirection token does. *)
Definition redir_mode (tok : Z) : Z * Z :=
  if tok =? 60 then (O_RDONLY, 0)
  else if tok =? 62 then (Z.lor (Z.lor O_WRONLY O_CREATE) O_TRUNC, 1)
  else (Z.lor O_WRONLY O_CREATE, 1).

(** [parseredirs] wraps the command in the redirections it finds. *)
Fixpoint parseredirs (fuel : nat) (c : cmd → cmd) (i : nat) : pres (cmd → cmd) :=
  match fuel with
  | O => NoFuel
  | S f =>
      let '(b, i) := peek i [60; 62] in
      if negb b then Ok c i else
      let '(tok, _, _, i) := gettoken i in
      let '(a, q, eq, i) := gettoken i in
      if negb (a =? 97) then Err [] "missing file for redirection" else
      let '(mode, fd) := redir_mode tok in
      parseredirs f (λ x, REDIR (c x) q eq mode fd) i
  end.

(** The [while] loop of [parseexec]; the redirections wrap the [execcmd], whose
    arguments are still being filled in. *)
Fixpoint parseargs (fuel : nat) (wrap : cmd → cmd) (argv : list (nat * nat)) (i : nat) : pres cmd :=
  match fuel with
  | O => NoFuel
  | S f =>
      let '(b, i) := peek i [124; 41; 38; 59] in
      if b then Ok (wrap (EXEC argv)) i else
      let '(tok, q, eq, i) := gettoken i in
      if tok =? 0 then Ok (wrap (EXEC argv)) i else
      if negb (tok =? 97) then Err [] "syntax" else
      let argv := argv ++ [(q, eq)] in
      if (MAXARGS <=? length argv)%nat then Err [] "too many args" else
      pbind (parseredirs f wrap i) (λ wrap i, parseargs f wrap argv i)
  end.

(** The [while(peek(ps, es, "&"))] loop of [parseline]. *)
Fixpoint parseback (fuel : nat) (c : cmd) (i : nat) : pres cmd :=
  match fuel with
  | O => NoFuel
  | S f =>
      let '(b, i) := peek i [38] in
      if negb b then Ok c i else
      let '(_, _, _, i) := gettoken i in parseback f (BACK c) i
  end.

Fixpoint parseline (fuel : nat) (i : nat) {struct fuel} : pres cmd :=
  match fuel with
  | O => NoFuel
  | S f =>
      pbind (parsepipe f i) (λ c i,
      pbind (parseback f c i) (λ c i,
      let '(b, i) := peek i [59] in
      if negb b then Ok c i else
      let '(_, _, _, i) := gettoken i in
      pbind (parseline f i) (λ r i, Ok (LIST c r) i)))
  end
with parsepipe (fuel : nat) (i : nat) {struct fuel} : pres cmd :=
  match fuel with
  | O => NoFuel
  | S f =>
      pbind (parseexec f i) (λ c i,
      let '(b, i) := peek i [124] in
      if negb b then Ok c i else
      let '(_, _, _, i) := gettoken i in
      pbind (parsepipe f i) (λ r i, Ok (PIPE c r) i))
  end
with parseexec (fuel : nat) (i : nat) {struct fuel} : pres cmd :=
  match fuel with
  | O => NoFuel
  | S f =>
      let '(b, i) := peek i [40] in
      if b then parseblock f i
      else pbind (parseredirs f (λ c, c) i) (λ wrap i, parseargs f wrap [] i)
  end
with parseblock (fuel : nat) (i : nat) {struct fuel} : pres cmd :=
  match fuel with
  | O => NoFuel
  | S f =>
      let '(b, i) := peek i [40] in
      if negb b then Err [] "parseblock" else
      let '(_, _, _, i) := gettoken i in
      pbind (parseline f i) (λ c i,
      let '(b, i) := peek i [41] in
      if negb b then Err [] "syntax - missing )" else
      let '(_, _, _, i) := gettoken i in
      pbind (parseredirs f (λ c, c) i) (λ wrap i, Ok (wrap c) i))
  end.

(** [nulterminate] on the line with its NUL. *)
Fixpoint nulterminate (c : cmd) (buf : list Z) : list Z :=
  match c with
  | EXEC argv => foldl (λ b w, <[w.2 := 0]> b) buf argv
  | REDIR c _ efile _ _ => <[efile := 0]> (nulterminate c buf)
  | PIPE l r | LIST l r => nulterminate r (nulterminate l buf)
  | BACK c => nulterminate c buf
  end.

(** [parsecmd]: the command and the line it points into. The bound on the
    recursion is proved to be enough ([parsecmd_terminates]). *)
Definition parsecmd : pres (cmd * list Z) :=
  pbind (parseline (4 * length s + 5) 0) (λ c i,
  let '(_, i) := peek i [] in
  if negb (i =? length s)%nat then Err (str "leftovers: " ++ drop i s ++ [10]) "syntax"
  else Ok (c, nulterminate c (s ++ [0])) i).
End parser.

(** ** What the shell gets: commands over strings *)

Inductive scmd : Type :=
| SExec (argv : list (list Z))
| SRedir (c : scmd) (file : list Z) (mode fd : Z)
| SPipe (left right : scmd)
| SList (left right : scmd)
| SBack (c : scmd).

(** The C string at an offset of the line. *)
Definition cstr (buf : list Z) (q : nat) : list Z := take (scan (λ c, negb (c =? 0)) (drop q buf)) (drop q buf).

(** The command as [runcmd] reads it. *)
Fixpoint strings (buf : list Z) (c : cmd) : scmd :=
  match c with
  | EXEC argv => SExec ((λ w, cstr buf w.1) <$> argv)
  | REDIR c file _ mode fd => SRedir (strings buf c) (cstr buf file) mode fd
  | PIPE l r => SPipe (strings buf l) (strings buf r)
  | LIST l r => SList (strings buf l) (strings buf r)
  | BACK c => SBack (strings buf c)
  end.
