(* ===== verification/ShThm.v ===== *)
(** Correctness of the shell's parser. *)
From Stdlib Require Import ZArith Lia.
From stdpp Require Import base list gmap strings.
From S2P Require Import Prelude Machine User Sh.

(** ** Tokens and layout *)

Inductive stok : Type := SWord (w : list Z) | SSym (c : Z) | SAppend.

Definition tok_text (t : stok) : list Z := match t with SWord w => w | SSym c => [c] | SAppend => [62; 62] end.
Definition tok_code (t : stok) : Z := match t with SWord _ => 97 | SSym c => c | SAppend => 43 end.
Definition tok_ok (t : stok) : Prop :=
  match t with
  | SWord w => w ≠ [] ∧ Forall (λ c, is_word c = true ∧ c ≠ 0) w
  | SSym c => c ∈ symbols
  | SAppend => True
  end.
(** What may come right after a token: a word is as long as possible, and [>]
    is not the start of [>>]. *)
Definition follows (t : stok) (rest : list Z) : Prop :=
  match t with
  | SWord _ => match rest with c :: _ => is_word c = false | [] => True end
  | SSym c => c = 62 → head rest ≠ Some 62
  | SAppend => True
  end.

(** The texts of a sequence of tokens: with any white space between them. *)
Inductive spells : list stok → list Z → Prop :=
| sp_nil ws : Forall (λ c, is_ws c = true) ws → spells [] ws
| sp_cons ws t ts rest : Forall (λ c, is_ws c = true) ws → tok_ok t → follows t rest → spells ts rest →
    spells (t :: ts) (ws ++ tok_text t ++ rest).

Lemma scan_all f l : Forall (λ c, f c = true) l → scan f l = length l.
Proof. induction 1 as [|c l Hc _ IH]; simpl; [done|]. by rewrite Hc, IH. Qed.
Lemma scan_app f l1 l2 : Forall (λ c, f c = true) l1 → match l2 with c :: _ => f c = false | [] => True end →
  scan f (l1 ++ l2) = length l1.
Proof.
  intros H1 H2. induction H1 as [|c l Hc _ IH]; simpl; [destruct l2 as [|c l2]; simpl; [done|by rewrite H2]|]. by rewrite Hc, IH.
Qed.

Lemma symbol_cases (P : Z → Prop) c : c ∈ symbols → P 60 → P 124 → P 62 → P 38 → P 59 → P 40 → P 41 → P c.
Proof. unfold symbols. rewrite !elem_of_cons, elem_of_nil. intuition (subst; done). Qed.

Lemma tok_first t : tok_ok t → ∃ c l, tok_text t = c :: l ∧ is_ws c = false ∧ c ≠ 0.
Proof.
  destruct t as [w|c|]; simpl.
  - intros [Hw Hall]. destruct w as [|c w]; [done|]. apply Forall_cons in Hall as [[Hc H0] _]. exists c, w. split_and!; [done| |done].
    unfold is_word in Hc. by destruct (is_ws c).
  - intros Hc. exists c, []. split; [done|]. by apply (symbol_cases (λ c, is_ws c = false ∧ c ≠ 0)).
  - intros _. by exists 62, [62].
Qed.

Section cursor.
Context (s : list Z).

(** The tokens ahead of offset [i]. *)
Definition cur (i : nat) (ts : list stok) : Prop := (i ≤ length s)%nat ∧ spells ts (drop i s).

(** A word of the line: a maximal run of word characters. *)
Definition word_at (q e : nat) (w : list Z) : Prop :=
  w ≠ [] ∧ e = (q + length w)%nat ∧ (∃ rest, drop q s = w ++ rest ∧ match rest with c :: _ => is_word c = false | [] => True end) ∧
  Forall (λ c, is_word c = true ∧ c ≠ 0) w.

Lemma drop_at i c l : drop i s = c :: l → at_ s i = c ∧ (i < length s)%nat.
Proof.
  intros Hd. assert (s !! i = Some c) as Hi by (rewrite <- (Nat.add_0_r i), <- lookup_drop, Hd; done).
  unfold at_. rewrite Hi. split; [done|]. by apply lookup_lt_is_Some_1.
Qed.
Lemma at_end i : (length s ≤ i)%nat → at_ s i = 0.
Proof. intros Hi. unfold at_. by rewrite lookup_ge_None_2. Qed.

Lemma cur_nil i : cur i [] → skip s is_ws i = length s.
Proof.
  intros [Hi Hs]. inversion Hs as [ws Hw|]; subst. unfold skip. rewrite scan_all by done. rewrite length_drop. lia.
Qed.

Lemma cur_cons i t ts : cur i (t :: ts) → ∃ rest, drop (skip s is_ws i) s = tok_text t ++ rest ∧ tok_ok t ∧ follows t rest ∧ spells ts rest.
Proof.
  intros [Hi Hs]. inversion Hs as [|ws t' ts' rest Hw Ht Hf Hr Heq1 Heq2]; subst. exists rest.
  destruct (tok_first t Ht) as (c & l & Htx & Hc & _).
  assert (scan is_ws (drop i s) = length ws) as Hscan by (rewrite <- Heq2; apply scan_app; [done|]; by rewrite Htx).
  unfold skip. rewrite Hscan. split_and!; try done.
  rewrite <- drop_drop, <- Heq2. by rewrite drop_app_length.
Qed.

Lemma cur_skip i ts : cur i ts → cur (skip s is_ws i) ts.
Proof.
  intros Hc. destruct ts as [|t ts].
  - rewrite (cur_nil i) by done. split; [lia|]. rewrite drop_all. by apply sp_nil.
  - destruct (cur_cons _ _ _ Hc) as (rest & Hd & Ht & Hf & Hr). split.
    + destruct (tok_first t Ht) as (c & l & Htx & _). rewrite Htx in Hd. apply drop_at in Hd. lia.
    + rewrite Hd. by apply (sp_cons []).
Qed.

Lemma spells_skip ts rest i : drop i s = rest → (i ≤ length s)%nat → spells ts rest → cur (skip s is_ws i) ts.
Proof. intros <- Hi Hs. by apply cur_skip. Qed.

(** What [peek] tells about the next token. *)
Definition starts_with (ts : list stok) (toks : list Z) : bool :=
  match ts with t :: _ => chr_in toks (default 0 (head (tok_text t))) | [] => false end.

Lemma peek_cur i ts toks : cur i ts → ∃ j, peek s i toks = (starts_with ts toks, j) ∧ cur j ts ∧ (ts = [] → j = length s).
Proof.
  intros Hc. exists (skip s is_ws i). unfold peek. split; [|split; [by apply cur_skip|intros ->; by apply cur_nil]]. f_equal.
  destruct ts as [|t ts].
  - rewrite (cur_nil i) by done. by rewrite at_end.
  - destruct (cur_cons _ _ _ Hc) as (rest & Hd & Ht & _). destruct (tok_first t Ht) as (c & l & Htx & _ & H0).
    rewrite Htx in Hd. apply drop_at in Hd as [-> _]. cbn [starts_with]. rewrite Htx. simpl.
    by rewrite (proj2 (Z.eqb_neq c 0) H0).
Qed.

Lemma gettoken_nil i : cur i [] → ∃ q e j, gettoken s i = (0, q, e, j) ∧ cur j [].
Proof.
  intros Hc. unfold gettoken. rewrite (cur_nil i) by done. rewrite at_end by lia. simpl. eexists _, _, _. split; [done|].
  apply cur_skip. split; [done|]. rewrite drop_all. by apply sp_nil.
Qed.

Lemma drop_suffix q a b : drop q s = a ++ b → (q ≤ length s)%nat →
  drop (q + length a) s = b ∧ (q + length a ≤ length s)%nat.
Proof.
  intros Hd Hq. split; [by rewrite <- drop_drop, Hd, drop_app_length|].
  apply (f_equal length) in Hd. rewrite length_drop, length_app in Hd. lia.
Qed.

Lemma gettoken_cur i t ts : cur i (t :: ts) → ∃ q e j, gettoken s i = (tok_code t, q, e, j) ∧ cur j ts ∧
  match t with SWord w => word_at q e w | _ => True end.
Proof.
  intros Hc. destruct (cur_cons _ _ _ Hc) as (rest & Hd & Ht & Hf & Hr). unfold gettoken. set (q := skip s is_ws i) in *.
  destruct (tok_first t Ht) as (c & l & Htx & Hws & H0). pose proof Hd as Hd'. rewrite Htx in Hd'. cbn [app] in Hd'.
  destruct (drop_at _ _ _ Hd') as [Hat Hlt]. rewrite Hat, (proj2 (Z.eqb_neq c 0) H0).
  destruct (drop_suffix q [c] (l ++ rest)) as [Hd1 Hle1]; [done|lia|]. replace (q + length [c])%nat with (S q) in * by (simpl; lia).
  destruct (drop_suffix q (tok_text t) rest) as [Hde Hlee]; [done|lia|].
  assert (∀ e, e = (q + length (tok_text t))%nat → cur (skip s is_ws e) ts) as Hcur by (intros ? ->; by apply (spells_skip ts rest)).
  destruct t as [w|c'|]; cbn [tok_text tok_code tok_ok follows] in *.
  - subst w. destruct Ht as [_ Hall]. pose proof Hall as Hall'. apply Forall_cons in Hall' as [[Hc1 _] _].
    assert (c ∉ symbols) as Hns by (unfold is_word, chr_in in Hc1; rewrite Hws in Hc1; simpl in Hc1; by case_bool_decide).
    assert (chr_in [124; 40; 41; 59; 38; 60] c = false) as -> by (apply bool_decide_eq_false; unfold symbols in Hns; set_solver).
    assert (c =? 62 = false) as -> by (apply Z.eqb_neq; intros ->; apply Hns; unfold symbols; set_solver).
    assert (skip s is_word q = (q + length (c :: l))%nat) as ->.
    { unfold skip. rewrite Hd, scan_app; [done| |done]. eapply Forall_impl; [exact Hall|]. by intros x [? _]. }
    eexists _, _, _. split; [done|]. split; [by apply Hcur|]. split_and!; [done|done|by exists rest|done].
  - injection Htx as -> <-. cbn [app length] in *. rewrite Nat.add_1_r in Hcur.
    assert (c = 62 ∨ c ≠ 62 ∧ chr_in [124; 40; 41; 59; 38; 60] c = true ) as [->|[Hne ->]].
    { apply (symbol_cases (λ c, c = 62 ∨ c ≠ 62 ∧ chr_in [124; 40; 41; 59; 38; 60] c = true)); [done|..]; by (left + right). }
    + change (chr_in _ 62) with false. change (62 =? 62) with true. cbv iota.
      assert (at_ s (S q) =? 62 = false) as ->.
      { apply Z.eqb_neq. destruct rest as [|r rest]; [rewrite at_end; [done|]|].
        - apply (f_equal length) in Hd1. rewrite length_drop in Hd1. simpl in Hd1. lia.
        - destruct (drop_at _ _ _ Hd1) as [-> _]. intros ->. by apply Hf. }
      eexists _, _, _. split; [done|]. split; [by apply Hcur|done].
    + eexists _, _, _. split; [done|]. split; [by apply Hcur|done].
  - injection Htx as <- <-. change (chr_in _ 62) with false. change (62 =? 62) with true. cbv iota.
    cbn [app] in Hd1. destruct (drop_at _ _ _ Hd1) as [-> _]. change (62 =? 62) with true. cbv iota.
    eexists _, _, _. split; [done|]. split; [apply Hcur; simpl; lia|done].
Qed.
End cursor.

(** ** The grammar *)

Inductive redir : Type := Rin (f : list Z) | Rout (f : list Z) | Rapp (f : list Z).

Inductive line : Type := LEnd (p : pipeline) (bg : nat) | LSeq (p : pipeline) (bg : nat) (l : line)
with pipeline : Type := PEnd (e : exec) | PSeq (e : exec) (p : pipeline)
with exec : Type := Simple (rs : list redir) (args : list (list Z * list redir)) | Block (l : line) (rs : list redir).

Definition redir_toks (r : redir) : list stok :=
  match r with Rin f => [SSym 60; SWord f] | Rout f => [SSym 62; SWord f] | Rapp f => [SAppend; SWord f] end.
Definition redirs_toks (rs : list redir) : list stok := concat (redir_toks <$> rs).
Definition args_toks (args : list (list Z * list redir)) : list stok :=
  concat ((λ a, SWord a.1 :: redirs_toks a.2) <$> args).

Fixpoint line_toks (l : line) : list stok :=
  match l with
  | LEnd p bg => pipe_toks p ++ replicate bg (SSym 38)
  | LSeq p bg l => pipe_toks p ++ replicate bg (SSym 38) ++ SSym 59 :: line_toks l
  end
with pipe_toks (p : pipeline) : list stok :=
  match p with PEnd e => exec_toks e | PSeq e p => exec_toks e ++ SSym 124 :: pipe_toks p end
with exec_toks (e : exec) : list stok :=
  match e with
  | Simple rs args => redirs_toks rs ++ args_toks args
  | Block l rs => SSym 40 :: line_toks l ++ SSym 41 :: redirs_toks rs
  end.

(** The limit on the number of arguments. *)
Fixpoint line_ok (l : line) : Prop :=
  match l with LEnd p _ => pipe_ok p | LSeq p _ l => pipe_ok p ∧ line_ok l end
with pipe_ok (p : pipeline) : Prop :=
  match p with PEnd e => exec_ok e | PSeq e p => exec_ok e ∧ pipe_ok p end
with exec_ok (e : exec) : Prop :=
  match e with Simple _ args => (length args < MAXARGS)%nat | Block l _ => line_ok l end.

(** What the commands mean. *)
Definition redirect (c : scmd) (r : redir) : scmd :=
  match r with
  | Rin f => SRedir c f O_RDONLY 0
  | Rout f => SRedir c f (Z.lor (Z.lor O_WRONLY O_CREATE) O_TRUNC) 1
  | Rapp f => SRedir c f (Z.lor O_WRONLY O_CREATE) 1
  end.
Definition redirects (rs : list redir) (c : scmd) : scmd := foldl redirect c rs.

Fixpoint line_cmd (l : line) : scmd :=
  match l with
  | LEnd p bg => Nat.iter bg SBack (pipe_cmd p)
  | LSeq p bg l => SList (Nat.iter bg SBack (pipe_cmd p)) (line_cmd l)
  end
with pipe_cmd (p : pipeline) : scmd :=
  match p with PEnd e => exec_cmd e | PSeq e p => SPipe (exec_cmd e) (pipe_cmd p) end
with exec_cmd (e : exec) : scmd :=
  match e with
  | Simple rs args => redirects (rs ++ concat (args.*2)) (SExec (args.*1))
  | Block l rs => redirects rs (line_cmd l)
  end.

(** ** The parser accepts the grammar *)

Section complete.
Context (s : list Z).

(** The command points at the words of the strings. *)
Fixpoint points (c : cmd) (sc : scmd) : Prop :=
  match c, sc with
  | EXEC argv, SExec ws => Forall2 (λ p w, word_at s p.1 p.2 w) argv ws
  | REDIR c q e mode fd, SRedir sc f mode' fd' => points c sc ∧ word_at s q e f ∧ mode = mode' ∧ fd = fd'
  | PIPE l r, SPipe l' r' | LIST l r, SList l' r' => points l l' ∧ points r r'
  | BACK c, SBack sc => points c sc
  | _, _ => False
  end.

Definition wraps (k : cmd → cmd) (rs : list redir) : Prop := ∀ c sc, points c sc → points (k c) (redirects rs sc).

(** The tokens that end a command. *)
Definition stops (ts : list stok) : Prop :=
  match ts with [] => True | t :: _ => t = SSym 124 ∨ t = SSym 41 ∨ t = SSym 38 ∨ t = SSym 59 end.

Lemma cur_ok i ts : cur s i ts → Forall tok_ok ts.
Proof. intros [_ Hs]. induction Hs as [|ws t ts rest _ Ht _ _ IH]; [done|]. by constructor. Qed.

Lemma starts_word w ts toks : tok_ok (SWord w) → (∀ c, c ∈ toks → c ∈ symbols) → starts_with (SWord w :: ts) toks = false.
Proof.
  intros [Hne Hall] Hsub. destruct w as [|c w]; [done|].
  apply Forall_cons in Hall as [[Hw _] _]. apply bool_decide_eq_false. simpl. intros Hin. apply Hsub in Hin.
  unfold is_word, chr_in in Hw. rewrite bool_decide_true in Hw by done. by rewrite andb_false_r in Hw.
Qed.

Ltac pk H := match goal with |- context [peek s ?i ?toks] =>
  let j := fresh "j" in let Hp := fresh in let Hc := fresh "Hc" in let He := fresh "He" in
  destruct (peek_cur s i _ toks H) as (j & Hp & Hc & He); rewrite Hp; clear Hp H end.
Ltac gt H := match goal with |- context [gettoken s ?i] =>
  let q := fresh "q" in let e := fresh "e" in let j := fresh "j" in let Hp := fresh in let Hc := fresh "Hc" in let Hw := fresh "Hw" in
  destruct (gettoken_cur s i _ _ H) as (q & e & j & Hp & Hc & Hw); rewrite Hp; clear Hp H end.

Lemma parseredirs_run rs fuel k rs0 i ts : cur s i (redirs_toks rs ++ ts) → starts_with ts [60; 62] = false →
  (length rs < fuel)%nat → wraps k rs0 → ∃ k' j, parseredirs s fuel k i = Ok k' j ∧ cur s j ts ∧ wraps k' (rs0 ++ rs).
Proof.
  revert fuel k rs0 i. induction rs as [|r rs IH]; intros [|fuel] k rs0 i Hc Hts Hf Hk; try (simpl in Hf; lia); cbn [parseredirs].
  - pk Hc. simpl. rewrite Hts. simpl. eexists _, _. split; [done|]. by rewrite app_nil_r.
  - unfold redirs_toks in Hc. rewrite fmap_cons in Hc. cbn [concat] in Hc. rewrite <- app_assoc in Hc.
    assert (∃ t f, redir_toks r = [t; SWord f] ∧ starts_with [t] [60; 62] = true ∧
      ∀ c sc q e, points c sc → word_at s q e f → points (REDIR c q e (redir_mode (tok_code t)).1 (redir_mode (tok_code t)).2) (redirect sc r)) as (t & f & Hr & Ht & Hpt).
    { destruct r as [f|f|f]; [exists (SSym 60), f|exists (SSym 62), f|exists SAppend, f]; split_and!; try done. }
    rewrite Hr in Hc. cbn [app] in Hc. pk Hc. change (starts_with _ _) with (starts_with [t] [60; 62]). rewrite Ht. cbn [negb].
    gt Hc0. gt Hc. change (negb (tok_code (SWord f) =? 97)) with false. cbv iota.
    destruct (redir_mode (tok_code t)) as [mode fd].
    destruct (IH fuel (λ x, REDIR (k x) q0 e0 mode fd) (rs0 ++ [r]) j1 Hc0 Hts) as (k' & j' & Hrun & Hc' & Hk'); [simpl in Hf; lia| |].
    { intros c sc Hp. unfold redirects. rewrite foldl_app. apply Hpt; [by apply Hk|done]. }
    exists k', j'. split; [done|]. split; [done|]. by rewrite <- app_assoc in Hk'.
Qed.

Lemma stops_starts ts toks : stops ts → (∀ c, c ∈ [124; 41; 38; 59] → c ∉ toks) → starts_with ts toks = false.
Proof.
  intros Hs Hn. destruct ts as [|t ts]; [done|]. apply bool_decide_eq_false.
  destruct Hs as [-> |[-> |[-> | ->]]]; apply Hn; set_solver.
Qed.
Lemma stops_stop ts : stops ts → ts ≠ [] → starts_with ts [124; 41; 38; 59] = true.
Proof. intros Hs Hn. destruct ts as [|t ts]; [done|]. by destruct Hs as [-> |[-> |[-> | ->]]]. Qed.

Lemma args_next args ts : stops ts → starts_with (args_toks args ++ ts) [60; 62] = false ∨ ∃ w r, args_toks args ++ ts = SWord w :: r.
Proof.
  intros Hs. destruct args as [|[w rs] args]; [left|right; by eexists _, _]. apply stops_starts; [done|]. set_solver.
Qed.

Lemma redirs_toks_length rs : (length rs ≤ length (redirs_toks rs))%nat.
Proof. unfold redirs_toks. induction rs as [|r rs IH]; [done|]. rewrite fmap_cons. simpl. rewrite length_app. destruct r; simpl; lia. Qed.

Lemma parseargs_run args fuel k rs0 argv ws i ts : cur s i (args_toks args ++ ts) → stops ts →
  (length (args_toks args) + 1 < fuel)%nat → wraps k rs0 → Forall2 (λ p w, word_at s p.1 p.2 w) argv ws →
  (length argv + length args < MAXARGS)%nat →
  ∃ c j, parseargs s fuel k argv i = Ok c j ∧ cur s j ts ∧ points c (redirects (rs0 ++ concat (args.*2)) (SExec (ws ++ args.*1))).
Proof.
  revert fuel k rs0 argv ws i. induction args as [|[w rs] args IH]; intros [|fuel] k rs0 argv ws i Hc Hts Hf Hk Hw Hn; try lia; cbn [parseargs].
  - cbn [args_toks fmap list_fmap concat app] in Hc. assert (points (k (EXEC argv)) (redirects rs0 (SExec ws))) as Hp by (by apply Hk).
    rewrite !app_nil_r. pk Hc. destruct ts as [|t ts].
    + cbn [starts_with]. destruct (gettoken_nil s _ Hc0) as (q & e & j' & -> & Hc'). simpl. eauto.
    + rewrite stops_stop by done. eauto.
  - unfold args_toks in Hc, Hf. rewrite fmap_cons in Hc, Hf. cbn [concat fst snd app] in Hc, Hf. rewrite <- app_assoc in Hc. fold (args_toks args) in Hc, Hf.
    cbn [length] in Hf. rewrite length_app in Hf. pose proof (redirs_toks_length rs). pose proof (cur_ok _ _ Hc) as Hok.
    apply Forall_cons in Hok as [Hokw Hok]. apply Forall_app in Hok as [_ Hok].
    pk Hc. rewrite starts_word by (done || unfold symbols; set_solver). gt Hc0. change (tok_code (SWord w) =? 0) with false. change (negb (tok_code (SWord w) =? 97)) with false. cbv iota.
    destruct (Nat.leb_spec MAXARGS (length (argv ++ [(q, e)]))) as [Hm|Hm]; [rewrite length_app in Hm; simpl in Hm, Hn; lia|].
    destruct (parseredirs_run rs fuel k rs0 j0 (args_toks args ++ ts)) as (k' & j' & -> & Hc' & Hk'); [done| |lia|done|].
    { destruct (args_next args ts Hts) as [?|(w' & r & Heq)]; [done|]. rewrite Heq in Hok |- *.
      apply Forall_cons in Hok as [Hok' _]. apply starts_word; [done|]. unfold symbols. set_solver. }
    cbn [pbind]. destruct (IH fuel k' (rs0 ++ rs) (argv ++ [(q, e)]) (ws ++ [w]) j') as (c & j2 & Hrun & Hc2 & Hp); try done.
    { lia. } { apply Forall2_app; [done|]. by constructor. } { rewrite length_app. simpl in *. lia. }
    exists c, j2. split; [done|]. split; [done|]. rewrite !fmap_cons. cbn [concat fst snd]. by rewrite <- !app_assoc in Hp.
Qed.

Lemma parseback_run n fuel c sc i ts : cur s i (replicate n (SSym 38) ++ ts) → starts_with ts [38] = false → (n < fuel)%nat →
  points c sc → ∃ c' j, parseback s fuel c i = Ok c' j ∧ cur s j ts ∧ points c' (Nat.iter n SBack sc).
Proof.
  revert fuel c sc i. induction n as [|n IH]; intros [|fuel] c sc i Hc Hts Hf Hp; try lia; cbn [parseback].
  - pk Hc. simpl. rewrite Hts. simpl. eauto.
  - cbn [replicate app] in Hc. pk Hc. change (starts_with _ [38]) with true. cbn [negb]. gt Hc0.
    destruct (IH fuel (BACK c) (SBack sc) j0) as (c' & j' & Hrun & Hc' & Hp'); [done|done|lia|done|].
    exists c', j'. split; [done|]. split; [done|]. by rewrite Nat.iter_succ_r.
Qed.

Lemma simple_starts rs args ts : Forall tok_ok (redirs_toks rs ++ args_toks args ++ ts) → stops ts →
  starts_with (redirs_toks rs ++ args_toks args ++ ts) [40] = false.
Proof.
  intros Hok Hs. destruct rs as [|r rs]; [|by destruct r]. cbn [redirs_toks fmap list_fmap concat app] in *.
  destruct args as [|[w rs] args].
  - cbn [args_toks fmap list_fmap concat app]. apply stops_starts; [done|]. set_solver.
  - cbn [args_toks fmap list_fmap concat app] in *. apply Forall_cons in Hok as [Hw _]. apply starts_word; [done|]. unfold symbols; set_solver.
Qed.

Definition line_follow (ts : list stok) : Prop := match ts with [] => True | t :: _ => t = SSym 41 end.
Definition pipe_follow (ts : list stok) : Prop := match ts with [] => True | t :: _ => t = SSym 41 ∨ t = SSym 38 ∨ t = SSym 59 end.

Definition parses {A} (toks : A → list stok) (ok : A → Prop) (den : A → scmd) (follow : list stok → Prop) (run : nat → pres cmd) (k fuel : nat) : Prop :=
  ∀ x i ts, cur s i (toks x ++ ts) → follow ts → ok x → (4 * length (toks x) + k ≤ fuel)%nat →
    ∃ c j, run i = Ok c j ∧ cur s j ts ∧ points c (den x).

Lemma exec_complete fuel : parses line_toks line_ok line_cmd line_follow (parseline s (fuel - 2)) 5 (fuel - 2) →
  parses exec_toks exec_ok exec_cmd stops (parseexec s fuel) 3 fuel.
Proof.
  intros IH e i ts Hc Hts Hok Hf. destruct fuel as [|fuel]; [lia|]. cbn [parseexec]. destruct e as [rs args|l rs]; cbn [exec_toks exec_ok exec_cmd] in *.
  - rewrite <- app_assoc in Hc. pose proof (cur_ok _ _ Hc) as Htok. pk Hc. rewrite simple_starts by done. clear He.
    rewrite length_app in Hf. pose proof (redirs_toks_length rs).
    destruct (parseredirs_run rs fuel (λ c, c) [] j (args_toks args ++ ts)) as (k & j1 & -> & Hc1 & Hk); [done| |lia|by intros c sc|].
    { destruct (args_next args ts Hts) as [?|(w & r & Heq)]; [done|]. apply Forall_app in Htok as [_ Htok].
      rewrite Heq in Htok |- *. apply Forall_cons in Htok as [? _]. apply starts_word; [done|]. unfold symbols; set_solver. }
    cbn [pbind]. rewrite app_nil_l in Hk. apply (parseargs_run args fuel k rs [] [] j1 ts); try done. lia.
  - rewrite <- app_comm_cons, <- app_assoc, <- app_comm_cons in Hc. pk Hc. cbn [starts_with]. change (chr_in [40] _) with true. cbv iota. clear He.
    cbn [length] in Hf. rewrite length_app in Hf. cbn [length] in Hf. destruct fuel as [|fuel]; [lia|]. cbn [parseblock].
    replace (S (S fuel) - 2)%nat with fuel in IH by lia. pose proof (redirs_toks_length rs).
    pk Hc0. cbn [starts_with]. change (negb (chr_in [40] _)) with false. cbv iota. clear He. gt Hc.
    destruct (IH l j1 (SSym 41 :: redirs_toks rs ++ ts)) as (c & j2 & -> & Hc2 & Hp); [done|done|done|lia|]. cbn [pbind].
    pk Hc2. cbn [starts_with]. change (negb (chr_in [41] _)) with false. cbv iota. clear He. gt Hc.
    destruct (parseredirs_run rs fuel (λ c, c) [] j4 ts) as (k & j5 & -> & Hc5 & Hk); [done| |lia|by intros ? ?|].
    { apply stops_starts; [done|]. set_solver. }
    cbn [pbind]. eexists _, _. split; [done|]. split; [done|]. by apply Hk.
Qed.

Lemma pipe_complete fuel : (∀ f, (f < fuel)%nat → parses exec_toks exec_ok exec_cmd stops (parseexec s f) 3 f) →
  parses pipe_toks pipe_ok pipe_cmd pipe_follow (parsepipe s fuel) 4 fuel.
Proof.
  induction fuel as [|fuel IH]; intros He p i ts Hc Hts Hok Hf; [lia|]. cbn [parsepipe]. destruct p as [e|e p]; cbn [pipe_toks pipe_ok pipe_cmd] in *.
  - destruct (He fuel ltac:(lia) e i ts) as (c & j & -> & Hc1 & Hp); [done| |done|lia|].
    { destruct ts as [|t ts]; [done|]. simpl in *. tauto. }
    cbn [pbind]. pk Hc1. assert (starts_with ts [124] = false) as -> by (destruct ts as [|t ts]; [done|]; by destruct Hts as [-> |[-> | ->]]).
    cbn [negb]. eauto.
  - rewrite <- app_assoc, <- app_comm_cons in Hc. rewrite length_app in Hf. cbn [length] in Hf. destruct Hok as [Hok1 Hok2].
    destruct (He fuel ltac:(lia) e i (SSym 124 :: pipe_toks p ++ ts)) as (c & j & -> & Hc1 & Hp); [done|by left|done|lia|].
    cbn [pbind]. pk Hc1. cbn [starts_with]. change (negb (chr_in [124] _)) with false. cbv iota. clear He0. gt Hc0.
    destruct (IH ltac:(intros f Hf'; apply He; lia) p j1 ts) as (c2 & j2 & -> & Hc2 & Hp2); [done|done|done|lia|]. cbn [pbind].
    eexists _, _. split; [done|]. split; [done|]. by split.
Qed.

Lemma line_complete fuel : parses line_toks line_ok line_cmd line_follow (parseline s fuel) 5 fuel.
Proof.
  induction fuel as [fuel IH] using lt_wf_ind. intros l i ts Hc Hts Hok Hf. destruct fuel as [|fuel]; [lia|]. cbn [parseline].
  assert (parses pipe_toks pipe_ok pipe_cmd pipe_follow (parsepipe s fuel) 4 fuel) as Hpipe.
  { apply pipe_complete. intros f Hf'. apply exec_complete, IH. lia. }
  assert (∀ bg r, pipe_follow r → pipe_follow (replicate bg (SSym 38) ++ r)) as Hfol by (intros [|bg] r Hr; [done|]; simpl; tauto).
  destruct l as [p bg|p bg l]; cbn [line_toks line_ok line_cmd] in *.
  - rewrite <- app_assoc in Hc. rewrite length_app, length_replicate in Hf.
    destruct (Hpipe p i (replicate bg (SSym 38) ++ ts)) as (c & j & -> & Hc1 & Hp); [done| |done|lia|].
    { apply Hfol. destruct ts; [done|]. simpl in *. tauto. }
    cbn [pbind]. destruct (parseback_run bg fuel c (pipe_cmd p) j ts) as (c2 & j2 & -> & Hc2 & Hp2); [done| |lia|done|].
    { destruct ts as [|t ts]; [done|]. simpl in Hts. by subst t. }
    cbn [pbind]. pk Hc2. assert (starts_with ts [59] = false) as -> by (destruct ts as [|t ts]; [done|]; simpl in Hts; by subst t).
    cbn [negb]. eauto.
  - rewrite <- !app_assoc, <- app_comm_cons in Hc. rewrite !length_app, length_replicate in Hf. cbn [length] in Hf. destruct Hok as [Hok1 Hok2].
    destruct (Hpipe p i (replicate bg (SSym 38) ++ SSym 59 :: line_toks l ++ ts)) as (c & j & -> & Hc1 & Hp); [done| |done|lia|].
    { apply Hfol. simpl. tauto. }
    cbn [pbind]. destruct (parseback_run bg fuel c (pipe_cmd p) j (SSym 59 :: line_toks l ++ ts)) as (c2 & j2 & -> & Hc2 & Hp2); [done|done|lia|done|].
    cbn [pbind]. pk Hc2. cbn [starts_with]. change (negb (chr_in [59] _)) with false. cbv iota. gt Hc0.
    destruct (IH fuel ltac:(lia) l j1 ts) as (c3 & j3 & -> & Hc3 & Hp3); [done|done|done|lia|]. cbn [pbind].
    eexists _, _. split; [done|]. split; [done|]. by split.
Qed.
End complete.

(** ** The strings *)

Section strings.
Context (s : list Z).

(** The bytes [nulterminate] overwrites. *)
Fixpoint ends (c : cmd) : list nat :=
  match c with
  | EXEC argv => argv.*2
  | REDIR c _ e _ _ => e :: ends c
  | PIPE l r | LIST l r => ends l ++ ends r
  | BACK c => ends c
  end.

Lemma nul_argv argv buf i : (i < length buf)%nat →
  foldl (λ b (w : nat * nat), <[w.2 := 0]> b) buf argv !! i = if decide (i ∈ argv.*2) then Some 0 else buf !! i.
Proof.
  revert buf. induction argv as [|[q e] argv IH]; intros buf Hi; simpl; [done|].
  rewrite IH by (by rewrite length_insert). destruct (decide (i ∈ argv.*2)) as [Hin|Hin].
  - rewrite decide_True by (by right). done.
  - destruct (decide (i = e)) as [->|].
    + rewrite list_lookup_insert_eq by done. rewrite decide_True by left. done.
    + rewrite list_lookup_insert_ne by done. rewrite decide_False; [done|]. by rewrite not_elem_of_cons.
Qed.
Lemma nul_argv_length (argv : list (nat * nat)) buf : length (foldl (λ b w, <[w.2 := 0]> b) buf argv) = length buf.
Proof. revert buf. induction argv as [|w argv IH]; intros buf; simpl; [done|]. by rewrite IH, length_insert. Qed.

Lemma nulterminate_spec c buf : length (nulterminate c buf) = length buf ∧
  ∀ i, (i < length buf)%nat → nulterminate c buf !! i = if decide (i ∈ ends c) then Some 0 else buf !! i.
Proof.
  revert buf. induction c as [argv|c IH f e m fd|l IHl r IHr|l IHl r IHr|c IH]; intros buf; simpl.
  - split; [apply nul_argv_length|]. intros. by apply nul_argv.
  - destruct (IH buf) as [Hlen Hl]. rewrite length_insert. split; [done|]. intros i Hi. destruct (decide (i = e)) as [->|].
    + rewrite list_lookup_insert_eq by lia. rewrite decide_True by left. done.
    + rewrite list_lookup_insert_ne, Hl by done. apply decide_ext. rewrite elem_of_cons. tauto.
  - destruct (IHl buf) as [H1 H2], (IHr (nulterminate l buf)) as [H3 H4]. split; [lia|]. intros i Hi.
    rewrite H4, H2 by lia. repeat case_decide; try done; set_solver.
  - destruct (IHl buf) as [H1 H2], (IHr (nulterminate l buf)) as [H3 H4]. split; [lia|]. intros i Hi.
    rewrite H4, H2 by lia. repeat case_decide; try done; set_solver.
  - apply IH.
Qed.

Lemma word_lookup q e w i : word_at s q e w → (q ≤ i < e)%nat → ∃ c, s !! i = Some c ∧ w !! (i - q)%nat = Some c ∧ is_word c = true ∧ c ≠ 0.
Proof.
  intros (_ & -> & (rest & Hd & _) & Hall) Hi.
  destruct (lookup_lt_is_Some_2 w (i - q)) as [c Hc]; [lia|]. exists c.
  destruct (Forall_lookup_1 _ _ _ _ Hall Hc) as [H1 H2]. split_and!; try done.
  replace i with (q + (i - q))%nat by lia. by rewrite <- lookup_drop, Hd, lookup_app_l by (by apply lookup_lt_is_Some_1).
Qed.
Lemma word_end q e w c : word_at s q e w → s !! e = Some c → is_word c = false.
Proof.
  intros (_ & -> & (rest & Hd & Hr) & _) Hc. rewrite <- lookup_drop, Hd, lookup_app_r, Nat.sub_diag in Hc by lia.
  destruct rest; [done|]. simpl in Hc. injection Hc as ->. done.
Qed.
Lemma word_le q e w : word_at s q e w → (e ≤ length s)%nat.
Proof.
  intros (Hw & -> & (rest & Hd & _) & _). apply (f_equal length) in Hd. rewrite length_drop, length_app in Hd.
  destruct w; [done|]. simpl in *. lia.
Qed.

(** The words of a command and their ends. *)
Lemma points_end c sc e : points s c sc → e ∈ ends c → ∃ q w, word_at s q e w.
Proof.
  revert sc. induction c as [argv|c IH f e0 m fd|l IHl r IHr|l IHl r IHr|c IH]; intros [] Hp; simpl in *; try done.
  - intros He. apply list_elem_of_fmap in He as ([q e'] & -> & Hin). apply list_elem_of_lookup_1 in Hin as [k Hk].
    destruct (Forall2_lookup_l _ _ _ _ _ Hp Hk) as (w & _ & Hw). eauto.
  - destruct Hp as (Hp & Hw & _). intros [->|Hin]%elem_of_cons; eauto.
  - destruct Hp as [H1 H2]. intros [Hin|Hin]%elem_of_app; eauto.
  - destruct Hp as [H1 H2]. intros [Hin|Hin]%elem_of_app; eauto.
  - eauto.
Qed.

Lemma scan_str l1 l2 : Forall (λ c, c ≠ 0) l1 → take (scan (λ c, negb (c =? 0)) (l1 ++ 0 :: l2)) (l1 ++ 0 :: l2) = l1.
Proof.
  intros H. rewrite (scan_app _ l1 (0 :: l2)); [by rewrite take_app_length| |done].
  eapply Forall_impl; [exact H|]. intros c Hc. by rewrite (proj2 (Z.eqb_neq c 0) Hc).
Qed.

(** In a line in which only ends of words have been overwritten, a word whose
    end has been is a C string. *)
Lemma cstr_word buf q e w : length buf = S (length s) → word_at s q e w → buf !! e = Some 0 →
  (∀ i c, s !! i = Some c → is_word c = true → buf !! i = Some c) → cstr buf q = w.
Proof.
  intros Hlen Hw He Hb. pose proof (word_le _ _ _ Hw) as Hle. assert (e = (q + length w)%nat) as Heq by apply Hw.
  assert (drop q buf = w ++ 0 :: drop (S e) buf) as Hd.
  { apply list_eq. intros i. rewrite lookup_drop. destruct (decide (i < length w)%nat) as [Hi|Hi].
    - rewrite lookup_app_l by done. destruct (word_lookup q e w (q + i) Hw) as (c & H1 & H2 & H3 & _); [lia|].
      rewrite (Hb _ c) by done. by replace (q + i - q)%nat with i in H2 by lia.
    - rewrite lookup_app_r by lia. destruct (decide (i = length w)) as [->|].
      + rewrite <- Heq, Nat.sub_diag. done.
      + replace (i - length w)%nat with (S (i - length w - 1)) by lia. simpl. rewrite lookup_drop. f_equal. lia. }
  unfold cstr. rewrite Hd. apply scan_str. destruct Hw as (_ & _ & _ & Hall). eapply Forall_impl; [exact Hall|]. by intros c [_ ?].
Qed.

Lemma strings_points c sc buf : length buf = S (length s) → points s c sc → (∀ e, e ∈ ends c → buf !! e = Some 0) →
  (∀ i c, s !! i = Some c → is_word c = true → buf !! i = Some c) → strings buf c = sc.
Proof.
  intros Hlen. revert sc. induction c as [argv|c IH f e0 m fd|l IHl r IHr|l IHl r IHr|c IH]; intros [] Hp He Hb; simpl in *; try done.
  - f_equal. apply list_eq. intros k. rewrite list_lookup_fmap. destruct (argv !! k) as [[q e]|] eqn:Hk.
    + destruct (Forall2_lookup_l _ _ _ _ _ Hp Hk) as (w & Hw & Hwa). rewrite Hw. simpl. f_equal. eapply cstr_word; [done|done| |done].
      apply He, list_elem_of_fmap. eexists. split; [|by eapply list_elem_of_lookup_2]. done.
    + symmetry. apply lookup_ge_None. apply Forall2_length in Hp. apply lookup_ge_None in Hk. simpl. lia.
  - destruct Hp as (Hp & Hw & -> & ->). f_equal; [apply IH; [done| |done]; set_solver|]. eapply cstr_word; [done|done|apply He; left|done].
  - destruct Hp as [H1 H2]. f_equal; [apply IHl|apply IHr]; set_solver.
  - destruct Hp as [H1 H2]. f_equal; [apply IHl|apply IHr]; set_solver.
  - f_equal. by apply IH.
Qed.

Lemma strings_nulterminate c sc : points s c sc → strings (nulterminate c (s ++ [0])) c = sc.
Proof.
  intros Hp. destruct (nulterminate_spec c (s ++ [0])) as [Hlen Hl]. rewrite length_app in Hlen, Hl. cbn [length] in Hlen, Hl.
  apply strings_points; [lia|done| |].
  - intros e He. destruct (points_end _ _ _ Hp He) as (q & w & Hw). apply word_le in Hw. rewrite Hl by lia. by rewrite decide_True.
  - intros i x Hi Hx. pose proof (lookup_lt_Some _ _ _ Hi). rewrite Hl by lia. rewrite decide_False; [by rewrite lookup_app_l|].
    intros He. destruct (points_end _ _ _ Hp He) as (q & w & Hw). pose proof (word_end _ _ _ _ Hw Hi). congruence.
Qed.
End strings.

Lemma spells_length ts l : spells ts l → (length ts ≤ length l)%nat.
Proof.
  induction 1 as [|ws t ts rest _ Ht _ _ IH]; simpl; [lia|]. destruct (tok_first t Ht) as (c & l & -> & _).
  rewrite !length_app. simpl. lia.
Qed.

(** C13. The shell parses its command language: a line that spells a command,
    with any white space, parses (without a panic and without running out of
    recursion) to that command, with pipes and lists nested to the right, [&]
    applied to the pipeline before it, and each redirection applied to its
    command with its file, mode and descriptor; and after [nulterminate] the
    words that the commands point to are C strings. *)
Theorem sh_parse_correct l s : spells (line_toks l) s → line_ok l →
  ∃ c buf i, parsecmd s = Ok (c, buf) i ∧ strings buf c = line_cmd l.
Proof.
  intros Hs Hok. unfold parsecmd.
  destruct (line_complete s (4 * length s + 5)%nat l 0%nat []) as (c & j & -> & Hc & Hp); [|done|done| |].
  { split; [lia|]. by rewrite drop_0, app_nil_r. }
  { apply spells_length in Hs. lia. }
  cbn [pbind]. destruct (peek_cur s j [] [] Hc) as (j' & -> & _ & Hj'). rewrite Hj' by done. rewrite Nat.eqb_refl. cbn [negb].
  eexists _, _, _. split; [done|]. by apply strings_nulterminate.
Qed.

(** [ls -l | wc > out &] *)
Lemma sh_parse_correct_witness : ∃ c buf i, parsecmd (str "ls -l | wc >out&") = Ok (c, buf) i ∧
  strings buf c = SBack (SPipe (SExec [str "ls"; str "-l"]) (SRedir (SExec [str "wc"]) (str "out") 1537 1)).
Proof.
  apply (sh_parse_correct (LEnd (PSeq (Simple [] [(str "ls", []); (str "-l", [])]) (PEnd (Simple [] [(str "wc", [Rout (str "out")])]))) 1)).
  - change (str "ls -l | wc >out&") with ([] ++ str "ls" ++ str " " ++ str "-l" ++ str " " ++ str "|" ++ str " " ++ str "wc" ++ str " " ++ str ">" ++ [] ++ str "out" ++ [] ++ str "&" ++ []).
    apply (sp_cons [] (SWord (str "ls"))); [done|by repeat constructor|done|].
    apply (sp_cons (str " ") (SWord (str "-l"))); [by repeat constructor|by repeat constructor|done|].
    apply (sp_cons (str " ") (SSym 124)); [by repeat constructor|unfold tok_ok, symbols; set_solver|done|].
    apply (sp_cons (str " ") (SWord (str "wc"))); [by repeat constructor|by repeat constructor|done|].
    apply (sp_cons (str " ") (SSym 62)); [by repeat constructor|unfold tok_ok, symbols; set_solver|done|].
    apply (sp_cons [] (SWord (str "out"))); [done|by repeat constructor|done|].
    apply (sp_cons [] (SSym 38)); [done|unfold tok_ok, symbols; set_solver|done|]. by apply sp_nil.
  - unfold line_ok, pipe_ok, exec_ok, MAXARGS. simpl. lia.
Defined.

(** ** The parser returns on every line *)

Section total.
Context (s : list Z).
Local Abbreviation L := (length s).

Lemma scan_le f l : (scan f l ≤ length l)%nat.
Proof. induction l as [|c l IH]; simpl; [done|]. destruct (f c); lia. Qed.
Lemma scan_pos f c l : f c = true → (0 < scan f (c :: l))%nat.
Proof. intros Hc. simpl. rewrite Hc. lia. Qed.
Lemma scan_stop f l c : l !! scan f l = Some c → f c = false.
Proof. induction l as [|x l IH]; simpl; [done|]. destruct (f x) eqn:Hx; simpl; [done|]. by intros [= <-]. Qed.

Lemma skip_range f i : (i ≤ L)%nat → (i ≤ skip s f i ≤ L)%nat.
Proof. intros Hi. unfold skip. pose proof (scan_le f (drop i s)) as H. rewrite length_drop in H. lia. Qed.
Lemma skip_stop f i c : s !! skip s f i = Some c → f c = false.
Proof. unfold skip. rewrite <- lookup_drop. apply scan_stop. Qed.
Lemma at_some i : at_ s i ≠ 0 → s !! i = Some (at_ s i) ∧ (i < L)%nat.
Proof.
  unfold at_. destruct (s !! i) as [c|] eqn:Hi; simpl; [|done]. intros _. split; [done|]. by apply lookup_lt_is_Some_1.
Qed.

Lemma peek_range i toks : (i ≤ L)%nat → ∃ b j, peek s i toks = (b, j) ∧ (i ≤ j ≤ L)%nat ∧ (b = true → at_ s j ≠ 0).
Proof.
  intros Hi. unfold peek. eexists _, _. split; [done|]. split; [by apply skip_range|].
  intros [H _]%andb_true_iff. by apply negb_true_iff, Z.eqb_neq in H.
Qed.

Lemma gettoken_range i : (i ≤ L)%nat → ∃ tok q e j, gettoken s i = (tok, q, e, j) ∧ (i ≤ j ≤ L)%nat ∧
  (tok ≠ 0 ∨ at_ s i ≠ 0 → (i < j)%nat).
Proof.
  intros Hi. unfold gettoken. pose proof (skip_range is_ws i Hi) as Hq. set (q := skip s is_ws i) in *.
  destruct (Z.eqb_spec (at_ s q) 0) as [H0|H0].
  - eexists _, _, _, _. split; [done|]. pose proof (skip_range is_ws q ltac:(lia)). split; [lia|].
    intros [?|Hat]; [done|]. destruct (decide (q = i)) as [Hqi|]; [by rewrite Hqi in H0|lia].
  - destruct (at_some _ H0) as [Hs Hlt].
    enough (∃ tok e, (if chr_in [124; 40; 41; 59; 38; 60] (at_ s q) then (at_ s q, S q)
      else if at_ s q =? 62 then (if at_ s (S q) =? 62 then (43, S (S q)) else (at_ s q, S q))
      else (97, skip s is_word q)) = (tok, e) ∧ (q < e ≤ L)%nat) as (tok & e & -> & He).
    { eexists _, _, _, _. split; [done|]. pose proof (skip_range is_ws e ltac:(lia)). split; [lia|]. intros _. lia. }
    destruct (chr_in [124; 40; 41; 59; 38; 60] (at_ s q)) eqn:Hsym; [eexists _, _; split; [done|lia]|].
    destruct (Z.eqb_spec (at_ s q) 62) as [H62|H62].
    + destruct (Z.eqb_spec (at_ s (S q)) 62) as [H62'|H62']; eexists _, _; (split; [done|]); [|lia].
      destruct (at_some (S q)) as [_ ?]; [by rewrite H62'|lia].
    + eexists _, _. split; [done|]. pose proof (skip_range is_word q ltac:(lia)). split; [|lia].
      assert (is_word (at_ s q) = true) as Hw.
      { unfold is_word. rewrite (skip_stop is_ws i _ Hs). simpl. unfold chr_in in *. apply negb_true_iff, bool_decide_eq_false.
        apply bool_decide_eq_false in Hsym. unfold symbols. set_solver. }
      unfold skip. destruct (drop q s) as [|c l] eqn:Hd.
      { apply (f_equal length) in Hd. rewrite length_drop in Hd. simpl in Hd. lia. }
      destruct (drop_at s _ _ _ Hd) as [<- _]. pose proof (scan_pos is_word (at_ s q) l Hw). lia.
Qed.

(** Parsing from [i] returns at an offset not before [i]. *)
Definition returns {A} (i : nat) (r : pres A) : Prop :=
  match r with Ok _ j => (i ≤ j ≤ L)%nat | Err _ _ => True | NoFuel => False end.

Lemma returns_bind {A B} i i' (r : pres A) (k : A → nat → pres B) : returns i' r → (∀ a j, (i' ≤ j ≤ L)%nat → returns i (k a j)) → returns i (pbind r k).
Proof. intros Hr Hk. destruct r; simpl in *; auto. Qed.
Lemma returns_mono {A} i i' (r : pres A) : returns i' r → (i ≤ i')%nat → returns i r.
Proof. destruct r; simpl; auto. lia. Qed.

Ltac pkr := match goal with |- context [peek s ?i ?toks] =>
  let b := fresh "b" in let j := fresh "j" in let Hp := fresh in let Hj := fresh "Hj" in let Hb := fresh "Hb" in
  destruct (peek_range i toks) as (b & j & Hp & Hj & Hb); [lia|]; rewrite Hp; clear Hp end.
Ltac gtr := match goal with |- context [gettoken s ?i] =>
  let tok := fresh "tok" in let q := fresh "q" in let e := fresh "e" in let j := fresh "j" in let Hp := fresh in let Hj := fresh "Hj" in let Hlt := fresh "Hlt" in
  destruct (gettoken_range i) as (tok & q & e & j & Hp & Hj & Hlt); [lia|]; rewrite Hp; clear Hp end.

Lemma parseredirs_returns fuel k i : (i ≤ L)%nat → (L - i < fuel)%nat → returns i (parseredirs s fuel k i).
Proof.
  revert k i. induction fuel as [|fuel IH]; intros k i Hi Hf; [lia|]. cbn [parseredirs]. pkr. destruct b; simpl; [|lia].
  gtr. specialize (Hlt ltac:(auto)). gtr. destruct (negb (tok0 =? 97)); [done|]. destruct (redir_mode tok).
  eapply returns_mono; [apply IH|]; lia.
Qed.
Lemma parseargs_returns fuel k argv i : (i ≤ L)%nat → (L - i < fuel)%nat → returns i (parseargs s fuel k argv i).
Proof.
  revert k argv i. induction fuel as [|fuel IH]; intros k argv i Hi Hf; [lia|]. cbn [parseargs]. pkr. destruct b; [simpl; lia|].
  gtr. destruct (Z.eqb_spec tok 0); [simpl; lia|]. specialize (Hlt ltac:(auto)). destruct (negb (tok =? 97)); [done|].
  destruct (MAXARGS <=? _)%nat; [done|]. eapply returns_bind; [apply parseredirs_returns; lia|]. intros k' j1 Hj1.
  eapply returns_mono; [apply IH|]; lia.
Qed.
Lemma parseback_returns fuel c i : (i ≤ L)%nat → (L - i < fuel)%nat → returns i (parseback s fuel c i).
Proof.
  revert c i. induction fuel as [|fuel IH]; intros c i Hi Hf; [lia|]. cbn [parseback]. pkr. destruct b; simpl; [|lia].
  gtr. specialize (Hlt ltac:(auto)). eapply returns_mono; [apply IH|]; lia.
Qed.

Lemma parsers_return fuel :
  (∀ i, (i ≤ L)%nat → (4 * (L - i) + 5 ≤ fuel)%nat → returns i (parseline s fuel i)) ∧
  (∀ i, (i ≤ L)%nat → (4 * (L - i) + 4 ≤ fuel)%nat → returns i (parsepipe s fuel i)) ∧
  (∀ i, (i ≤ L)%nat → (4 * (L - i) + 3 ≤ fuel)%nat → returns i (parseexec s fuel i)) ∧
  (∀ i, (i ≤ L)%nat → (4 * (L - i) + 2 ≤ fuel)%nat → returns i (parseblock s fuel i)).
Proof.
  induction fuel as [|fuel (IHl & IHp & IHe & IHb)]; [split_and!; intros; lia|]. split_and!; intros i Hi Hf.
  - cbn [parseline]. eapply returns_bind; [apply IHp; lia|]. intros c j Hj.
    eapply returns_bind; [apply parseback_returns; lia|]. intros c' j' Hj'. pkr. destruct b; simpl; [|lia]. gtr. specialize (Hlt ltac:(auto)).
    eapply returns_bind; [apply IHl; lia|]. intros c'' j'' Hj''. simpl. lia.
  - cbn [parsepipe]. eapply returns_bind; [apply IHe; lia|]. intros c j Hj. pkr. destruct b; simpl; [|lia]. gtr. specialize (Hlt ltac:(auto)).
    eapply returns_bind; [apply IHp; lia|]. intros c'' j'' Hj''. simpl. lia.
  - cbn [parseexec]. pkr. destruct b; [eapply returns_mono; [apply IHb|]; lia|].
    eapply returns_bind; [apply parseredirs_returns; lia|]. intros k j1 Hj1. eapply returns_mono; [apply parseargs_returns|]; lia.
  - cbn [parseblock]. pkr. destruct b; cbn [negb]; [|done]. gtr. specialize (Hlt ltac:(auto)).
    eapply returns_bind; [apply IHl; lia|]. intros c j1 Hj1. pkr. destruct b; cbn [negb]; [|done]. gtr.
    eapply returns_bind; [apply parseredirs_returns; lia|]. intros k j4 Hj4. simpl. lia.
Qed.

(** C40. Parsing ends on every line: [parsecmd] returns a command or reports a
    syntax error, whatever the user types. *)
Theorem sh_parsecmd_terminates : parsecmd s ≠ NoFuel.
Proof.
  unfold parsecmd. intros H. destruct (parsers_return (4 * L + 5)) as (Hl & _). specialize (Hl 0%nat ltac:(lia) ltac:(lia)).
  destruct (parseline s (4 * L + 5) 0) as [c i| |]; simpl in *; [|done|done]. by destruct (_ =? _)%nat.
Qed.
End total.
