(* ===== verification/Shrun.v ===== *)
(** How the shell runs commands ([runcmd], [getcmd] and [main] of [sh.c]). *)
From Stdlib Require Import ZArith Lia.
From stdpp Require Import base list gmap strings.
From S2P Require Import Prelude Machine Mem Str Ulib User Fd Uprintf Sh.

(** What a descriptor refers to: what the shell was started with, a file it
    opened, or an end of a pipe it made (the pipes of a command are named by
    their place in it). *)
Inductive obj : Type :=
| Inherited (n : nat)
| Opened (file : list Z) (mode : Z)
| PipeR (at_ : list nat)
| PipeW (at_ : list nat).

(** What a process running [runcmd] does, with its descriptors where they
    matter: it calls [exec], and goes on as [failed] if the call returns; it
    writes messages and exits; it forks; it waits for a child, keeping its
    descriptors open meanwhile. *)
Inductive run : Type :=
| Exec (argv : list (list Z)) (ofile : list (option obj)) (failed : run)
| Exit (out : list ucall) (st : Z)
| Fork (child parent : run)
| Wait (ofile : list (option obj)) (k : run).

(** [fprintf(2, fmt, ...)]. *)
Definition says (fmt : list Z) (ap : list arg) : list ucall := default [] (fprintf 2 fmt ap).

Section run.
(** Whether [open(file, mode)] finds the file and whether the [pipe] and [fork]
    calls made at a place of the command succeed. *)
Context (can_open : list Z → Z → bool) (can_pipe can_fork : list nat → bool).

(** [panic(s)]. *)
Definition complain (s : list Z) : run := Exit (says (str "%s" ++ [10]) [AStr (Some s)]) 1.

(** [fork1()], and [if(fork1() == 0) child; parent]. *)
Definition fork1 (at_ : list nat) (child parent : run) : run :=
  if can_fork at_ then Fork child parent else complain (str "fork").

Definition open (l : list (option obj)) (file : list Z) (mode : Z) : option (nat * list (option obj)) :=
  if can_open file mode then fdalloc l (Opened file mode) else None.

(** [pipe(p)]: [p[0]], [p[1]] and the table. *)
Definition pipe (l : list (option obj)) (at_ : list nat) : option (nat * nat * list (option obj)) :=
  if can_pipe at_ then
    match fdalloc l (PipeR at_) with
    | Some (p0, l1) => match fdalloc l1 (PipeW at_) with Some (p1, l2) => Some (p0, p1, l2) | None => None end
    | None => None
    end
  else None.

(** [dup], whose result the shell ignores. *)
Definition dup (l : list (option obj)) (fd : nat) : list (option obj) :=
  match fddup l (Z.of_nat fd) with Some (_, l') => l' | None => l end.

Fixpoint runcmd (at_ : list nat) (c : scmd) (l : list (option obj)) : run :=
  match c with
  | SExec [] => Exit [] 1
  | SExec (prog :: args) =>
      Exec (prog :: args) l (Exit (says (str "exec %s failed" ++ [10]) [AStr (Some prog)]) 0)
  | SRedir c file mode fd =>
      match open (fdclose l (Z.to_nat fd)) file mode with
      | None => Exit (says (str "open %s failed" ++ [10]) [AStr (Some file)]) 1
      | Some (_, l') => runcmd (0%nat :: at_) c l'
      end
  | SList a b =>
      fork1 (0%nat :: at_) (runcmd (0%nat :: at_) a l) (Wait l (runcmd (1%nat :: at_) b l))
  | SPipe a b =>
      match pipe l at_ with
      | None => complain (str "pipe")
      | Some (p0, p1, l1) =>
          let child fd p := fdclose (fdclose (dup (fdclose l1 fd) p) p0) p1 in
          let parent := fdclose (fdclose l1 p0) p1 in
          fork1 (0%nat :: at_) (runcmd (0%nat :: at_) a (child 1%nat p1))
            (fork1 (1%nat :: at_) (runcmd (1%nat :: at_) b (child 0%nat p0))
              (Wait parent (Wait parent (Exit [] 0))))
      end
  | SBack c => fork1 (0%nat :: at_) (runcmd (0%nat :: at_) c l) (Exit [] 0)
  end.

(** The [while] of [main] that opens [console] until three descriptors are
    open: each call takes one, so [NOFILE] + 1 rounds are enough. *)
Fixpoint open_console (fuel : nat) (l : list (option obj)) : list (option obj) :=
  match fuel with
  | O => l
  | S f =>
      match open l (str "console") O_RDWR with
      | None => l
      | Some (fd, l') => if (3 <=? fd)%nat then fdclose l' fd else open_console f l'
      end
  end.

(** What [main] does with a line. *)
Inductive action : Type := Chdir (dir : list Z) | RunCmd (c : pres (cmd * list Z)).

(** [buf[strlen(buf)-1] = 0] and [chdir(buf+3)], or a child that runs the
    command. *)
Definition sh_line (line : list Z) : action :=
  if bool_decide (take 3 line = str "cd ") then Chdir (drop 3 (take (length line - 1) line))
  else RunCmd (parsecmd line).

(** [getcmd(buf, 100)]: the prompt it writes, the line left in [buf] and the
    rest of the input; [None] at the end of the input. *)
Definition BUF : Z := 4096.
Definition getcmd (input : list Z) : ucall * option (list Z * list Z) :=
  let (m, rest) := gets BUF 100 input (write_bytes BUF (replicate 100 0) ∅) in
  let line := cstr (bytes_at m BUF 100) 0 in
  (Write 2 (take 17 (str "$parastoo-afshari ")), match line with [] => None | _ => Some (line, rest) end).
End run.

(** ** Plumbing *)

Section plumbing.
Context (can_open : list Z → Z → bool) (can_pipe can_fork : list nat → bool).

(** A message on the standard error output. *)
Definition message (text : list Z) : list ucall := putc 2 <$> text ++ [10].
Definition forks (at_ : list nat) (child parent : run) : run :=
  if can_fork at_ then Fork child parent else Exit (message (str "fork")) 1.

(** The intended wiring: a redirection replaces one descriptor, a pipe replaces
    the standard output of its left command and the standard input of its right
    one, and nothing else changes; a shell that waits has the descriptors it
    started with; a command that cannot be run is reported. *)
Fixpoint wire (at_ : list nat) (c : scmd) (l : list (option obj)) : run :=
  match c with
  | SExec [] => Exit [] 1
  | SExec (prog :: args) => Exec (prog :: args) l (Exit (message (str "exec " ++ prog ++ str " failed")) 0)
  | SRedir c file mode fd =>
      if can_open file mode then wire (0%nat :: at_) c (<[Z.to_nat fd := Some (Opened file mode)]> l)
      else Exit (message (str "open " ++ file ++ str " failed")) 1
  | SList a b => forks (0%nat :: at_) (wire (0%nat :: at_) a l) (Wait l (wire (1%nat :: at_) b l))
  | SPipe a b =>
      if can_pipe at_ then
        forks (0%nat :: at_) (wire (0%nat :: at_) a (<[1%nat := Some (PipeW at_)]> l))
          (forks (1%nat :: at_) (wire (1%nat :: at_) b (<[0%nat := Some (PipeR at_)]> l))
            (Wait l (Wait l (Exit [] 0))))
      else Exit (message (str "pipe")) 1
  | SBack c => forks (0%nat :: at_) (wire (0%nat :: at_) c l) (Exit [] 0)
  end.

Lemma says_pieces ps : Forall piece_ok ps →
  says (concat (piece_fmt <$> ps)) (concat (piece_args <$> ps)) = putc 2 <$> concat (piece_out <$> ps).
Proof. intros Hps. unfold says, fprintf. by rewrite vprintf_pieces. Qed.
Lemma says_failed verb s : PERCENT ∉ verb → says (verb ++ str "%s failed" ++ [10]) [AStr (Some s)] = message (verb ++ s ++ str " failed").
Proof.
  intros Hv. pose proof (says_pieces [PText verb; PStr (Some s); PText (str " failed" ++ [10])]) as Hp.
  unfold message. rewrite <-!app_assoc. apply Hp. repeat constructor; [done|]. apply (bool_decide_unpack _). by vm_compute.
Qed.
Lemma complain_message s : complain s = Exit (message s) 1.
Proof. unfold complain. f_equal. Qed.
Lemma fork1_forks at_ child parent : fork1 can_fork at_ child parent = forks at_ child parent.
Proof. unfold fork1, forks. by rewrite complain_message. Qed.

(** The parser redirects only the standard input and output. *)
Fixpoint std_redirs (c : scmd) : Prop :=
  match c with
  | SExec _ => True
  | SRedir c _ _ fd => (fd = 0 ∨ fd = 1) ∧ std_redirs c
  | SPipe a b | SList a b => std_redirs a ∧ std_redirs b
  | SBack c => std_redirs c
  end.

(** Standard input and output are open, and there is room for a pipe. *)
Record table_ok (l : list (option obj)) (p0 p1 : nat) : Prop := {
  to_len : length l = NOFILE;
  to_std : ∀ k, (k < 2)%nat → ∃ x, l !! k = Some (Some x);
  to_p0 : l !! p0 = Some None;
  to_p1 : l !! p1 = Some None;
  to_lt : (p0 < p1)%nat;
  to_low : ∀ k, (k < p1)%nat → k ≠ p0 → ∃ x, l !! k = Some (Some x)
}.

Lemma table_ge l p0 p1 : table_ok l p0 p1 → (2 ≤ p0 < p1)%nat ∧ (p1 < NOFILE)%nat.
Proof.
  intros [Hlen Hstd H0 H1 Hlt _]. split; [|apply lookup_lt_Some in H1; lia]. split; [|done].
  destruct (decide (p0 < 2)%nat) as [Hl|]; [|lia]. destruct (Hstd p0 Hl) as [x Hx]. congruence.
Qed.

Lemma table_set l p0 p1 k x : table_ok l p0 p1 → (k < 2)%nat → table_ok (<[k := Some x]> l) p0 p1.
Proof.
  intros Ht Hk. pose proof (table_ge _ _ _ Ht). destruct Ht as [Hlen Hstd H0 H1 Hlt Hlow]. unfold NOFILE in Hlen.
  split; rewrite ?length_insert, ?list_lookup_insert_ne by lia; try done.
  - intros j Hj. destruct (decide (j = k)) as [->|]; [rewrite list_lookup_insert_eq by lia; eauto|]. rewrite list_lookup_insert_ne by done. auto.
  - intros j Hj Hj0. destruct (decide (j = k)) as [->|]; [rewrite list_lookup_insert_eq by lia; eauto|]. rewrite list_lookup_insert_ne by done. auto.
Qed.

Lemma pipe_ok l p0 p1 at_ : table_ok l p0 p1 → can_pipe at_ = true →
  pipe can_pipe l at_ = Some (p0, p1, <[p1 := Some (PipeW at_)]> (<[p0 := Some (PipeR at_)]> l)).
Proof.
  intros Ht Hc. pose proof (table_ge _ _ _ Ht). destruct Ht as [Hlen Hstd H0 H1 Hlt Hlow]. unfold NOFILE in *. unfold pipe. rewrite Hc.
  assert (fdalloc l (PipeR at_) = Some (p0, <[p0 := Some (PipeR at_)]> l)) as ->.
  { apply fdalloc_spec. split_and!; [done| |done]. intros k Hk. apply Hlow; lia. }
  assert (fdalloc (<[p0 := Some (PipeR at_)]> l) (PipeW at_) = Some (p1, <[p1 := Some (PipeW at_)]> (<[p0 := Some (PipeR at_)]> l))) as ->; [|done].
  apply fdalloc_spec. split_and!; [by rewrite list_lookup_insert_ne by lia| |done]. intros k Hk.
  destruct (decide (k = p0)) as [->|]; [rewrite list_lookup_insert_eq by lia; eauto|]. rewrite list_lookup_insert_ne by done. by apply Hlow.
Qed.

(** The descriptors of a child of a pipeline: [close(fd); dup(p);
    close(p[0]); close(p[1])]. *)
Lemma pipe_child l p0 p1 r w fd p x : table_ok l p0 p1 → (fd < 2)%nat → (p = p0 ∧ x = r ∨ p = p1 ∧ x = w) →
  let l1 := <[p1 := Some w]> (<[p0 := Some r]> l) in
  fdclose (fdclose (dup (fdclose l1 fd) p) p0) p1 = <[fd := Some x]> l.
Proof.
  intros Ht Hfd Hp l1. pose proof (table_ge _ _ _ Ht) as Hge. destruct Ht as [Hlen Hstd H0 H1 Hlt Hlow]. unfold NOFILE in *.
  assert (length l1 = 16%nat) as Hl1 by (subst l1; by rewrite !length_insert).
  assert (p0 ≤ p ≤ p1)%nat as Hpp by (destruct Hp as [[-> _]|[-> _]]; lia).
  assert (dup (fdclose l1 fd) p = <[fd := Some x]> l1) as ->.
  { unfold dup, fddup, fdget. destruct (Z.ltb_spec (Z.of_nat p) 0); [lia|]. destruct (Z.leb_spec (Z.of_nat NOFILE) (Z.of_nat p)); [unfold NOFILE in *; lia|].
    cbn [orb]. rewrite Nat2Z.id. assert (fdclose l1 fd !! p = Some (Some x)) as ->.
    { unfold fdclose. rewrite list_lookup_insert_ne by lia. subst l1. destruct Hp as [[-> ->]|[-> ->]].
      - rewrite list_lookup_insert_ne by lia. by rewrite list_lookup_insert_eq by lia.
      - rewrite list_lookup_insert_eq; [done|]. rewrite length_insert. lia. }
    simpl. rewrite fdalloc_reuse; [done|lia|]. intros k Hk. subst l1. rewrite !list_lookup_insert_ne by lia. apply Hstd. lia. }
  unfold fdclose. apply list_eq. intros i. subst l1.
  destruct (decide (i < 16)%nat) as [Hi|Hi]; [|rewrite !lookup_ge_None_2; [done|by rewrite !length_insert; lia..]].
  destruct (decide (i = p1)) as [->|]; [rewrite list_lookup_insert_eq by (rewrite !length_insert; lia); by rewrite list_lookup_insert_ne by lia|].
  rewrite list_lookup_insert_ne by done.
  destruct (decide (i = p0)) as [->|]; [rewrite list_lookup_insert_eq by (rewrite !length_insert; lia); by rewrite list_lookup_insert_ne by lia|].
  rewrite list_lookup_insert_ne by done.
  destruct (decide (i = fd)) as [->|]; [by rewrite !list_lookup_insert_eq by (rewrite ?length_insert; lia)|].
  by rewrite !list_lookup_insert_ne by done.
Qed.

(** The parent of a pipeline: [close(p[0]); close(p[1])]. *)
Lemma pipe_parent l p0 p1 r w : table_ok l p0 p1 →
  fdclose (fdclose (<[p1 := Some w]> (<[p0 := Some r]> l)) p0) p1 = l.
Proof.
  intros Ht. pose proof (table_ge _ _ _ Ht) as Hge. destruct Ht as [Hlen _ H0 H1 Hlt _].
  unfold fdclose. apply list_eq. intros i.
  destruct (decide (i = p1)) as [->|]; [rewrite list_lookup_insert_eq; [done|rewrite !length_insert; lia]|].
  rewrite list_lookup_insert_ne by done.
  destruct (decide (i = p0)) as [->|]; [rewrite list_lookup_insert_eq; [done|rewrite !length_insert; lia]|].
  by rewrite !list_lookup_insert_ne by done.
Qed.

(** C22. [runcmd] wires the descriptors of every command as written, whose
    redirections are of standard input and output as the parser makes them,
    for a shell whose standard input and output are open and that has two free
    descriptors: it reuses the descriptor it closed for a redirection or an
    end of a pipe, and every program is started with exactly the shell's
    descriptors but for those; in particular no program keeps an end of a pipe
    that is not its input or output, and the shell itself waits with neither
    end open. A command that [exec] refuses, a file that cannot be opened and
    a [pipe] or [fork] that fails are reported on descriptor 2, with exit
    status 0 in the first case and 1 in the others. *)
Theorem runcmd_wiring at_ c l p0 p1 : table_ok l p0 p1 → std_redirs c →
  runcmd can_open can_pipe can_fork at_ c l = wire at_ c l.
Proof.
  revert at_ l. induction c as [argv|c IH file mode fd|a IHa b IHb|a IHa b IHb|c IH]; intros at_ l Ht Hs; cbn [runcmd wire std_redirs] in *.
  - destruct argv as [|prog args]; [done|]. f_equal. f_equal.
    apply (says_failed (str "exec ")), (bool_decide_unpack _). by vm_compute.
  - destruct Hs as [Hfd Hs]. unfold open. destruct (can_open file mode);
      [|f_equal; apply (says_failed (str "open ")), (bool_decide_unpack _); by vm_compute].
    rewrite fdalloc_reuse; [|rewrite (to_len _ _ _ Ht); unfold NOFILE; lia|intros k Hk; apply (to_std _ _ _ Ht); lia].
    apply IH; [|done]. apply table_set; [done|]. lia.
  - destruct Hs as [Ha Hb]. destruct (can_pipe at_) eqn:Hp; [|unfold pipe; rewrite Hp; apply complain_message]. rewrite (pipe_ok l p0 p1) by done.
    rewrite (pipe_child l p0 p1 _ _ 1 p1 (PipeW at_)) by (done || lia || auto).
    rewrite (pipe_child l p0 p1 _ _ 0 p0 (PipeR at_)) by (done || lia || auto).
    rewrite pipe_parent, !fork1_forks by done. rewrite IHa, IHb; try done; by apply table_set; [|lia].
  - destruct Hs as [Ha Hb]. by rewrite fork1_forks, IHa, IHb.
  - by rewrite fork1_forks, IH.
Qed.
End plumbing.

(** The descriptors of a shell with nothing but the console open. *)
Definition console3 : list (option obj) := (Some <$> (Inherited <$> seq 0 3)) ++ replicate 13 None.

Lemma runcmd_wiring_witness :
  runcmd (λ _ _, true) (λ _, true) (λ _, true) [] (SPipe (SExec [str "ls"]) (SRedir (SExec [str "wc"]) (str "out") 1537 1)) console3 =
  Fork (Exec [str "ls"] (<[1%nat := Some (PipeW [])]> console3) (Exit (message (str "exec ls failed")) 0))
    (Fork (Exec [str "wc"] (<[1%nat := Some (Opened (str "out") 1537)]> (<[0%nat := Some (PipeR [])]> console3))
        (Exit (message (str "exec wc failed")) 0))
      (Wait console3 (Wait console3 (Exit [] 0)))).
Proof.
  apply (runcmd_wiring (λ _ _, true) (λ _, true) (λ _, true) [] (SPipe (SExec [str "ls"]) (SRedir (SExec [str "wc"]) (str "out") 1537 1)) console3 3 4).
  - split; try done; try lia.
    + intros k Hk. destruct k as [|[|k]]; [by eexists..|lia].
    + intros k Hk Hk0. destruct k as [|[|[|[|k]]]]; [by eexists..|done|lia].
  - simpl. auto.
Defined.

(** [main] starts with the standard descriptors open. *)
Theorem sh_main_opens_std can_open l : length l = NOFILE → can_open (str "console") O_RDWR = true →
  (∃ k, (3 ≤ k < NOFILE)%nat ∧ l !! k = Some None) →
  ∀ k, (k < 3)%nat → ∃ x, open_console can_open 4 l !! k = Some (Some x).
Proof.
  intros Hlen Hc (k0 & Hk0 & Hfree). destruct l as [|a [|b [|c rest]]]; try done.
  assert (∃ fd l', fdalloc rest (Opened (str "console") O_RDWR) = Some (fd, l')) as (fd & l' & Hrest).
  { destruct (fdalloc rest (Opened (str "console") O_RDWR)) as [[fd l']|] eqn:Hf; [eauto|]. exfalso.
    destruct (proj1 (fdalloc_none rest _) Hf (k0 - 3)%nat) as [x Hx]; [unfold NOFILE in *; simpl in Hlen; lia|].
    replace k0 with (S (S (S (k0 - 3)))) in Hfree by lia. simpl in Hfree. congruence. }
  intros k Hk. destruct a as [a|], b as [b|], c as [c|];
    repeat (cbn [open_console]; unfold open; rewrite Hc; cbn [fdalloc]; rewrite ?Hrest; cbn [Nat.leb]);
    unfold fdclose; (destruct k as [|[|[|k]]]; [simpl; eauto..|lia]).
Qed.

(** [cd] takes the last byte of the line for its newline: without one, at the end
    of the input, the directory loses its last character. *)
Theorem sh_cd_chops : sh_line (str "cd abc") = Chdir (str "ab").
Proof. by vm_compute. Qed.

(** The prompt is one character longer than what is written of it. *)
Theorem sh_prompt_cut input : (getcmd input).1 = Write 2 (str "$parastoo-afshari").
Proof. unfold getcmd. by destruct (gets _ _ _ _). Qed.
