(* ===== verification/Progs.v ===== *)
(** The programs that are mostly system calls: [init.c], [ls.c] with [stat] of
    [ulib.c], and [zombie.c], [lotterytest.c], [forktest.c] and [stressfs.c].
    A program is the tree of the calls it makes: each node says what is called,
    and the branches what happens for every result. *)
From Stdlib Require Import ZArith Lia.
From stdpp Require Import base list gmap strings.
From S2P Require Import Prelude Machine Mem Str Ulib User Uprintf Utils Sh.

(** ** Programs *)

(** [struct stat]. *)
Record ustat := mkustat { us_dev : Z; us_ino : Z; us_type : Z; us_nlink : Z; us_size : Z }.

Inductive scall : Type :=
| CWrite (fd : Z) (bs : list Z)
| COpen (path : list Z) (mode : Z)
| CClose (fd : Z)
| CMknod (path : list Z) (major minor : Z)
| CDup (fd : Z)
| CFork
| CExec (path : list Z) (argv : list (list Z))
| CWait
| CSleep (n : Z)
| CSetsched (mode : Z)
| CSettickets (n : Z).

(** [Reads] and [Stats] also deliver what the kernel stores; [Endless] is what
    is left of a loop after a number of rounds. *)
Inductive uprog : Type :=
| Exits (st : Z)
| Calls (c : scall) (k : Z → uprog)
| Reads (fd n : Z) (k : list Z → Z → uprog)
| Stats (fd : Z) (k : ustat → Z → uprog)
| Endless.

(** [write], and [printf], which writes each byte on its own. *)
Definition writes (fd : Z) (bs : list Z) (k : uprog) : uprog := Calls (CWrite fd bs) (λ _, k).
Definition print (fd : Z) (bs : list Z) (k : uprog) : uprog := foldr (λ b, writes fd [b]) k bs.
Definition line (s : string) : list Z := str s ++ [NEWLINE].
Definition dec (x : Z) : list Z := printint x 10 true.

(** ** [init] *)

Definition CONSOLE_DEV : Z := 1.

(** [strncmp(buf, s, 7) == 0], with the two strings in memory. *)
Definition begins (s : string) (buf : list Z) : bool :=
  ustrncmp 4096 8192 7 (write_bytes 4096 buf (write_bytes 8192 (str s ++ [0]) ∅)) =? 0.
(** [buf] after the [read]: what was on the stack behind what was read. *)
Definition init_buf (garbage bs : list Z) : list Z := bs ++ drop (length bs) garbage.
Definition init_choice (buf : list Z) : Z := if begins "Lottery" buf || begins "lottery" buf then 1 else 0.

(** The two nested loops: [None] before a shell is started, [Some pid] while
    waiting for it. *)
Fixpoint init_loop (fuel : nat) (shell : option Z) : uprog :=
  match fuel with
  | O => Endless
  | S f =>
      match shell with
      | None =>
          print 1 (line "init: starting sh")
            (Calls CFork (λ pid,
              if pid <? 0 then print 1 (line "init: fork failed") (Exits 1) else
              if pid =? 0 then
                Calls (CExec (str "sh") [str "sh"]) (λ _, print 1 (line "init: exec sh failed") (Exits 1))
              else init_loop f (Some pid)))
      | Some pid =>
          Calls CWait (λ wpid,
            if wpid =? pid then init_loop f None else
            if wpid <? 0 then print 1 (line "init: wait returned an error") (Exits 1)
            else init_loop f (Some pid))
      end
  end.
Definition init_main (fuel : nat) (garbage : list Z) : uprog :=
  let rest :=
    Calls (CDup 0) (λ _,
    Calls (CDup 0) (λ _,
    print 1 (str "Which scheduler do you want to use? [RR / Lottery]: ")
    (Reads 0 16 (λ bs _,
    Calls (CSetsched (init_choice (init_buf garbage bs))) (λ _,
    init_loop fuel None))))) in
  Calls (COpen (str "console") O_RDWR) (λ fd,
    if fd <? 0 then
      Calls (CMknod (str "console") CONSOLE_DEV 0) (λ _, Calls (COpen (str "console") O_RDWR) (λ _, rest))
    else rest).

(** ** [ls] *)

Definition stat (n : list Z) (st : ustat) (k : ustat → Z → uprog) : uprog :=
  Calls (COpen n O_RDONLY) (λ fd,
    if fd <? 0 then k st (-1) else
    Stats fd (λ st r, Calls (CClose fd) (λ _, k st r))).

Definition NAME_LEN : nat := 14.
Fixpoint upto_nul (bs : list Z) : list Z :=
  match bs with [] => [] | c :: bs' => if c =? 0 then [] else c :: upto_nul bs' end.
Definition ls_line (name : list Z) (st : ustat) : list Z :=
  fmtname name ++ [SPACE] ++ dec (us_type st) ++ [SPACE] ++ dec (i32 (us_ino st)) ++ [SPACE] ++ dec (i32 (us_size st)) ++ [NEWLINE].

(** The loop over a directory; [st] is the variable, [buf] the path with its
    slash. *)
Fixpoint ls_loop (fuel : nat) (fd : Z) (buf : list Z) (st : ustat) (k : uprog) : uprog :=
  match fuel with
  | O => Endless
  | S f =>
      Reads fd 16 (λ de r,
        if negb (r =? 16) then Calls (CClose fd) (λ _, k) else
        let inum := de !!! 0%nat + 256 * de !!! 1%nat in
        if inum =? 0 then ls_loop f fd buf st k else
        let path := buf ++ upto_nul (take NAME_LEN (drop 2 de)) in
        stat path st (λ st r,
          if r <? 0 then print 1 (str "ls: cannot stat " ++ path ++ [NEWLINE]) (ls_loop f fd buf st k)
          else print 1 (ls_line path st) (ls_loop f fd buf st k)))
  end.
Definition ls (fuel : nat) (path : list Z) (k : uprog) : uprog :=
  Calls (COpen path O_RDONLY) (λ fd,
    if fd <? 0 then print 2 (str "ls: cannot open " ++ path ++ [NEWLINE]) k else
    Stats fd (λ st r,
      if r <? 0 then print 2 (str "ls: cannot stat " ++ path ++ [NEWLINE]) (Calls (CClose fd) (λ _, k)) else
      if (us_type st =? 3) || (us_type st =? 2) then print 1 (ls_line path st) (Calls (CClose fd) (λ _, k)) else
      if us_type st =? 1 then
        if (512 <? length path + 1 + NAME_LEN + 1)%nat then print 1 (line "ls: path too long") (Calls (CClose fd) (λ _, k))
        else ls_loop fuel fd (path ++ [47]) st k
      else Calls (CClose fd) (λ _, k))).
Definition ls_main (fuel : nat) (argv : list (list Z)) : uprog :=
  match argv with
  | _ :: (_ :: _) as args => foldr (ls fuel) (Exits 0) args
  | _ => ls fuel (str ".") (Exits 0)
  end.

(** ** Tests *)

Definition zombie_main : uprog :=
  Calls CFork (λ pid, if 0 <? pid then Calls (CSleep 5) (λ _, Exits 0) else Exits 0).

Definition RUN_TIME : Z := 100000000.
Definition task_name (id tickets : Z) : list Z := str "[proc " ++ dec id ++ str ", tickets " ++ dec tickets.
(** [for(i = ...; i < RUN_TIME; i++)], with [n] rounds left. *)
Fixpoint cpu_loop (n : nat) (id tickets i : Z) (k : uprog) : uprog :=
  match n with
  | O => k
  | S n' =>
      let next := cpu_loop n' id tickets (i + 1) k in
      if i mod 10000000 =? 0 then print 1 (task_name id tickets ++ str "] progress: " ++ dec i ++ [NEWLINE]) next else next
  end.
Definition cpu_bound_task (id tickets : Z) : uprog :=
  Calls (CSettickets tickets) (λ _,
    cpu_loop (Z.to_nat RUN_TIME) id tickets 0 (print 1 (task_name id tickets ++ str "] DONE" ++ [NEWLINE]) (Exits 0))).
Fixpoint lottery_forks (id : Z) (tickets : list Z) (k : uprog) : uprog :=
  match tickets with
  | [] => k
  | t :: ts => Calls CFork (λ pid, if pid =? 0 then cpu_bound_task (id + 1) t else lottery_forks (id + 1) ts k)
  end.
Definition lotterytest_main : uprog :=
  print 1 (line "Starting lottery scheduling test...")
    (lottery_forks 0 [10; 30; 90]
      (Calls CWait (λ _, Calls CWait (λ _, Calls CWait (λ _,
        print 1 (line "Lottery scheduling test finished.") (Exits 0)))))).

Definition N_FORKS : nat := 1000.
Fixpoint wait_all (n : nat) (k : uprog) : uprog :=
  match n with
  | O => k
  | S n' => Calls CWait (λ r, if r <? 0 then writes 1 (line "wait stopped early") (Exits 1) else wait_all n' k)
  end.
(** The first loop: [left] rounds left, [n] children made. *)
Fixpoint forktest_loop (left n : nat) : uprog :=
  match left with
  | O => writes 1 (line "fork claimed to work N times!") (Exits 1)
  | S l =>
      Calls CFork (λ pid,
        if pid <? 0 then
          wait_all n (Calls CWait (λ r,
            if negb (r =? -1) then writes 1 (line "wait got too many") (Exits 1)
            else writes 1 (line "fork test OK") (Exits 0)))
        else if pid =? 0 then Exits 0 else forktest_loop l (S n))
  end.
Definition forktest_main : uprog := writes 1 (line "fork test") (forktest_loop N_FORKS 0).

Fixpoint repeat_prog (n : nat) (c : uprog → uprog) (k : uprog) : uprog :=
  match n with O => k | S n' => c (repeat_prog n' c k) end.
Definition stressfs_work (i : Z) : uprog :=
  let path := str "stressfs" ++ [48 + i] in
  print 1 (str "write " ++ dec i ++ [NEWLINE])
    (Calls (COpen path (Z.lor O_CREATE O_RDWR)) (λ fd,
      repeat_prog 20 (writes fd (replicate 512 97))
        (Calls (CClose fd) (λ _,
        print 1 (line "read")
        (Calls (COpen path O_RDONLY) (λ fd,
          repeat_prog 20 (λ k, Reads fd 512 (λ _ _, k))
            (Calls (CClose fd) (λ _, Calls CWait (λ _, Exits 0))))))))).
Fixpoint stressfs_forks (left : nat) (i : Z) : uprog :=
  match left with
  | O => stressfs_work i
  | S l => Calls CFork (λ pid, if 0 <? pid then stressfs_work i else stressfs_forks l (i + 1))
  end.
Definition stressfs_main : uprog := print 1 (line "stressfs starting") (stressfs_forks 4 0).

(** ** [init] stays *)

(** The program does not exit as long as the forks it makes succeed, in the
    parent, and [wait] reports a child. *)
Fixpoint persists (p : uprog) : Prop :=
  match p with
  | Exits _ => False
  | Calls CFork k => ∀ pid, 0 < pid → persists (k pid)
  | Calls CWait k => ∀ r, 0 ≤ r → persists (k r)
  | Calls _ k => ∀ r, persists (k r)
  | Reads _ _ k => ∀ bs r, persists (k bs r)
  | Stats _ k => ∀ st r, persists (k st r)
  | Endless => True
  end.

Lemma persists_print fd bs k : persists k → persists (print fd bs k).
Proof. intros Hk. induction bs as [|b bs IH]; [done|]. by intros r. Qed.

(** Orphans that [init] inherits are reaped without starting another shell, and
    the end of the shell starts the next one. *)
Lemma init_persists fuel garbage : persists (init_main fuel garbage).
Proof.
  assert (∀ f sh, persists (init_loop f sh)) as Hl.
  { induction f as [|f IH]; intros [pid|]; try done; cbn [init_loop].
    - intros r Hr. destruct (r =? pid); [apply IH|]. destruct (Z.ltb_spec r 0); [lia|apply IH].
    - apply persists_print. intros pid Hp. destruct (Z.ltb_spec pid 0); [lia|]. destruct (Z.eqb_spec pid 0); [lia|apply IH]. }
  assert (∀ k, (∀ bs r, persists (k bs r)) → persists (Calls (CDup 0) (λ _, Calls (CDup 0) (λ _,
    print 1 (str "Which scheduler do you want to use? [RR / Lottery]: ") (Reads 0 16 k))))) as Hr.
  { intros k Hk _ _. by apply persists_print. }
  intros fd. destruct (fd <? 0); [intros _ _|]; apply Hr; intros bs r _; apply Hl.
Qed.

(** At the end of the input the choice is made from what was on the stack. *)
Lemma init_choice_stack : init_choice (init_buf (line "Lottery") []) = 1 ∧ init_choice (init_buf (line "RR") []) = 0.
Proof. split; vm_compute; reflexivity. Qed.
